(* ===== verification/_CoqProject ===== *)
-Q . S2P
Prelude.v
Layout.v
Memory.v
Message.v
MessageQueue.v
QueueSteps.v
QueueShared.v
SocketUdp.v
NetConnection.v
NetLifecycle.v
NetTurns.v
NetSteps.v
NetInterleave.v
NetRace.v
NetOpen.v
NetMany.v
Journal.v
JournalShared.v
JournalTransfer.v
Format.v
CpuUsage.v
ServerWorker.v
Server.v
Buffers.v
Requests.v
WorkerSteps.v
WorkerLife.v
Processes.v
Client.v
ClientCreate.v
ClientLife.v
ClientPrint.v
ClientStart.v
ClientFaults.v
RoundTrip.v
