(* ===== verification/Prelude.v ===== *)
(** * Verification of TechReviewAmicon

    TechReviewAmicon is a small client-server system for Linux, written in C: a client asks for the
    CPU usage of a process, a server with five worker processes answers over UDP and keeps a
    journal, and a utility fetches the journal over a Unix socket.

    ** The program and its models

    - network/message.c: messages with a header and a separately allocated block ([Message]; the
      28 bytes of the header on the wire are in [Layout]).
    - network/message_queue.c: a ring buffer of message pointers with a mutex and a condition
      variable ([MessageQueue]; [QueueSteps] has its operations statement by statement,
      [QueueShared] any number of threads that use one queue).
    - network/socket_udp.c: a UDP socket with two buffers ([SocketUdp]).
    - network/net_connection.c: a socket, two queues and two threads ([NetConnection] for the
      operations and the thread functions, [NetLifecycle] for start, stop and delete, [NetTurns] for
      the threads taking turns, [NetSteps], [NetInterleave] and [NetRace] for the threads interleaved
      statement by statement, [NetOpen] for the sequence of calls that opens a connection, [NetMany]
      for several connections in one process).
    - server/journal.c: the journal in shared memory ([Journal]; [JournalShared] for several writers).
    - server/journal_transfer.c, server/journal_utility.c: the transfer ([JournalTransfer]).
    - server/process_cpu_usage.c: reading /proc ([CpuUsage]; [Format] has the parts of C's formatted
      input and output that it needs).
    - server/server_worker.c: a connection with a callback ([ServerWorker]; [WorkerLife] for its
      creation and deletion, [WorkerSteps] for its threads interleaved statement by statement).
    - server/server.c: the callback of the server ([Server]; [Requests] puts it into a worker,
      [Buffers] is about its character buffers), the worker processes and main, with
      utility/safe_process.c ([Processes]).
    - client/client.c, client/boot_client.c: the client ([Client]; [ClientCreate] and [ClientFaults]
      for the creation of a context when a call fails, [ClientStart] for a thread that cannot be
      created, [ClientLife] for the life of a context with all its connections, [ClientPrint] for the
      program while its connection threads and its printing thread run, [RoundTrip] joins client and server).

    ** How C is modelled

    A function of the program is a function in the monad [M] of this file: it takes the state of the
    process and returns, or runs into undefined behaviour, blocks, ends the process, or uses up the
    fuel of the model ([outcome]).  Function, type, constant and field names are those of the source.
    Pointers are optional addresses; each struct type has a heap, a finite map from addresses to
    records ([Memory]).  Freeing removes the address, so a use after free, a double free and a NULL
    dereference are undefined outcomes; so are accesses outside a block, overflow of signed
    arithmetic and unlocking a free mutex.  Unsigned arithmetic wraps around where the code does it.
    What [malloc] leaves in a block is arbitrary ([m_junk]).  The build is the one without DEBUG, where
    DEBUG_LOG is empty; the machine is little-endian LP64.

    The environment is part of the state.  A list of faults decides for every fallible library call
    whether it fails ([Allocator]); theorems on error branches quantify over all lists, theorems on
    the normal course assume the empty one.  The kernel is, per descriptor, the list of results that
    [recvfrom] will give, and a log of the sockets that were bound, the datagrams that were sent, the
    threads that were joined and the seconds slept ([event]).  The proc file system is a function
    of the number of files opened so far, so it may change arbitrarily between two readings.  Threads
    are loops over an iteration; in the theorems on whole programs, iterations and calls of different
    threads take turns.  Below that there are four transition systems with a program counter per
    thread: [JournalShared], [QueueShared], [NetSteps] and [WorkerSteps].  Each translates its C
    function a second time, at a finer grain, and comes with a lemma that relates the two
    translations for a thread which is not interrupted ([write_steps_equivalent] for entries whose
    size does not wrap around and without failing calls, [queue_steps_equivalent] and
    [update_steps_equivalent] for runs that come to an end, [turns_are_steps] in every state); these
    lemmas check the models against each other, they say nothing of the program.  In [NetSteps] the
    call and the return of [recvfrom] are two steps, so a receiving thread may be blocked in a call
    made earlier.  A process is described by the results that its calls of [fork] give, so main is
    the program of the parent and of every worker process alike; what the worker processes do to the
    parent is that the bytes of the shared mapping change, without any mutex ([Stored] of
    [Processes]).

    ** What is proved

    - Memory safety and totality: every operation on messages, queues and the journal returns on
      every branch, with its state well formed ([message_create_total], [message_write_safe],
      [enqueue_all_branches], [message_queue_create_total], [message_queue_delete_frees],
      [journal_create_total], [journal_write_branches], [journal_delete_spec], [run_receiver_total]).
    - Refinement: a queue is a bounded FIFO that forgets its oldest half on overflow
      ([queue_refines_fifo], [enqueue_overflow], [dequeue_spec]), a journal an append-only log
      ([journal_refines_log]), also under any interleaving of writers that share its mutex
      ([shared_mutex_keeps_entries], [shared_mutex_progress]); writers with different mutexes, as
      the worker processes are, can lose their entries but neither the old ones nor the shape of the
      journal ([any_mutex_keeps_journal]).  Threads that share a queue see a FIFO too
      ([queue_linearizable]), every message has one owner ([message_has_one_owner]), no step is
      undefined ([queue_threads_safe]) and no wakeup is lost ([no_lost_wakeup]).
    - Round trips: message data ([message_write_read]), datagrams ([datagram_delivery]), the journal
      ([journal_transfer_roundtrip]), printed and parsed numbers ([get_total_time_sums],
      [get_process_time_sums]), headers ([header_read_then_written]).
    - Bounds: no text of the server is cut off by its buffer ([buffers_suffice]).
    - The threads: a turn of the receiving thread is safe on every datagram ([receive_any_datagram]),
      the sending thread never overruns its buffer ([oversized_message_not_sent]), start and stop
      ([lifecycle], [net_connection_delete_releases]).  Interleaved statement by statement with each
      other and with the program they are safe as well ([net_threads_safe]), and an answer goes to its
      owner unless [recvfrom], called before or after, delivers a datagram between the store of the
      address and the send ([reply_goes_to_owner]).
    - The server: a worker survives every network input and every order of turns
      ([worker_survives]), answers each request ([request_answered], [invalid_request_answered]) and
      handles messages in order ([update_moves_messages]); the sign and value of the usage are
      [cpu_usage_sign].  [worker_survives] is proved against the class [Handler] of [ServerWorker],
      which [Requests] discharges for the callback of the server.  The three threads of a worker
      process are safe in every interleaving of their statements too ([worker_interleaved_safe]).
      Creation of a worker under any one failing call and its deletion, with the joins of its
      threads, are [server_worker_create_faults] and [server_worker_delete_releases].
    - The processes: a worker process from main to its end ([worker_process_runs]), the parent with
      its journal thread ([server_main_parent]), and what a failing start does
      ([server_main_failures]).
    - The client: what it sends and prints ([client_sends_request], [reply_printed]), the whole way
      of a request and its answer ([round_trip]), the creation of a context with any number of ports
      ([client_context_created], under any one failing call [client_create_context_faults]), a start
      that fails ([client_start_fails]), requests on all connections ([fuzz_requests]) and the program
      from start to end with all its threads ([client_program_prints]).
    - Weaknesses of the code that the models show: [reply_to_wrong_client], [request_from_wrong_client],
      [forked_mutex_loses_entry], [truncated_transfer_succeeds], [update_polls_forever],
      [printing_outlives_context], [journal_thread_outlives_journal], [unknown_type_echoed], [command_with_space_not_found],
      [empty_datagram_replays], [queue_error_double_free], [enqueue_condvar_error_keeps_message],
      [capacity_one_loses_messages], [message_delete_leaks], [bind_failure_leaks_socket].

    ** Bounds, fuel and hypotheses

    Fuel occurs where the code loops without a bound: the thread functions, the loop of a worker
    process and of the journal thread, the printing and fuzz loops of the client,
    [server_worker_update] (one list element per poll, which is also what the other threads do
    before that poll) and the receiving loop of the journal utility, for which one more than the
    number of chunks is proved to be enough.  Queue theorems assume a capacity of at least 2 (capacity 1 is
    [capacity_one_loses_messages]); the program uses 5 and 128.  Sizes of journals are at most
    PTRDIFF_MAX, as for every object.  [counters_ok] of [Server] says that the counters in /proc are
    below 2^58 in absolute value, so that their sums do not overflow; addresses reported by the
    kernel are valid socket addresses ([inputs_ok]).

    ** What is not modelled

    The standard output of the server, messages on standard error and real time.  Within the
    interleavings, an access to shared memory is atomic (there is no weak memory model), and in
    [NetSteps] a queue call is one step, as [queue_linearizable] allows, and library calls do not
    fail.  In [WorkerSteps] the callback is one step: it touches a message that no other thread has,
    the journal, whose writers [JournalShared] interleaves, and /proc.  The theorems on processes and
    the client use turns.  The results of [fork], [getppid] and [wait] are environment: nothing
    relates the results seen by different processes.  [server_worker_create_faults] and
    [client_create_context_faults] are about one failing call, [client_start_fails] about a failing
    [pthread_create]; the theorems of [ClientLife] and [ClientPrint] assume that no library call
    fails.  In [ClientPrint] the other threads run between the creation of the printing thread and the
    request and while the program waits for the answer, not in the middle of a function of the
    program, and the poll of a connection is one action; what the printing thread would do after the
    cleanup is stated for the state in which the program returns.  In [Processes] the journal is read
    in one step of the parent; a write of a worker process during a transfer is covered by the
    mapping being arbitrary before it. *)
From stdpp Require Export base tactics numbers list gmap.
From coqutil Require Export Byte Word.LittleEndianList.
From Stdlib Require Export ZArith Lia.
From Stdlib Require String.
Export String.StringSyntax.
Delimit Scope string_scope with string.

#[export] Set Default Goal Selector "!".
#[export] Set Warnings "-clear-no-such-hyp".

(** ** Outcomes of C code

    A call either returns, runs into undefined behaviour, blocks (a mutex held
    by somebody else, a condition that nobody signals), ends the process, or
    is cut off by the fuel that bounds a loop of the model. *)
Inductive ub : Type :=
  | UB_null        (* NULL dereferenced *)
  | UB_dangling    (* freed object accessed or freed again *)
  | UB_bounds      (* access outside an object *)
  | UB_overflow    (* signed integer overflow *)
  | UB_mutex.      (* unlock of a mutex that is not locked *)

Inductive outcome (A : Type) : Type :=
  | Ok (a : A)
  | Undefined (u : ub)
  | Blocked
  | Exited (code : Z)
  | NoFuel.

Arguments Ok {A} a.
Arguments Undefined {A} u.
Arguments Blocked {A}.
Arguments Exited {A} code.
Arguments NoFuel {A}.

#[export] Instance ub_eq_dec : EqDecision ub.
Proof. solve_decision. Defined.

#[export] Instance byte_eq_decision : EqDecision byte := Byte.byte_eq_dec.

#[export] Instance byte_countable : Countable byte :=
  inj_countable Byte.to_N Byte.of_N Byte.of_to_N.

(** ** The state-and-outcome monad *)
Definition M (S A : Type) : Type := S → outcome (A * S).

Definition ret {S A} (a : A) : M S A := λ s, Ok (a, s).
Definition bind {S A B} (m : M S A) (f : A → M S B) : M S B := λ s,
  match m s with
  | Ok (a, s') => f a s'
  | Undefined u => Undefined u
  | Blocked => Blocked
  | Exited c => Exited c
  | NoFuel => NoFuel
  end.

Declare Scope c_scope.
Delimit Scope c_scope with c.
Notation "'let*' x ':=' m 'in' k" := (bind m (λ x, k))
  (at level 10, x name, m at level 200, k at level 200) : c_scope.
Notation "'let*' ' x ':=' m 'in' k" := (bind m (λ ' x, k))
  (at level 10, x strict pattern, m at level 200, k at level 200) : c_scope.
Notation "m ;; k" := (bind m (λ _, k))
  (at level 100, k at level 200, right associativity) : c_scope.
Open Scope c_scope.

Section Primitives.
Context {S : Type}.

Definition undefined {A} (u : ub) : M S A := λ _, Undefined u.
Definition blocked {A} : M S A := λ _, Blocked.
Definition exit_with {A} (code : Z) : M S A := λ _, Exited code.
Definition no_fuel {A} : M S A := λ _, NoFuel.
Definition get_state : M S S := λ s, Ok (s, s).
Definition put_state (s : S) : M S unit := λ _, Ok (tt, s).
Definition modify (f : S → S) : M S unit := λ s, Ok (tt, f s).
Definition gets {A} (f : S → A) : M S A := λ s, Ok (f s, s).

(** An access that the C standard leaves undefined when it fails. *)
Definition deref {A} (u : ub) (o : option A) : M S A :=
  match o with Some a => ret a | None => undefined u end.

(** [lift get put] runs a computation on a part of the state. *)
Definition lift {T A} (get : S → T) (put : T → S → S) (m : M T A) : M S A := λ s,
  match m (get s) with
  | Ok (a, t) => Ok (a, put t s)
  | Undefined u => Undefined u
  | Blocked => Blocked
  | Exited c => Exited c
  | NoFuel => NoFuel
  end.
End Primitives.

(** [m] returns [a] and leaves [s'] when it starts in [s]. *)
Definition returns {S A} (m : M S A) (s : S) (a : A) (s' : S) : Prop :=
  m s = Ok (a, s').

Notation "'⟦' m '⟧' s '⇓' a ',' s'" := (returns m s a s')
  (at level 70, m at level 200, s at next level, a at next level, s' at next level,
   format "'⟦' m '⟧'  s  '⇓'  a ','  s'") : c_scope.

(** The state after a run, for building concrete states; a run that does not return
    keeps the initial state. *)
Definition run {S A} (m : M S A) (s : S) : S :=
  match m s with Ok (_, s') => s' | _ => s end.

Section MonadLemmas.
Context {S A B : Type}.
Implicit Types (m : M S A) (f : A → M S B).

Lemma bind_ok m f s a s' : m s = Ok (a, s') → bind m f s = f a s'.
Proof. intros H. unfold bind. by rewrite H. Qed.

Lemma bind_undefined m f s u : m s = Undefined u → bind m f s = Undefined u.
Proof. intros H. unfold bind. by rewrite H. Qed.

Lemma bind_nofuel m f s : m s = NoFuel → bind m f s = NoFuel.
Proof. intros H. unfold bind. by rewrite H. Qed.

Lemma bind_inv m f s b s'' :
  bind m f s = Ok (b, s'') → ∃ a s', m s = Ok (a, s') ∧ f a s' = Ok (b, s'').
Proof. unfold bind. destruct (m s) as [[a s']|u| |c|] eqn:E; naive_solver. Qed.

Lemma bind_returns m f s a s' b s'' :
  ⟦ m ⟧ s ⇓ a, s' → ⟦ f a ⟧ s' ⇓ b, s'' → ⟦ bind m f ⟧ s ⇓ b, s''.
Proof. unfold returns. intros H1 H2. by rewrite (bind_ok _ _ _ _ _ H1). Qed.

Lemma lift_ok {T} (get : S → T) put (m : M T A) s a t :
  m (get s) = Ok (a, t) → lift get put m s = Ok (a, put t s).
Proof. unfold lift. by intros ->. Qed.
End MonadLemmas.

(** Two computations that agree on what the first part can give, and associativity. *)
Lemma bind_ext {S A B} (m : M S A) (f g : A → M S B) (s : S) :
  (∀ a s', m s = Ok (a, s') → f a s' = g a s') → bind m f s = bind m g s.
Proof. intros H. unfold bind. destruct (m s) as [[a s']|?| |?|]; auto. Qed.

Lemma bind_assoc {S A B C} (m : M S A) (f : A → M S B) (g : B → M S C) (s : S) :
  bind (bind m f) g s = bind m (λ a, bind (f a) g) s.
Proof. unfold bind. by destruct (m s) as [[a s']|?| |?|]. Qed.

(** ** Integers of the platform (LP64, little endian) *)
Definition INT_MAX : Z := 2147483647.
Definition INT_MIN : Z := -2147483648.
Definition UINT32_MAX : Z := 4294967295.
Definition SIZE_MAX : Z := 18446744073709551615.
Definition wrap32 (z : Z) : Z := z mod 2 ^ 32.
Definition wrap64 (z : Z) : Z := z mod 2 ^ 64.
Definition sizeof_size_t : Z := 8.
Definition sizeof_int : Z := 4.

(** [int] arithmetic: overflow is undefined behaviour, [/] and [%] truncate. *)
Definition in_int (z : Z) : bool := (INT_MIN <=? z)%Z && (z <=? INT_MAX)%Z.
Definition int_add {S} (a b : Z) : M S Z :=
  if in_int (a + b)%Z then ret (a + b)%Z else undefined UB_overflow.
Definition int_rem (a b : Z) : Z := Z.rem a b.
Definition int_div (a b : Z) : Z := Z.quot a b.

(** A [w]-bit pattern read as a two's complement number. *)
Definition signed (w z : Z) : Z :=
  if (z <? 2 ^ (w - 1))%Z then z else (z - 2 ^ w)%Z.

Lemma int_add_ok {S} (a b : Z) (s : S) :
  (INT_MIN ≤ a + b ≤ INT_MAX)%Z → int_add a b s = Ok ((a + b)%Z, s).
Proof.
  intros H. unfold int_add, in_int.
  destruct (Z.leb_spec INT_MIN (a + b)), (Z.leb_spec (a + b) INT_MAX); by try lia.
Qed.

Lemma rem_mod_nonneg a b : (0 ≤ a)%Z → (0 < b)%Z → int_rem a b = (a `mod` b)%Z.
Proof. intros. apply Z.rem_mod_nonneg; lia. Qed.

Lemma signed_wrap32 z :
  (-2 ^ 31 ≤ z < 2 ^ 31)%Z → signed 32 (z mod 2 ^ 32) = z.
Proof.
  intros Hz. unfold signed.
  destruct (Z.leb_spec 0 z).
  - rewrite Z.mod_small by lia. destruct (Z.ltb_spec z (2 ^ (32 - 1))); lia.
  - assert (z mod 2 ^ 32 = z + 2 ^ 32)%Z as ->.
    { symmetry. apply (Z.mod_unique_pos _ _ (-1)); lia. }
    destruct (Z.ltb_spec (z + 2 ^ 32) (2 ^ (32 - 1))); lia.
Qed.

(** ** Byte arrays: reading and overwriting a range *)
Definition slice (off n : nat) (l : list byte) : list byte := take n (drop off l).
Definition splice (off : nat) (src dst : list byte) : list byte :=
  take off dst ++ src ++ drop (off + length src) dst.

#[global] Arguments slice : simpl never.
#[global] Arguments splice : simpl never.

Section Slices.
Implicit Types (l src dst : list byte).

Lemma length_slice off n l : off + n ≤ length l → length (slice off n l) = n.
Proof. intros. unfold slice. rewrite length_take, length_drop. lia. Qed.

Lemma length_splice off src dst :
  off + length src ≤ length dst → length (splice off src dst) = length dst.
Proof.
  intros. unfold splice. rewrite !length_app, length_take, length_drop. lia.
Qed.

Lemma slice_splice_same off src dst :
  off + length src ≤ length dst → slice off (length src) (splice off src dst) = src.
Proof.
  intros. unfold slice, splice.
  rewrite drop_app_length' by (rewrite length_take; lia).
  by apply take_app_length.
Qed.

Lemma slice_splice_before off n k src dst :
  off + n ≤ k → k + length src ≤ length dst →
  slice off n (splice k src dst) = slice off n dst.
Proof.
  intros. unfold slice, splice.
  rewrite drop_app_le by (rewrite length_take; lia).
  rewrite take_app_le by (rewrite length_drop, length_take; lia).
  rewrite skipn_firstn_comm, take_take. f_equal. lia.
Qed.

Lemma slice_splice_after off n k src dst :
  k + length src ≤ off → k + length src ≤ length dst →
  slice off n (splice k src dst) = slice off n dst.
Proof.
  intros. unfold slice, splice. f_equal.
  rewrite drop_app_ge by (rewrite length_take; lia).
  rewrite drop_app_ge by (rewrite length_take; lia).
  rewrite drop_drop, length_take. f_equal. lia.
Qed.

Lemma slice_app off n1 n2 l :
  slice off (n1 + n2) l = slice off n1 l ++ slice (off + n1) n2 l.
Proof.
  unfold slice. rewrite <- (drop_drop l n1 off).
  rewrite <- (take_drop n1 (drop off l)) at 1.
  destruct (decide (n1 ≤ length (drop off l))).
  - rewrite take_app_ge by (rewrite length_take; lia).
    do 2 f_equal. rewrite length_take. lia.
  - rewrite (drop_ge (drop off l) n1) by lia.
    rewrite !take_nil, !app_nil_r. rewrite take_take. f_equal. lia.
Qed.

Lemma take_take_prefix k n l : k ≤ n → take k (take n l) = take k l.
Proof. intros. rewrite take_take. f_equal. lia. Qed.

Lemma splice_nil off dst : splice off [] dst = dst.
Proof. unfold splice. simpl. rewrite Nat.add_0_r. apply take_drop. Qed.

Lemma take_splice_0 n src dst : n ≤ length src → take n (splice 0 src dst) = take n src.
Proof. intros. unfold splice. rewrite take_0. simpl. by apply take_app_le. Qed.

(** Two adjacent writes at the start of a buffer. *)
Lemma take_two_splices a b dst :
  length a + length b ≤ length dst →
  take (length a + length b) (splice (length a) b (splice 0 a dst)) = a ++ b.
Proof.
  intros Hl. unfold splice at 1.
  assert (take (length a) (splice 0 a dst) = a) as ->.
  { rewrite take_splice_0 by lia. apply take_ge. lia. }
  rewrite app_assoc, take_app_le by (rewrite length_app; lia).
  apply take_ge. rewrite length_app. lia.
Qed.

Lemma splice_splice off src1 src2 dst :
  length src1 = length src2 → off + length src1 ≤ length dst →
  splice off src2 (splice off src1 dst) = splice off src2 dst.
Proof.
  intros Hl Ho. unfold splice.
  rewrite take_app_length' by (rewrite length_take; lia). do 2 f_equal.
  rewrite drop_app_ge by (rewrite length_take; lia).
  rewrite drop_app_ge by (rewrite length_take; lia).
  rewrite drop_drop, length_take. f_equal. lia.
Qed.
End Slices.

(** [memcpy] into a block at an offset, and out of one. *)
Definition copy_in {S} (off : nat) (src dst : list byte) : M S (list byte) :=
  if bool_decide (off + length src ≤ length dst)
  then ret (splice off src dst) else undefined UB_bounds.
Definition copy_out {S} (off n : nat) (src : list byte) : M S (list byte) :=
  if bool_decide (off + n ≤ length src)
  then ret (slice off n src) else undefined UB_bounds.

Lemma copy_in_ok {S} off src dst (s : S) :
  off + length src ≤ length dst → copy_in off src dst s = Ok (splice off src dst, s).
Proof. intros. unfold copy_in. by rewrite bool_decide_eq_true_2. Qed.

Lemma copy_in_bad {S} off src dst (s : S) :
  length dst < off + length src → copy_in off src dst s = Undefined UB_bounds.
Proof. intros. unfold copy_in. rewrite bool_decide_eq_false_2 by lia. done. Qed.

Lemma copy_out_ok {S} off n src (s : S) :
  off + n ≤ length src → copy_out off n src s = Ok (slice off n src, s).
Proof. intros. unfold copy_out. by rewrite bool_decide_eq_true_2. Qed.

Lemma copy_out_bad {S} off n src (s : S) :
  length src < off + n → copy_out off n src s = Undefined UB_bounds.
Proof. intros. unfold copy_out. rewrite bool_decide_eq_false_2 by lia. done. Qed.

(** ** C strings *)
Definition NUL : byte := Byte.x00.
Definition cstring (s : String.string) : list byte := String.list_byte_of_string s.

(** The bytes before the first NUL, if there is one: what [strlen] and ["%s"] see. *)
Fixpoint c_str (l : list byte) : option (list byte) :=
  match l with
  | [] => None
  | b :: l => if Byte.eqb b NUL then Some [] else (λ s, b :: s) <$> c_str l
  end.

Definition no_nul (l : list byte) : bool := forallb (λ b, negb (Byte.eqb b NUL)) l.

Lemma c_str_app l rest : no_nul l = true → c_str (l ++ NUL :: rest) = Some l.
Proof.
  induction l as [|b l IH]; simpl; [done|].
  intros [Hb Hl]%andb_true_iff. apply negb_true_iff in Hb.
  rewrite Hb. by rewrite IH.
Qed.

Lemma no_nul_app l1 l2 : no_nul (l1 ++ l2) = no_nul l1 && no_nul l2.
Proof. apply forallb_app. Qed.

(** ** Automation

    [c_run] steps through monadic code: it unfolds the monad, simplifies, and
    rewrites with the database [c_run]. *)
Create Rewrite HintDb c_run.
#[export] Hint Rewrite @int_add_ok using lia : c_run.
#[export] Hint Rewrite @copy_in_ok @copy_out_ok using (simpl; lia) : c_run.

Ltac c_simpl :=
  unfold ret, bind, gets, modify, get_state, put_state, deref,
    undefined, blocked, no_fuel, exit_with in *; simpl in *.
Ltac c_run := repeat (progress (c_simpl; autorewrite with c_run)).

(** Split every [match] and [if] whose scrutinee is in the goal. *)
Ltac c_cases := repeat (case_match; simplify_eq/=).
