(* ===== verification/Layout.v ===== *)
(** * Layout: the message header and its object representation

    [network/message.h] declares [message_header_t]; [net_connection.c] puts the
    struct on the wire with [memcpy].  This file holds the struct, its
    little-endian LP64 representation (28 bytes, no padding: two 32-bit words, a
    16-byte [sockaddr_in], one 32-bit word) and the round trips between both. *)
From S2P Require Import Prelude.

Local Open Scope Z_scope.

(** [struct sockaddr_in] of the platform.  [sin_port] and [sin_addr] hold the
    numbers as they lie in memory, that is, already in network order. *)
Record sockaddr_in := SockAddr {
  sin_family : Z;
  sin_port : Z;
  sin_addr : Z;
  sin_zero : list byte;
}.

(** [message_type_t]: the enum is an [unsigned int], and a header copied from the
    wire may hold any value of it. *)
Definition MESSAGE_TYPE_NONE : Z := 0.
Definition MESSAGE_TYPE_PID : Z := 1.

Record message_header_t := Header {
  hdr_type : Z;
  hdr_length : Z;
  hdr_owner_addr : sockaddr_in;
  hdr_capacity : Z;
}.

Definition sizeof_header : nat := 28.
Definition sizeof_sockaddr : nat := 16.
Definition AF_INET : Z := 2.

(** [htons]: the argument is taken modulo 2^16 and its two bytes are swapped. *)
Definition htons (p : Z) : Z := (p mod 256) * 256 + (p / 256) mod 256.

Definition encode_addr (a : sockaddr_in) : list byte :=
  le_split 2 (sin_family a) ++ le_split 2 (sin_port a) ++ le_split 4 (sin_addr a) ++ sin_zero a.

Definition encode_header (h : message_header_t) : list byte :=
  le_split 4 (hdr_type h) ++ le_split 4 (hdr_length h) ++ encode_addr (hdr_owner_addr h)
    ++ le_split 4 (hdr_capacity h).

Definition decode_addr (l : list byte) : sockaddr_in :=
  SockAddr (le_combine (slice 0 2 l)) (le_combine (slice 2 2 l))
    (le_combine (slice 4 4 l)) (slice 8 8 l).

Definition decode_header (l : list byte) : message_header_t :=
  Header (le_combine (slice 0 4 l)) (le_combine (slice 4 4 l))
    (decode_addr (slice 8 16 l)) (le_combine (slice 24 4 l)).

#[global] Arguments encode_header : simpl never.
#[global] Arguments decode_header : simpl never.
#[global] Arguments encode_addr : simpl never.
#[global] Arguments decode_addr : simpl never.

(** ** Well-formed structs: every field has a value of its C type *)
Definition u16 (z : Z) : bool := (0 <=? z) && (z <? 2 ^ 16).
Definition u32 (z : Z) : bool := (0 <=? z) && (z <? 2 ^ 32).

Definition addr_ok (a : sockaddr_in) : bool :=
  u16 (sin_family a) && u16 (sin_port a) && u32 (sin_addr a)
    && bool_decide (length (sin_zero a) = 8%nat).

Definition header_ok (h : message_header_t) : bool :=
  u32 (hdr_type h) && u32 (hdr_length h) && addr_ok (hdr_owner_addr h) && u32 (hdr_capacity h).

#[export] Instance sockaddr_in_eq_dec : EqDecision sockaddr_in.
Proof. solve_decision. Defined.
#[export] Instance message_header_t_eq_dec : EqDecision message_header_t.
Proof. solve_decision. Defined.

Lemma u16_spec z : u16 z = true ↔ 0 ≤ z < 2 ^ 16.
Proof. unfold u16. rewrite andb_true_iff, Z.leb_le, Z.ltb_lt. done. Qed.

Lemma u32_spec z : u32 z = true ↔ 0 ≤ z < 2 ^ 32.
Proof. unfold u32. rewrite andb_true_iff, Z.leb_le, Z.ltb_lt. done. Qed.

Lemma addr_ok_spec a :
  addr_ok a = true ↔
  0 ≤ sin_family a < 2 ^ 16 ∧ 0 ≤ sin_port a < 2 ^ 16 ∧ 0 ≤ sin_addr a < 2 ^ 32
  ∧ length (sin_zero a) = 8%nat.
Proof.
  unfold addr_ok. rewrite !andb_true_iff, bool_decide_eq_true, !u16_spec, u32_spec. tauto.
Qed.

Lemma header_ok_spec h :
  header_ok h = true ↔
  0 ≤ hdr_type h < 2 ^ 32 ∧ 0 ≤ hdr_length h < 2 ^ 32 ∧ addr_ok (hdr_owner_addr h) = true
  ∧ 0 ≤ hdr_capacity h < 2 ^ 32.
Proof. unfold header_ok. rewrite !andb_true_iff, !u32_spec. tauto. Qed.

(** ** Lemmas on little-endian words *)
Lemma le_combine_split_id n z :
  0 ≤ z < 2 ^ (Z.of_nat n * 8) → le_combine (le_split n z) = z.
Proof. intros. rewrite le_combine_split. by apply Z.mod_small. Qed.

Lemma le_combine_slice_bound off n l :
  (off + n ≤ length l)%nat → 0 ≤ le_combine (slice off n l) < 2 ^ (8 * Z.of_nat n).
Proof.
  intros. pose proof (le_combine_bound (slice off n l)) as B.
  by rewrite length_slice in B by lia.
Qed.

Lemma le_split_combine n l : length l = n → le_split n (le_combine l) = l.
Proof. intros <-. apply split_le_combine. Qed.

Lemma slice_all n l : length l = n → slice 0 n l = l.
Proof. intros. unfold slice. rewrite drop_0. apply take_ge. lia. Qed.

(** Reading past a prefix of known length. *)
Lemma slice_skip (k off n : nat) (l1 l2 : list byte) :
  length l1 = k → slice (k + off) n (l1 ++ l2) = slice off n l2.
Proof. intros <-. unfold slice. by rewrite <- drop_drop, drop_app_length. Qed.

Lemma slice_head (n : nat) (l1 l2 : list byte) :
  length l1 = n → slice 0 n (l1 ++ l2) = l1.
Proof. intros <-. unfold slice. by rewrite drop_0, take_app_length. Qed.

Lemma slice_slice a n b m (l : list byte) :
  (b + m ≤ n)%nat → slice b m (slice a n l) = slice (a + b) m l.
Proof.
  intros. unfold slice. rewrite skipn_firstn_comm, take_take, drop_drop. f_equal. lia.
Qed.

Lemma length_encode_addr a : addr_ok a = true → length (encode_addr a) = sizeof_sockaddr.
Proof.
  intros (_ & _ & _ & H)%addr_ok_spec. unfold encode_addr.
  rewrite !length_app, !length_le_split, H. done.
Qed.

Lemma length_encode_header h : header_ok h = true → length (encode_header h) = sizeof_header.
Proof.
  intros (_ & _ & H & _)%header_ok_spec. unfold encode_header.
  rewrite !length_app, !length_le_split, length_encode_addr by done. done.
Qed.

Lemma decode_encode_addr a : addr_ok a = true → decode_addr (encode_addr a) = a.
Proof.
  intros (H1 & H2 & H3 & H4)%addr_ok_spec.
  unfold decode_addr, encode_addr.
  rewrite slice_head by apply length_le_split.
  rewrite (slice_skip 2 0), slice_head by apply length_le_split.
  rewrite (slice_skip 2 2), (slice_skip 2 0), slice_head by apply length_le_split.
  rewrite (slice_skip 2 6), (slice_skip 2 4), (slice_skip 4 0) by apply length_le_split.
  rewrite slice_all by done.
  rewrite !le_combine_split_id by (simpl; lia). by destruct a.
Qed.

Lemma decode_encode_header h : header_ok h = true → decode_header (encode_header h) = h.
Proof.
  intros (H1 & H2 & H3 & H4)%header_ok_spec.
  pose proof (length_encode_addr _ H3) as L. unfold sizeof_sockaddr in L.
  unfold decode_header, encode_header.
  rewrite slice_head by apply length_le_split.
  rewrite (slice_skip 4 0), slice_head by apply length_le_split.
  rewrite (slice_skip 4 4), (slice_skip 4 0), (slice_head 16)
    by (done || apply length_le_split).
  rewrite (slice_skip 4 20), (slice_skip 4 16), (slice_skip 16 0), slice_all
    by (done || apply length_le_split).
  rewrite decode_encode_addr by done.
  rewrite !le_combine_split_id by (simpl; lia). by destruct h.
Qed.

Lemma decode_addr_ok l : length l = sizeof_sockaddr → addr_ok (decode_addr l) = true.
Proof.
  unfold sizeof_sockaddr. intros L. apply addr_ok_spec. unfold decode_addr; cbn [sin_family sin_port sin_addr sin_zero].
  pose proof (le_combine_slice_bound 0 2 l). pose proof (le_combine_slice_bound 2 2 l).
  pose proof (le_combine_slice_bound 4 4 l).
  rewrite length_slice by lia. simpl in *. lia.
Qed.

Lemma decode_header_ok l :
  (sizeof_header ≤ length l)%nat → header_ok (decode_header l) = true.
Proof.
  unfold sizeof_header. intros L. apply header_ok_spec.
  unfold decode_header; cbn [hdr_type hdr_length hdr_owner_addr hdr_capacity].
  pose proof (le_combine_slice_bound 0 4 l). pose proof (le_combine_slice_bound 4 4 l).
  pose proof (le_combine_slice_bound 24 4 l).
  rewrite decode_addr_ok by (rewrite length_slice by lia; done). simpl in *. lia.
Qed.

Lemma encode_decode_addr l :
  length l = sizeof_sockaddr → encode_addr (decode_addr l) = l.
Proof.
  unfold sizeof_sockaddr. intros L. unfold encode_addr, decode_addr; cbn [sin_family sin_port sin_addr sin_zero].
  rewrite !le_split_combine by (rewrite length_slice by lia; done).
  rewrite <- (slice_app 4 4 8), <- (slice_app 2 2 12), <- (slice_app 0 2 14).
  by apply slice_all.
Qed.

(** The representation loses nothing: decoding 28 bytes and encoding the struct
    again gives the bytes back. *)
Lemma encode_decode_header l :
  length l = sizeof_header → encode_header (decode_header l) = l.
Proof.
  unfold sizeof_header. intros L. unfold encode_header, decode_header; cbn [hdr_type hdr_length hdr_owner_addr hdr_capacity].
  rewrite !le_split_combine by (rewrite length_slice by lia; done).
  rewrite encode_decode_addr by (rewrite length_slice by lia; done).
  rewrite <- (slice_app 8 16 4), <- (slice_app 4 4 20), <- (slice_app 0 4 24).
  by apply slice_all.
Qed.

Lemma htons_bound p : 0 ≤ htons p < 2 ^ 16.
Proof.
  unfold htons. pose proof (Z.mod_pos_bound p 256). pose proof (Z.mod_pos_bound (p / 256) 256).
  lia.
Qed.

Lemma htons_involutive p : 0 ≤ p < 2 ^ 16 → htons (htons p) = p.
Proof. unfold htons. intros. Z.to_euclidean_division_equations; lia. Qed.
