(* ===== verification/Memory.v ===== *)
(** * Memory: typed heaps, the allocator and mutexes

    Every heap object of the program (messages and their data blocks, queues,
    sockets, connections, workers, contexts, journals) lives in a finite map from addresses to
    objects of its struct type.  Freeing an object removes its address; an access
    to an address that is not in the map is a use after free.  The class [Store]
    is the interface through which all components reach such a map. *)
From S2P Require Import Prelude Layout.

Abbreviation loc := positive.
(** A pointer: [None] is NULL. *)
Abbreviation ptr := (option positive).

(** ** Interfaces *)
Class Store (S T : Type) := {
  heap_of : S → gmap loc T;
  set_heap : gmap loc T → S → S;
  heap_of_set : ∀ h s, heap_of (set_heap h s) = h;
  set_heap_set : ∀ h h' s, set_heap h (set_heap h' s) = set_heap h s;
}.

(** Library calls that may fail (malloc, pthread, socket calls) consume one entry
    of a list of faults: [true] makes the call fail; an exhausted list means that
    nothing fails any more. *)
Class Allocator (S : Type) := {
  faults_of : S → list bool;
  set_faults : list bool → S → S;
  next_of : S → loc;
  set_next : loc → S → S;
  set_faults_id : ∀ s, set_faults (faults_of s) s = s;
  faults_of_set : ∀ fs s, faults_of (set_faults fs s) = fs;
}.

Section Objects.
Context {S T : Type} `{Store S T} `{Allocator S}.

(** Does the next fallible library call succeed? *)
Definition fallible : M S bool := λ s,
  match faults_of s with
  | [] => Ok (true, s)
  | b :: fs => Ok (negb b, set_faults fs s)
  end.

Definition load (p : ptr) : M S T := λ s,
  match p with
  | None => Undefined UB_null
  | Some l => match heap_of s !! l with
              | Some x => Ok (x, s)
              | None => Undefined UB_dangling
              end
  end.

Definition store (p : ptr) (x : T) : M S unit := λ s,
  match p with
  | None => Undefined UB_null
  | Some l => match heap_of s !! l with
              | Some _ => Ok (tt, set_heap (<[l := x]> (heap_of s)) s)
              | None => Undefined UB_dangling
              end
  end.

(** [malloc]: a fresh address holding [x], or NULL. *)
Definition alloc (x : T) : M S ptr :=
  let* ok := fallible in
  if ok : bool then λ s,
    Ok (Some (next_of s),
        let s' := set_next (Pos.succ (next_of s)) s in
        set_heap (<[next_of s := x]> (heap_of s')) s')
  else ret None.

(** [free]: a no-op on NULL, undefined on an address that is not live. *)
Definition free (p : ptr) : M S unit := λ s,
  match p with
  | None => Ok (tt, s)
  | Some l => match heap_of s !! l with
              | Some _ => Ok (tt, set_heap (delete l (heap_of s)) s)
              | None => Undefined UB_dangling
              end
  end.

Lemma load_ok l x s : heap_of s !! l = Some x → load (Some l) s = Ok (x, s).
Proof. intros E. unfold load. by rewrite E. Qed.

Lemma load_dangling l s : heap_of s !! l = None → load (Some l) s = Undefined UB_dangling.
Proof. intros E. unfold load. by rewrite E. Qed.

Lemma store_ok l x y s :
  heap_of s !! l = Some x →
  store (Some l) y s = Ok (tt, set_heap (<[l := y]> (heap_of s)) s).
Proof. intros E. unfold store. by rewrite E. Qed.

Lemma free_ok l x s :
  heap_of s !! l = Some x → free (Some l) s = Ok (tt, set_heap (delete l (heap_of s)) s).
Proof. intros E. unfold free. by rewrite E. Qed.

Lemma free_dangling l s : heap_of s !! l = None → free (Some l) s = Undefined UB_dangling.
Proof. intros E. unfold free. by rewrite E. Qed.

Lemma fallible_nil s : faults_of s = [] → fallible s = Ok (true, s).
Proof. intros E. unfold fallible. by rewrite E. Qed.

(** The state after one fallible call, and its answer. *)
Lemma fallible_cases s :
  ∃ ok fs, fallible s = Ok (ok, set_faults fs s) ∧ (faults_of s = [] → ok = true ∧ fs = []).
Proof.
  unfold fallible. destruct (faults_of s) as [|b fs] eqn:E.
  - exists true, []. by rewrite <- E, set_faults_id.
  - by exists (negb b), fs.
Qed.

Lemma alloc_cases x s :
  ∃ fs, (faults_of s = [] → fs = []) ∧
    let s1 := set_faults fs s in
    let s2 := set_next (Pos.succ (next_of s1)) s1 in
    (faults_of s ≠ [] ∧ alloc x s = Ok (None, s1))
    ∨ alloc x s = Ok (Some (next_of s1), set_heap (<[next_of s1 := x]> (heap_of s2)) s2).
Proof.
  destruct (fallible_cases s) as (ok & fs & E & Hnil). exists fs.
  split; [intros F; by destruct (Hnil F)|].
  unfold alloc, bind. rewrite E. destruct ok; [by right|].
  left. split; [|done]. intros F. by destruct (Hnil F).
Qed.
End Objects.

Arguments fallible {S _} : simpl never.
Arguments load {S T _} p.
Arguments store {S T _} p x.
Arguments alloc {S T _ _} x.
Arguments free {S} T {_} p.

(** ** The structs of the message layer (network/message.h, network/message_queue.h) *)
Record message_t := Message {
  header : message_header_t;
  data : ptr;
}.

Record message_queue_t := Queue {
  q_buffer : list ptr;
  q_capacity : Z;
  q_head : Z;
  q_tail : Z;
  q_mutex : bool;   (* locked? *)
}.

(** The memory of a process as far as the message layer uses it. [m_junk] is the
    content that [malloc] leaves in a fresh block. *)
Record mem := Mem {
  m_faults : list bool;
  m_next : loc;
  m_junk : loc → nat → byte;
  m_bytes : gmap loc (list byte);
  m_msgs : gmap loc message_t;
  m_queues : gmap loc message_queue_t;
}.

Definition with_faults (fs : list bool) (m : mem) : mem :=
  Mem fs (m_next m) (m_junk m) (m_bytes m) (m_msgs m) (m_queues m).
Definition with_next (l : loc) (m : mem) : mem :=
  Mem (m_faults m) l (m_junk m) (m_bytes m) (m_msgs m) (m_queues m).
Definition with_bytes (h : gmap loc (list byte)) (m : mem) : mem :=
  Mem (m_faults m) (m_next m) (m_junk m) h (m_msgs m) (m_queues m).
Definition with_msgs (h : gmap loc message_t) (m : mem) : mem :=
  Mem (m_faults m) (m_next m) (m_junk m) (m_bytes m) h (m_queues m).
Definition with_queues (h : gmap loc message_queue_t) (m : mem) : mem :=
  Mem (m_faults m) (m_next m) (m_junk m) (m_bytes m) (m_msgs m) h.

#[export] Program Instance mem_allocator : Allocator mem := {|
  faults_of := m_faults; set_faults := with_faults;
  next_of := m_next; set_next := with_next;
|}.
Next Obligation. by intros []. Qed.
Next Obligation. done. Qed.

#[export] Program Instance mem_bytes : Store mem (list byte) := {|
  heap_of := m_bytes; set_heap := with_bytes;
|}.
Solve All Obligations with done.
#[export] Program Instance mem_msgs : Store mem message_t := {|
  heap_of := m_msgs; set_heap := with_msgs;
|}.
Solve All Obligations with done.
#[export] Program Instance mem_queues : Store mem message_queue_t := {|
  heap_of := m_queues; set_heap := with_queues;
|}.
Solve All Obligations with done.

Lemma with_faults_id m : with_faults (m_faults m) m = m.
Proof. by destruct m. Qed.

Lemma with_faults_nil m : m_faults m = [] → with_faults [] m = m.
Proof. intros <-. apply with_faults_id. Qed.

(** The bytes [malloc(n)] hands out at address [l]. *)
Definition junk_block (m : mem) (l : loc) (n : nat) : list byte := m_junk m l <$> seq 0 n.

Definition malloc_bytes (n : Z) : M mem ptr :=
  let* m := get_state in
  alloc (junk_block m (m_next m) (Z.to_nat n)).

(** [realloc(p, n)]: a new block with the old content as far as it fits, and the old block
    freed; NULL and the old block untouched if it fails. *)
Definition realloc_bytes (p : ptr) (n : Z) : M mem ptr :=
  let* old := match p with None => ret [] | Some _ => load p end in
  let* m := get_state in
  let keep := take (Z.to_nat n) old in
  let* q := alloc (keep ++ drop (length keep) (junk_block m (m_next m) (Z.to_nat n))) in
  match q with
  | None => ret None
  | Some _ => free (list byte) p ;; ret q
  end.

(** [malloc(sizeof(message_t))]: a message whose fields are indeterminate. *)
Definition malloc_msg : M mem ptr :=
  let* m := get_state in
  alloc (Message (decode_header (junk_block m (m_next m) sizeof_header)) None).

Lemma length_junk_block m l n : length (junk_block m l n) = n.
Proof. unfold junk_block. by rewrite length_fmap, length_seq. Qed.

(** ** Facts shared by the components: nothing lives at or above [m_next] *)
Definition fresh_above {T} (next : loc) (h : gmap loc T) : Prop :=
  ∀ l, (next ≤ l)%positive → h !! l = None.

Record heap_ok (m : mem) : Prop := {
  hok_bytes : fresh_above (m_next m) (m_bytes m);
  hok_msgs : fresh_above (m_next m) (m_msgs m);
  hok_queues : fresh_above (m_next m) (m_queues m);
}.

Lemma fresh_above_insert {T} next l (x : T) h :
  fresh_above next h → (l < next)%positive → fresh_above next (<[l := x]> h).
Proof. intros F Hl k Hk. rewrite lookup_insert_ne by lia. by apply F. Qed.

Lemma fresh_above_alloc {T} next (x : T) h :
  fresh_above next h → fresh_above (Pos.succ next) (<[next := x]> h).
Proof. intros F k Hk. rewrite lookup_insert_ne by lia. apply F. lia. Qed.

Lemma fresh_above_succ {T} next (h : gmap loc T) :
  fresh_above next h → fresh_above (Pos.succ next) h.
Proof. intros F k Hk. apply F. lia. Qed.

Lemma fresh_above_delete {T} next l (h : gmap loc T) :
  fresh_above next h → fresh_above next (delete l h).
Proof. intros F k Hk. apply lookup_delete_None. right. by apply F. Qed.

Lemma fresh_above_live {T} next (h : gmap loc T) l x :
  fresh_above next h → h !! l = Some x → (l < next)%positive.
Proof.
  intros F E. destruct (Pos.ltb_spec l next) as [|Hge]; [done|].
  rewrite F in E by done. done.
Qed.

Create HintDb heap.
#[export] Hint Resolve fresh_above_insert fresh_above_alloc fresh_above_succ
  fresh_above_delete fresh_above_live : heap.
#[export] Hint Resolve hok_bytes hok_msgs hok_queues : heap.

(** An executable check of [fresh_above]. *)
Definition fresh_aboveb {T} (next : loc) (h : gmap loc T) : bool :=
  bool_decide (map_Forall (λ l _, (l < next)%positive) h).

Lemma fresh_aboveb_sound {T} next (h : gmap loc T) : fresh_aboveb next h = true → fresh_above next h.
Proof.
  intros F%bool_decide_eq_true_1 l Hl. destruct (h !! l) eqn:E; [|done].
  apply F in E. simpl in E. lia.
Qed.

Definition heap_okb (m : mem) : bool :=
  fresh_aboveb (m_next m) (m_bytes m) && fresh_aboveb (m_next m) (m_msgs m) &&
  fresh_aboveb (m_next m) (m_queues m).

Lemma heap_okb_sound m : heap_okb m = true → heap_ok m.
Proof.
  unfold heap_okb. intros [[? ?]%andb_true_iff ?]%andb_true_iff.
  split; by apply fresh_aboveb_sound.
Qed.

(** The memory of a process that has allocated nothing. *)
Definition mem0 : mem := Mem [] 1 (λ _ _, NUL) ∅ ∅ ∅.
