(* ===== verification/Message.v ===== *)
(** * Message: network/message.c

    A message is a heap object with a header and a pointer to a separately
    allocated data block.  The operations are translated one by one; the
    [message_at] predicate relates a message pointer to its header and block. *)
From S2P Require Import Prelude Layout Memory.

Local Open Scope Z_scope.

Inductive message_status_t : Type :=
  | MESSAGE_STATUS_SUCCESS
  | MESSAGE_STATUS_ERROR_NULL_POINTER
  | MESSAGE_STATUS_ERROR_MEMORY_ALLOC
  | MESSAGE_STATUS_ERROR_WRITE
  | MESSAGE_STATUS_ERROR_READ.

#[export] Instance message_status_t_eq_dec : EqDecision message_status_t.
Proof. solve_decision. Defined.

(** ** Field updates *)
Definition set_type (t : Z) (h : message_header_t) : message_header_t :=
  Header t (hdr_length h) (hdr_owner_addr h) (hdr_capacity h).
Definition set_length (n : Z) (h : message_header_t) : message_header_t :=
  Header (hdr_type h) n (hdr_owner_addr h) (hdr_capacity h).
Definition set_owner_addr (a : sockaddr_in) (h : message_header_t) : message_header_t :=
  Header (hdr_type h) (hdr_length h) a (hdr_capacity h).
Definition set_capacity (n : Z) (h : message_header_t) : message_header_t :=
  Header (hdr_type h) (hdr_length h) (hdr_owner_addr h) n.

(** ** Operations *)
Definition message_create (type data_capacity : Z) : M mem ptr :=
  if UINT32_MAX - Z.of_nat sizeof_header <? data_capacity then ret None else
  let* message := malloc_msg in
  match message with
  | None => ret None
  | Some _ =>
      let* block := malloc_bytes data_capacity in
      match block with
      | None => free message_t message ;; ret None
      | Some _ =>
          let* msg := load message in
          store message
            (Message (Header type 0 (hdr_owner_addr (header msg)) data_capacity) block) ;;
          ret message
      end
  end.

(** [SAFE_FREE(message)] frees the struct; the data block is not freed. *)
Definition message_delete (message : ptr) : M mem unit :=
  match message with
  | None => ret tt
  | Some _ => free message_t message
  end.

Definition message_size (message : ptr) : M mem Z :=
  match message with
  | None => ret 0
  | Some _ =>
      let* msg := load message in
      ret (wrap32 (Z.of_nat sizeof_header + hdr_length (header msg)))
  end.

(** [data] is the memory behind the [const uint8_t*] argument. *)
Definition message_write (message : ptr) (data : option (list byte)) (length : Z)
    : M mem message_status_t :=
  match message, data with
  | Some _, Some src =>
      let* msg := load message in
      if hdr_capacity (header msg) <? length then ret MESSAGE_STATUS_ERROR_WRITE else
      (if 0 <? length then
         let* bytes := copy_out 0 (Z.to_nat length) src in
         let* block := load (Memory.data msg) in
         let* block' := copy_in 0 bytes block in
         store (Memory.data msg) block'
       else ret tt) ;;
      store message (Message (set_length length (header msg)) (Memory.data msg)) ;;
      ret MESSAGE_STATUS_SUCCESS
  | _, _ => ret MESSAGE_STATUS_ERROR_NULL_POINTER
  end.

(** [data] is the caller's buffer and [read_length] the caller's variable; both are
    returned with what the call leaves in them. *)
Definition message_read (message : ptr) (data : option (list byte)) (length read_length : Z)
    : M mem (message_status_t * option (list byte) * Z) :=
  match message, data with
  | Some _, Some dst =>
      let* msg := load message in
      let n := if length <? hdr_length (header msg) then length else hdr_length (header msg) in
      if 0 <? n then
        let* block := load (Memory.data msg) in
        let* bytes := copy_out 0 (Z.to_nat n) block in
        let* dst' := copy_in 0 bytes dst in
        ret (MESSAGE_STATUS_SUCCESS, Some dst', n)
      else ret (MESSAGE_STATUS_ERROR_READ, Some dst, n)
  | _, _ => ret (MESSAGE_STATUS_ERROR_NULL_POINTER, data, read_length)
  end.

Definition message_add_owner_addr (message : ptr) (owner_addr : sockaddr_in)
    : M mem message_status_t :=
  match message with
  | None => ret MESSAGE_STATUS_ERROR_NULL_POINTER
  | Some _ =>
      let* msg := load message in
      store message (Message (set_owner_addr owner_addr (header msg)) (Memory.data msg)) ;;
      ret MESSAGE_STATUS_SUCCESS
  end.

#[global] Arguments message_create : simpl never.
#[global] Arguments message_delete : simpl never.
#[global] Arguments message_size : simpl never.
#[global] Arguments message_write : simpl never.
#[global] Arguments message_read : simpl never.
#[global] Arguments message_add_owner_addr : simpl never.

(** ** Representation predicate *)
Definition message_at (m : mem) (l : loc) (h : message_header_t) (bs : list byte) : Prop :=
  ∃ d, m_msgs m !! l = Some (Message h (Some d)) ∧ m_bytes m !! d = Some bs.

(** A message that keeps its header and its block, and a change that touches at most [x]. *)
Definition same_message (m m' : mem) (x : loc) : Prop := ∀ h bs, message_at m x h bs → message_at m' x h bs.
Definition only_touches (m m' : mem) (x : loc) : Prop :=
  (∀ y, is_Some (m_msgs m' !! y) ↔ is_Some (m_msgs m !! y)) ∧ ∀ z, z ≠ x → same_message m m' z.

Lemma only_touches_refl m x : only_touches m m x.
Proof. split; [done|]. intros z _ h bs Hm. exact Hm. Qed.
Lemma only_touches_trans m1 m2 m3 x : only_touches m1 m2 x → only_touches m2 m3 x → only_touches m1 m3 x.
Proof.
  intros [Hl1 Hs1] [Hl2 Hs2]. split; [intros y; by rewrite Hl2|]. intros z Hz h bs Hm. by apply Hs2, Hs1.
Qed.

(** The memory invariant: every live message owns a live data block of its own,
    its header fields have values of their types, and header and block size are
    related by [P].  [P] differs between locally created messages and messages
    whose header came from the wire. *)
Record mem_ok (P : message_header_t → nat → Prop) (m : mem) : Prop := {
  mok_heap : heap_ok m;
  mok_owns : ∀ l msg, m_msgs m !! l = Some msg →
    ∃ d bs, data msg = Some d ∧ m_bytes m !! d = Some bs ∧
            header_ok (header msg) = true ∧ P (header msg) (length bs);
  mok_inj : ∀ l1 l2 msg1 msg2, m_msgs m !! l1 = Some msg1 → m_msgs m !! l2 = Some msg2 →
    data msg1 = data msg2 → l1 = l2;
}.

(** Locally created messages: the payload fits the capacity, the capacity the block. *)
Definition local_fit (h : message_header_t) (n : nat) : Prop :=
  hdr_length h ≤ hdr_capacity h ≤ Z.of_nat n
  ∧ hdr_capacity h ≤ UINT32_MAX - Z.of_nat sizeof_header.

(** ** Equations of the operations *)

(** Every outcome of [message_create]: NULL and an unchanged heap, or a new message
    with a new block. It never fails when no library call fails and the capacity
    is in range. *)
Lemma message_create_spec t c m :
  heap_ok m → 0 ≤ c →
  ∃ p m', message_create t c m = Ok (p, m') ∧ heap_ok m' ∧ m_queues m' = m_queues m ∧
    (m_faults m = [] → m_faults m' = [] ∧
       (c ≤ UINT32_MAX - Z.of_nat sizeof_header → is_Some p)) ∧
    match p with
    | None => m_msgs m' = m_msgs m ∧ m_bytes m' = m_bytes m
    | Some l => ∃ d a bs,
        m_msgs m !! l = None ∧ m_bytes m !! d = None ∧ l ≠ d ∧
        length bs = Z.to_nat c ∧ addr_ok a = true ∧
        c ≤ UINT32_MAX - Z.of_nat sizeof_header ∧
        m_msgs m' = <[l := Message (Header t 0 a c) (Some d)]> (m_msgs m) ∧
        m_bytes m' = <[d := bs]> (m_bytes m)
    end.
Proof.
  intros [Hb Hm Hq] Hc. unfold message_create.
  destruct (Z.ltb_spec (UINT32_MAX - Z.of_nat sizeof_header) c) as [|Hle].
  { eexists None, m. split_and!; try done. intros. split; [done|lia]. }
  unfold malloc_msg, malloc_bytes. c_simpl.
  match goal with |- context [alloc ?x m] => destruct (alloc_cases x m)
    as (fs & Hfs & [[Hne ->]| ->]) end; simpl in *.
  { eexists None, _. split; [done|]. by split_and!. }
  set (m1 := with_msgs _ _).
  match goal with |- context [alloc ?x m1] => destruct (alloc_cases x m1)
    as (fs' & Hfs' & [[Hne ->]| ->]) end; simpl in *; rewrite !lookup_insert_eq; simpl.
  { eexists None, _. split; [done|]. simpl.
    rewrite delete_insert_id by (apply Hm; lia). split_and!; try done.
    - split; simpl; auto with heap.
    - naive_solver. }
  rewrite !lookup_insert_eq; simpl.
  eexists (Some (m_next m)), _. split; [done|]. simpl. rewrite insert_insert_eq.
  split_and!; [split; simpl; auto with heap|done|naive_solver|].
  eexists (Pos.succ (m_next m)), _, _.
  split_and!; try done; try apply length_junk_block; try lia.
  - apply Hm. lia.
  - apply Hb. lia.
  - apply decode_addr_ok. rewrite length_slice; [done|].
    rewrite length_junk_block. unfold sizeof_header. lia.
Qed.

Section Equations.
Context (m : mem) (l d : loc) (h : message_header_t) (bs : list byte).
Hypothesis (Hmsg : m_msgs m !! l = Some (Message h (Some d))).
Hypothesis (Hblk : m_bytes m !! d = Some bs).

Lemma message_delete_eq :
  message_delete (Some l) m = Ok (tt, with_msgs (delete l (m_msgs m)) m).
Proof using Hmsg. unfold message_delete, free. simpl. by rewrite Hmsg. Qed.

Lemma message_write_eq src n :
  0 ≤ n ≤ hdr_capacity h → n ≤ Z.of_nat (length src) → n ≤ Z.of_nat (length bs) →
  message_write (Some l) (Some src) n m
  = Ok (MESSAGE_STATUS_SUCCESS,
        with_msgs (<[l := Message (set_length n h) (Some d)]> (m_msgs m))
          (with_bytes (<[d := splice 0 (take (Z.to_nat n) src) bs]> (m_bytes m)) m)).
Proof using Hmsg Hblk.
  intros [H0 Hcap] Hsrc Hbs. unfold message_write. c_simpl. rewrite Hmsg. simpl.
  destruct (Z.ltb_spec (hdr_capacity h) n); [lia|].
  destruct (Z.ltb_spec 0 n) as [Hn|Hn]; simpl.
  - rewrite copy_out_ok by lia. simpl. rewrite Hblk.
    rewrite copy_in_ok by (rewrite length_slice by lia; lia). simpl.
    rewrite Hblk. simpl. rewrite Hmsg. by unfold slice; rewrite drop_0.
  - assert (n = 0) as -> by lia. simpl. rewrite Hmsg. simpl.
    unfold splice. rewrite take_0, drop_0. simpl.
    rewrite (insert_id (m_bytes m) d bs) by done. by destruct m.
Qed.

(** The capacity test comes first: a write that exceeds it changes nothing. *)
Lemma message_write_full_eq src n :
  hdr_capacity h < n →
  message_write (Some l) (Some src) n m = Ok (MESSAGE_STATUS_ERROR_WRITE, m).
Proof using Hmsg.
  intros Hn. unfold message_write. c_simpl. rewrite Hmsg. simpl.
  by destruct (Z.ltb_spec (hdr_capacity h) n); [|lia].
Qed.

(** A header whose capacity exceeds the block lets [memcpy] run past the block. *)
Lemma message_write_overrun src n :
  Z.of_nat (length bs) < n ≤ hdr_capacity h → n ≤ Z.of_nat (length src) →
  message_write (Some l) (Some src) n m = Undefined UB_bounds.
Proof using Hmsg Hblk.
  intros [Hn Hcap] Hsrc. unfold message_write. c_simpl. rewrite Hmsg. simpl.
  destruct (Z.ltb_spec (hdr_capacity h) n); [lia|].
  destruct (Z.ltb_spec 0 n); [|lia].
  rewrite copy_out_ok by lia. simpl. rewrite Hblk.
  rewrite copy_in_bad; [done|]. rewrite length_slice by lia. lia.
Qed.

Lemma message_read_eq dst n rl :
  0 < n → 0 < hdr_length h → hdr_length h ≤ Z.of_nat (length bs) →
  Z.min n (hdr_length h) ≤ Z.of_nat (length dst) →
  message_read (Some l) (Some dst) n rl m
  = Ok ((MESSAGE_STATUS_SUCCESS,
         Some (splice 0 (take (Z.to_nat (Z.min n (hdr_length h))) bs) dst),
         Z.min n (hdr_length h)), m).
Proof using Hmsg Hblk.
  intros Hn Hl Hbs Hdst. unfold message_read. c_simpl. rewrite Hmsg. simpl.
  assert ((if n <? hdr_length h then n else hdr_length h) = Z.min n (hdr_length h)) as ->.
  { destruct (Z.ltb_spec n (hdr_length h)); lia. }
  destruct (Z.ltb_spec 0 (Z.min n (hdr_length h))); [|lia]. simpl.
  rewrite Hblk, copy_out_ok by lia. simpl.
  rewrite copy_in_ok by (rewrite length_slice by lia; lia). simpl.
  by unfold slice; rewrite drop_0.
Qed.

Lemma message_read_empty_eq dst n rl :
  0 ≤ n → hdr_length h = 0 →
  message_read (Some l) (Some dst) n rl m = Ok ((MESSAGE_STATUS_ERROR_READ, Some dst, 0), m).
Proof using Hmsg.
  intros Hn Hl. unfold message_read. c_simpl. rewrite Hmsg. simpl. rewrite Hl.
  by destruct (Z.ltb_spec n 0); [lia|].
Qed.

Lemma message_size_eq :
  message_size (Some l) m = Ok (wrap32 (Z.of_nat sizeof_header + hdr_length h), m).
Proof using Hmsg. unfold message_size. c_simpl. by rewrite Hmsg. Qed.

Lemma message_add_owner_addr_eq a :
  message_add_owner_addr (Some l) a m
  = Ok (MESSAGE_STATUS_SUCCESS,
        with_msgs (<[l := Message (set_owner_addr a h) (Some d)]> (m_msgs m)) m).
Proof using Hmsg. unfold message_add_owner_addr. c_simpl. rewrite Hmsg. simpl. by rewrite Hmsg. Qed.
End Equations.

(** ** Preservation of the memory invariant *)
Section Preservation.
Context (P : message_header_t → nat → Prop).

(** Storing a new header and a new block of any size keeps the invariant. *)
Lemma mem_ok_update m l d h h' bs bs' :
  mem_ok P m → m_msgs m !! l = Some (Message h (Some d)) → m_bytes m !! d = Some bs →
  header_ok h' = true → P h' (length bs') →
  mem_ok P (with_msgs (<[l := Message h' (Some d)]> (m_msgs m))
              (with_bytes (<[d := bs']> (m_bytes m)) m)).
Proof.
  intros [[Fb Fm Fq] Own Inj] Hmsg Hblk Hok HP.
  assert (Hne : ∀ k msg, k ≠ l → m_msgs m !! k = Some msg → data msg ≠ Some d).
  { intros k msg Hk E Hd. apply Hk. eapply Inj; [done|exact Hmsg|done]. }
  split; simpl.
  - split; simpl; eauto with heap.
  - intros k msg. rewrite lookup_insert_Some. intros [[<- <-]|[Hk E]]; simpl.
    + exists d, bs'. by rewrite lookup_insert_eq.
    + destruct (Own k msg E) as (d' & bs0 & Hd & Hb & Hr). exists d', bs0.
      rewrite lookup_insert_ne; [done|]. intros <-. by eapply Hne.
  - intros k1 k2 m1 m2. rewrite !lookup_insert_Some.
    intros [[<- <-]|[Hk1 E1]] [[<- <-]|[Hk2 E2]] Hd; simpl in *; try done.
    + exfalso. by eapply (Hne k2 m2).
    + exfalso. by eapply (Hne k1 m1).
    + by eapply Inj.
Qed.

Lemma mem_ok_delete m l : mem_ok P m → mem_ok P (with_msgs (delete l (m_msgs m)) m).
Proof.
  intros [[Fb Fm Fq] Own Inj]. split; simpl.
  - split; simpl; eauto with heap.
  - intros k msg [_ E]%lookup_delete_Some. by eapply Own.
  - intros k1 k2 m1 m2 [_ E1]%lookup_delete_Some [_ E2]%lookup_delete_Some. by eapply Inj.
Qed.

(** A fresh message with a fresh block. *)
Lemma mem_ok_insert m m' l d h bs :
  mem_ok P m → heap_ok m' → m_bytes m !! d = None →
  m_msgs m' = <[l := Message h (Some d)]> (m_msgs m) → m_bytes m' = <[d := bs]> (m_bytes m) →
  header_ok h = true → P h (length bs) → mem_ok P m'.
Proof.
  intros [_ Own Inj] HH Hd Em Eb Hok HP.
  assert (Hne : ∀ k msg, m_msgs m !! k = Some msg → data msg ≠ Some d).
  { intros k msg E Hd'. destruct (Own k msg E) as (d' & bs0 & ? & ? & _). congruence. }
  split; [done| |]; rewrite ?Em, ?Eb.
  - intros k msg. rewrite lookup_insert_Some. intros [[<- <-]|[Hk E]]; simpl.
    + exists d, bs. by rewrite lookup_insert_eq.
    + destruct (Own k msg E) as (d' & bs0 & Hd' & Hb & Hr). exists d', bs0.
      rewrite lookup_insert_ne; [done|]. intros <-. by eapply Hne.
  - intros k1 k2 m1 m2. rewrite !lookup_insert_Some.
    intros [[<- <-]|[Hk1 E1]] [[<- <-]|[Hk2 E2]] Hdd; simpl in *; try done.
    + exfalso. by eapply (Hne k2 m2).
    + exfalso. by eapply (Hne k1 m1).
    + by eapply Inj.
Qed.

(** A message that gets a fresh block in place of its old one, which is freed. *)
Lemma mem_ok_replace m m' l d q h h' bs' :
  mem_ok P m → heap_ok m' → m_msgs m !! l = Some (Message h (Some d)) → m_bytes m !! q = None →
  m_msgs m' = <[l := Message h' (Some q)]> (m_msgs m) →
  m_bytes m' = delete d (<[q := bs']> (m_bytes m)) →
  header_ok h' = true → P h' (length bs') → mem_ok P m'.
Proof.
  intros [_ Own Inj] HH Hl Hq Em Eb Hok HP.
  assert (Hqd : q ≠ d) by (destruct (Own l _ Hl) as (d' & bs0 & ? & ? & _); simpl in *; congruence).
  assert (Hne : ∀ k msg, k ≠ l → m_msgs m !! k = Some msg → data msg ≠ Some d ∧ data msg ≠ Some q).
  { intros k msg Hk E. split; intros Hd.
    - apply Hk. eapply Inj; [exact E|exact Hl|done].
    - destruct (Own k msg E) as (d' & bs0 & ? & ? & _). congruence. }
  split; [done| |]; rewrite ?Em, ?Eb.
  - intros k msg. rewrite lookup_insert_Some. intros [[<- <-]|[Hk E]]; simpl.
    + exists q, bs'. by rewrite lookup_delete_ne, lookup_insert_eq by done.
    + destruct (Own k msg E) as (d' & bs0 & Hd' & Hb & Hr). exists d', bs0.
      destruct (Hne k msg) as [? ?]; [congruence|done|].
      rewrite lookup_delete_ne, lookup_insert_ne by congruence. done.
  - intros k1 k2 m1 m2. rewrite !lookup_insert_Some.
    intros [[<- <-]|[Hk1 E1]] [[<- <-]|[Hk2 E2]] Hdd; simpl in *; try done.
    + exfalso. destruct (Hne k2 m2) as [? ?]; congruence.
    + exfalso. destruct (Hne k1 m1) as [? ?]; congruence.
    + by eapply Inj.
Qed.

(** Replacing header and block, in place or by a new block. *)
Lemma only_touches_update m m' x d h bs h' bs' :
  mem_ok P m → m_msgs m !! x = Some (Message h (Some d)) → m_bytes m !! d = Some bs →
  m_msgs m' = <[x := Message h' (Some d)]> (m_msgs m) → m_bytes m' = <[d := bs']> (m_bytes m) → only_touches m m' x.
Proof.
  intros [_ _ Hinj] Hx Hd Em Eb. split.
  - intros y. rewrite Em, lookup_insert_is_Some. destruct (decide (x = y)) as [->|]; [rewrite Hx|]; naive_solver.
  - intros z Hne hz bz (dz & Hz & Hdz). exists dz. rewrite Em, Eb, lookup_insert_ne by done.
    split; [done|]. rewrite lookup_insert_ne; [done|]. intros <-. apply Hne. by eapply Hinj.
Qed.

Lemma only_touches_replace m m' x d q h h' bs' :
  mem_ok P m → m_msgs m !! x = Some (Message h (Some d)) → m_bytes m !! q = None →
  m_msgs m' = <[x := Message h' (Some q)]> (m_msgs m) → m_bytes m' = delete d (<[q := bs']> (m_bytes m)) →
  only_touches m m' x.
Proof.
  intros [_ _ Hinj] Hx Hq Em Eb. split.
  - intros y. rewrite Em, lookup_insert_is_Some. destruct (decide (x = y)) as [->|]; [rewrite Hx|]; naive_solver.
  - intros z Hne hz bz (dz & Hz & Hdz). exists dz. rewrite Em, Eb, lookup_insert_ne by done. split; [done|].
    rewrite lookup_delete_ne, lookup_insert_ne; [done|congruence|]. intros <-. apply Hne. by eapply Hinj.
Qed.

Lemma mem_ok_live m l msg :
  mem_ok P m → m_msgs m !! l = Some msg →
  ∃ h d bs, msg = Message h (Some d) ∧ m_bytes m !! d = Some bs ∧
            header_ok h = true ∧ P h (length bs).
Proof.
  intros [_ Own _] E. destruct (Own l msg E) as (d & bs & Hd & Hb & Hok & HP).
  destruct msg as [h dp]; simpl in *; subst. by exists h, d, bs.
Qed.
End Preservation.

(** ** An executable check of the memory invariant *)
Section Check.
Context (P : message_header_t → nat → Prop) `{∀ h n, Decision (P h n)}.

Definition owns_blockb (m : mem) (msg : message_t) : bool :=
  match data msg with
  | None => false
  | Some d => match m_bytes m !! d with
              | None => false
              | Some bs => header_ok (header msg) && bool_decide (P (header msg) (length bs))
              end
  end.

Definition mem_okb (m : mem) : bool :=
  heap_okb m && bool_decide (map_Forall (λ _ msg, owns_blockb m msg = true) (m_msgs m)) &&
  bool_decide (map_Forall (λ l1 msg1,
    map_Forall (λ l2 msg2, data msg1 = data msg2 → l1 = l2) (m_msgs m)) (m_msgs m)).

Lemma mem_okb_sound m : mem_okb m = true → mem_ok P m.
Proof.
  unfold mem_okb.
  intros [[Hh Ho%bool_decide_eq_true_1]%andb_true_iff Hi%bool_decide_eq_true_1]%andb_true_iff.
  split; [by apply heap_okb_sound| |].
  - intros l msg E%Ho. simpl in E. unfold owns_blockb in E.
    destruct (data msg) as [d|]; [|done]. destruct (m_bytes m !! d) as [bs|] eqn:Eb; [|done].
    apply andb_true_iff in E as [? ?%bool_decide_eq_true_1]. by exists d, bs.
  - intros l1 l2 m1 m2 E1 E2. by apply (Hi l1 m1 E1 l2 m2 E2).
Qed.
End Check.

#[export] Instance local_fit_dec h n : Decision (local_fit h n).
Proof. unfold local_fit. apply _. Defined.

(** ** Properties *)

(** Locally created memory is a [local_fit] memory: creation keeps the invariant. *)
Lemma message_create_local_fit t c m p m' :
  mem_ok local_fit m → 0 ≤ t < 2 ^ 32 → 0 ≤ c →
  message_create t c m = Ok (p, m') → mem_ok local_fit m'.
Proof.
  intros Hok Ht Hc E.
  destruct (message_create_spec t c m) as (p' & m'' & E' & HH & _ & _ & Hp);
    [apply Hok|done|].
  rewrite E in E'; simplify_eq.
  destruct p' as [l|].
  - destruct Hp as (d & a & bs & Hl & Hd & _ & Hbs & Ha & Hcap & Em & Eb).
    eapply mem_ok_insert; [done|done|exact Hd|exact Em|exact Eb| |].
    + apply header_ok_spec. simpl. split_and!; try done; try lia.
      unfold UINT32_MAX, sizeof_header in *. lia.
    + unfold local_fit; simpl. rewrite Hbs. lia.
  - destruct Hp as [Em Eb]. destruct Hok as [_ Own Inj].
    split; [done|by rewrite Em, Eb|by rewrite Em].
Qed.

(** [message_create] on every branch.  It returns for every sequence of
    allocation failures; it returns NULL exactly with an unchanged heap (the
    half-built message is freed again), otherwise the new message is empty, has the
    requested type and capacity and a fresh data block of that capacity; and it
    succeeds when nothing fails and the capacity leaves room for the header. *)
Theorem message_create_total t c m :
  mem_ok local_fit m → 0 ≤ t < 2 ^ 32 → 0 ≤ c →
  ∃ p m', message_create t c m = Ok (p, m') ∧ mem_ok local_fit m' ∧
    (m_faults m = [] → c ≤ UINT32_MAX - Z.of_nat sizeof_header → is_Some p) ∧
    match p with
    | None => m_msgs m' = m_msgs m ∧ m_bytes m' = m_bytes m
    | Some l => m_msgs m !! l = None ∧
        ∃ h bs, message_at m' l h bs ∧ hdr_type h = t ∧ hdr_length h = 0 ∧
                hdr_capacity h = c ∧ length bs = Z.to_nat c
    end.
Proof.
  intros Hok Ht Hc.
  destruct (message_create_spec t c m) as (p & m' & E & HH & _ & Hf & Hp);
    [apply Hok|done|].
  exists p, m'. split_and!; [done|by eapply message_create_local_fit|naive_solver|].
  destruct p as [l|]; [|done].
  destruct Hp as (d & a & bs & Hl & Hd & _ & Hbs & Ha & Hcap & Em & Eb).
  split; [done|]. exists (Header t 0 a c), bs. split_and!; try done.
  exists d. by rewrite Em, Eb, !lookup_insert_eq.
Qed.

Lemma message_create_total_witness :
  ∃ p m', message_create 1 8 mem0 = Ok (p, m') ∧ mem_ok local_fit m' ∧ is_Some p.
Proof.
  destruct (message_create_total 1 8 mem0) as (p & m' & E & Hok & Hs & _);
    [by apply (mem_okb_sound local_fit)|lia|lia|].
  exists p, m'. split_and!; [done|done|]. apply Hs; [done|]. by vm_compute.
Defined.

(** A memory with one message of capacity 8 at address 1. *)
Definition mem1 : mem := run (message_create 1 8) mem0.
Definition msg1 : message_t := Message (Header 1 0 (SockAddr 0 0 0 (replicate 8 NUL)) 8) (Some 2%positive).
Lemma mem1_ok : mem_ok local_fit mem1.
Proof. apply (mem_okb_sound local_fit). by vm_compute. Qed.
Lemma mem1_msg : m_msgs mem1 !! 1%positive = Some msg1.
Proof. by vm_compute. Qed.

(** [message_write] is memory safe on a well-formed heap: for a live (or NULL)
    message and any source of at least [n] bytes it returns, keeps the invariant,
    and reports [ERROR_WRITE] with an unchanged heap exactly when the capacity is
    smaller than [n]. *)
Theorem message_write_safe m l msg src n :
  mem_ok local_fit m → m_msgs m !! l = Some msg → 0 ≤ n ≤ Z.of_nat (length src) →
  ∃ st m', message_write (Some l) (Some src) n m = Ok (st, m') ∧ mem_ok local_fit m' ∧
    (hdr_capacity (header msg) < n ↔ st = MESSAGE_STATUS_ERROR_WRITE) ∧
    (st = MESSAGE_STATUS_ERROR_WRITE → m' = m) ∧
    (st ≠ MESSAGE_STATUS_ERROR_WRITE →
       st = MESSAGE_STATUS_SUCCESS ∧
       ∃ h bs, message_at m' l h bs ∧ hdr_length h = n ∧
               take (Z.to_nat n) bs = take (Z.to_nat n) src).
Proof.
  intros Hok Hl Hn.
  destruct (mem_ok_live _ _ _ _ Hok Hl) as (h & d & bs & -> & Hd & Hh & [Hf1 Hf2]).
  simpl. destruct (Z.ltb_spec (hdr_capacity h) n) as [Hlt|Hge].
  { eexists _, _. split; [by eapply message_write_full_eq|]. naive_solver. }
  eexists _, _. split; [eapply message_write_eq; eauto; lia|].
  assert (Hs : length (splice 0 (take (Z.to_nat n) src) bs) = length bs).
  { apply length_splice. rewrite length_take. lia. }
  split_and!; [|split; [lia|done]|done|].
  - eapply mem_ok_update; eauto.
    + apply header_ok_spec in Hh as (? & ? & ? & ?). apply header_ok_spec; simpl.
      split_and!; try done; lia.
    + rewrite Hs. unfold local_fit in *; simpl; lia.
  - intros _. split; [done|]. eexists _, _. split; [exists d; simpl; by rewrite !lookup_insert_eq|].
    split; [done|]. rewrite take_splice_0 by (rewrite length_take; lia).
    by rewrite take_take, Nat.min_id.
Qed.

Lemma message_write_safe_witness :
  ∃ st m', message_write (Some 1%positive) (Some (replicate 9 Byte.x41)) 9 mem1 = Ok (st, m') ∧
    st = MESSAGE_STATUS_ERROR_WRITE.
Proof.
  destruct (message_write_safe mem1 1 msg1 (replicate 9 Byte.x41) 9 mem1_ok mem1_msg)
    as (st & m' & E & _ & Hst & _); [simpl; lia|].
  exists st, m'. split; [done|]. apply Hst. simpl. lia.
Defined.

(** What is written is what is read.  After a successful [message_write] of [n]
    bytes, [message_read] into a buffer of at least [n] bytes succeeds, reports
    [n] bytes and leaves exactly the written bytes at the start of the buffer,
    whatever the requested length at or above [n]. *)
Theorem message_write_read m l msg src n m1 dst len rl :
  mem_ok local_fit m → m_msgs m !! l = Some msg → 0 < n ≤ Z.of_nat (length src) →
  ⟦ message_write (Some l) (Some src) n ⟧ m ⇓ MESSAGE_STATUS_SUCCESS, m1 →
  n ≤ len → n ≤ Z.of_nat (length dst) →
  ⟦ message_read (Some l) (Some dst) len rl ⟧ m1
    ⇓ (MESSAGE_STATUS_SUCCESS, Some (splice 0 (take (Z.to_nat n) src) dst), n), m1.
Proof.
  unfold returns. intros Hok Hl Hn E Hlen Hdst.
  destruct (mem_ok_live _ _ _ _ Hok Hl) as (h & d & bs & -> & Hd & Hh & [Hf1 Hf2]).
  destruct (Z.ltb_spec (hdr_capacity h) n) as [Hlt|Hge].
  { by rewrite (message_write_full_eq m l d h Hl src n Hlt) in E. }
  rewrite (message_write_eq m l d h bs Hl Hd src n) in E by lia.
  injection E as <-.
  erewrite message_read_eq; simpl; [|apply lookup_insert_eq|apply lookup_insert_eq| | | |];
    rewrite ?length_splice by (rewrite length_take; lia); simpl; try lia.
  rewrite Z.min_r, take_splice_0 by (rewrite ?length_take; lia).
  by rewrite take_take, Nat.min_id.
Qed.

Lemma message_write_read_witness :
  ∃ m1, ⟦ message_read (Some 1%positive) (Some (replicate 4 NUL)) 4 0 ⟧ m1
    ⇓ (MESSAGE_STATUS_SUCCESS, Some [Byte.x41; Byte.x42; Byte.x43; NUL], 3), m1.
Proof.
  eexists.
  apply (message_write_read mem1 1 msg1 [Byte.x41; Byte.x42; Byte.x43] 3 _ (replicate 4 NUL) 4 0
           mem1_ok mem1_msg); [simpl; lia|by vm_compute|lia|simpl; lia].
Defined.

(** [message_size] never wraps around for messages of the local heap: the guard of
    [message_create] on the capacity and the guard of [message_write] on the length
    keep header plus payload within a [uint32_t]. *)
Theorem message_size_exact m l msg :
  mem_ok local_fit m → m_msgs m !! l = Some msg →
  ⟦ message_size (Some l) ⟧ m ⇓ Z.of_nat sizeof_header + hdr_length (header msg), m.
Proof.
  intros Hok Hl. unfold returns.
  destruct (mem_ok_live _ _ _ _ Hok Hl) as (h & d & bs & -> & Hd & Hh & [Hf1 Hf2]).
  erewrite message_size_eq by done. do 2 f_equal. simpl. unfold wrap32.
  apply header_ok_spec in Hh as (_ & ? & _). apply Z.mod_small.
  unfold UINT32_MAX, sizeof_header in *. lia.
Qed.

Lemma message_size_exact_witness : ⟦ message_size (Some 1%positive) ⟧ mem1 ⇓ 28, mem1.
Proof. exact (message_size_exact mem1 1 msg1 mem1_ok mem1_msg). Defined.

(** [message_delete] frees the struct only.  Deleting a live message leaves its
    data block allocated although no message refers to it any more: every deleted
    message leaks its block. *)
Theorem message_delete_leaks m l msg :
  mem_ok local_fit m → m_msgs m !! l = Some msg →
  ∃ d bs m', data msg = Some d ∧ message_delete (Some l) m = Ok (tt, m') ∧
    m_msgs m' !! l = None ∧ m_bytes m' !! d = Some bs ∧
    (∀ k msg', m_msgs m' !! k = Some msg' → data msg' ≠ Some d).
Proof.
  intros Hok Hl.
  destruct (mem_ok_live _ _ _ _ Hok Hl) as (h & d & bs & -> & Hd & _ & _).
  exists d, bs. eexists. split; [done|]. split; [by eapply message_delete_eq|].
  simpl. split_and!; [apply lookup_delete_eq|done|].
  intros k msg' [Hk E]%lookup_delete_Some Hdd.
  apply Hk. symmetry. eapply (mok_inj _ _ Hok); [exact E|exact Hl|done].
Qed.

Lemma message_delete_leaks_witness :
  ∃ d bs m', message_delete (Some 1%positive) mem1 = Ok (tt, m') ∧ m_bytes m' !! d = Some bs.
Proof.
  destruct (message_delete_leaks mem1 1 msg1 mem1_ok mem1_msg) as (d & bs & m' & _ & E & _ & Hd & _).
  by exists d, bs, m'.
Defined.
