(* ===== verification/MessageQueue.v ===== *)
(** * MessageQueue: network/message_queue.c

    A ring buffer of message pointers with a mutex and a condition variable.  The
    operations are the sequential code of one thread: a lock that is held, or an
    empty queue on which [message_queue_dequeue] waits, gives the outcome [Blocked].
    The second half of the file abstracts a queue to the list of the messages it
    holds and proves that the operations refine the operations on lists. *)
From S2P Require Import Prelude Layout Memory Message.

Local Open Scope Z_scope.

Inductive message_queue_status_t : Type :=
  | MESSAGE_QUEUE_STATUS_SUCCESS
  | MESSAGE_QUEUE_STATUS_ERROR_NULL_POINTER
  | MESSAGE_QUEUE_STATUS_ERROR_MEMORY_ALLOC
  | MESSAGE_QUEUE_STATUS_ERROR_MUTEX
  | MESSAGE_QUEUE_STATUS_ERROR_CONDVAR
  | MESSAGE_QUEUE_STATUS_ERROR_QUEUE_FULL.

#[export] Instance message_queue_status_t_eq_dec : EqDecision message_queue_status_t.
Proof. solve_decision. Defined.

(** ** Field updates *)
Definition set_buffer (b : list ptr) (q : message_queue_t) : message_queue_t :=
  Queue b (q_capacity q) (q_head q) (q_tail q) (q_mutex q).
Definition set_head (h : Z) (q : message_queue_t) : message_queue_t :=
  Queue (q_buffer q) (q_capacity q) h (q_tail q) (q_mutex q).
Definition set_tail (t : Z) (q : message_queue_t) : message_queue_t :=
  Queue (q_buffer q) (q_capacity q) (q_head q) t (q_mutex q).
Definition set_mutex (b : bool) (q : message_queue_t) : message_queue_t :=
  Queue (q_buffer q) (q_capacity q) (q_head q) (q_tail q) b.

(** [queue->buffer[i]], read and written; an index outside the array is undefined. *)
Definition buffer_get (q : message_queue_t) (i : Z) : M mem ptr :=
  if i <? 0 then undefined UB_bounds else deref UB_bounds (q_buffer q !! Z.to_nat i).
Definition buffer_set (q : message_queue_t) (i : Z) (p : ptr) : M mem message_queue_t :=
  if (i <? 0) || (Z.of_nat (length (q_buffer q)) <=? i) then undefined UB_bounds
  else ret (set_buffer (<[Z.to_nat i := p]> (q_buffer q)) q).

(** ** pthread mutexes: [true] is the return value 0 *)
Definition mutex_lock (queue : ptr) : M mem bool :=
  let* ok := fallible in
  if ok then
    let* q := load queue in
    if q_mutex q then blocked else store queue (set_mutex true q) ;; ret true
  else ret false.

Definition mutex_unlock (queue : ptr) : M mem bool :=
  let* ok := fallible in
  if ok then
    let* q := load queue in
    if q_mutex q then store queue (set_mutex false q) ;; ret true else undefined UB_mutex
  else ret false.

(** ** Operations *)
Definition message_queue_create (capacity : Z) : M mem ptr :=
  if capacity <=? 0 then ret None else
  let* queue := alloc (Queue [] 0 0 0 false) in
  match queue with
  | None => ret None
  | Some _ =>
      let* buffer_ok := fallible in
      if negb buffer_ok then free message_queue_t queue ;; ret None else
      let* mutex_ok := fallible in
      if negb mutex_ok then free message_queue_t queue ;; ret None else
      let* cond_ok := fallible in
      if negb cond_ok then free message_queue_t queue ;; ret None else
      store queue (Queue (replicate (Z.to_nat capacity) None) capacity 0 0 false) ;;
      ret queue
  end.

(** Lines 70-80: the loop of [message_queue_delete] from index [i] to the tail. *)
Fixpoint delete_messages (fuel : nat) (q : message_queue_t) (i : Z) : M mem unit :=
  if i =? q_tail q then ret tt else
  match fuel with
  | O => no_fuel
  | S fuel =>
      let* tmp := buffer_get q i in
      message_delete tmp ;;
      let* i1 := int_add i 1 in
      delete_messages fuel q (int_rem i1 (q_capacity q))
  end.

Definition message_queue_delete (queue : ptr) : M mem unit :=
  match queue with
  | None => ret tt
  | Some _ =>
      mutex_lock queue ;;
      let* q := load queue in
      delete_messages (Z.to_nat (q_capacity q)) q (q_head q) ;;
      store queue (set_head 0 (set_tail 0 q)) ;;
      mutex_unlock queue ;;
      free message_queue_t queue
  end.

(** Lines 117-122: drop messages until the head reaches its target. *)
Fixpoint clear_half (fuel : nat) (queue : ptr) (next_tail : Z) : M mem unit :=
  let* q := load queue in
  let* s := int_add next_tail (int_div (q_capacity q) 2) in
  if q_head q =? int_rem s (q_capacity q) then ret tt else
  match fuel with
  | O => no_fuel
  | S fuel =>
      let* tmp := buffer_get q (q_head q) in
      message_delete tmp ;;
      let* h := int_add (q_head q) 1 in
      store queue (set_head (int_rem h (q_capacity q)) q) ;;
      clear_half fuel queue next_tail
  end.

(** Lines 111-126: make room if the queue is full, then append. *)
Definition enqueue_locked (queue message : ptr) : M mem unit :=
  let* q := load queue in
  let* t := int_add (q_tail q) 1 in
  let next_tail := int_rem t (q_capacity q) in
  (if next_tail =? q_head q
   then clear_half (Z.to_nat (q_capacity q)) queue next_tail else ret tt) ;;
  let* q := load queue in
  let* q := buffer_set q (q_tail q) message in
  store queue (set_tail next_tail q).

Definition message_queue_enqueue (queue message : ptr) : M mem message_queue_status_t :=
  match queue, message with
  | Some _, Some _ =>
      let* locked := mutex_lock queue in
      if negb locked then ret MESSAGE_QUEUE_STATUS_ERROR_MUTEX else
      enqueue_locked queue message ;;
      let* signalled := fallible in
      if negb signalled then
        mutex_unlock queue ;; ret MESSAGE_QUEUE_STATUS_ERROR_CONDVAR
      else
      let* unlocked := mutex_unlock queue in
      if negb unlocked then ret MESSAGE_QUEUE_STATUS_ERROR_MUTEX
      else ret MESSAGE_QUEUE_STATUS_SUCCESS
  | _, _ => ret MESSAGE_QUEUE_STATUS_ERROR_NULL_POINTER
  end.

(** Lines 169-178 and 205-214: take the message at the head and unlock. *)
Definition take_head (queue : ptr) : M mem ptr :=
  let* q := load queue in
  let* message := buffer_get q (q_head q) in
  let* h := int_add (q_head q) 1 in
  store queue (set_head (int_rem h (q_capacity q)) q) ;;
  let* unlocked := mutex_unlock queue in
  if negb unlocked then ret None else ret message.

(** [pthread_cond_wait] on an empty queue suspends the thread: [Blocked]. *)
Definition message_queue_dequeue (queue : ptr) : M mem ptr :=
  match queue with
  | None => ret None
  | Some _ =>
      let* locked := mutex_lock queue in
      if negb locked then ret None else
      let* q := load queue in
      if q_head q =? q_tail q then
        let* waited := fallible in
        if negb waited then mutex_unlock queue ;; ret None else blocked
      else take_head queue
  end.

Definition message_queue_dequeue_nonblocking (queue : ptr) : M mem ptr :=
  match queue with
  | None => ret None
  | Some _ =>
      let* locked := mutex_lock queue in
      if negb locked then ret None else
      let* q := load queue in
      if q_head q =? q_tail q then
        let* unlocked := mutex_unlock queue in
        if negb unlocked then ret None else ret None
      else take_head queue
  end.

Definition message_queue_wait (queue : ptr) : M mem ptr := message_queue_dequeue queue.

#[global] Arguments message_queue_create : simpl never.
#[global] Arguments message_queue_delete : simpl never.
#[global] Arguments message_queue_enqueue : simpl never.
#[global] Arguments message_queue_dequeue : simpl never.
#[global] Arguments message_queue_dequeue_nonblocking : simpl never.

(** ** Abstraction: the messages of a ring buffer, oldest first *)
Definition ring_len (cap h t : nat) : nat := (t + cap - h) mod cap.
Definition ring (buf : list ptr) (cap h t : nat) : list ptr :=
  (λ k, buf !!! ((h + k) mod cap)%nat) <$> seq 0 (ring_len cap h t).

Definition q_elems (q : message_queue_t) : list ptr :=
  ring (q_buffer q) (Z.to_nat (q_capacity q)) (Z.to_nat (q_head q)) (Z.to_nat (q_tail q)).

(** The type invariant of a queue.  The bound on the capacity keeps
    [next_tail + capacity / 2] within an [int]. *)
Record queue_ok (q : message_queue_t) : Prop := {
  qok_cap : 0 < q_capacity q;
  qok_int : q_capacity q + q_capacity q / 2 ≤ INT_MAX;
  qok_buf : length (q_buffer q) = Z.to_nat (q_capacity q);
  qok_head : 0 ≤ q_head q < q_capacity q;
  qok_tail : 0 ≤ q_tail q < q_capacity q;
}.

(** ** The abstract queue: a bounded FIFO that forgets its oldest half on overflow *)
Definition fifo_enqueue (cap : nat) (x : loc) (xs : list loc) : list loc :=
  if bool_decide (length xs + 1 = cap)%nat then drop (cap / 2) xs ++ [x] else xs ++ [x].
Definition fifo_dropped (cap : nat) (xs : list loc) : list loc :=
  if bool_decide (length xs + 1 = cap)%nat then take (cap / 2) xs else [].
Definition fifo_dequeue (xs : list loc) : ptr * list loc :=
  match xs with [] => (None, []) | x :: xs => (Some x, xs) end.

(** ** Lemmas on rings *)
Section Ring.
Local Open Scope nat_scope.
Context (cap : nat).
Hypothesis (Hcap : 0 < cap).
Implicit Types (buf : list ptr) (h t k n : nat).

Lemma mod_below_twice n : n < 2 * cap → n mod cap = if decide (n < cap) then n else n - cap.
Proof using Hcap.
  intros Hn. case_decide; [by apply Nat.mod_small|].
  symmetry. apply (Nat.mod_unique _ _ 1); lia.
Qed.

Lemma ring_len_cases h t :
  h < cap → t < cap → ring_len cap h t = if decide (h ≤ t) then t - h else t + cap - h.
Proof using Hcap.
  intros. unfold ring_len. rewrite mod_below_twice by lia. repeat case_decide; lia.
Qed.

Lemma next_cases n : n < cap → (n + 1) mod cap = if decide (n + 1 = cap) then 0 else n + 1.
Proof using Hcap. intros. rewrite mod_below_twice by lia. repeat case_decide; lia. Qed.

Lemma ring_length buf h t : length (ring buf cap h t) = ring_len cap h t.
Proof. unfold ring. by rewrite length_fmap, length_seq. Qed.

Lemma ring_nil buf h : h < cap → ring buf cap h h = [].
Proof using Hcap.
  intros. apply nil_length_inv. rewrite ring_length, ring_len_cases by lia.
  case_decide; lia.
Qed.

Lemma ring_pop buf h t :
  h < cap → t < cap → h ≠ t →
  ring buf cap h t = buf !!! h :: ring buf cap ((h + 1) mod cap) t.
Proof using Hcap.
  intros Hh Ht Hne. unfold ring.
  assert (ring_len cap h t = S (ring_len cap ((h + 1) mod cap) t)) as ->.
  { rewrite next_cases by done.
    rewrite !ring_len_cases by (done || (case_decide; lia)). repeat case_decide; lia. }
  simpl. rewrite Nat.add_0_r, (Nat.mod_small h) by done. f_equal.
  rewrite <- fmap_S_seq, <- list_fmap_compose. apply list_fmap_ext. intros i k _. simpl.
  rewrite Nat.Div0.add_mod_idemp_l. do 2 f_equal. lia.
Qed.

Lemma ring_push buf h t p :
  h < cap → t < cap → (t + 1) mod cap ≠ h → length buf = cap →
  ring (<[t := p]> buf) cap h ((t + 1) mod cap) = ring buf cap h t ++ [p].
Proof using Hcap.
  intros Hh Ht Hne Hlen. unfold ring. rewrite next_cases in Hne |- * by done.
  assert (ring_len cap h (if decide (t + 1 = cap) then 0 else t + 1) = S (ring_len cap h t)) as ->.
  { rewrite !ring_len_cases by (done || (case_decide; lia)). repeat case_decide; lia. }
  rewrite seq_S, fmap_app. simpl. f_equal.
  - apply list_fmap_ext. intros i k Hk%list_elem_of_lookup_2%elem_of_seq.
    rewrite list_lookup_total_insert_ne; [done|].
    rewrite ring_len_cases in Hk by done.
    rewrite mod_below_twice by (repeat case_decide; lia). repeat case_decide; lia.
  - f_equal. rewrite ring_len_cases by done.
    replace ((h + (if decide (h ≤ t) then t - h else t + cap - h)) mod cap) with t.
    + by rewrite list_lookup_total_insert_eq by lia.
    + rewrite mod_below_twice by (repeat case_decide; lia). repeat case_decide; lia.
Qed.

(** [k] steps of the head drop the [k] oldest entries. *)
Lemma ring_drop buf k : ∀ h t,
  h < cap → t < cap → k ≤ ring_len cap h t →
  ring buf cap ((h + k) mod cap) t = drop k (ring buf cap h t).
Proof using Hcap.
  induction k as [|k IH]; intros h t Hh Ht Hk.
  { rewrite Nat.add_0_r, Nat.mod_small by done. done. }
  assert (h ≠ t) by (intros ->; rewrite ring_len_cases in Hk by done; case_decide; lia).
  rewrite (ring_pop buf h t) by done. simpl.
  rewrite <- IH.
  - f_equal. rewrite Nat.Div0.add_mod_idemp_l. f_equal. lia.
  - apply Nat.mod_upper_bound. lia.
  - done.
  - rewrite <- (ring_length buf) in Hk |- *. rewrite (ring_pop buf h t) in Hk by done.
    simpl in Hk. lia.
Qed.
End Ring.

(** All of [xs] are live and distinct. *)
Definition live (m : mem) (xs : list loc) : Prop :=
  NoDup xs ∧ ∀ x, x ∈ xs → is_Some (m_msgs m !! x).

(** ** The representation predicate

    [queue_at m l cap xs]: the queue at [l] is well formed, unlocked and holds exactly
    the messages [xs], oldest first; they are live and pairwise distinct. *)
Definition queue_at (m : mem) (l : loc) (cap : Z) (xs : list loc) : Prop :=
  ∃ q, m_queues m !! l = Some q ∧ queue_ok q ∧ q_mutex q = false ∧ q_capacity q = cap ∧
       q_elems q = Some <$> xs ∧ live m xs.

(** Freeing a list of messages. *)
Definition delete_all (xs : list loc) (h : gmap loc message_t) : gmap loc message_t :=
  foldr (λ x h, delete x h) h xs.

Lemma lookup_delete_all xs h x :
  delete_all xs h !! x = if decide (x ∈ xs) then None else h !! x.
Proof.
  induction xs as [|y xs IH]; cbn [delete_all foldr].
  - case_decide; set_solver.
  - fold (delete_all xs h). rewrite lookup_delete, IH.
    repeat case_decide; simplify_eq; set_solver.
Qed.

Lemma delete_all_delete x xs h : delete_all xs (delete x h) = delete x (delete_all xs h).
Proof. induction xs as [|y xs IH]; simpl; [done|]. rewrite IH. apply delete_delete. Qed.

(** ** Queues in motion *)
Definition advance (k : nat) (q : message_queue_t) : message_queue_t :=
  set_head ((q_head q + Z.of_nat k) mod q_capacity q) q.
Definition push (p : ptr) (q : message_queue_t) : message_queue_t :=
  set_tail ((q_tail q + 1) mod q_capacity q)
    (set_buffer (<[Z.to_nat (q_tail q) := p]> (q_buffer q)) q).

Definition q_next (q : message_queue_t) (i : Z) : Z := (i + 1) mod q_capacity q.

Section QueueOk.
Context (q : message_queue_t).
Hypothesis (Hq : queue_ok q).

Lemma q_bounds :
  0 < q_capacity q ∧ q_capacity q + q_capacity q / 2 ≤ INT_MAX ∧
  length (q_buffer q) = Z.to_nat (q_capacity q) ∧
  0 ≤ q_head q < q_capacity q ∧ 0 ≤ q_tail q < q_capacity q ∧ 0 ≤ q_capacity q / 2.
Proof using Hq.
  destruct Hq. split_and!; try done; try lia. apply Z.div_pos; lia.
Qed.

Lemma to_nat_next i :
  0 ≤ i → Z.to_nat (q_next q i) = ((Z.to_nat i + 1) mod Z.to_nat (q_capacity q))%nat.
Proof using Hq.
  destruct q_bounds as (? & _). intros. unfold q_next.
  rewrite Z2Nat.inj_mod, Z2Nat.inj_add by lia. done.
Qed.

Lemma next_bound i : 0 ≤ q_next q i < q_capacity q.
Proof using Hq. destruct q_bounds as (? & _). apply Z.mod_pos_bound. lia. Qed.

(** The [int] computation [(i + 1) % capacity]. *)
Lemma int_next {S} (s : S) i :
  0 ≤ i < q_capacity q →
  int_add i 1 s = Ok (i + 1, s) ∧ int_rem (i + 1) (q_capacity q) = q_next q i.
Proof using Hq.
  destruct q_bounds as (? & ? & _ & _ & _ & ?). intros. unfold INT_MAX in *. split.
  - apply int_add_ok. unfold INT_MIN, INT_MAX. lia.
  - apply rem_mod_nonneg; lia.
Qed.

Lemma length_q_elems :
  length (q_elems q) = ring_len (Z.to_nat (q_capacity q)) (Z.to_nat (q_head q)) (Z.to_nat (q_tail q)).
Proof. apply ring_length. Qed.

Lemma q_elems_nil : q_head q = q_tail q ↔ q_elems q = [].
Proof using Hq.
  destruct q_bounds as (? & _ & _ & ? & ? & _). split; intros E.
  - unfold q_elems. rewrite E. apply ring_nil; lia.
  - apply (f_equal length) in E. rewrite length_q_elems in E. simpl in E.
    rewrite ring_len_cases in E by lia. case_decide; lia.
Qed.

Lemma q_elems_lt : (length (q_elems q) < Z.to_nat (q_capacity q))%nat.
Proof using Hq.
  destruct q_bounds as (? & _). rewrite length_q_elems. apply Nat.mod_upper_bound. lia.
Qed.

Lemma q_full :
  q_next q (q_tail q) = q_head q ↔ (length (q_elems q) + 1)%nat = Z.to_nat (q_capacity q).
Proof using Hq.
  destruct q_bounds as (? & _ & _ & ? & ? & _).
  assert (q_next q (q_tail q) = q_head q ↔ Z.to_nat (q_next q (q_tail q)) = Z.to_nat (q_head q)) as ->.
  { pose proof (next_bound (q_tail q)). lia. }
  rewrite length_q_elems, to_nat_next, next_cases, ring_len_cases by lia.
  repeat case_decide; lia.
Qed.

Lemma buffer_get_head p ps m :
  q_elems q = p :: ps → buffer_get q (q_head q) m = Ok (p, m).
Proof using Hq.
  destruct q_bounds as (? & _ & ? & ? & ? & _). intros E.
  assert (q_head q ≠ q_tail q) by (intros D; apply q_elems_nil in D; congruence).
  unfold q_elems in E. rewrite ring_pop in E by lia. injection E as <- _.
  unfold buffer_get, deref. destruct (Z.ltb_spec (q_head q) 0); [lia|].
  by erewrite list_lookup_lookup_total_lt by lia.
Qed.

Lemma advance_ok k : queue_ok (advance k q).
Proof using Hq.
  destruct Hq. split; simpl; try done. apply Z.mod_pos_bound. lia.
Qed.

Lemma q_elems_advance k :
  (k ≤ length (q_elems q))%nat → q_elems (advance k q) = drop k (q_elems q).
Proof using Hq.
  destruct q_bounds as (? & _ & ? & ? & ? & _). rewrite length_q_elems. intros Hk.
  unfold q_elems, advance; simpl. rewrite Z2Nat.inj_mod, Z2Nat.inj_add, Nat2Z.id by lia.
  apply ring_drop; lia.
Qed.

Lemma push_ok p : queue_ok (push p q).
Proof using Hq.
  destruct Hq. split; simpl; try done.
  - by rewrite length_insert.
  - apply Z.mod_pos_bound. lia.
Qed.

Lemma q_elems_push p :
  q_next q (q_tail q) ≠ q_head q → q_elems (push p q) = q_elems q ++ [p].
Proof using Hq.
  destruct q_bounds as (? & _ & ? & ? & ? & _). intros Hne.
  unfold q_elems, push; simpl. fold (q_next q (q_tail q)). rewrite to_nat_next by lia.
  apply ring_push; try lia. rewrite <- to_nat_next by lia.
  pose proof (next_bound (q_tail q)). lia.
Qed.

Lemma buffer_set_tail p m :
  buffer_set q (q_tail q) p m = Ok (set_buffer (<[Z.to_nat (q_tail q) := p]> (q_buffer q)) q, m).
Proof using Hq.
  destruct q_bounds as (? & _ & ? & ? & ? & _). unfold buffer_set.
  destruct (Z.ltb_spec (q_tail q) 0); [lia|].
  destruct (Z.leb_spec (Z.of_nat (length (q_buffer q))) (q_tail q)); [lia|]. done.
Qed.
End QueueOk.

Lemma advance_0 q : queue_ok q → advance 0 q = q.
Proof.
  intros Hq. destruct (q_bounds q Hq) as (? & _ & _ & ? & _). unfold advance, set_head.
  rewrite Z.add_0_r, Z.mod_small by lia. by destruct q.
Qed.

Lemma advance_advance j k q : queue_ok q → advance k (advance j q) = advance (j + k) q.
Proof.
  intros Hq. destruct (q_bounds q Hq) as (? & _). unfold advance, set_head; simpl. f_equal.
  rewrite Z.add_mod_idemp_l by lia. f_equal. lia.
Qed.

Lemma advance_next q : advance 1 q = set_head (q_next q (q_head q)) q.
Proof. done. Qed.

Section Loops.
Context (l : loc).

Lemma live_cons m x xs :
  live m (x :: xs) →
  is_Some (m_msgs m !! x) ∧ live (with_msgs (delete x (m_msgs m)) m) xs.
Proof.
  intros [[Hx Hnd]%NoDup_cons Hl]. split; [apply Hl; set_solver|]. split; [done|].
  intros y Hy. simpl. rewrite lookup_delete_ne by set_solver. apply Hl. set_solver.
Qed.

Lemma message_delete_live m x msg :
  m_msgs m !! x = Some msg →
  message_delete (Some x) m = Ok (tt, with_msgs (delete x (m_msgs m)) m).
Proof. intros E. unfold message_delete, free. simpl. by rewrite E. Qed.

(** The loop of [message_queue_enqueue] frees the [k] oldest messages. *)
Lemma clear_half_eq nt k : ∀ fuel m q xs,
  m_queues m !! l = Some q → queue_ok q → q_elems q = Some <$> xs → live m xs →
  (k ≤ length xs)%nat → (k ≤ fuel)%nat →
  0 ≤ nt < q_capacity q →
  (nt + q_capacity q / 2) mod q_capacity q = (q_head q + Z.of_nat k) mod q_capacity q →
  clear_half fuel (Some l) nt m
  = Ok (tt, with_queues (<[l := advance k q]> (m_queues m))
              (with_msgs (delete_all (take k xs) (m_msgs m)) m)).
Proof.
  induction k as [|k IH]; intros fuel m q xs Hl Hq He Hlive Hk Hf Hnt Htgt;
    destruct (q_bounds q Hq) as (? & ? & ? & ? & ? & ?).
  - assert (q_head q = int_rem (nt + int_div (q_capacity q) 2) (q_capacity q)) as E.
    { unfold int_div. rewrite Z.quot_div_nonneg, rem_mod_nonneg by lia.
      rewrite Htgt, Z.add_0_r, Z.mod_small by lia. done. }
    destruct fuel; simpl; c_simpl; rewrite Hl, int_add_ok, <- E, Z.eqb_refl
      by (unfold int_div; rewrite Z.quot_div_nonneg by lia; unfold INT_MIN; lia);
      rewrite advance_0, insert_id by done; by destruct m.
  - destruct fuel as [|fuel]; [lia|]. destruct xs as [|x xs]; [simpl in Hk; lia|].
    pose proof (q_elems_lt q Hq) as Hlt. rewrite He, length_fmap in Hlt. simpl in Hk, Hlt.
    simpl; c_simpl. rewrite Hl, int_add_ok
      by (unfold int_div; rewrite Z.quot_div_nonneg by lia; unfold INT_MIN; lia).
    assert (q_head q ≠ int_rem (nt + int_div (q_capacity q) 2) (q_capacity q)) as Hne.
    { unfold int_div. rewrite Z.quot_div_nonneg, rem_mod_nonneg, Htgt by lia.
      destruct (Z.ltb_spec (q_head q + Z.of_nat (S k)) (q_capacity q)).
      - rewrite Z.mod_small; lia.
      - rewrite <- (Z.mod_unique_pos _ _ 1 (q_head q + Z.of_nat (S k) - q_capacity q)); lia. }
    apply Z.eqb_neq in Hne. rewrite Hne.
    rewrite (buffer_get_head q Hq (Some x) (Some <$> xs)) by done.
    destruct (live_cons _ _ _ Hlive) as [[msg Hx] Hlive'].
    unfold message_delete, free. simpl. rewrite Hx. simpl.
    destruct (int_next q Hq (with_msgs (delete x (m_msgs m)) m) (q_head q)) as [-> ->]; [lia|].
    simpl. rewrite Hl. rewrite <- advance_next.
    rewrite (IH fuel _ (advance 1 q) xs); simpl.
    + rewrite insert_insert_eq, advance_advance, delete_all_delete by done. done.
    + apply lookup_insert_eq.
    + by apply advance_ok.
    + rewrite q_elems_advance by (done || rewrite He; simpl; lia). by rewrite He.
    + by split; [apply Hlive'|apply Hlive'].
    + lia.
    + lia.
    + done.
    + rewrite Htgt, Z.add_mod_idemp_l by lia. f_equal. lia.
Qed.

(** The loop of [message_queue_delete] frees every message of the queue. *)
Lemma delete_messages_eq xs : ∀ fuel m q i,
  queue_ok (set_head i q) → q_elems (set_head i q) = Some <$> xs → live m xs →
  (length xs ≤ fuel)%nat →
  delete_messages fuel q i m = Ok (tt, with_msgs (delete_all xs (m_msgs m)) m).
Proof.
  induction xs as [|x xs IH]; intros fuel m q i Hq He Hlive Hf.
  - apply q_elems_nil in He; [|done]. simpl in He. subst i.
    destruct fuel; simpl; rewrite Z.eqb_refl; by destruct m.
  - destruct fuel as [|fuel]; [simpl in Hf; lia|]. simpl.
    assert (i ≠ q_tail q) as Hne.
    { intros ->. assert (q_elems (set_head (q_tail q) q) = []) as E by by apply q_elems_nil.
      rewrite E in He. discriminate. }
    apply Z.eqb_neq in Hne. rewrite Hne. c_simpl.
    pose proof (buffer_get_head _ Hq (Some x) (Some <$> xs) m He) as Hg.
    unfold buffer_get in Hg |- *. simpl in Hg. rewrite Hg. simpl.
    destruct (live_cons _ _ _ Hlive) as [[msg Hx] Hlive'].
    unfold message_delete, free. simpl. rewrite Hx. simpl.
    destruct (int_next _ Hq (with_msgs (delete x (m_msgs m)) m) i) as [-> E]; [apply Hq|].
    simpl in E. rewrite E.
    rewrite IH; simpl.
    + by rewrite delete_all_delete.
    + apply (advance_ok _ Hq 1).
    + etrans; [apply (q_elems_advance _ Hq 1); rewrite He; simpl; lia|]. by rewrite He.
    + done.
    + simpl in Hf. lia.
Qed.
End Loops.

(** ** Equations of the critical sections *)
Section CriticalSections.
Context (m : mem) (l : loc) (q : message_queue_t) (xs : list loc).
Hypothesis (Hl : m_queues m !! l = Some q).
Hypothesis (Hq : queue_ok q).

Lemma mutex_lock_eq :
  q_mutex q = false →
  ∃ ok fs, (m_faults m = [] → ok = true ∧ fs = []) ∧
    mutex_lock (Some l) m
    = Ok (ok, if ok : bool
              then with_queues (<[l := set_mutex true q]> (m_queues m)) (with_faults fs m)
              else with_faults fs m).
Proof using Hl.
  intros Hm. unfold mutex_lock, bind.
  destruct (fallible_cases m) as (ok & fs & -> & Hn). exists ok, fs. split; [done|].
  destruct ok; [|done]. c_simpl. rewrite Hl, Hm. simpl. by rewrite Hl.
Qed.

Lemma mutex_unlock_eq :
  q_mutex q = true →
  ∃ ok fs, (m_faults m = [] → ok = true ∧ fs = []) ∧
    mutex_unlock (Some l) m
    = Ok (ok, if ok : bool
              then with_queues (<[l := set_mutex false q]> (m_queues m)) (with_faults fs m)
              else with_faults fs m).
Proof using Hl.
  intros Hm. unfold mutex_unlock, bind.
  destruct (fallible_cases m) as (ok & fs & -> & Hn). exists ok, fs. split; [done|].
  destruct ok; [|done]. c_simpl. rewrite Hl, Hm. simpl. by rewrite Hl.
Qed.

Hypothesis (He : q_elems q = Some <$> xs).
Hypothesis (Hlive : live m xs).

Lemma q_cap_pos : (0 < Z.to_nat (q_capacity q))%nat.
Proof using Hq. destruct Hq. lia. Qed.

Lemma fifo_full :
  bool_decide (length xs + 1 = Z.to_nat (q_capacity q))%nat = (q_next q (q_tail q) =? q_head q).
Proof using Hq He.
  pose proof (q_full q Hq) as F. rewrite He, length_fmap in F.
  apply eq_bool_prop_intro. rewrite bool_decide_spec, Is_true_true, Z.eqb_eq. by rewrite F.
Qed.

Lemma length_fifo_dropped cap :
  (length (fifo_dropped cap xs) ≤ length xs)%nat.
Proof. unfold fifo_dropped. case_bool_decide; simpl; [rewrite length_take|]; lia. Qed.

Lemma drop_fifo_dropped cap x :
  (0 < cap)%nat →
  drop (length (fifo_dropped cap xs)) xs ++ [x] = fifo_enqueue cap x xs.
Proof.
  intros Hc. unfold fifo_dropped, fifo_enqueue. case_bool_decide; [|done].
  rewrite length_take. do 2 f_equal.
  destruct (decide (cap = 1)%nat) as [->|]; [simpl; lia|].
  assert (cap / 2 < cap)%nat by (apply Nat.div_lt; lia). lia.
Qed.

Lemma enqueue_locked_eq x :
  enqueue_locked (Some l) (Some x) m
  = Ok (tt, with_queues (<[l := push (Some x)
                (advance (length (fifo_dropped (Z.to_nat (q_capacity q)) xs)) q)]> (m_queues m))
              (with_msgs (delete_all (fifo_dropped (Z.to_nat (q_capacity q)) xs) (m_msgs m)) m)).
Proof using Hl Hq He Hlive.
  destruct (q_bounds q Hq) as (? & ? & ? & ? & ? & ?).
  unfold enqueue_locked. c_simpl. rewrite Hl.
  destruct (int_next q Hq m (q_tail q)) as [-> ->]; [lia|].
  unfold fifo_dropped. rewrite fifo_full.
  destruct (Z.eqb_spec (q_next q (q_tail q)) (q_head q)) as [E|E]; simpl.
  - assert (Hfull : (length xs + 1)%nat = Z.to_nat (q_capacity q)).
    { rewrite <- (length_fmap Some xs), <- He. by apply q_full. }
    set (k := (Z.to_nat (q_capacity q) / 2)%nat).
    assert (Hk : Z.of_nat k = q_capacity q / 2).
    { unfold k. rewrite Nat2Z.inj_div, Z2Nat.id by lia. done. }
    assert (Hk' : (k ≤ length xs)%nat).
    { assert (q_capacity q / 2 < q_capacity q) by (apply Z.div_lt; lia). lia. }
    assert (Hnt : 0 ≤ q_next q (q_tail q) < q_capacity q) by by apply next_bound.
    rewrite (clear_half_eq l _ k _ m q xs) by (done || lia || (rewrite E; f_equal; lia)).
    simpl. rewrite lookup_insert_eq.
    rewrite (buffer_set_tail _ (advance_ok q Hq k)). simpl. rewrite lookup_insert_eq. simpl.
    rewrite insert_insert_eq, length_take_le by done. done.
  - rewrite Hl, (buffer_set_tail q Hq). simpl. rewrite Hl, advance_0 by done.
    by destruct m.
Qed.

Lemma q_elems_enqueue x :
  2 ≤ q_capacity q →
  q_elems (push (Some x) (advance (length (fifo_dropped (Z.to_nat (q_capacity q)) xs)) q))
  = Some <$> fifo_enqueue (Z.to_nat (q_capacity q)) x xs.
Proof using Hq He.
  intros Hc. set (k := length _).
  assert (Hk : (k ≤ length (q_elems q))%nat).
  { rewrite He, length_fmap. apply length_fifo_dropped. }
  pose proof (q_elems_lt q Hq) as Hlt.
  rewrite q_elems_push; [|by apply advance_ok|].
  - rewrite q_elems_advance, He by done. unfold k.
    rewrite <- fmap_drop, <- drop_fifo_dropped by lia. by rewrite fmap_app.
  - intros F. apply q_full in F; [|by apply advance_ok].
    rewrite q_elems_advance in F by done. simpl in F.
    rewrite length_drop in F. unfold k, fifo_dropped in *. rewrite fifo_full in *.
    destruct (Z.eqb_spec (q_next q (q_tail q)) (q_head q)) as [E|E].
    + apply (q_full q Hq) in E. rewrite He, length_fmap in *. rewrite length_take in *.
      assert (1 ≤ Z.to_nat (q_capacity q) / 2)%nat by (apply Nat.div_le_lower_bound; lia).
      lia.
    + apply E, (q_full q Hq). simpl in F. lia.
Qed.
End CriticalSections.

(** The queue and the memory after the message [x] went in. *)
Definition enqueued_q (q : message_queue_t) (xs : list loc) (x : loc) (locked : bool) : message_queue_t :=
  set_mutex locked
    (push (Some x) (advance (length (fifo_dropped (Z.to_nat (q_capacity q)) xs)) q)).
Definition enqueued (m : mem) (l : loc) (q : message_queue_t) (xs : list loc) (x : loc)
    (locked : bool) (fs : list bool) : mem :=
  Mem fs (m_next m) (m_junk m) (m_bytes m)
    (delete_all (fifo_dropped (Z.to_nat (q_capacity q)) xs) (m_msgs m))
    (<[l := enqueued_q q xs x locked]> (m_queues m)).

Definition popped (m : mem) (l : loc) (q : message_queue_t) (locked : bool) (fs : list bool) : mem :=
  Mem fs (m_next m) (m_junk m) (m_bytes m) (m_msgs m)
    (<[l := set_mutex locked (advance 1 q)]> (m_queues m)).

Section Operations.
Context (m : mem) (l : loc) (q : message_queue_t) (xs : list loc).
Hypothesis (Hl : m_queues m !! l = Some q).
Hypothesis (Hq : queue_ok q).
Hypothesis (Hm : q_mutex q = false).
Hypothesis (He : q_elems q = Some <$> xs).
Hypothesis (Hlive : live m xs).

(** Every outcome of [message_queue_enqueue]: either the mutex could not be taken and
    nothing happened, or the message is in the queue, whatever the status says. *)
Lemma enqueue_cases x :
  ∃ st m', message_queue_enqueue (Some l) (Some x) m = Ok (st, m') ∧
    (m_faults m = [] → st = MESSAGE_QUEUE_STATUS_SUCCESS ∧ m_faults m' = []) ∧
    ((st = MESSAGE_QUEUE_STATUS_ERROR_MUTEX ∧ m' = with_faults (m_faults m') m)
     ∨ ∃ locked, m' = enqueued m l q xs x locked (m_faults m') ∧
         (st = MESSAGE_QUEUE_STATUS_SUCCESS ∧ locked = false
          ∨ st = MESSAGE_QUEUE_STATUS_ERROR_MUTEX ∧ locked = true
          ∨ st = MESSAGE_QUEUE_STATUS_ERROR_CONDVAR)).
Proof using Hl Hq Hm He Hlive.
  unfold message_queue_enqueue, bind.
  destruct (mutex_lock_eq m l q Hl Hm) as (ok & fs & Hfs & ->).
  destruct ok; simpl; [|eexists _, _; split; [done|]; naive_solver].
  set (q1 := set_mutex true q). set (m1 := with_queues _ _).
  assert (H1 : m_queues m1 !! l = Some q1) by apply lookup_insert_eq.
  assert (Hq1 : queue_ok q1) by (by destruct Hq).
  rewrite (enqueue_locked_eq m1 l q1 xs H1 Hq1 He Hlive). simpl.
  set (m2 := with_queues _ _). set (q2 := push _ _) in m2.
  destruct (fallible_cases m2) as (ok2 & fs2 & -> & Hfs2). simpl.
  set (m3 := with_faults fs2 m2).
  assert (H3 : m_queues m3 !! l = Some q2) by apply lookup_insert_eq.
  destruct (mutex_unlock_eq m3 l q2 H3 eq_refl) as (ok3 & fs3 & Hfs3 & E3).
  assert (Hfin : (if ok3 then with_queues (<[l:=set_mutex false q2]> (m_queues m3)) (with_faults fs3 m3)
                  else with_faults fs3 m3)
                 = enqueued m l q xs x (negb ok3) fs3).
  { destruct ok3; unfold enqueued, m3, m2, m1, with_queues; simpl;
      by rewrite !insert_insert_eq. }
  destruct ok2; simpl; rewrite E3, Hfin; destruct ok3; simpl;
    (eexists _, _; split; [done|]); simpl in *; naive_solver.
Qed.

End Operations.

(** [take_head] on a locked, non-empty queue. *)
Lemma take_head_cases m l q x ys fs0 :
  queue_ok q → q_elems q = Some <$> (x :: ys) →
  let mk := with_queues (<[l := set_mutex true q]> (m_queues m)) (with_faults fs0 m) in
  ∃ ok fs, (fs0 = [] → ok = true ∧ fs = []) ∧
    take_head (Some l) mk = Ok (if ok : bool then Some x else None, popped m l q (negb ok) fs).
Proof.
  intros Hq He. unfold take_head. c_simpl. rewrite lookup_insert_eq.
  set (q1 := set_mutex true q). assert (Hq1 : queue_ok q1) by (by destruct Hq).
  rewrite (buffer_get_head q1 Hq1 (Some x) (Some <$> ys)) by exact He.
  set (m1 := with_queues _ _).
  destruct (int_next q1 Hq1 m1 (q_head q1)) as [-> ->]; [apply Hq|].
  unfold m1; simpl. rewrite lookup_insert_eq. simpl. rewrite insert_insert_eq.
  set (q2 := set_head _ _). set (m2 := with_queues _ _).
  assert (H2 : m_queues m2 !! l = Some q2) by apply lookup_insert_eq.
  destruct (mutex_unlock_eq m2 l q2 H2 eq_refl) as (ok & fs & Hfs & ->).
  exists ok, fs. split; [done|].
  destruct ok; simpl; unfold popped, with_queues; simpl; by rewrite ?insert_insert_eq.
Qed.

Lemma nonblocking_cases m l q xs :
  m_queues m !! l = Some q → queue_ok q → q_mutex q = false → q_elems q = Some <$> xs →
  ∃ p m', message_queue_dequeue_nonblocking (Some l) m = Ok (p, m') ∧
    (m_faults m = [] → m_faults m' = []) ∧
    match xs with
    | [] => p = None ∧ (m' = with_faults (m_faults m') m
              ∨ m_faults m ≠ [] ∧
                m' = with_queues (<[l := set_mutex true q]> (m_queues m)) (with_faults (m_faults m') m))
    | x :: ys =>
        p = Some x ∧ m' = popped m l q false (m_faults m')
        ∨ m_faults m ≠ [] ∧ p = None ∧
          (m' = with_faults (m_faults m') m ∨ m' = popped m l q true (m_faults m'))
    end.
Proof.
  intros Hl Hq Hm He. unfold message_queue_dequeue_nonblocking, bind.
  destruct (mutex_lock_eq m l q Hl Hm) as (ok & fs & Hfs & ->).
  destruct ok; simpl.
  2: { eexists _, _. split; [done|]. simpl. split; [naive_solver|].
       destruct xs; [naive_solver|]. right. split; [|by eauto]. naive_solver. }
  rewrite lookup_insert_eq. simpl.
  destruct xs as [|x ys] eqn:Exs.
  - assert (q_head q = q_tail q) as -> by (apply q_elems_nil; done).
    rewrite Z.eqb_refl. set (m1 := with_queues _ _).
    assert (H1 : m_queues m1 !! l = Some (set_mutex true q)) by apply lookup_insert_eq.
    destruct (mutex_unlock_eq m1 l _ H1 eq_refl) as (ok2 & fs2 & Hfs2 & ->).
    assert (set_mutex false (set_mutex true q) = q) as Eq.
    { destruct q; unfold set_mutex; simpl in *. by rewrite Hm. }
    destruct ok2; simpl; (eexists _, _; split; [done|]); simpl in *;
      (split; [naive_solver|]); (split; [done|]).
    + left. unfold with_queues; simpl. rewrite insert_insert_eq, Eq, insert_id by done. done.
    + right. split; [naive_solver|done].
  - assert (Hne : q_head q ≠ q_tail q).
    { intros E. apply q_elems_nil in E; [|done]. rewrite E in He. done. }
    apply Z.eqb_neq in Hne. rewrite Hne.
    destruct (take_head_cases m l q x ys fs Hq He) as (ok & fs2 & Hfs2 & ->).
    eexists _, _. split; [done|]. destruct ok; simpl; [naive_solver|].
    split; [naive_solver|]. right. split; [|by eauto]. naive_solver.
Qed.

Lemma dequeue_nonempty m l q x ys :
  m_queues m !! l = Some q → queue_ok q → q_elems q = Some <$> (x :: ys) →
  message_queue_dequeue (Some l) m = message_queue_dequeue_nonblocking (Some l) m.
Proof.
  intros Hl Hq He. unfold message_queue_dequeue, message_queue_dequeue_nonblocking.
  assert (Hne : q_head q ≠ q_tail q).
  { intros E. apply q_elems_nil in E; [|done]. by rewrite E in He. }
  apply Z.eqb_neq in Hne. unfold mutex_lock, bind.
  destruct (fallible_cases m) as (ok & fs & -> & _). destruct ok; [|done].
  c_simpl. rewrite Hl. destruct (q_mutex q); [done|]. simpl. rewrite Hl. simpl.
  rewrite lookup_insert_eq. simpl. by rewrite Hne.
Qed.

Lemma dequeue_empty m l q :
  m_queues m !! l = Some q → queue_ok q → q_mutex q = false → q_elems q = [] →
  m_faults m = [] → message_queue_dequeue (Some l) m = Blocked.
Proof.
  intros Hl Hq Hm He Hf. unfold message_queue_dequeue, bind.
  destruct (mutex_lock_eq m l q Hl Hm) as (ok & fs & Hfs & ->).
  destruct (Hfs Hf) as [-> ->]. simpl. rewrite lookup_insert_eq. simpl.
  assert (q_head q = q_tail q) as -> by by apply q_elems_nil.
  by rewrite Z.eqb_refl.
Qed.

(** ** Refinement of the abstract FIFO *)
Lemma fifo_enqueue_elem cap x y xs :
  y ∈ fifo_enqueue cap x xs → y = x ∨ y ∈ xs.
Proof.
  unfold fifo_enqueue. case_bool_decide; rewrite elem_of_app, list_elem_of_singleton; [|tauto].
  intros [Hy|]; [right|by left]. apply (list_elem_of_In) in Hy. apply list_elem_of_In.
  rewrite <- (take_drop (cap / 2) xs). apply in_or_app. by right.
Qed.

Lemma fifo_kept_not_dropped cap x y xs :
  NoDup xs → x ∉ xs → y ∈ fifo_enqueue cap x xs →
  y ∉ fifo_dropped cap xs.
Proof.
  intros Hnd Hx. unfold fifo_enqueue, fifo_dropped. case_bool_decide; [|set_solver].
  rewrite <- (take_drop (cap / 2) xs) in Hnd, Hx.
  apply NoDup_app in Hnd as (_ & Hd & _).
  rewrite elem_of_app, list_elem_of_singleton. intros [Hy| ->]; [|set_solver].
  intros Hy'. by eapply Hd.
Qed.

Lemma fifo_enqueue_NoDup cap x xs : NoDup xs → x ∉ xs → NoDup (fifo_enqueue cap x xs).
Proof.
  intros Hnd Hx. unfold fifo_enqueue. case_bool_decide; apply NoDup_app.
  - split_and!; [| |apply NoDup_singleton].
    { rewrite <- (take_drop (cap / 2) xs) in Hnd. by apply NoDup_app in Hnd as (_ & _ & ?). }
    intros y Hy. rewrite list_elem_of_singleton. intros ->. apply Hx.
    rewrite <- (take_drop (cap / 2) xs). set_solver.
  - split_and!; [done|set_solver|apply NoDup_singleton].
Qed.

Section Refinement.
Context (l : loc) (cap : Z).
Hypothesis (Hcap : 2 ≤ cap).

Lemma enqueue_refines m xs x :
  queue_at m l cap xs → m_faults m = [] → is_Some (m_msgs m !! x) → x ∉ xs →
  ∃ m', message_queue_enqueue (Some l) (Some x) m = Ok (MESSAGE_QUEUE_STATUS_SUCCESS, m') ∧
    queue_at m' l cap (fifo_enqueue (Z.to_nat cap) x xs) ∧ m_faults m' = [] ∧
    m_bytes m' = m_bytes m ∧ m_next m' = m_next m ∧
    m_msgs m' = delete_all (fifo_dropped (Z.to_nat cap) xs) (m_msgs m) ∧
    (∀ k, k ≠ l → m_queues m' !! k = m_queues m !! k).
Proof using Hcap.
  intros (q & Hl & Hq & Hm & Hc & He & Hlive) Hf Hx Hnx.
  destruct (enqueue_cases m l q xs Hl Hq Hm He Hlive x) as (st & m' & E & Hn & Hcases).
  destruct (Hn Hf) as [-> Hf']. exists m'. split; [done|].
  destruct Hcases as [[? _]|(locked & Em & [[_ ->]|[[? _]|?]])]; try done.
  rewrite Hf' in Em. subst cap. destruct Hlive as [Hnd Hal].
  split_and!; try (by rewrite Em).
  - exists (enqueued_q q xs x false). rewrite Em. simpl. rewrite lookup_insert_eq.
    split_and!; try done.
    + pose proof (push_ok _ (advance_ok q Hq (length (fifo_dropped (Z.to_nat (q_capacity q)) xs))) (Some x)) as [].
      by split.
    + apply (q_elems_enqueue q xs Hq He x Hcap).
    + split; [by apply fifo_enqueue_NoDup|]. intros y Hy. simpl.
      rewrite lookup_delete_all, decide_False by by eapply fifo_kept_not_dropped.
      apply fifo_enqueue_elem in Hy as [->|]; auto.
  - intros k Hk. rewrite Em. simpl. by rewrite lookup_insert_ne by done.
Qed.

Lemma nonblocking_refines m xs :
  queue_at m l cap xs → m_faults m = [] →
  ∃ m', message_queue_dequeue_nonblocking (Some l) m = Ok ((fifo_dequeue xs).1, m') ∧
    queue_at m' l cap (fifo_dequeue xs).2 ∧ m_faults m' = [] ∧
    m_bytes m' = m_bytes m ∧ m_next m' = m_next m ∧ m_msgs m' = m_msgs m ∧
    (∀ k, k ≠ l → m_queues m' !! k = m_queues m !! k).
Proof.
  intros (q & Hl & Hq & Hm & Hc & He & Hlive) Hf.
  destruct (nonblocking_cases m l q xs Hl Hq Hm He) as (p & m' & E & Hn & Hcases).
  exists m'. destruct xs as [|x ys]; simpl.
  - destruct Hcases as [-> [Em|[? _]]]; [|done]. split; [done|]. rewrite Em, (Hn Hf); simpl.
    split_and!; try done. by exists q.
  - destruct Hcases as [[-> Em]|[? _]]; [|done]. split; [done|]. rewrite Em, (Hn Hf); simpl.
    split_and!; try done.
    + exists (set_mutex false (advance 1 q)). simpl. rewrite lookup_insert_eq.
      split_and!; try done.
      * pose proof (advance_ok q Hq 1) as []. by split.
      * etrans; [apply (q_elems_advance q Hq 1); rewrite He; simpl; lia|]. by rewrite He.
      * destruct Hlive as [[_ Hnd]%NoDup_cons Hal]. split; [done|]. set_solver.
    + intros k Hk. by rewrite lookup_insert_ne by done.
Qed.
End Refinement.

(** ** Creation and destruction *)
Lemma message_queue_create_spec c m :
  heap_ok m →
  ∃ p m', message_queue_create c m = Ok (p, m') ∧ heap_ok m' ∧
    m_msgs m' = m_msgs m ∧ m_bytes m' = m_bytes m ∧
    (m_faults m = [] → m_faults m' = [] ∧ (0 < c → is_Some p)) ∧
    match p with
    | None => m_queues m' = m_queues m
    | Some l => 0 < c ∧ m_queues m !! l = None ∧
        m_queues m' = <[l := Queue (replicate (Z.to_nat c) None) c 0 0 false]> (m_queues m)
    end.
Proof.
  intros [Hb Hm Hq]. unfold message_queue_create.
  destruct (Z.leb_spec c 0) as [|Hc].
  { eexists None, m. split_and!; try done. intros. split; [done|lia]. }
  unfold bind at 1. match goal with |- context [alloc ?x m] => destruct (alloc_cases x m)
    as (fs & Hfs & [[Hne ->]| ->]) end; simpl in *.
  { eexists None, _. split; [done|]. split_and!; try done. }
  assert (Hnx : m_queues m !! m_next m = None) by (apply Hq; lia).
  set (m1 := with_queues _ _). unfold bind, free, store.
  destruct (fallible_cases m1) as (ok1 & fs1 & -> & Hfs1).
  destruct ok1; simpl; rewrite ?lookup_insert_eq; simpl.
  2: { eexists None, _. split; [done|]. simpl. rewrite delete_insert_id by done.
       split_and!; try done; [split; simpl; auto with heap|naive_solver]. }
  set (m2 := with_faults _ _). destruct (fallible_cases m2) as (ok2 & fs2 & -> & Hfs2).
  destruct ok2; simpl; rewrite ?lookup_insert_eq; simpl.
  2: { eexists None, _. split; [done|]. simpl. rewrite delete_insert_id by done.
       split_and!; try done; [split; simpl; auto with heap|naive_solver]. }
  set (m3 := with_faults _ _). destruct (fallible_cases m3) as (ok3 & fs3 & -> & Hfs3).
  destruct ok3; simpl; rewrite ?lookup_insert_eq; simpl.
  2: { eexists None, _. split; [done|]. simpl. rewrite delete_insert_id by done.
       split_and!; try done; [split; simpl; auto with heap|naive_solver]. }
  eexists (Some (m_next m)), _. split; [done|]. simpl. rewrite insert_insert_eq.
  split_and!; try done; [split; simpl; auto with heap|naive_solver].
Qed.

Lemma queue_at_fresh m l c :
  0 < c → c + c / 2 ≤ INT_MAX →
  m_queues m !! l = Some (Queue (replicate (Z.to_nat c) None) c 0 0 false) →
  queue_at m l c [].
Proof.
  intros Hc Hi E. eexists. split; [exact E|]. split_and!; try done.
  - split; simpl; try lia; try done. by rewrite length_replicate.
  - unfold q_elems; simpl. by apply ring_nil; lia.
  - split; [constructor|set_solver].
Qed.

Lemma message_queue_delete_eq m l cap xs :
  queue_at m l cap xs → m_faults m = [] →
  message_queue_delete (Some l) m
  = Ok (tt, with_queues (delete l (m_queues m)) (with_msgs (delete_all xs (m_msgs m)) m)).
Proof.
  intros (q & Hl & Hq & Hm & Hc & He & Hlive) Hf. unfold message_queue_delete, bind.
  destruct (mutex_lock_eq m l q Hl Hm) as (ok & fs & Hfs & ->).
  destruct (Hfs Hf) as [-> ->]. simpl. rewrite lookup_insert_eq.
  set (q1 := set_mutex true q). set (m1 := with_queues _ _).
  rewrite (delete_messages_eq xs); [|by destruct Hq|exact He|exact Hlive|].
  2: { pose proof (q_elems_lt q Hq). rewrite He, length_fmap in *. simpl. lia. }
  simpl. rewrite lookup_insert_eq. simpl. rewrite insert_insert_eq.
  unfold mutex_unlock, bind, fallible. simpl. rewrite lookup_insert_eq. simpl.
  rewrite lookup_insert_eq. simpl. rewrite lookup_insert_eq. simpl.
  rewrite insert_insert_eq, delete_insert_eq. destruct m; simpl in *. by subst.
Qed.

(** ** Frames *)
Lemma live_frame m m' xs :
  live m xs → (∀ x, x ∈ xs → is_Some (m_msgs m !! x) → is_Some (m_msgs m' !! x)) → live m' xs.
Proof. intros [Hnd Hal] Hf. split; [done|]. intros x Hx. by apply Hf, Hal. Qed.

Lemma queue_at_frame m m' l cap xs :
  queue_at m l cap xs → m_queues m' !! l = m_queues m !! l →
  (∀ x, x ∈ xs → is_Some (m_msgs m !! x) → is_Some (m_msgs m' !! x)) → queue_at m' l cap xs.
Proof.
  intros (q & Hl & ? & ? & ? & ? & Hlive) E Hf. exists q. rewrite E. split_and!; try done.
  by eapply live_frame.
Qed.

Lemma mem_ok_delete_all P m m' ds l q q' :
  mem_ok P m → m_next m' = m_next m → m_bytes m' = m_bytes m →
  m_msgs m' = delete_all ds (m_msgs m) →
  m_queues m !! l = Some q → m_queues m' !! l = Some q' →
  (∀ k, k ≠ l → m_queues m' !! k = m_queues m !! k) → mem_ok P m'.
Proof.
  intros [[Fb Fm Fq] Own Inj] En Eb Em Hl Hl' Hk.
  assert (Hsub : ∀ k msg, m_msgs m' !! k = Some msg → m_msgs m !! k = Some msg).
  { intros k msg. rewrite Em, lookup_delete_all. by case_decide. }
  split.
  - split; rewrite En.
    + by rewrite Eb.
    + intros k Hge. destruct (m_msgs m' !! k) eqn:E; [|done]. apply Hsub in E.
      apply Fm in Hge. congruence.
    + intros k Hge. rewrite Hk; [by apply Fq|]. intros ->.
      apply Fq in Hge. congruence.
  - intros k msg E. rewrite Eb. apply (Own k msg), Hsub, E.
  - intros k1 k2 m1 m2 E1 E2. apply Inj; by apply Hsub.
Qed.

(** ** Sequences of operations *)
Inductive queue_op : Type := Enq (x : loc) | Deq.

Fixpoint enq_args (ops : list queue_op) : list loc :=
  match ops with
  | [] => []
  | Enq x :: ops => x :: enq_args ops
  | Deq :: ops => enq_args ops
  end.

(** The results of the dequeues of a sequence of calls, on the code and on the FIFO. *)
Fixpoint run_ops (queue : ptr) (ops : list queue_op) : M mem (list ptr) :=
  match ops with
  | [] => ret []
  | Enq x :: ops => message_queue_enqueue queue (Some x) ;; run_ops queue ops
  | Deq :: ops =>
      let* p := message_queue_dequeue_nonblocking queue in
      let* ps := run_ops queue ops in
      ret (p :: ps)
  end.

Fixpoint fifo_run (cap : nat) (ops : list queue_op) (xs : list loc) : list ptr * list loc :=
  match ops with
  | [] => ([], xs)
  | Enq x :: ops => fifo_run cap ops (fifo_enqueue cap x xs)
  | Deq :: ops =>
      let '(ps, xs') := fifo_run cap ops (fifo_dequeue xs).2 in
      ((fifo_dequeue xs).1 :: ps, xs')
  end.

Lemma live_app_enq cap m m' x xs es :
  live m (xs ++ x :: es) →
  m_msgs m' = delete_all (fifo_dropped cap xs) (m_msgs m) →
  live m' (fifo_enqueue cap x xs ++ es).
Proof.
  intros [(Hx & Hd & [Hxe He]%NoDup_cons)%NoDup_app Hal] Em.
  assert (x ∉ xs) as Hnx by set_solver.
  split.
  - apply NoDup_app. split_and!; [by apply fifo_enqueue_NoDup| |done].
    intros y [->|Hy]%fifo_enqueue_elem; set_solver.
  - intros y Hy. rewrite Em, lookup_delete_all. case_decide as Hdr.
    + exfalso. apply elem_of_app in Hy as [Hy|Hy].
      * exact (fifo_kept_not_dropped cap x y xs Hx Hnx Hy Hdr).
      * assert (y ∈ xs); [|set_solver]. revert Hdr. unfold fifo_dropped.
        case_bool_decide; [|set_solver]. intros Hdr.
        rewrite <- (take_drop (cap / 2) xs). set_solver.
    + apply Hal. apply elem_of_app in Hy as [[->|]%fifo_enqueue_elem|]; set_solver.
Qed.

(** ** An executable check of the representation predicate *)
Definition queue_okb (q : message_queue_t) : bool :=
  (0 <? q_capacity q) && (q_capacity q + q_capacity q / 2 <=? INT_MAX) &&
  (Z.of_nat (length (q_buffer q)) =? q_capacity q) &&
  (0 <=? q_head q) && (q_head q <? q_capacity q) && (0 <=? q_tail q) && (q_tail q <? q_capacity q).
Definition liveb (m : mem) (xs : list loc) : bool :=
  bool_decide (NoDup xs) && forallb (λ x, bool_decide (is_Some (m_msgs m !! x))) xs.
Definition queue_atb (m : mem) (l : loc) (cap : Z) (xs : list loc) : bool :=
  match m_queues m !! l with
  | None => false
  | Some q => queue_okb q && negb (q_mutex q) && (q_capacity q =? cap) &&
              bool_decide (q_elems q = Some <$> xs) && liveb m xs
  end.

Lemma queue_okb_sound q : queue_okb q = true → queue_ok q.
Proof. unfold queue_okb. rewrite !andb_true_iff, !Z.ltb_lt, !Z.leb_le, Z.eqb_eq. split; lia. Qed.

Lemma liveb_sound m xs : liveb m xs = true → live m xs.
Proof.
  unfold liveb. intros [?%bool_decide_eq_true_1 Ha]%andb_true_iff. split; [done|]. intros x Hx.
  rewrite forallb_forall in Ha. apply (bool_decide_eq_true_1 _), Ha. by apply list_elem_of_In.
Qed.

Lemma queue_atb_sound m l cap xs : queue_atb m l cap xs = true → queue_at m l cap xs.
Proof.
  unfold queue_atb. destruct (m_queues m !! l) as [q|] eqn:E; [|done].
  rewrite !andb_true_iff, negb_true_iff, Z.eqb_eq.
  intros ((((? & ?) & ?) & He%bool_decide_eq_true_1) & ?). exists q.
  split_and!; try done; [by apply queue_okb_sound|by apply liveb_sound].
Qed.

(** Four messages, at addresses 1, 3, 5 and 7, and a queue of capacity 4 at address 9. *)
Definition mem4 : mem :=
  run (message_create 1 8 ;; message_create 2 8 ;; message_create 3 8 ;; message_create 2 8 ;;
       message_queue_create 4) mem0.
(** The same with three messages queued. *)
Definition mem4_full : mem :=
  run (run_ops (Some 9%positive) [Enq 1; Enq 3; Enq 5]) mem4.

(** ** Properties *)

(** C10: a queue created with capacity [c >= 2] and used by any sequence of enqueue and
    non-blocking dequeue calls behaves as the abstract FIFO: the dequeues return what
    the FIFO returns, the queue ends holding what the FIFO holds, and no call touches
    freed memory.  On overflow the FIFO forgets its oldest [c / 2] messages. *)
Theorem queue_refines_fifo l cap ops m xs :
  2 ≤ cap → queue_at m l cap xs → m_faults m = [] → live m (xs ++ enq_args ops) →
  ∃ m', ⟦ run_ops (Some l) ops ⟧ m ⇓ (fifo_run (Z.to_nat cap) ops xs).1, m' ∧
        queue_at m' l cap (fifo_run (Z.to_nat cap) ops xs).2.
Proof.
  intros Hcap. unfold returns. revert m xs.
  induction ops as [|[x|] ops IH]; intros m xs Hat Hf Hlive; simpl in *; unfold bind.
  - by exists m.
  - destruct (enqueue_refines l cap Hcap m xs x Hat Hf) as (m1 & -> & Hat1 & Hf1 & _ & _ & Em & _).
    + apply Hlive. set_solver.
    + destruct Hlive as [(_ & Hd & _)%NoDup_app _]. intros Hx. eapply Hd; [exact Hx|]. set_solver.
    + apply IH; [done|done|]. by eapply live_app_enq.
  - destruct (nonblocking_refines l cap Hcap m xs Hat Hf) as (m1 & -> & Hat1 & Hf1 & _ & _ & Em & _).
    destruct (IH m1 (fifo_dequeue xs).2 Hat1 Hf1) as (m' & E & Hat').
    + destruct xs as [|x xs]; simpl in *; [split; [apply Hlive|rewrite Em; apply Hlive]|].
      destruct Hlive as [[_ Hnd]%NoDup_cons Hal]. split; [done|]. rewrite Em. set_solver.
    + exists m'. rewrite E. destruct (fifo_run (Z.to_nat cap) ops (fifo_dequeue xs).2). done.
Qed.

Lemma queue_refines_fifo_witness :
  ∃ m', ⟦ run_ops (Some 9%positive) [Enq 1; Enq 3; Enq 5; Enq 7; Deq; Deq; Deq] ⟧ mem4
          ⇓ [Some 5%positive; Some 7%positive; None], m'.
Proof.
  destruct (queue_refines_fifo 9 4 [Enq 1; Enq 3; Enq 5; Enq 7; Deq; Deq; Deq] mem4 [])
    as (m' & E & _); [lia|by apply queue_atb_sound; vm_compute|done|by apply liveb_sound; vm_compute|].
  by exists m'.
Defined.

(** After an overflow the queue holds the newest messages: [enqueue] on a full queue
    frees exactly the oldest [cap / 2] messages, keeps the others in order and appends the
    new one; every freed message is gone from the heap and every kept one is live. *)
Theorem enqueue_overflow l cap m xs x :
  2 ≤ cap → queue_at m l cap xs → m_faults m = [] → (length xs + 1)%nat = Z.to_nat cap →
  is_Some (m_msgs m !! x) → x ∉ xs →
  ∃ m', ⟦ message_queue_enqueue (Some l) (Some x) ⟧ m ⇓ MESSAGE_QUEUE_STATUS_SUCCESS, m' ∧
    queue_at m' l cap (drop (Z.to_nat cap / 2) xs ++ [x]) ∧
    ∀ y, m_msgs m' !! y = if decide (y ∈ take (Z.to_nat cap / 2) xs) then None else m_msgs m !! y.
Proof.
  intros Hcap Hat Hf Hfull Hx Hnx.
  destruct (enqueue_refines l cap Hcap m xs x Hat Hf Hx Hnx) as (m' & E & Hat' & _ & _ & _ & Em & _).
  unfold fifo_enqueue, fifo_dropped in *. rewrite bool_decide_eq_true_2 in * by done.
  exists m'. split_and!; [done|done|]. intros y. rewrite Em. apply lookup_delete_all.
Qed.

Lemma enqueue_overflow_witness :
  ∃ m', queue_at m' 9 4 [5%positive; 7%positive] ∧ m_msgs m' !! 1%positive = None.
Proof.
  destruct (enqueue_overflow 9 4 mem4_full [1; 3; 5]%positive 7) as (m' & _ & Hat & Hm);
    [lia|by apply queue_atb_sound; vm_compute|done|done| |set_solver|].
  { vm_compute. eauto. }
  exists m'. split; [exact Hat|]. by rewrite Hm.
Defined.

(** Mutual exclusion of the error paths.  Whatever library calls fail,
    [message_queue_enqueue] returns, and it either leaves memory untouched (the mutex could
    not be taken, status [ERROR_MUTEX]) or has appended the message; the mutex is left
    locked only if the final unlock failed. *)
Theorem enqueue_all_branches l cap m xs x :
  2 ≤ cap → queue_at m l cap xs →
  ∃ st m', message_queue_enqueue (Some l) (Some x) m = Ok (st, m') ∧
    ((st = MESSAGE_QUEUE_STATUS_ERROR_MUTEX ∧ m' = with_faults (m_faults m') m)
     ∨ ∃ q', m_queues m' !! l = Some q' ∧ queue_ok q' ∧
         q_elems q' = Some <$> fifo_enqueue (Z.to_nat cap) x xs ∧
         (st = MESSAGE_QUEUE_STATUS_SUCCESS ∧ q_mutex q' = false
          ∨ st = MESSAGE_QUEUE_STATUS_ERROR_MUTEX ∧ q_mutex q' = true
          ∨ st = MESSAGE_QUEUE_STATUS_ERROR_CONDVAR)).
Proof.
  intros Hcap (q & Hl & Hq & Hm & Hc & He & Hlive).
  destruct (enqueue_cases m l q xs Hl Hq Hm He Hlive x) as (st & m' & E & _ & Hcases).
  exists st, m'. split; [done|].
  destruct Hcases as [?|(locked & Em & Hst)]; [by left|]. right.
  exists (enqueued_q q xs x locked). rewrite Em. simpl. rewrite lookup_insert_eq. subst cap.
  split_and!; [done| |by apply q_elems_enqueue|naive_solver].
  pose proof (push_ok _ (advance_ok q Hq (length (fifo_dropped (Z.to_nat (q_capacity q)) xs))) (Some x)) as [].
  by split.
Qed.

Lemma enqueue_all_branches_witness :
  ∃ st m', message_queue_enqueue (Some 9%positive) (Some 1%positive) (with_faults [false; false; true] mem4)
           = Ok (st, m').
Proof.
  destruct (enqueue_all_branches 9 4 (with_faults [false; false; true] mem4) [] 1)
    as (st & m' & E & _); [lia|by apply queue_atb_sound; vm_compute|]. by exists st, m'.
Defined.

(** The queue keeps a message that it reports as not enqueued.  When
    [pthread_cond_signal] fails, [message_queue_enqueue] returns [ERROR_CONDVAR] although the
    message has been appended: a caller that frees the message on an error status (as
    [net_connection_add_to_queue] does) leaves a dangling pointer in the queue. *)
Theorem enqueue_condvar_error_keeps_message l cap m xs x fs :
  2 ≤ cap → queue_at m l cap xs → m_faults m = false :: true :: false :: fs →
  ∃ m' q', message_queue_enqueue (Some l) (Some x) m
             = Ok (MESSAGE_QUEUE_STATUS_ERROR_CONDVAR, m') ∧
    m_queues m' !! l = Some q' ∧ q_mutex q' = false ∧
    q_elems q' = Some <$> fifo_enqueue (Z.to_nat cap) x xs ∧
    ∃ zs, fifo_enqueue (Z.to_nat cap) x xs = zs ++ [x].
Proof.
  intros Hcap (q & Hl & Hq & Hm & Hc & He & Hlive) Hf.
  unfold message_queue_enqueue, mutex_lock, bind at 1 2, fallible at 1. simpl. rewrite Hf. simpl.
  unfold bind. simpl. rewrite Hl, Hm. simpl. rewrite Hl. simpl.
  set (m1 := with_queues _ _). set (q1 := set_mutex true q) in m1.
  assert (H1 : m_queues m1 !! l = Some q1) by apply lookup_insert_eq.
  assert (Hq1 : queue_ok q1) by (by destruct Hq).
  rewrite (enqueue_locked_eq m1 l q1 xs H1 Hq1 He Hlive). unfold mutex_unlock, fallible, bind.
  simpl. rewrite lookup_insert_eq. simpl. rewrite lookup_insert_eq. simpl.
  eexists _, _. split; [done|]. simpl. rewrite lookup_insert_eq. split; [done|].
  subst cap. split; [done|]. split; [by apply (q_elems_enqueue q xs Hq He x)|].
  unfold fifo_enqueue. case_bool_decide; eauto.
Qed.

Lemma enqueue_condvar_error_witness :
  ∃ m' q', m_queues m' !! 9%positive = Some q' ∧ q_elems q' = [Some 1%positive].
Proof.
  destruct (enqueue_condvar_error_keeps_message 9 4 (with_faults [false; true; false] mem4) [] 1 [])
    as (m' & q' & _ & Hq & _ & He & _); [lia|by apply queue_atb_sound; vm_compute|done|].
  by exists m', q'.
Defined.

(** A dequeue of a non-empty queue returns the oldest message and removes it, for the
    blocking and the non-blocking call alike; on an empty queue the non-blocking call
    returns NULL and changes nothing, and the blocking call suspends the caller. *)
Theorem dequeue_spec l cap m xs :
  2 ≤ cap → queue_at m l cap xs → m_faults m = [] →
  match xs with
  | [] => message_queue_dequeue_nonblocking (Some l) m = Ok (None, m)
          ∧ message_queue_dequeue (Some l) m = Blocked
  | x :: ys => ∃ m', message_queue_dequeue (Some l) m = Ok (Some x, m')
          ∧ message_queue_dequeue_nonblocking (Some l) m = Ok (Some x, m')
          ∧ queue_at m' l cap ys ∧ m_msgs m' = m_msgs m
  end.
Proof.
  intros Hcap Hat Hf. pose proof Hat as (q & Hl & Hq & Hm & Hc & He & Hlive).
  destruct xs as [|x ys].
  - destruct (nonblocking_cases m l q [] Hl Hq Hm He) as (p & m' & E & Hn & -> & [Em|[? _]]); [|done].
    split; [|by eapply dequeue_empty]. rewrite E, Em, (Hn Hf). destruct m; simpl in *; by subst.
  - destruct (nonblocking_refines l cap Hcap m (x :: ys) Hat Hf) as (m' & E & Hat' & _ & _ & _ & Em & _).
    exists m'. by rewrite (dequeue_nonempty m l q x ys Hl Hq He).
Qed.

Lemma dequeue_spec_witness :
  ∃ m', message_queue_dequeue (Some 9%positive) mem4_full = Ok (Some 1%positive, m').
Proof.
  destruct (dequeue_spec 9 4 mem4_full [1; 3; 5]%positive) as (m' & E & _);
    [lia|by apply queue_atb_sound; vm_compute|done|]. by exists m'.
Defined.

(** [message_queue_create] on every branch: NULL for a capacity that is not positive and
    after any failing library call, with no queue left behind; otherwise a fresh, unlocked,
    empty queue. *)
Theorem message_queue_create_total c m :
  heap_ok m → c + c / 2 ≤ INT_MAX →
  ∃ p m', message_queue_create c m = Ok (p, m') ∧ heap_ok m' ∧
    (c ≤ 0 → p = None) ∧ (0 < c → m_faults m = [] → is_Some p) ∧
    match p with
    | None => m_queues m' = m_queues m
    | Some l => m_queues m !! l = None ∧ queue_at m' l c []
    end.
Proof.
  intros Hh Hi. destruct (message_queue_create_spec c m Hh) as (p & m' & E & Hh' & _ & _ & Hf & Hp).
  exists p, m'. split_and!; try done.
  - intros. destruct p; [|done]. destruct Hp as [? _]. lia.
  - naive_solver.
  - destruct p as [l|]; [|done]. destruct Hp as (Hc & Hl & Em). split; [done|].
    apply queue_at_fresh; [done|done|]. rewrite Em. apply lookup_insert_eq.
Qed.

Lemma message_queue_create_total_witness :
  ∃ l m', message_queue_create 4 mem0 = Ok (Some l, m') ∧ queue_at m' l 4 [].
Proof.
  destruct (message_queue_create_total 4 mem0) as (p & m' & E & _ & _ & Hs & Hp);
    [by apply heap_okb_sound|by vm_compute|].
  destruct p as [l|]; [|by destruct (Hs eq_refl eq_refl)]. exists l, m'. by destruct Hp.
Defined.

(** [message_queue_delete] frees the queue and every message still in it, each exactly
    once. *)
Theorem message_queue_delete_frees m l cap xs :
  queue_at m l cap xs → m_faults m = [] →
  ∃ m', ⟦ message_queue_delete (Some l) ⟧ m ⇓ tt, m' ∧ m_queues m' !! l = None ∧
    (∀ k, k ≠ l → m_queues m' !! k = m_queues m !! k) ∧
    ∀ y, m_msgs m' !! y = if decide (y ∈ xs) then None else m_msgs m !! y.
Proof.
  intros Hat Hf. eexists. split; [by apply (message_queue_delete_eq m l cap xs)|]. simpl.
  split_and!; [apply lookup_delete_eq| |].
  - intros k Hk. by rewrite lookup_delete_ne by done.
  - intros y. apply lookup_delete_all.
Qed.

Lemma message_queue_delete_frees_witness :
  ∃ m', ⟦ message_queue_delete (Some 9%positive) ⟧ mem4_full ⇓ tt, m' ∧
    m_msgs m' !! 3%positive = None ∧ is_Some (m_msgs m' !! 7%positive).
Proof.
  destruct (message_queue_delete_frees mem4_full 9 4 [1; 3; 5]%positive) as (m' & E & _ & _ & Hm);
    [by apply queue_atb_sound; vm_compute|done|].
  exists m'. split; [done|]. rewrite !Hm. split; [done|]. vm_compute. eauto.
Defined.

(** A queue of capacity 1, which [message_queue_create] accepts, can hold nothing: every
    enqueue reports success, but the queue stays empty and the message is lost. *)
Theorem capacity_one_loses_messages l m x :
  queue_at m l 1 [] → m_faults m = [] → is_Some (m_msgs m !! x) →
  ∃ m', ⟦ message_queue_enqueue (Some l) (Some x) ⟧ m ⇓ MESSAGE_QUEUE_STATUS_SUCCESS, m' ∧
    queue_at m' l 1 [] ∧ m_msgs m' = m_msgs m.
Proof.
  intros (q & Hl & Hq & Hm & Hc & He & Hlive) Hf Hx.
  destruct (enqueue_cases m l q [] Hl Hq Hm He Hlive x) as (st & m' & E & Hn & Hcases).
  destruct (Hn Hf) as [-> Hf']. exists m'. split; [done|].
  destruct Hcases as [[? _]|(locked & Em & [[_ ->]|[[? _]|?]])]; try done.
  rewrite Em. simpl. split; [|by rewrite Hc].
  exists (enqueued_q q [] x false). simpl. rewrite lookup_insert_eq. split; [done|].
  pose proof (push_ok _ (advance_ok q Hq (length (fifo_dropped (Z.to_nat (q_capacity q)) []))) (Some x)) as Hq'.
  split_and!; try done.
  - destruct Hq'. by split.
  - apply (q_elems_nil _ Hq'). pose proof (qok_head _ Hq'). pose proof (qok_tail _ Hq').
    simpl in *. lia.
  - split; [constructor|set_solver].
Qed.

Lemma capacity_one_loses_messages_witness :
  ∃ m', ⟦ message_queue_enqueue (Some 3%positive) (Some 1%positive) ⟧ (run (message_queue_create 1) mem1)
          ⇓ MESSAGE_QUEUE_STATUS_SUCCESS, m' ∧ queue_at m' 3 1 [].
Proof.
  destruct (capacity_one_loses_messages 3 (run (message_queue_create 1) mem1) 1) as (m' & E & Hat & _);
    [by apply queue_atb_sound; vm_compute|done|vm_compute; eauto|]. by exists m'.
Defined.
