(* ===== verification/QueueSteps.v ===== *)
(** * QueueSteps: the queue operations one statement at a time

    Several threads use one queue (network/message_queue.c).  [enqueue_step] and [dequeue_step] are
    the operations cut at the places where another thread can come in: every call of the pthread
    library and every access to a field of the queue is a step of its own, but for an iteration of
    the loop that clears half of the queue.  A thread in [pthread_cond_wait] has released the mutex
    and stays there until it is woken; [QueueShared] says by whom.  The end of the file proves that
    the steps of a thread that runs alone are the sequential operation. *)
From S2P Require Import Prelude Layout Memory Message MessageQueue.

Local Open Scope Z_scope.

(** Where a thread is in [message_queue_enqueue]. *)
Inductive enqueue_pc : Type :=
  | EnqLock                        (* before pthread_mutex_lock *)
  | EnqFull                        (* before the test for a full queue *)
  | EnqClear (next_tail : Z)       (* before the test of the clearing loop *)
  | EnqStore (next_tail : Z)       (* before the message is stored *)
  | EnqTail (next_tail : Z)        (* before the tail is stored *)
  | EnqSignal                      (* before pthread_cond_signal *)
  | EnqUnlock (signalled : bool).  (* before pthread_mutex_unlock *)

(** Where a thread is in [message_queue_dequeue] or [message_queue_dequeue_nonblocking]. *)
Inductive dequeue_pc : Type :=
  | DeqLock                        (* before pthread_mutex_lock *)
  | DeqTest                        (* before the test for an empty queue *)
  | DeqWaiting                     (* in pthread_cond_wait, not woken *)
  | DeqWoken                       (* in pthread_cond_wait, taking the mutex again *)
  | DeqTake                        (* before the head is read *)
  | DeqHead (message : ptr)        (* before the head is advanced *)
  | DeqUnlock (message : ptr).     (* before pthread_mutex_unlock *)

#[export] Instance enqueue_pc_eq_dec : EqDecision enqueue_pc.
Proof. solve_decision. Defined.
#[export] Instance dequeue_pc_eq_dec : EqDecision dequeue_pc.
Proof. solve_decision. Defined.

(** One step of [message_queue_enqueue]; [inr] is its return value. *)
Definition enqueue_step (queue message : ptr) (pc : enqueue_pc)
    : M mem (enqueue_pc + message_queue_status_t) :=
  match pc with
  | EnqLock =>
      match queue, message with
      | Some _, Some _ =>
          let* locked := mutex_lock queue in
          ret (if locked then inl EnqFull else inr MESSAGE_QUEUE_STATUS_ERROR_MUTEX)
      | _, _ => ret (inr MESSAGE_QUEUE_STATUS_ERROR_NULL_POINTER)
      end
  | EnqFull =>
      let* q := load queue in
      let* t := int_add (q_tail q) 1 in
      let next_tail := int_rem t (q_capacity q) in
      ret (inl (if next_tail =? q_head q then EnqClear next_tail else EnqStore next_tail))
  | EnqClear next_tail =>
      let* q := load queue in
      let* s := int_add next_tail (int_div (q_capacity q) 2) in
      if q_head q =? int_rem s (q_capacity q) then ret (inl (EnqStore next_tail)) else
      let* tmp := buffer_get q (q_head q) in
      message_delete tmp ;;
      let* h := int_add (q_head q) 1 in
      store queue (set_head (int_rem h (q_capacity q)) q) ;;
      ret (inl (EnqClear next_tail))
  | EnqStore next_tail =>
      let* q := load queue in
      let* q := buffer_set q (q_tail q) message in
      store queue q ;;
      ret (inl (EnqTail next_tail))
  | EnqTail next_tail =>
      let* q := load queue in
      store queue (set_tail next_tail q) ;;
      ret (inl EnqSignal)
  | EnqSignal =>
      let* signalled := fallible in
      ret (inl (EnqUnlock signalled))
  | EnqUnlock signalled =>
      let* unlocked := mutex_unlock queue in
      ret (inr (if negb signalled then MESSAGE_QUEUE_STATUS_ERROR_CONDVAR
                else if negb unlocked then MESSAGE_QUEUE_STATUS_ERROR_MUTEX
                else MESSAGE_QUEUE_STATUS_SUCCESS))
  end.

(** One step of [message_queue_dequeue] ([blocking]) or [message_queue_dequeue_nonblocking]. *)
Definition dequeue_step (blocking : bool) (queue : ptr) (pc : dequeue_pc) : M mem (dequeue_pc + ptr) :=
  match pc with
  | DeqLock =>
      match queue with
      | None => ret (inr None)
      | Some _ => let* locked := mutex_lock queue in ret (if locked then inl DeqTest else inr None)
      end
  | DeqTest =>
      let* q := load queue in
      if negb (q_head q =? q_tail q) then ret (inl DeqTake) else
      if negb blocking then ret (inl (DeqUnlock None)) else
      let* waited := fallible in
      if negb waited then mutex_unlock queue ;; ret (inr None)
      else store queue (set_mutex false q) ;; ret (inl DeqWaiting)
  | DeqWaiting => blocked
  | DeqWoken =>
      let* q := load queue in
      if q_mutex q then blocked else store queue (set_mutex true q) ;; ret (inl DeqTest)
  | DeqTake =>
      let* q := load queue in
      let* message := buffer_get q (q_head q) in
      ret (inl (DeqHead message))
  | DeqHead message =>
      let* q := load queue in
      let* h := int_add (q_head q) 1 in
      store queue (set_head (int_rem h (q_capacity q)) q) ;;
      ret (inl (DeqUnlock message))
  | DeqUnlock message =>
      let* unlocked := mutex_unlock queue in
      ret (inr (if negb unlocked then None else message))
  end.

(** ** A thread that runs alone *)
Section Alone.
Context {T P R : Type} (step : P → M T (P + R)).

Fixpoint run_steps (fuel : nat) (pc : P) : M T R :=
  match fuel with
  | O => no_fuel
  | S fuel =>
      let* r := step pc in
      match r with inl pc => run_steps fuel pc | inr r => ret r end
  end.

(** The steps from [pc] lead to [o], however much more fuel there is. *)
Definition leads (pc : P) (m : T) (o : outcome (R * T)) : Prop :=
  ∃ k, ∀ fuel, (k ≤ fuel)%nat → run_steps fuel pc m = o.

Lemma leads_intro pc m o :
  match step pc m with
  | Ok (inl pc', m') => leads pc' m' o
  | Ok (inr r, m') => o = Ok (r, m')
  | Undefined u => o = Undefined u
  | Blocked => o = Blocked
  | Exited c => o = Exited c
  | NoFuel => o = NoFuel
  end → leads pc m o.
Proof using Type.
  intros H. destruct (step pc m) as [[[pc'|r] m']|u| |c|] eqn:E.
  1: destruct H as [k H]; exists (S k).
  2-6: exists 1%nat; subst o.
  all: intros [|fuel] Hf; [lia|]; simpl; unfold bind; rewrite E; try done.
  apply H. lia.
Qed.
End Alone.

(** Case analysis on the library call or memory access that the computation starts with. *)
Ltac by_cases :=
  match goal with
  | |- context [match ?e ?m with Ok _ => _ | Undefined _ => _ | Blocked => _ | Exited _ => _ | NoFuel => _ end] =>
      lazymatch e with
      | context [match _ with _ => _ end] => fail
      | clear_half _ _ _ => fail
      | _ => destruct (e m) as [[? ?]|?| |?|]; simpl; try done
      end
  end.

Section Equivalence.
Context (queue message : ptr).

Lemma clear_leads nt fuel (K : unit → M mem message_queue_status_t) : ∀ m,
  clear_half fuel queue nt m ≠ NoFuel →
  (∀ m', leads (enqueue_step queue message) (EnqStore nt) m' (K tt m')) →
  leads (enqueue_step queue message) (EnqClear nt) m (bind (clear_half fuel queue nt) K m).
Proof using Type.
  induction fuel as [|fuel IH]; intros m Hn HK; apply leads_intro; simpl in *; unfold bind in *;
    repeat by_cases; destruct (_ =? _) eqn:E; simpl; try done; try apply HK; repeat by_cases.
  by apply IH.
Qed.

(** The last statements of [message_queue_enqueue]. *)
Definition enqueue_rest : M mem message_queue_status_t :=
  let* signalled := fallible in
  if negb signalled then mutex_unlock queue ;; ret MESSAGE_QUEUE_STATUS_ERROR_CONDVAR
  else
  let* unlocked := mutex_unlock queue in
  if negb unlocked then ret MESSAGE_QUEUE_STATUS_ERROR_MUTEX else ret MESSAGE_QUEUE_STATUS_SUCCESS.
Definition enqueue_append (nt : Z) : M mem unit :=
  let* q := load queue in
  let* q := buffer_set q (q_tail q) message in
  store queue (set_tail nt q).

Lemma rest_leads m : leads (enqueue_step queue message) EnqSignal m (enqueue_rest m).
Proof using Type.
  apply leads_intro. unfold enqueue_rest. simpl. unfold bind. by_cases. apply leads_intro. simpl. unfold bind.
  destruct b; simpl; by_cases; by destruct b.
Qed.

Lemma append_leads nt m :
  leads (enqueue_step queue message) (EnqStore nt) m ((enqueue_append nt ;; enqueue_rest) m).
Proof using Type.
  apply leads_intro. unfold enqueue_append. simpl. unfold bind, load, store. simpl.
  destruct queue as [l|] eqn:Eq; simpl; [|done]. destruct (m_queues m !! l) as [q|] eqn:El; simpl; [|done].
  unfold buffer_set. destruct (_ || _); simpl; [done|]. rewrite El. simpl.
  apply leads_intro. simpl. unfold bind, load, store. simpl. rewrite !lookup_insert_eq. simpl. rewrite lookup_insert_eq.
  simpl. rewrite insert_insert_eq. rewrite <- Eq. apply rest_leads.
Qed.

Lemma enqueue_leads m :
  message_queue_enqueue queue message m ≠ NoFuel →
  leads (enqueue_step queue message) EnqLock m (message_queue_enqueue queue message m).
Proof using Type.
  intros Hn. apply leads_intro. revert Hn. unfold message_queue_enqueue, enqueue_locked. cbn [enqueue_step].
  destruct queue as [l|] eqn:Eq, message as [x|] eqn:Ex; try done. rewrite <- Eq, <- Ex. intros Hn.
  unfold bind in Hn |- *. destruct (mutex_lock queue m) as [[locked m1]|?| |?|]; simpl; try done.
  destruct locked; simpl in *; [|done].
  apply leads_intro. cbn [enqueue_step]. unfold bind.
  destruct (load queue m1) as [[q m2]|?| |?|]; simpl; try done.
  destruct (int_add (q_tail q) 1 m2) as [[t m3]|?| |?|]; simpl; try done.
  destruct (_ =? _); simpl in *.
  - pose proof (clear_leads (int_rem t (q_capacity q)) (Z.to_nat (q_capacity q))
      (λ _, enqueue_append (int_rem t (q_capacity q)) ;; enqueue_rest) m3) as H.
    unfold bind in H. destruct (clear_half _ _ _ m3) as [[[] m4]|?| |?|]; try done.
    all: apply H; [done|intros; apply append_leads].
  - apply append_leads.
Qed.

(** From a non-empty queue on, both ways to dequeue are [take_head]. *)
Lemma take_leads blocking m : leads (dequeue_step blocking queue) DeqTake m (take_head queue m).
Proof using Type.
  apply leads_intro. unfold take_head. simpl. unfold bind, load, store. simpl.
  destruct queue as [l|] eqn:Eq; simpl; [|done]. destruct (m_queues m !! l) as [q|] eqn:El; simpl; [|done].
  unfold buffer_get. destruct (_ <? _); [done|]. destruct (q_buffer q !! _) as [p|] eqn:Ep; simpl; [|done].
  apply leads_intro. simpl. unfold bind, load, store. simpl. rewrite El. simpl.
  unfold int_add. destruct (in_int _); [|done]. simpl. rewrite El. rewrite <- Eq.
  apply leads_intro. simpl. unfold bind. by_cases. by destruct b.
Qed.

Lemma dequeue_leads m : leads (dequeue_step true queue) DeqLock m (message_queue_dequeue queue m).
Proof using Type.
  apply leads_intro. unfold message_queue_dequeue. cbn [dequeue_step]. destruct queue as [l|] eqn:Eq; [|done].
  rewrite <- Eq. unfold bind. by_cases. destruct b; simpl; [|done]. apply leads_intro. cbn [dequeue_step].
  unfold bind at 1. destruct (load queue m0) as [[q m1]|?| |?|] eqn:El; simpl; try done.
  destruct (_ =? _); simpl; [|apply take_leads].
  unfold load in El. rewrite Eq in El. simpl in El. destruct (m_queues m0 !! l) as [q'|] eqn:Hq; [|done].
  injection El as -> ->. unfold bind. destruct (fallible_cases m1) as (ok & fs & -> & _).
  destruct ok; simpl; [|by by_cases]. unfold store. rewrite Eq. simpl. rewrite Hq. by apply leads_intro.
Qed.

Lemma dequeue_nonblocking_leads m :
  leads (dequeue_step false queue) DeqLock m (message_queue_dequeue_nonblocking queue m).
Proof using Type.
  apply leads_intro. unfold message_queue_dequeue_nonblocking. cbn [dequeue_step].
  destruct queue as [l|] eqn:Eq; [|done].
  rewrite <- Eq. unfold bind. by_cases. destruct b; simpl; [|done]. apply leads_intro. cbn [dequeue_step].
  unfold bind at 1. destruct (load queue m0) as [[q m1]|?| |?|] eqn:El; simpl; try done.
  destruct (_ =? _); simpl; [|apply take_leads]. apply leads_intro. simpl. unfold bind. by_cases. by destruct b.
Qed.
End Equivalence.

(** ** Adequacy of the steps *)

(** The two translations of the queue operations agree.  In every state in which the loop of an
    enqueue that clears half of the queue ends, also with the mutex held, a damaged queue or failing
    library calls, the steps of a thread that is not interrupted have the same outcome as the
    sequential operation, and the fuel needed is finite. *)
Lemma queue_steps_equivalent queue message m :
  message_queue_enqueue queue message m ≠ NoFuel →
  ∃ k, ∀ fuel, (k ≤ fuel)%nat →
    run_steps (enqueue_step queue message) fuel EnqLock m = message_queue_enqueue queue message m ∧
    run_steps (dequeue_step true queue) fuel DeqLock m = message_queue_dequeue queue m ∧
    run_steps (dequeue_step false queue) fuel DeqLock m = message_queue_dequeue_nonblocking queue m.
Proof.
  intros Hn. destruct (enqueue_leads queue message m Hn) as [k1 H1], (dequeue_leads queue m) as [k2 H2],
    (dequeue_nonblocking_leads queue m) as [k3 H3].
  exists (k1 + k2 + k3)%nat. intros fuel Hf. split_and!; [apply H1|apply H2|apply H3]; lia.
Qed.

Lemma queue_steps_equivalent_witness :
  ∃ k, ∀ fuel, (k ≤ fuel)%nat →
    run_steps (enqueue_step (Some 9%positive) (Some 7%positive)) fuel EnqLock mem4_full
      = message_queue_enqueue (Some 9%positive) (Some 7%positive) mem4_full.
Proof.
  destruct (queue_steps_equivalent (Some 9%positive) (Some 7%positive) mem4_full) as [k H]; [by vm_compute|].
  exists k. intros fuel Hf. exact (proj1 (H fuel Hf)).
Defined.
