(* ===== verification/QueueShared.v ===== *)
(** * QueueShared: one message queue used by any number of threads

    A transition system over the steps of [QueueSteps].  Threads call the operations of one queue,
    create, change and delete the messages that they hold, and are interleaved at every step; a
    signal wakes one of the threads that wait on the condition variable, if there is one, and a
    waiting thread may also wake up on its own, as POSIX allows.  A thread may only enqueue or
    delete a message that it holds: it got it from [message_create] or from a dequeue. *)
From S2P Require Import Prelude Layout Memory Message MessageQueue QueueSteps.

Local Open Scope Z_scope.
#[local] Arguments Nat.div : simpl never.

Inductive call : Type := Enqueue (x : loc) | Dequeue (blocking : bool).
Inductive result : Type := Status (st : message_queue_status_t) | Received (p : ptr).

Inductive thread_pc : Type :=
  | Idle
  | InEnqueue (x : loc) (pc : enqueue_pc)
  | InDequeue (blocking : bool) (pc : dequeue_pc).

#[export] Instance thread_pc_eq_dec : EqDecision thread_pc.
Proof. solve_decision. Defined.

(** A thread, the messages that it holds, and its calls so far with their results. *)
Record thread := Thread {
  t_pc : thread_pc;
  t_held : list loc;
  t_log : list (call * result);
}.
Record system := System { sys_mem : mem; sys_threads : list thread }.

Definition at_pc (pc : thread_pc) (t : thread) : thread := Thread pc (t_held t) (t_log t).
Definition with_held (xs : list loc) (t : thread) : thread := Thread (t_pc t) xs (t_log t).
Definition put_thread (i : nat) (t : thread) (m : mem) (s : system) : system :=
  System m (<[i := t]> (sys_threads s)).

(** What a thread does next inside a call. *)
Definition thread_step (queue : ptr) (t : thread) : M mem thread :=
  match t_pc t with
  | Idle => blocked
  | InEnqueue x pc =>
      let* r := enqueue_step queue (Some x) pc in
      ret (match r with
           | inl pc => at_pc (InEnqueue x pc) t
           | inr st => Thread Idle (if bool_decide (st = MESSAGE_QUEUE_STATUS_SUCCESS) then t_held t else x :: t_held t)
                         (t_log t ++ [(Enqueue x, Status st)])
           end)
  | InDequeue blocking pc =>
      let* r := dequeue_step blocking queue pc in
      ret (match r with
           | inl pc => at_pc (InDequeue blocking pc) t
           | inr p => Thread Idle (t_held t ++ option_list p) (t_log t ++ [(Dequeue blocking, Received p)])
           end)
  end.

(** Beginning a call; the message of an enqueue leaves the hands of the thread. *)
Definition start_call (c : call) (t : thread) : option thread :=
  match t_pc t, c with
  | Idle, Enqueue x =>
      if bool_decide (x ∈ t_held t)
      then Some (Thread (InEnqueue x EnqLock) (filter (.≠ x) (t_held t)) (t_log t)) else None
  | Idle, Dequeue blocking => Some (at_pc (InDequeue blocking DeqLock) t)
  | _, _ => None
  end.

Definition waiting (t : thread) : bool :=
  match t_pc t with InDequeue _ DeqWaiting => true | _ => false end.
Definition signalling (t : thread) : bool :=
  match t_pc t with InEnqueue _ EnqSignal => true | _ => false end.
Definition wake (t : thread) : thread :=
  match t_pc t with InDequeue b DeqWaiting => at_pc (InDequeue b DeqWoken) t | _ => t end.

Inductive action : Type :=
  | Call (i : nat) (c : call)
  | Run (i : nat)
  | Signal (i : nat) (j : option nat)    (* thread [i] signals, thread [j] wakes up *)
  | Spurious (j : nat)
  | Create (i : nat) (type data_capacity : Z)
  | Delete (i : nat) (x : loc)
  | Edit (i : nat) (x : loc) (msg : message_t)
  | Poke (d : loc) (bs : list byte).

(** The threads after a signal; without a waiting thread it has no effect. *)
Definition signal_to (j : option nat) (ts : list thread) : option (list thread) :=
  match j with
  | Some j => t ← ts !! j; if waiting t then Some (<[j := wake t]> ts) else None
  | None => if existsb waiting ts then None else Some ts
  end.

Definition act (queue : ptr) (a : action) (s : system) : option system :=
  match a with
  | Call i c =>
      t ← sys_threads s !! i; t' ← start_call c t; Some (put_thread i t' (sys_mem s) s)
  | Run i =>
      t ← sys_threads s !! i;
      if signalling t then None else
      match thread_step queue t (sys_mem s) with Ok (t', m') => Some (put_thread i t' m' s) | _ => None end
  | Signal i j =>
      t ← sys_threads s !! i;
      if negb (signalling t) then None else
      match thread_step queue t (sys_mem s) with
      | Ok (t', m') => ts ← signal_to j (<[i := t']> (sys_threads s)); Some (System m' ts)
      | _ => None
      end
  | Spurious j =>
      t ← sys_threads s !! j; if waiting t then Some (put_thread j (wake t) (sys_mem s) s) else None
  | Create i type data_capacity =>
      t ← sys_threads s !! i;
      if negb (bool_decide (t_pc t = Idle) && (0 <=? data_capacity)) then None else
      match message_create type data_capacity (sys_mem s) with
      | Ok (p, m') => Some (put_thread i (with_held (t_held t ++ option_list p) t) m' s)
      | _ => None
      end
  | Delete i x =>
      t ← sys_threads s !! i;
      if negb (bool_decide (t_pc t = Idle) && bool_decide (x ∈ t_held t)) then None else
      match message_delete (Some x) (sys_mem s) with
      | Ok (_, m') => Some (put_thread i (with_held (filter (.≠ x) (t_held t)) t) m' s)
      | _ => None
      end
  | Edit i x msg =>
      t ← sys_threads s !! i;
      if bool_decide (x ∈ t_held t)
      then Some (System (with_msgs (<[x := msg]> (m_msgs (sys_mem s))) (sys_mem s)) (sys_threads s)) else None
  | Poke d bs =>
      _ ← m_bytes (sys_mem s) !! d;
      Some (System (with_bytes (<[d := bs]> (m_bytes (sys_mem s))) (sys_mem s)) (sys_threads s))
  end.

Inductive reaches (queue : ptr) : system → system → Prop :=
  | reaches_refl s : reaches queue s s
  | reaches_act s1 s2 s3 a : reaches queue s1 s2 → act queue a s2 = Some s3 → reaches queue s1 s3.

Fixpoint run_actions (queue : ptr) (actions : list action) (s : system) : option system :=
  match actions with
  | [] => Some s
  | a :: actions => s' ← act queue a s; run_actions queue actions s'
  end.

Lemma run_actions_reaches queue actions : ∀ s0 s s',
  reaches queue s0 s → run_actions queue actions s = Some s' → reaches queue s0 s'.
Proof.
  induction actions as [|a actions IH]; intros s0 s s' Hr; simpl; [by intros [= <-]|].
  destruct (act queue a s) as [s1|] eqn:E; [|done]. apply IH. by eapply reaches_act.
Qed.

(** ** Specification: a history of calls on the abstract FIFO *)
Definition fifo_call (cap : nat) (c : call) (xs : list loc) : result * list loc :=
  match c with
  | Enqueue x => (Status MESSAGE_QUEUE_STATUS_SUCCESS, fifo_enqueue cap x xs)
  | Dequeue _ => (Received (fifo_dequeue xs).1, (fifo_dequeue xs).2)
  end.

(** The calls of [h], each with the thread that made it and its result, one after the other lead
    from [xs] to [ys]; a blocking dequeue never happens on an empty queue. *)
Inductive fifo_history (cap : nat) (xs : list loc) : list (nat * (call * result)) → list loc → Prop :=
  | fifo_nil : fifo_history cap xs [] xs
  | fifo_snoc h ys i c :
      fifo_history cap xs h ys → (c = Dequeue true → ys ≠ []) →
      fifo_history cap xs (h ++ [(i, (c, (fifo_call cap c ys).1))]) (fifo_call cap c ys).2.

(** The calls of thread [i]. *)
Definition calls_of (i : nat) (h : list (nat * (call * result))) : list (call * result) :=
  (filter (λ e, e.1 = i) h).*2.

(** ** The invariant *)

(** Messages that a thread is responsible for: those it holds, and the one that it is about to put
    into the queue or has just taken out. *)
Definition in_transit (pc : thread_pc) : list loc :=
  match pc with
  | InEnqueue _ (EnqSignal | EnqUnlock _) => []
  | InEnqueue x _ => [x]
  | InDequeue _ (DeqUnlock p) => option_list p
  | _ => []
  end.
Definition responsible (t : thread) : list loc := t_held t ++ in_transit (t_pc t).

(** The call of a thread that has taken effect and not returned yet. *)
Definition effective (pc : thread_pc) : list (call * result) :=
  match pc with
  | InEnqueue x (EnqSignal | EnqUnlock _) => [(Enqueue x, Status MESSAGE_QUEUE_STATUS_SUCCESS)]
  | InDequeue b (DeqUnlock p) => [(Dequeue b, Received p)]
  | _ => []
  end.

Definition critical (pc : thread_pc) : bool :=
  match pc with
  | Idle | InEnqueue _ EnqLock | InDequeue _ (DeqLock | DeqWaiting | DeqWoken) => false
  | _ => true
  end.

(** Does the thread look for a message, or is it about to wake one that will? *)
Definition attends (t : thread) : nat :=
  match t_pc t with
  | InEnqueue _ EnqSignal | InDequeue _ (DeqWoken | DeqTest | DeqTake | DeqHead _) => 1
  | _ => 0
  end.

(** The abstract queue [xs] and the messages [es] in the buffer, when the thread at [pc] is in its
    critical section. *)
Definition middle (pc : thread_pc) (q : message_queue_t) (xs es : list loc) : Prop :=
  let cap := Z.to_nat (q_capacity q) in
  match pc with
  | InEnqueue x (EnqClear nt) =>
      nt = q_next q (q_tail q) ∧ (length xs + 1 = cap)%nat ∧
      ∃ k, (k ≤ cap / 2)%nat ∧ es = drop k xs ∧
        (nt + q_capacity q / 2) mod q_capacity q = (q_head q + Z.of_nat (cap / 2 - k)) mod q_capacity q
  | InEnqueue x (EnqStore nt) =>
      nt = q_next q (q_tail q) ∧ es = drop (length (fifo_dropped cap xs)) xs
  | InEnqueue x (EnqTail nt) =>
      nt = q_next q (q_tail q) ∧ es = drop (length (fifo_dropped cap xs)) xs ∧
      q_buffer q !! Z.to_nat (q_tail q) = Some (Some x)
  | InEnqueue x (EnqUnlock signalled) => signalled = true ∧ es = xs
  | InDequeue b DeqTake => es = xs ∧ xs ≠ []
  | InDequeue b (DeqHead p) => es = xs ∧ xs ≠ [] ∧ p = (fifo_dequeue xs).1
  | _ => es = xs
  end.

Section Invariant.
Context (l : loc) (cap : Z) (xs0 : list loc).
Implicit Types (m : mem) (t : thread) (ts : list thread) (xs es : list loc) (own : option nat).

(** [own] is the thread that holds the mutex. *)
Record inv m ts own (h : list (nat * (call * result))) xs es : Prop := {
  inv_faults : m_faults m = [];
  inv_heap : heap_ok m;
  inv_queue : ∃ q, m_queues m !! l = Some q ∧ queue_ok q ∧ q_capacity q = cap ∧
    q_elems q = Some <$> es ∧ q_mutex q = bool_decide (is_Some own) ∧
    match own with
    | Some i => ∃ t, ts !! i = Some t ∧ middle (t_pc t) q xs es
    | None => es = xs
    end;
  inv_owner : ∀ i t, ts !! i = Some t → critical (t_pc t) = true ↔ own = Some i;
  inv_distinct : NoDup (es ++ (ts ≫= responsible));
  inv_live : ∀ x, is_Some (m_msgs m !! x) ↔ x ∈ es ++ (ts ≫= responsible);
  inv_history : fifo_history (Z.to_nat cap) xs0 h xs;
  inv_calls : ∀ i t, ts !! i = Some t → calls_of i h = t_log t ++ effective (t_pc t);
  inv_wake : Exists (λ t, waiting t = true) ts → (length es ≤ sum_list_with attends ts)%nat;
}.

(** *** Replacing one thread *)
Lemma threads_out ts i t t' :
  ts !! i = Some t → ∃ rest, ts ≡ₚ t :: rest ∧ <[i := t']> ts ≡ₚ t' :: rest.
Proof using Type.
  intros E. exists (delete i ts). split; [by apply delete_Permutation|].
  rewrite insert_take_drop, delete_take_drop by (by eapply lookup_lt_Some). symmetry. apply Permutation_middle.
Qed.

Lemma responsible_out ts i t t' :
  ts !! i = Some t → ∃ rest, ts ≫= responsible ≡ₚ responsible t ++ rest ∧
    <[i := t']> ts ≫= responsible ≡ₚ responsible t' ++ rest.
Proof using Type.
  intros E. destruct (threads_out ts i t t' E) as (rest & H1 & H2).
  exists (rest ≫= responsible). split; [by rewrite H1|by rewrite H2].
Qed.

Lemma attends_out ts i t t' :
  ts !! i = Some t →
  (sum_list_with attends (<[i := t']> ts) + attends t = sum_list_with attends ts + attends t')%nat.
Proof using Type.
  intros E. destruct (threads_out ts i t t' E) as (rest & H1 & H2).
  rewrite H2. rewrite H1. simpl. lia.
Qed.

Lemma wake_out ts i t t' es es' :
  ts !! i = Some t →
  (Exists (λ t, waiting t = true) ts → (length es ≤ sum_list_with attends ts)%nat) →
  es' = [] ∨ waiting t' = false ∧ (length es' + attends t ≤ length es + attends t')%nat →
  Exists (λ t, waiting t = true) (<[i := t']> ts) → (length es' ≤ sum_list_with attends (<[i := t']> ts))%nat.
Proof using Type.
  intros E Hw [->|[Hn Hle]] Hex; [simpl; lia|]. pose proof (attends_out ts i t t' E).
  assert (Exists (λ t, waiting t = true) ts) as Hex'; [|specialize (Hw Hex'); lia].
  apply Exists_exists in Hex as (tj & (j & Hj)%list_elem_of_lookup & Hwj).
  apply list_lookup_insert_Some in Hj as [(<- & <- & _)|[_ Hj]]; [congruence|].
  apply Exists_exists. exists tj. split; [by eapply list_elem_of_lookup_2|done].
Qed.

(** *** Two ways to take a step *)

(** Thread [i], which holds the mutex before or after, changes the queue. *)
Lemma inv_put m m' ts own h xs es i t t' q' own' h' xs' es' :
  inv m ts own h xs es → ts !! i = Some t →
  own = None ∨ own = Some i → own' = None ∨ own' = Some i →
  critical (t_pc t') = bool_decide (is_Some own') →
  m_faults m' = [] → heap_ok m' → m_queues m' = <[l := q']> (m_queues m) →
  queue_ok q' → q_capacity q' = cap → q_elems q' = Some <$> es' → q_mutex q' = bool_decide (is_Some own') →
  (own' = None → es' = xs') → (own' = Some i → middle (t_pc t') q' xs' es') →
  (∃ gone, es ++ responsible t ≡ₚ gone ++ es' ++ responsible t' ∧ m_msgs m' = delete_all gone (m_msgs m)) →
  (h' = h ∧ xs' = xs ∧ t_log t' ++ effective (t_pc t') = t_log t ++ effective (t_pc t) ∨
   ∃ c, h' = h ++ [(i, (c, (fifo_call (Z.to_nat cap) c xs).1))] ∧ xs' = (fifo_call (Z.to_nat cap) c xs).2 ∧
     (c = Dequeue true → xs ≠ []) ∧
     t_log t' ++ effective (t_pc t') = t_log t ++ effective (t_pc t) ++ [(c, (fifo_call (Z.to_nat cap) c xs).1)]) →
  (Exists (λ t, waiting t = true) (<[i := t']> ts) → (length es' ≤ sum_list_with attends (<[i := t']> ts))%nat) →
  inv m' (<[i := t']> ts) own' h' xs' es'.
Proof using Type.
  intros [Hf Hh Hq Hown Hnd Hlive Hhist Hcalls Hwake] Hi Ho Ho' Hcr Hf' Hh' Hqs Hqok Hqc Hqe Hqm Hn Hs
    (gone & Hperm & Hmsgs) Hlog Hat.
  assert (Hlt : (i < length ts)%nat) by by eapply lookup_lt_Some.
  destruct (responsible_out ts i t t' Hi) as (rest & P1 & P2).
  assert (HP : es ++ (ts ≫= responsible) ≡ₚ gone ++ es' ++ (<[i := t']> ts ≫= responsible))
    by (rewrite P1, P2, app_assoc, Hperm, <- !app_assoc; done).
  rewrite HP in Hnd. apply NoDup_app in Hnd as (_ & Hdj & Hnd').
  split; try done.
  - exists q'. rewrite Hqs, lookup_insert_eq. split_and!; try done.
    destruct Ho' as [->| ->]; [by apply Hn|]. exists t'. split; [by apply list_lookup_insert_eq|by apply Hs].
  - intros j tj. rewrite list_lookup_insert_Some. intros [(<- & <- & _)|[Hne Hj]].
    + rewrite Hcr. rewrite bool_decide_eq_true. destruct Ho' as [->| ->]; [|by eauto].
      split; [by intros []|done].
    + rewrite (Hown j tj Hj). destruct Ho as [->| ->], Ho' as [->| ->]; naive_solver.
  - intros x. rewrite Hmsgs, lookup_delete_all. specialize (Hlive x). rewrite HP, elem_of_app in Hlive.
    case_decide as Hx; [|naive_solver]. split; [by intros []|]. intros Hx'. destruct (Hdj x Hx Hx').
  - destruct Hlog as [(-> & -> & _)|(c & -> & -> & Hc & _)]; [done|by constructor].
  - intros j tj. rewrite list_lookup_insert_Some.
    destruct Hlog as [(-> & _ & E)|(c & -> & _ & _ & E)]; intros [(<- & <- & _)|[Hne Hj]].
    + by rewrite E, (Hcalls i t Hi).
    + by apply Hcalls.
    + unfold calls_of. rewrite filter_app, fmap_app, filter_cons_True by done.
      fold (calls_of i h). rewrite (Hcalls i t Hi), E. by rewrite <- app_assoc.
    + unfold calls_of. rewrite filter_app, fmap_app, filter_cons_False by done.
      rewrite filter_nil, app_nil_r. by apply Hcalls.
Qed.

(** A thread does something that has nothing to do with the queue. *)
Lemma inv_private m m' ts own h xs es i t t' :
  inv m ts own h xs es → ts !! i = Some t →
  (t_pc t' = t_pc t ∨ critical (t_pc t) = false ∧ critical (t_pc t') = false) →
  m_faults m' = [] → heap_ok m' → m_queues m' = m_queues m →
  t_log t' ++ effective (t_pc t') = t_log t ++ effective (t_pc t) →
  NoDup (es ++ (<[i := t']> ts ≫= responsible)) →
  (∀ x, is_Some (m_msgs m' !! x) ↔ x ∈ es ++ (<[i := t']> ts ≫= responsible)) →
  (waiting t' = true → waiting t = true) → (attends t ≤ attends t')%nat →
  inv m' (<[i := t']> ts) own h xs es.
Proof using Type.
  intros [Hf Hh Hq Hown Hnd Hlive Hhist Hcalls Hwake] Hi Hpc Hf' Hh' Hqs Hlog Hnd' Hlive' Hwt Hat.
  assert (Hlt : (i < length ts)%nat) by by eapply lookup_lt_Some.
  assert (Hcr : critical (t_pc t') = critical (t_pc t)) by (destruct Hpc as [->|[-> ->]]; done).
  split; try done.
  - destruct Hq as (q & Hq & Hqok & Hqc & Hqe & Hqm & Ho). exists q. rewrite Hqs. split_and!; try done.
    destruct own as [j|]; [|done]. destruct Ho as (tj & Hj & Hmid). destruct (decide (j = i)) as [->|Hne].
    + exists t'. split; [by apply list_lookup_insert_eq|]. assert (tj = t) as -> by congruence.
      destruct Hpc as [->|[Hc _]]; [done|]. rewrite (proj2 (Hown i _ Hi) eq_refl) in Hc. done.
    + exists tj. by rewrite list_lookup_insert_ne.
  - intros j tj. rewrite list_lookup_insert_Some. intros [(<- & <- & _)|[Hne Hj]]; [|by apply Hown].
    rewrite Hcr. by apply Hown.
  - intros j tj. rewrite list_lookup_insert_Some. intros [(<- & <- & _)|[Hne Hj]]; [|by apply Hcalls].
    rewrite Hlog. by apply Hcalls.
  - intros Hex. pose proof (attends_out ts i t t' Hi).
    assert (Exists (λ t, waiting t = true) ts) as Hex'; [|specialize (Hwake Hex'); lia].
    apply Exists_exists in Hex as (tj & (j & Hj)%list_elem_of_lookup & Hwj).
    apply Exists_exists. apply list_lookup_insert_Some in Hj as [(<- & <- & _)|[_ Hj]].
    + exists t. split; [by eapply list_elem_of_lookup_2|by apply Hwt].
    + exists tj. split; [by eapply list_elem_of_lookup_2|done].
Qed.

(** The same with the same messages. *)
Lemma inv_quiet m ts own h xs es i t t' :
  inv m ts own h xs es → ts !! i = Some t → critical (t_pc t) = false → critical (t_pc t') = false →
  t_log t' ++ effective (t_pc t') = t_log t ++ effective (t_pc t) → responsible t' ≡ₚ responsible t →
  (waiting t' = true → waiting t = true) → (attends t ≤ attends t')%nat →
  inv m (<[i := t']> ts) own h xs es.
Proof using Type.
  intros Hinv Hi Hc Hc' Hlog Hr Hw Ha.
  assert (HP : <[i := t']> ts ≫= responsible ≡ₚ ts ≫= responsible).
  { destruct (responsible_out ts i t t' Hi) as (rest & P1 & P2). by rewrite P2, P1, Hr. }
  apply (inv_private m m ts own h xs es i t t'); try done; try apply Hinv; [by right|rewrite HP; apply Hinv|].
  intros x. rewrite HP. apply Hinv.
Qed.

Lemma inv_woken m ts own h xs es j t :
  inv m ts own h xs es → ts !! j = Some t → waiting t = true → inv m (<[j := wake t]> ts) own h xs es.
Proof using Type.
  intros Hinv Hj Hw. apply (inv_quiet m ts own h xs es j t); try done; revert Hw;
    unfold waiting, wake, attends, responsible; destruct (t_pc t) as [|x pc|b pc] eqn:E; try done; destruct pc; try done;
    simpl; intros; try done; lia.
Qed.
End Invariant.

(** The slot at the tail is not part of the queue. *)
Lemma q_elems_slot q p :
  queue_ok q → q_elems (set_buffer (<[Z.to_nat (q_tail q) := p]> (q_buffer q)) q) = q_elems q.
Proof.
  intros Hq. destruct (q_bounds q Hq) as (? & _ & ? & ? & ? & _). unfold q_elems, ring; simpl.
  apply list_fmap_ext. intros i k Hk%list_elem_of_lookup_2%elem_of_seq.
  rewrite list_lookup_total_insert_ne; [done|].
  rewrite ring_len_cases in Hk by lia.
  rewrite mod_below_twice by (repeat case_decide; lia). repeat case_decide; lia.
Qed.

Lemma half_capacity c : 0 ≤ c → Z.of_nat (Z.to_nat c / 2) = c / 2.
Proof. intros. rewrite Nat2Z.inj_div, Z2Nat.id by lia. done. Qed.

Definition set_queue (l : loc) (q : message_queue_t) (m : mem) : mem :=
  with_queues (<[l := q]> (m_queues m)) m.

Section Steps.
Context (l : loc) (cap : Z) (xs0 : list loc).
Hypothesis (Hcap : 2 ≤ cap).
Context (m : mem) (ts : list thread) (own : option nat) (h : list (nat * (call * result))) (xs es : list loc).
Hypothesis (Hinv : inv l cap xs0 m ts own h xs es).
Context (i : nat) (t : thread).
Hypothesis (Hi : ts !! i = Some t).

Lemma heap_set_queue m' q : heap_ok m' → is_Some (m_queues m' !! l) → heap_ok (set_queue l q m').
Proof using Type. intros [Hb Hm Hq] [q0 El]. split; simpl; eauto with heap. Qed.

(** The queue as a thread in its critical section sees it. *)
Lemma critical_facts : critical (t_pc t) = true →
  own = Some i ∧ ∃ q, m_queues m !! l = Some q ∧ queue_ok q ∧ q_capacity q = cap ∧ q_elems q = Some <$> es ∧
    q_mutex q = true ∧ middle (t_pc t) q xs es.
Proof using Hinv Hi.
  intros Hc. destruct Hinv as [_ _ (q & Hq & Hok & Hqc & He & Hm & Ho) Hown _ _ _ _ _].
  apply (Hown i t Hi) in Hc. subst own. split; [done|]. exists q. destruct Ho as (t' & Ht' & Hmid).
  rewrite Hi in Ht'. injection Ht' as <-. by split_and!.
Qed.

Lemma free_facts : own = None →
  xs = es ∧ ∃ q, m_queues m !! l = Some q ∧ queue_ok q ∧ q_capacity q = cap ∧ q_elems q = Some <$> es ∧
    q_mutex q = false.
Proof using Hinv.
  intros ->. destruct Hinv as [_ _ (q & Hq & Hok & Hqc & He & Hm & ->) _ _ _ _ _ _]. split; [done|]. by exists q.
Qed.

(** A step of thread [i] that keeps the invariant; the history may get longer. *)
Definition good (o : outcome (thread * mem)) : Prop :=
  ∃ t' m' own' h' xs' es', o = Ok (t', m') ∧ inv l cap xs0 m' (<[i := t']> ts) own' h' xs' es' ∧ h `prefix_of` h'.

(** A step inside the critical section that only writes the queue, or not even that. *)
Lemma good_inside t' q' xs' es' h' gone m' :
  critical (t_pc t) = true → critical (t_pc t') = true →
  m_faults m' = [] → heap_ok m' → m_queues m' = <[l := q']> (m_queues m) →
  queue_ok q' → q_capacity q' = cap → q_elems q' = Some <$> es' → q_mutex q' = true →
  middle (t_pc t') q' xs' es' →
  es ++ responsible t ≡ₚ gone ++ es' ++ responsible t' → m_msgs m' = delete_all gone (m_msgs m) →
  (h' = h ∧ xs' = xs ∧ t_log t' ++ effective (t_pc t') = t_log t ++ effective (t_pc t) ∨
   ∃ c, h' = h ++ [(i, (c, (fifo_call (Z.to_nat cap) c xs).1))] ∧ xs' = (fifo_call (Z.to_nat cap) c xs).2 ∧
     (c = Dequeue true → xs ≠ []) ∧
     t_log t' ++ effective (t_pc t') = t_log t ++ effective (t_pc t) ++ [(c, (fifo_call (Z.to_nat cap) c xs).1)]) →
  es' = [] ∨ waiting t' = false ∧ (length es' + attends t ≤ length es + attends t')%nat →
  good (Ok (t', m')).
Proof using Hinv Hi.
  intros Hc Hc' ? ? ? ? ? ? ? ? ? ? Hlog ?. destruct (critical_facts Hc) as [-> _].
  exists t', m', (Some i), h', xs', es'. split; [done|]. split.
  - apply (inv_put l cap xs0 m m' ts (Some i) h xs es i t t' q' (Some i) h' xs' es'); eauto; try done.
    eapply wake_out; [done|apply Hinv|done].
  - destruct Hlog as [(-> & _)|(c & -> & _)]; [done|by apply prefix_app_r].
Qed.

(** Taking the mutex, and giving it back. *)
Lemma good_enter t' :
  own = None → critical (t_pc t') = true →
  (∀ q, middle (t_pc t') q es es) → responsible t' = responsible t →
  t_log t' ++ effective (t_pc t') = t_log t ++ effective (t_pc t) →
  waiting t' = false → (attends t ≤ attends t')%nat →
  ∃ q, m_queues m !! l = Some q ∧ q_mutex q = false ∧ good (Ok (t', set_queue l (set_mutex true q) m)).
Proof using Hinv Hi.
  intros Ho Hc Hmid Hr Hlog Hw Ha. destruct (free_facts Ho) as (-> & q & Hq & Hok & Hqc & He & Hm).
  exists q. split; [done|]. split; [done|]. exists t', (set_queue l (set_mutex true q) m), (Some i), h, es, es.
  split; [done|]. split; [|done]. rewrite Ho in Hinv.
  apply (inv_put l cap xs0 m _ ts None h es es i t t' (set_mutex true q) (Some i) h es es); eauto; try done.
  - apply Hinv.
  - apply heap_set_queue; [apply Hinv|by eexists].
  - by destruct Hok.
  - exists []. by rewrite Hr.
  - eapply wake_out; [done|apply Hinv|]. right. split; [done|lia].
Qed.

Lemma good_leave t' q :
  critical (t_pc t) = true → m_queues m !! l = Some q → es = xs → critical (t_pc t') = false →
  es ++ responsible t' ≡ₚ es ++ responsible t →
  t_log t' ++ effective (t_pc t') = t_log t ++ effective (t_pc t) →
  es = [] ∨ waiting t' = false ∧ attends t = 0%nat →
  good (Ok (t', set_queue l (set_mutex false q) m)).
Proof using Hinv Hi.
  intros Hc Hq Hes Hc' Hr Hlog Hw. destruct (critical_facts Hc) as (Ho & q' & Hq' & Hok & Hqc & He & Hm & _).
  rewrite Hq in Hq'. injection Hq' as <-.
  exists t', (set_queue l (set_mutex false q) m), None, h, xs, es. split; [done|]. split; [|done]. rewrite Ho in Hinv.
  apply (inv_put l cap xs0 m _ ts (Some i) h xs es i t t' (set_mutex false q) None h xs es); eauto; try done.
  - apply Hinv.
  - apply heap_set_queue; [apply Hinv|by eexists].
  - by destruct Hok.
  - exists []. split; [by rewrite Hr|done].
  - eapply wake_out; [done|apply Hinv|]. destruct Hw as [Hw|[? ->]]; [by left|right; split; [done|lia]].
Qed.

Lemma no_fault : fallible m = Ok (true, m).
Proof using Hinv. apply fallible_nil, Hinv. Qed.

Lemma lock_eq q : m_queues m !! l = Some q → q_mutex q = false →
  mutex_lock (Some l) m = Ok (true, set_queue l (set_mutex true q) m).
Proof using Hinv.
  intros Hq Hm. unfold mutex_lock. rewrite (bind_ok _ _ _ _ _ no_fault).
  unfold bind, load, store. simpl. by rewrite Hq, Hm, Hq.
Qed.
Lemma unlock_eq q : m_queues m !! l = Some q → q_mutex q = true →
  mutex_unlock (Some l) m = Ok (true, set_queue l (set_mutex false q) m).
Proof using Hinv.
  intros Hq Hm. unfold mutex_unlock. rewrite (bind_ok _ _ _ _ _ no_fault).
  unfold bind, load, store. simpl. by rewrite Hq, Hm, Hq.
Qed.
Lemma lock_taken : own ≠ None → mutex_lock (Some l) m = Blocked.
Proof using Hinv.
  intros Ho. unfold mutex_lock. rewrite (bind_ok _ _ _ _ _ no_fault).
  destruct Hinv as [_ _ (q & Hq & _ & _ & _ & Hm & _) _ _ _ _ _ _].
  unfold bind, load. simpl. rewrite Hq, Hm, bool_decide_eq_true_2; [done|]. by destruct own.
Qed.

Definition can_go (o : outcome (thread * mem)) : Prop :=
  o = Blocked ∧ critical (t_pc t) = false ∧ own ≠ None ∨ good o.

Lemma can_go_enqueue_lock x : t_pc t = InEnqueue x EnqLock → can_go (thread_step (Some l) t m).
Proof using Hinv Hi.
  intros Hpc. unfold thread_step. rewrite Hpc. cbn [enqueue_step]. destruct (decide (own = None)) as [Ho|Ho].
  - destruct (good_enter (at_pc (InEnqueue x EnqFull) t) Ho) as (q & Hq & Hm & Hg);
      unfold responsible, waiting, attends; rewrite ?Hpc; simpl; try done.
    right. unfold bind at 1 2. by rewrite (lock_eq q Hq Hm).
  - left. split; [|by rewrite Hpc]. unfold bind at 1 2. by rewrite (lock_taken Ho).
Qed.

Lemma can_go_unlock_enqueue x signalled : t_pc t = InEnqueue x (EnqUnlock signalled) → can_go (thread_step (Some l) t m).
Proof using Hinv Hi.
  intros Hpc. destruct (critical_facts) as (_ & q & Hq & Hok & Hqc & He & Hm & Hmid); [by rewrite Hpc|].
  rewrite Hpc in Hmid. destruct Hmid as [-> Hes].
  right. unfold thread_step. rewrite Hpc. cbn [enqueue_step]. unfold bind. rewrite (unlock_eq q Hq Hm). simpl.
  apply good_leave; unfold responsible, waiting, attends; rewrite ?Hpc; simpl;
    rewrite ?app_nil_r; try done. by right.
Qed.

Lemma can_go_full x : t_pc t = InEnqueue x EnqFull → can_go (thread_step (Some l) t m).
Proof using Hinv Hi Hcap.
  intros Hpc. destruct (critical_facts) as (_ & q & Hq & Hok & Hqc & He & Hm & Hmid); [by rewrite Hpc|].
  rewrite Hpc in Hmid. simpl in Hmid. destruct (q_bounds q Hok) as (? & ? & ? & ? & ? & ?).
  right. unfold thread_step. rewrite Hpc. cbn [enqueue_step]. unfold bind, load. simpl. rewrite Hq.
  destruct (int_next q Hok m (q_tail q)) as [-> ->]; [lia|]. simpl.
  assert (Hf : bool_decide (length xs + 1 = Z.to_nat (q_capacity q))%nat = (q_next q (q_tail q) =? q_head q))
    by (apply fifo_full; [done|by rewrite He, Hmid]).
  apply (good_inside _ q xs es h []); unfold responsible, waiting, attends; rewrite ?Hpc; simpl; try done.
  - by destruct (_ =? _).
  - apply Hinv.
  - apply Hinv.
  - by rewrite insert_id.
  - destruct (Z.eqb_spec (q_next q (q_tail q)) (q_head q)) as [E|E]; simpl.
    + apply bool_decide_eq_true_1 in Hf. split; [done|]. split; [done|]. exists 0%nat.
      split_and!; [lia|done|]. rewrite E, Nat.sub_0_r, half_capacity by lia. done.
    + split; [done|]. unfold fifo_dropped. by rewrite Hf.
  - by destruct (_ =? _).
  - left. split_and!; try done. by destruct (_ =? _).
  - right. split; [by destruct (_ =? _)|]. destruct (_ =? _); simpl; lia.
Qed.

Lemma can_go_store x nt : t_pc t = InEnqueue x (EnqStore nt) → can_go (thread_step (Some l) t m).
Proof using Hinv Hi Hcap.
  intros Hpc. destruct (critical_facts) as (_ & q & Hq & Hok & Hqc & He & Hm & Hmid); [by rewrite Hpc|].
  rewrite Hpc in Hmid. destruct Hmid as [-> Hes]. destruct (q_bounds q Hok) as (? & ? & ? & ? & ? & ?).
  right. unfold thread_step. rewrite Hpc. cbn [enqueue_step]. unfold bind, load, store. simpl. rewrite Hq.
  rewrite (buffer_set_tail q Hok). simpl. rewrite Hq. simpl. set (q' := set_buffer _ q).
  apply (good_inside _ q' xs es h []); unfold responsible, waiting, attends; rewrite ?Hpc; simpl; try done.
  - apply Hinv.
  - apply heap_set_queue; [apply Hinv|by eexists].
  - destruct Hok. split; simpl; try done. by rewrite length_insert.
  - unfold q'. by rewrite q_elems_slot.
  - split_and!; try done. apply list_lookup_insert_eq. lia.
  - by left.
  - right. split; [done|lia].
Qed.

Lemma can_go_tail x nt : t_pc t = InEnqueue x (EnqTail nt) → can_go (thread_step (Some l) t m).
Proof using Hinv Hi Hcap.
  intros Hpc. destruct (critical_facts) as (_ & q & Hq & Hok & Hqc & He & Hm & Hmid); [by rewrite Hpc|].
  rewrite Hpc in Hmid. destruct Hmid as (-> & Hes & Hslot). destruct (q_bounds q Hok) as (? & ? & ? & ? & ? & ?).
  right. unfold thread_step. rewrite Hpc. cbn [enqueue_step]. unfold bind, load, store. simpl. rewrite Hq.
  simpl. rewrite Hq. simpl.
  assert (Epush : set_tail (q_next q (q_tail q)) q = push (Some x) q).
  { unfold push, set_buffer. rewrite list_insert_id by done. by destruct q. }
  assert (Hlen : length es = (length xs - length (fifo_dropped (Z.to_nat (q_capacity q)) xs))%nat)
    by (rewrite Hes; apply length_drop).
  assert (Hnf : q_next q (q_tail q) ≠ q_head q).
  { intros E%(q_full q Hok). rewrite He, length_fmap, Hlen in E. unfold fifo_dropped in E.
    assert (1 ≤ Z.to_nat (q_capacity q) / 2)%nat by (apply Nat.div_le_lower_bound; lia).
    case_bool_decide; simpl in E; [rewrite length_take in E; simpl in *; lia|lia]. }
  assert (Eenq : es ++ [x] = fifo_enqueue (Z.to_nat cap) x xs).
  { rewrite Hes, <- Hqc. apply drop_fifo_dropped. lia. }
  rewrite Epush. apply (good_inside _ (push (Some x) q) (es ++ [x]) (es ++ [x])
    (h ++ [(i, (Enqueue x, Status MESSAGE_QUEUE_STATUS_SUCCESS))]) []);
    unfold responsible, waiting, attends; rewrite ?Hpc; simpl; try done.
  - apply Hinv.
  - apply heap_set_queue; [apply Hinv|by eexists].
  - by apply push_ok.
  - by rewrite (q_elems_push q Hok), He, fmap_app.
  - by rewrite app_nil_r, <- app_assoc, (Permutation_app_comm (t_held t)).
  - right. exists (Enqueue x). split_and!; done.
  - right. split; [done|]. rewrite length_app. simpl. lia.
Qed.

Lemma can_go_clear x nt : t_pc t = InEnqueue x (EnqClear nt) → can_go (thread_step (Some l) t m).
Proof using Hinv Hi Hcap.
  intros Hpc. destruct (critical_facts) as (_ & q & Hq & Hok & Hqc & He & Hm & Hmid); [by rewrite Hpc|].
  rewrite Hpc in Hmid. destruct Hmid as (-> & Hfull & k & Hk & Hes & Htgt).
  destruct (q_bounds q Hok) as (? & ? & ? & ? & ? & ?). pose proof (next_bound q Hok (q_tail q)).
  pose proof (half_capacity (q_capacity q) ltac:(lia)) as Hhalf.
  pose proof (Z.div_lt (q_capacity q) 2 ltac:(lia) ltac:(lia)).
  right. unfold thread_step. rewrite Hpc. cbn [enqueue_step]. unfold bind, load, store. simpl. rewrite Hq.
  assert (E2 : int_div (q_capacity q) 2 = q_capacity q / 2) by (apply Z.quot_div_nonneg; lia).
  rewrite E2, int_add_ok by (unfold INT_MIN, INT_MAX in *; lia).
  rewrite rem_mod_nonneg by lia. rewrite Htgt.
  assert (Hlt : Z.of_nat (Z.to_nat (q_capacity q) / 2 - k) < q_capacity q) by lia.
  destruct (Z.eqb_spec (q_head q) ((q_head q + Z.of_nat (Z.to_nat (q_capacity q) / 2 - k)) mod q_capacity q)) as [E|E].
  - assert (k = Z.to_nat (q_capacity q) / 2)%nat as ->.
    { destruct (decide (Z.to_nat (q_capacity q) / 2 - k = 0)%nat) as [|Hne]; [lia|]. exfalso.
      destruct (Z.ltb_spec (q_head q + Z.of_nat (Z.to_nat (q_capacity q) / 2 - k)) (q_capacity q)).
      - rewrite Z.mod_small in E; lia.
      - rewrite <- (Z.mod_unique_pos _ _ 1 (q_head q + Z.of_nat (Z.to_nat (q_capacity q) / 2 - k) - q_capacity q)) in E; lia. }
    apply (good_inside _ q xs es h []); unfold responsible, waiting, attends; rewrite ?Hpc; simpl; try done.
    + apply Hinv.
    + apply Hinv.
    + by rewrite insert_id.
    + split; [done|]. unfold fifo_dropped. rewrite bool_decide_eq_true_2 by done. rewrite length_take_le; [done|].
      pose proof (Nat.Div0.div_le_upper_bound (Z.to_nat (q_capacity q)) 2 (Z.to_nat (q_capacity q) - 1)). lia.
    + by left.
    + right. split; [done|lia].
  - assert (Hkl : (k < Z.to_nat (q_capacity q) / 2)%nat).
    { destruct (decide (k = Z.to_nat (q_capacity q) / 2)%nat) as [->|]; [|lia]. exfalso. apply E.
      rewrite Nat.sub_diag, Z.add_0_r, Z.mod_small; lia. }
    assert (∃ y ys, es = y :: ys) as (y & ys & Ees).
    { apply (f_equal length) in Hes. rewrite length_drop in Hes. destruct es; [simpl in Hes; lia|by eauto]. }
    assert (Hy : is_Some (m_msgs m !! y)) by (apply Hinv; rewrite Ees; set_solver). destruct Hy as [msg Hy].
    rewrite Ees in He.
    rewrite (buffer_get_head q Hok (Some y) _ m He). cbn match.
    rewrite (message_delete_live m y msg Hy). cbn match.
    destruct (int_next q Hok (with_msgs (delete y (m_msgs m)) m) (q_head q)) as [-> ->]; [lia|]. simpl. rewrite Hq. simpl.
    rewrite <- advance_next. pose proof (inv_heap _ _ _ _ _ _ _ _ _ Hinv) as [Hb Hms Hqs].
    assert (Edrop : ys = drop (S k) xs).
    { replace (S k) with (k + 1)%nat by lia. by rewrite <- drop_drop, <- Hes, Ees. }
    apply (good_inside _ (advance 1 q) xs ys h [y]); unfold responsible, waiting, attends; rewrite ?Hpc; simpl; try done.
    + apply Hinv.
    + apply (heap_set_queue (with_msgs (delete y (m_msgs m)) m)); [|by eexists]. split; simpl; auto with heap.
    + by apply advance_ok.
    + rewrite (q_elems_advance q Hok 1), He; [done|]. rewrite He. simpl. lia.
    + split_and!; try done. exists (S k). split_and!; [lia|done|].
      rewrite Htgt, Z.add_mod_idemp_l by lia. f_equal. lia.
    + by rewrite Ees.
    + by left.
    + right. split; [done|]. rewrite Ees. simpl. lia.
Qed.

Lemma can_go_dequeue_lock b pc :
  t_pc t = InDequeue b pc → pc = DeqLock ∨ pc = DeqWoken → can_go (thread_step (Some l) t m).
Proof using Hinv Hi.
  intros Hpc Hor. unfold thread_step. rewrite Hpc. destruct (decide (own = None)) as [Ho|Ho].
  - destruct (good_enter (at_pc (InDequeue b DeqTest) t) Ho) as (q & Hq & Hm & Hg);
      unfold responsible, waiting, attends; rewrite ?Hpc; simpl; try done;
      [by destruct Hor as [->| ->]|by destruct Hor as [->| ->]|by destruct Hor as [->| ->]; simpl; lia|].
    right. destruct Hor as [->| ->]; cbn [dequeue_step].
    + unfold bind at 1 2. by rewrite (lock_eq q Hq Hm).
    + unfold bind, load, store. simpl. by rewrite Hq, Hm, Hq.
  - left. split; [|rewrite Hpc; by destruct Hor as [->| ->]]. destruct Hor as [->| ->]; cbn [dequeue_step].
    + unfold bind at 1 2. by rewrite (lock_taken Ho).
    + destruct Hinv as [_ _ (q & Hq & _ & _ & _ & Hm & _) _ _ _ _ _ _]. unfold bind, load. simpl.
      rewrite Hq, Hm, bool_decide_eq_true_2; [done|]. by destruct own.
Qed.

Lemma can_go_test b : t_pc t = InDequeue b DeqTest → can_go (thread_step (Some l) t m).
Proof using Hinv Hi.
  intros Hpc. destruct (critical_facts) as (_ & q & Hq & Hok & Hqc & He & Hm & Hmid); [by rewrite Hpc|].
  rewrite Hpc in Hmid. simpl in Hmid.
  right. unfold thread_step. rewrite Hpc. cbn [dequeue_step]. unfold bind, load. simpl. rewrite Hq.
  destruct (Z.eqb_spec (q_head q) (q_tail q)) as [E|E]; simpl.
  - assert (Hes : es = []).
    { apply (q_elems_nil q Hok) in E. rewrite E in He. by destruct es. }
    destruct b; simpl.
    + rewrite no_fault. simpl. unfold store. simpl. rewrite Hq. simpl.
      apply good_leave; unfold responsible, waiting, attends; rewrite ?Hpc; simpl; try done. by left.
    + apply (good_inside _ q [] es (h ++ [(i, (Dequeue false, Received None))]) []);
        unfold responsible, waiting, attends; rewrite ?Hpc; simpl; try done; try apply Hinv.
      * by rewrite insert_id.
      * right. exists (Dequeue false). rewrite <- Hmid, Hes. split_and!; done.
      * by left.
  - apply (good_inside _ q xs es h []); unfold responsible, waiting, attends; rewrite ?Hpc; simpl; try done; try apply Hinv.
    + by rewrite insert_id.
    + split; [done|]. rewrite <- Hmid. intros ->. apply E, (q_elems_nil q Hok). by rewrite He.
    + by left.
    + by right.
Qed.

Lemma can_go_take b : t_pc t = InDequeue b DeqTake → can_go (thread_step (Some l) t m).
Proof using Hinv Hi.
  intros Hpc. destruct (critical_facts) as (_ & q & Hq & Hok & Hqc & He & Hm & Hmid); [by rewrite Hpc|].
  rewrite Hpc in Hmid. destruct Hmid as [Hes Hne].
  right. unfold thread_step. rewrite Hpc. cbn [dequeue_step]. unfold bind, load. simpl. rewrite Hq.
  assert (E : buffer_get q (q_head q) m = Ok ((fifo_dequeue xs).1, m)).
  { rewrite Hes in He. destruct xs as [|y ys]; [done|]. by apply (buffer_get_head q Hok (Some y) _ m He). }
  rewrite E. simpl.
  apply (good_inside _ q xs es h []); unfold responsible, waiting, attends; rewrite ?Hpc; simpl; try done; try apply Hinv.
  - by rewrite insert_id.
  - by left.
  - by right.
Qed.

Lemma can_go_head b p : t_pc t = InDequeue b (DeqHead p) → can_go (thread_step (Some l) t m).
Proof using Hinv Hi.
  intros Hpc. destruct (critical_facts) as (_ & q & Hq & Hok & Hqc & He & Hm & Hmid); [by rewrite Hpc|].
  rewrite Hpc in Hmid. destruct Hmid as (Hes & Hne & Hp). destruct (q_bounds q Hok) as (? & ? & ? & ? & ? & ?).
  assert (∃ y ys, es = y :: ys) as (y & ys & Ees) by (rewrite Hes; destruct xs; [done|by eauto]).
  rewrite <- Hes, Ees in Hp. simpl in Hp. subst p.
  right. unfold thread_step. rewrite Hpc. cbn [dequeue_step]. unfold bind, load, store. simpl. rewrite Hq.
  destruct (int_next q Hok m (q_head q)) as [-> ->]; [lia|]. simpl. rewrite Hq. simpl. rewrite <- advance_next.
  apply (good_inside _ (advance 1 q) ys ys (h ++ [(i, (Dequeue b, Received (Some y)))]) []);
    unfold responsible, waiting, attends; rewrite ?Hpc; simpl; try done.
  - apply Hinv.
  - apply heap_set_queue; [apply Hinv|by eexists].
  - by apply advance_ok.
  - rewrite (q_elems_advance q Hok 1), He, Ees; [done|]. rewrite He, Ees. simpl. lia.
  - rewrite Ees, app_nil_r. simpl. rewrite (Permutation_app_comm (t_held t)), app_assoc. simpl.
    by rewrite <- Permutation_cons_append.
  - right. exists (Dequeue b). rewrite <- Hes, Ees. by split_and!.
  - right. split; [done|]. rewrite Ees. simpl. lia.
Qed.

Lemma can_go_unlock_dequeue b p : t_pc t = InDequeue b (DeqUnlock p) → can_go (thread_step (Some l) t m).
Proof using Hinv Hi.
  intros Hpc. destruct (critical_facts) as (_ & q & Hq & Hok & Hqc & He & Hm & Hmid); [by rewrite Hpc|].
  rewrite Hpc in Hmid. simpl in Hmid.
  right. unfold thread_step. rewrite Hpc. cbn [dequeue_step]. unfold bind. rewrite (unlock_eq q Hq Hm). simpl.
  apply good_leave; unfold responsible, waiting, attends; rewrite ?Hpc; simpl; rewrite ?app_nil_r; try done. by right.
Qed.

Lemma run_cases : signalling t = false → t_pc t = Idle ∨ waiting t = true ∨ can_go (thread_step (Some l) t m).
Proof using Hinv Hi Hcap.
  unfold signalling, waiting. destruct (t_pc t) as [|x pc|b pc] eqn:Hpc; [by left| |]; destruct pc; intros; try done;
    right; try (by left); right.
  - by eapply can_go_enqueue_lock.
  - by eapply can_go_full.
  - by eapply can_go_clear.
  - by eapply can_go_store.
  - by eapply can_go_tail.
  - by eapply can_go_unlock_enqueue.
  - eapply can_go_dequeue_lock; eauto.
  - by eapply can_go_test.
  - eapply can_go_dequeue_lock; eauto.
  - by eapply can_go_take.
  - by eapply can_go_head.
  - by eapply can_go_unlock_dequeue.
Qed.

(** A signal: the thread goes on, and one waiting thread is woken, if there is one. *)
Lemma signal_cases : signalling t = true →
  ∃ x, thread_step (Some l) t m = Ok (at_pc (InEnqueue x (EnqUnlock true)) t, m) ∧
    ∀ j ts', signal_to j (<[i := at_pc (InEnqueue x (EnqUnlock true)) t]> ts) = Some ts' → inv l cap xs0 m ts' own h xs es.
Proof using Hinv Hi.
  unfold signalling. destruct (t_pc t) as [|x pc|b pc] eqn:Hpc; try done. destruct pc; try done. intros _.
  exists x. split; [unfold thread_step; rewrite Hpc; simpl; unfold bind; by rewrite no_fault|].
  set (t' := at_pc _ t). intros j ts' Hj.
  destruct critical_facts as (Ho & q & Hq & Hok & Hqc & He & Hm & Hmid); [by rewrite Hpc|]. rewrite Hpc in Hmid.
  assert (Hput : ∀ ts1, inv l cap xs0 m ts1 own h xs es → ts1 !! i = Some t →
    (Exists (λ t, waiting t = true) (<[i := t']> ts1) → (length es ≤ sum_list_with attends (<[i := t']> ts1))%nat) →
    inv l cap xs0 m (<[i := t']> ts1) own h xs es).
  { intros ts1 Hinv1 Hi1 Hw. rewrite Ho in Hinv1 |- *.
    apply (inv_put l cap xs0 m m ts1 (Some i) h xs es i t t' q (Some i) h xs es); try done; try apply Hinv1; eauto.
    - by rewrite insert_id.
    - exists []. unfold responsible. by rewrite Hpc.
    - left. by rewrite Hpc. }
  destruct j as [j|]; simpl in Hj.
  - destruct (_ !! j) as [tj|] eqn:Ej; [|done]. simpl in Hj. destruct (waiting tj) eqn:Hwj; [|done]. injection Hj as <-.
    assert (Hne : i ≠ j).
    { intros <-. rewrite list_lookup_insert_eq in Ej by (by eapply lookup_lt_Some). injection Ej as <-. done. }
    rewrite list_lookup_insert_ne in Ej by done. rewrite list_insert_insert_ne by done.
    apply Hput; [by apply inv_woken| |].
    + by rewrite list_lookup_insert_ne.
    + intros _. pose proof (attends_out ts j tj (wake tj) Ej) as A1.
      pose proof (attends_out (<[j := wake tj]> ts) i t t') as A2. rewrite list_lookup_insert_ne in A2 by done.
      specialize (A2 Hi). assert (length es ≤ sum_list_with attends ts)%nat.
      { apply Hinv, Exists_exists. exists tj. split; [by eapply list_elem_of_lookup_2|done]. }
      assert (attends tj = 0%nat ∧ attends (wake tj) = 1%nat ∧ attends t = 1%nat ∧ attends t' = 0%nat) as (? & ? & ? & ?).
      { revert Hwj. unfold attends, waiting, wake. rewrite Hpc. destruct (t_pc tj) as [|? ?|? []] eqn:?; done. }
      lia.
  - destruct (existsb _ _) eqn:Ex; [done|]. injection Hj as <-. apply Hput; [done|done|].
    intros [tj [Hin Hw]]%Exists_exists. assert (existsb waiting (<[i := t']> ts) = true); [|congruence].
    apply existsb_exists. exists tj. split; [by apply list_elem_of_In|done].
Qed.
End Steps.

(** ** Every action keeps the invariant *)
Lemma filter_out (x : loc) xs : NoDup xs → x ∈ xs → xs ≡ₚ x :: filter (.≠ x) xs.
Proof.
  intros Hnd Hx. apply NoDup_Permutation; [done| |].
  - apply NoDup_cons. split; [|by apply NoDup_filter]. rewrite list_elem_of_filter. naive_solver.
  - intros y. rewrite elem_of_cons, list_elem_of_filter. destruct (decide (y = x)); naive_solver.
Qed.

Section Actions.
Context (l : loc) (cap : Z) (xs0 : list loc).
Implicit Types (s : system) (m : mem) (ts : list thread).

(** Writes to messages and their blocks. *)
Lemma inv_frame m m' ts own h xs es :
  inv l cap xs0 m ts own h xs es → m_faults m' = [] → heap_ok m' → m_queues m' = m_queues m →
  (∀ x, is_Some (m_msgs m' !! x) ↔ is_Some (m_msgs m !! x)) → inv l cap xs0 m' ts own h xs es.
Proof using Type.
  intros [] Hf Hh Hq Hm. split; try done; [by rewrite Hq|]. intros x. by rewrite Hm.
Qed.

Definition sys_inv s own h xs es : Prop := inv l cap xs0 (sys_mem s) (sys_threads s) own h xs es.

Lemma held_NoDup s own h xs es i t :
  sys_inv s own h xs es → sys_threads s !! i = Some t →
  NoDup (t_held t) ∧ ∀ x, x ∈ t_held t → is_Some (m_msgs (sys_mem s) !! x).
Proof using Type.
  intros Hinv Hi. destruct (responsible_out _ i t t Hi) as (rest & P & _).
  pose proof (inv_distinct _ _ _ _ _ _ _ _ _ Hinv) as Hnd. rewrite P in Hnd.
  apply NoDup_app in Hnd as (_ & _ & Hnd). apply NoDup_app in Hnd as (Hnd & _). apply NoDup_app in Hnd as (Hnd & _).
  split; [done|]. intros x Hx. apply Hinv. rewrite P. unfold responsible. set_solver.
Qed.

Lemma call_inv s own h xs es i t c t' :
  sys_inv s own h xs es → sys_threads s !! i = Some t → start_call c t = Some t' →
  sys_inv (put_thread i t' (sys_mem s) s) own h xs es.
Proof using Type.
  intros Hinv Hi. unfold start_call. destruct (t_pc t) eqn:Hpc; [|done|done].
  assert (Hb : waiting t = false ∧ attends t = 0%nat) by (unfold waiting, attends; by rewrite Hpc).
  destruct c as [x|b].
  - case_bool_decide as Hx; [|done]. intros [= <-].
    apply (inv_quiet l cap xs0 _ _ own h xs es i t); rewrite ?Hpc; simpl; try done; [|lia].
    unfold responsible; simpl. rewrite Hpc. simpl. rewrite app_nil_r.
    rewrite (filter_out x (t_held t)) at 2 by (done || by eapply held_NoDup). by rewrite Permutation_app_comm.
  - intros [= <-]. apply (inv_quiet l cap xs0 _ _ own h xs es i t); rewrite ?Hpc; simpl; try done; [|lia].
    unfold responsible. by rewrite Hpc.
Qed.

(** Changing what a thread holds. *)
Lemma held_inv s own h xs es i t held m' :
  sys_inv s own h xs es → sys_threads s !! i = Some t →
  m_faults m' = [] → heap_ok m' → m_queues m' = m_queues (sys_mem s) →
  (∀ rest, t_held t ++ rest ≡ₚ es ++ (sys_threads s ≫= responsible) →
     NoDup (t_held t ++ rest) → (∀ x, is_Some (m_msgs (sys_mem s) !! x) ↔ x ∈ t_held t ++ rest) →
     NoDup (held ++ rest) ∧ ∀ x, is_Some (m_msgs m' !! x) ↔ x ∈ held ++ rest) →
  sys_inv (put_thread i (with_held held t) m' s) own h xs es.
Proof using Type.
  intros Hinv Hi Hf Hh Hq Hm. destruct (responsible_out _ i t (with_held held t) Hi) as (rest & P1 & P2).
  assert (Q1 : es ++ (sys_threads s ≫= responsible) ≡ₚ t_held t ++ (es ++ in_transit (t_pc t) ++ rest)).
  { rewrite P1. unfold responsible. rewrite <- app_assoc. apply Permutation_app_swap_app. }
  assert (Q2 : es ++ (<[i := with_held held t]> (sys_threads s) ≫= responsible)
               ≡ₚ held ++ (es ++ in_transit (t_pc t) ++ rest)).
  { rewrite P2. unfold responsible; simpl. rewrite <- app_assoc. apply Permutation_app_swap_app. }
  destruct (Hm (es ++ in_transit (t_pc t) ++ rest)) as [Hnd Hlive]; [done|rewrite <- Q1; apply Hinv| |].
  { intros x. rewrite <- Q1. apply Hinv. }
  apply (inv_private l cap xs0 (sys_mem s) m' _ own h xs es i t); try done; [by left|by rewrite Q2|].
  intros x. by rewrite Q2.
Qed.

Lemma act_inv a s s' own h xs es :
  2 ≤ cap → sys_inv s own h xs es → act (Some l) a s = Some s' →
  ∃ own' h' xs' es', sys_inv s' own' h' xs' es' ∧ h `prefix_of` h'.
Proof using Type.
  intros Hcap Hinv. assert (Hsame : ∀ s', sys_inv s' own h xs es → ∃ own' h' xs' es', sys_inv s' own' h' xs' es' ∧ h `prefix_of` h')
    by (intros ? ?; by exists own, h, xs, es).
  destruct a as [i c|i|i j|j|i ty c|i x|i x msg|d bs]; simpl.
  1-7: destruct (sys_threads s !! _) as [t|] eqn:Hi; [simpl|done].
  - destruct (start_call c t) as [t'|] eqn:Ec; [|done]. intros [= <-]. by eapply Hsame, call_inv.
  - destruct (signalling t) eqn:Hs; [done|].
    destruct (run_cases l cap xs0 Hcap _ _ _ _ _ _ Hinv i t Hi Hs) as [Hp|[Hw|[[-> _]|Hg]]]; [| |done|].
    + unfold thread_step. by rewrite Hp.
    + unfold thread_step, waiting in *. destruct (t_pc t) as [|? ?|? []]; done.
    + destruct Hg as (t' & m' & own' & h' & xs' & es' & -> & Hinv' & Hp). intros [= <-]. by exists own', h', xs', es'.
  - destruct (signalling t) eqn:Hs; [simpl|done].
    destruct (signal_cases l cap xs0 _ _ _ _ _ _ Hinv i t Hi Hs) as (x & -> & Hall).
    destruct (signal_to j _) as [ts'|] eqn:Ej; [|done]. intros [= <-]. by eapply Hsame, Hall.
  - destruct (waiting t) eqn:Hw; [|done]. intros [= <-]. by eapply Hsame, inv_woken.
  - destruct (_ && _) eqn:Hc; [simpl|done]. apply andb_true_iff in Hc as [_ Hc%Z.leb_le].
    destruct (message_create_spec ty c (sys_mem s)) as (p & m' & -> & Hh & Hq & Hf & Hp); [apply Hinv|done|].
    intros [= <-]. apply Hsame, (held_inv _ _ _ _ _ _ _ _ _ Hinv Hi); [apply Hf, Hinv|done|done|].
    intros rest _ Hnd Hlive. destruct p as [x|]; simpl in *.
    + destruct Hp as (d & a & bs & Hx & _ & _ & _ & _ & _ & -> & _).
      assert (Hnx : ¬ x ∈ t_held t ++ rest) by (rewrite <- Hlive, Hx; by intros []).
      assert (HP : (t_held t ++ [x]) ++ rest ≡ₚ x :: t_held t ++ rest) by by rewrite <- Permutation_cons_append.
      split; [rewrite HP; by apply NoDup_cons|].
      intros y. rewrite HP, elem_of_cons, <- Hlive. destruct (decide (y = x)) as [->|].
      * rewrite lookup_insert_eq. naive_solver.
      * rewrite lookup_insert_ne by done. naive_solver.
    + destruct Hp as [-> _]. by rewrite app_nil_r.
  - destruct (_ && _) eqn:Hc; [simpl|done]. apply andb_true_iff in Hc as [_ Hx%bool_decide_eq_true_1].
    destruct (held_NoDup _ _ _ _ _ _ _ Hinv Hi) as [Hhd Hhl]. destruct (Hhl x Hx) as [msg Hmsg].
    rewrite (message_delete_live _ _ _ Hmsg). intros [= <-]. pose proof (inv_heap _ _ _ _ _ _ _ _ _ Hinv) as [].
    apply Hsame, (held_inv _ _ _ _ _ _ _ _ _ Hinv Hi); [apply Hinv|split; simpl; auto with heap|done|].
    intros rest _ Hnd Hlive. rewrite (filter_out x _ Hhd Hx) in Hnd. simpl in Hnd. apply NoDup_cons in Hnd as [Hnx Hnd].
    split; [done|]. intros y. simpl. rewrite lookup_delete_is_Some, Hlive.
    rewrite (filter_out x _ Hhd Hx) at 1. simpl. rewrite elem_of_cons. split; [naive_solver|].
    intros Hy. split; [by intros ->|by right].
  - case_bool_decide as Hx; [|done]. intros [= <-]. apply Hsame.
    destruct (held_NoDup _ _ _ _ _ _ _ Hinv Hi) as [Hhd Hhl]. destruct (Hhl x Hx) as [msg' Hmsg].
    apply inv_frame with (sys_mem s); try done; try apply Hinv; simpl.
    + pose proof (inv_heap _ _ _ _ _ _ _ _ _ Hinv) as []. split; simpl; eauto with heap.
    + intros y. destruct (decide (y = x)) as [->|]; [rewrite lookup_insert_eq, Hmsg|by rewrite lookup_insert_ne]. naive_solver.
  - destruct (m_bytes (sys_mem s) !! d) as [bs'|] eqn:Hd; [|done]. intros [= <-]. apply Hsame.
    apply inv_frame with (sys_mem s); try done; try apply Hinv; simpl.
    pose proof (inv_heap _ _ _ _ _ _ _ _ _ Hinv) as []. split; simpl; eauto with heap.
Qed.
End Actions.

(** ** From the start *)

(** The queue holds [xs0], no thread is in a call, and every message is in the queue or held by
    one thread. *)
Record started (l : loc) (cap : Z) (xs0 : list loc) (s : system) : Prop := {
  st_queue : queue_at (sys_mem s) l cap xs0;
  st_faults : m_faults (sys_mem s) = [];
  st_heap : heap_ok (sys_mem s);
  st_idle : Forall (λ t, t_pc t = Idle ∧ t_log t = []) (sys_threads s);
  st_distinct : NoDup (xs0 ++ (sys_threads s ≫= t_held));
  st_live : ∀ x, is_Some (m_msgs (sys_mem s) !! x) ↔ x ∈ xs0 ++ (sys_threads s ≫= t_held);
}.

Section Runs.
Context (l : loc) (cap : Z) (xs0 : list loc).
Implicit Types (s : system).

Lemma started_inv s : started l cap xs0 s → sys_inv l cap xs0 s None [] xs0 xs0.
Proof using Type.
  intros [(q & Hq & Hok & Hm & Hqc & He & _) Hf Hh Hidle Hnd Hlive].
  assert (Hid : ∀ i t, sys_threads s !! i = Some t → t_pc t = Idle ∧ t_log t = [])
    by (intros i t Hi; by eapply (Forall_lookup_1 _ _ _ _ Hidle Hi)).
  assert (HP : sys_threads s ≫= responsible = sys_threads s ≫= t_held).
  { clear -Hidle. induction (sys_threads s) as [|t ts IH]; [done|]. apply Forall_cons in Hidle as [[Hp _] Ht].
    cbn. rewrite IH by done. unfold responsible. rewrite Hp. simpl. by rewrite app_nil_r. }
  split; try rewrite HP; try done.
  - by exists q.
  - intros i t Hi. destruct (Hid i t Hi) as [-> _]. done.
  - constructor.
  - intros i t Hi. destruct (Hid i t Hi) as [-> ->]. done.
  - intros (t & (i & Hi)%list_elem_of_lookup & Hw)%Exists_exists. destruct (Hid i t Hi) as [Hp _].
    unfold waiting in Hw. by rewrite Hp in Hw.
Qed.

Lemma reaches_inv s s' own h xs es :
  2 ≤ cap → sys_inv l cap xs0 s own h xs es → reaches (Some l) s s' →
  ∃ own' h' xs' es', sys_inv l cap xs0 s' own' h' xs' es' ∧ h `prefix_of` h'.
Proof using Type.
  intros Hcap Hinv Hr. induction Hr as [s|s1 s2 s3 a Hr IH Ha]; [by exists own, h, xs, es|].
  destruct (IH Hinv) as (own1 & h1 & xs1 & es1 & Hinv1 & Hp1).
  destruct (act_inv _ _ _ _ _ _ _ _ _ _ Hcap Hinv1 Ha) as (own2 & h2 & xs2 & es2 & Hinv2 & Hp2).
  exists own2, h2, xs2, es2. split; [done|by etrans].
Qed.

(** No step of a thread is undefined. *)
Lemma thread_step_safe s own h xs es i t :
  2 ≤ cap → sys_inv l cap xs0 s own h xs es → sys_threads s !! i = Some t →
  thread_step (Some l) t (sys_mem s) = Blocked ∨ ∃ t' m', thread_step (Some l) t (sys_mem s) = Ok (t', m').
Proof using Type.
  intros Hcap Hinv Hi. destruct (signalling t) eqn:Hs.
  - destruct (signal_cases l cap xs0 _ _ _ _ _ _ Hinv i t Hi Hs) as (x & -> & _). by eauto.
  - destruct (run_cases l cap xs0 Hcap _ _ _ _ _ _ Hinv i t Hi Hs) as [Hp|[Hw|[[-> _]|Hg]]].
    + left. unfold thread_step. by rewrite Hp.
    + left. unfold thread_step, waiting in *. destruct (t_pc t) as [|? ?|? []]; done.
    + by left.
    + destruct Hg as (t' & m' & _ & _ & _ & _ & -> & _). by eauto.
Qed.

(** A thread that is not idle, does not wait and is not kept out by the mutex can go on. *)
Lemma thread_goes_on s own h xs es i t :
  2 ≤ cap → sys_inv l cap xs0 s own h xs es → sys_threads s !! i = Some t →
  t_pc t ≠ Idle → waiting t = false → own = None ∨ critical (t_pc t) = true →
  ∃ j s', act (Some l) (Run i) s = Some s' ∨ act (Some l) (Signal i j) s = Some s'.
Proof using Type.
  intros Hcap Hinv Hi Hid Hw Ho. destruct (signalling t) eqn:Hs.
  - destruct (signal_cases l cap xs0 _ _ _ _ _ _ Hinv i t Hi Hs) as (x & E & _).
    set (ts := <[i := at_pc (InEnqueue x (EnqUnlock true)) t]> (sys_threads s)) in *.
    assert (∃ j ts', signal_to j ts = Some ts') as (j & ts' & Ej).
    { destruct (existsb waiting ts) eqn:Ex.
      - apply existsb_exists in Ex as (tj & (j & Hj)%list_elem_of_In%list_elem_of_lookup & Hwj).
        exists (Some j). simpl. rewrite Hj. simpl. rewrite Hwj. by eauto.
      - exists None. simpl. rewrite Ex. by eauto. }
    exists j, (System (sys_mem s) ts'). right. simpl. rewrite Hi. simpl. rewrite Hs, E. simpl. fold ts. by rewrite Ej.
  - destruct (run_cases l cap xs0 Hcap _ _ _ _ _ _ Hinv i t Hi Hs) as [Hp|[Hw'|[(_ & Hc & Hn)|Hg]]]; [done|congruence| |].
    + destruct Ho; congruence.
    + destruct Hg as (t' & m' & _ & _ & _ & _ & E & _). exists None, (put_thread i t' m' s). left. simpl. rewrite Hi. simpl.
      by rewrite Hs, E.
Qed.
End Runs.

(** A producer that holds four messages, a consumer and an observer, and an empty queue. *)
Definition demo : system :=
  System mem4 [Thread Idle [1; 3; 5; 7]%positive []; Thread Idle [] []; Thread Idle [] []].

Lemma demo_started : started 9 4 [] demo.
Proof.
  split.
  - apply queue_atb_sound. by vm_compute.
  - by vm_compute.
  - apply heap_okb_sound. by vm_compute.
  - by repeat constructor.
  - apply (bool_decide_unpack _). by vm_compute.
  - intros x. assert (Hd : dom (m_msgs mem4) = {[1; 3; 5; 7]}%positive) by (apply (bool_decide_unpack _); by vm_compute).
    assert (Eh : [] ++ (sys_threads demo ≫= t_held) = [1; 3; 5; 7]%positive) by done.
    change (sys_mem demo) with mem4. rewrite Eh, <- elem_of_dom, Hd, !elem_of_union, !elem_of_singleton, !elem_of_cons.
    rewrite elem_of_nil. tauto.
Qed.

(** The consumer waits before the producer comes. *)
Definition demo_actions : list action :=
  [Call 1 (Dequeue true); Run 1; Run 1; Call 0 (Enqueue 3); Run 0; Run 0; Run 0; Run 0;
   Signal 0 (Some 1%nat); Run 0; Run 1; Run 1; Run 1; Run 1; Run 1].
Definition demo_end : system := default demo (run_actions (Some 9%positive) demo_actions demo).

Lemma demo_runs : run_actions (Some 9%positive) demo_actions demo = Some demo_end.
Proof.
  unfold demo_end. assert (is_Some (run_actions (Some 9%positive) demo_actions demo)) as [s ->]; [|done].
  apply (bool_decide_unpack _). by vm_compute.
Qed.
Lemma demo_reaches : reaches (Some 9%positive) demo demo_end.
Proof. eapply run_actions_reaches; [constructor|apply demo_runs]. Qed.

(** ** Properties *)

(** C4: the queue is linearizable.  However any number of threads that share a queue of capacity at
    least two are interleaved, there is one order of their calls in which the abstract bounded FIFO
    gives every call the result that it had: each thread's calls appear in it in the order in which
    the thread made them, calls that have returned by an earlier moment come before calls that take
    effect later, no blocking dequeue took effect on an empty queue, and when no call is under way
    the queue holds exactly what the FIFO holds. *)
Theorem queue_linearizable l cap xs0 s0 s1 s2 :
  2 ≤ cap → started l cap xs0 s0 → reaches (Some l) s0 s1 → reaches (Some l) s1 s2 →
  ∃ h1 h2 xs1 xs2,
    fifo_history (Z.to_nat cap) xs0 h1 xs1 ∧ fifo_history (Z.to_nat cap) xs0 (h1 ++ h2) xs2 ∧
    (∀ i t, sys_threads s1 !! i = Some t → t_log t `prefix_of` calls_of i h1) ∧
    (∀ i t, sys_threads s2 !! i = Some t →
       t_log t `prefix_of` calls_of i (h1 ++ h2) ∧ (t_pc t = Idle → calls_of i (h1 ++ h2) = t_log t)) ∧
    (Forall (λ t, t_pc t = Idle) (sys_threads s2) → queue_at (sys_mem s2) l cap xs2).
Proof.
  intros Hcap Hst Hr1 Hr2. pose proof (started_inv _ _ _ _ Hst) as Hinv0.
  destruct (reaches_inv _ _ _ _ _ _ _ _ _ Hcap Hinv0 Hr1) as (own1 & h1 & xs1 & es1 & Hinv1 & _).
  destruct (reaches_inv _ _ _ _ _ _ _ _ _ Hcap Hinv1 Hr2) as (own2 & h2' & xs2 & es2 & Hinv2 & [h2 ->]).
  exists h1, h2, xs1, xs2. split_and!; [apply Hinv1|apply Hinv2| | |].
  - intros i t Hi. rewrite (inv_calls _ _ _ _ _ _ _ _ _ Hinv1 i t Hi). by apply prefix_app_r.
  - intros i t Hi. rewrite (inv_calls _ _ _ _ _ _ _ _ _ Hinv2 i t Hi).
    split; [by apply prefix_app_r|]. intros ->. simpl. by rewrite app_nil_r.
  - intros Hid. destruct Hinv2 as [_ _ (q & Hq & Hok & Hqc & He & Hm & Ho) Hown Hnd Hlive _ _ _].
    destruct own2 as [i|].
    { destruct Ho as (t & Hi & _). pose proof (Forall_lookup_1 _ _ _ _ Hid Hi) as Hp. simpl in Hp.
      assert (critical (t_pc t) = true) by by apply (Hown i t Hi). by rewrite Hp in *. }
    subst es2. exists q. split_and!; try done. apply NoDup_app in Hnd as (Hnd & _).
    split; [done|]. intros x Hx. apply Hlive. set_solver.
Qed.

Lemma queue_linearizable_witness :
  ∃ h xs, fifo_history 4 [] h xs ∧ queue_at (sys_mem demo_end) 9 4 xs ∧
    calls_of 1 h = [(Dequeue true, Received (Some 3%positive))].
Proof.
  destruct (queue_linearizable 9 4 [] demo demo_end demo_end) as (h1 & h2 & xs1 & xs2 & _ & Hh & _ & Hc & Hq);
    [lia|apply demo_started|apply demo_reaches|constructor|].
  exists (h1 ++ h2), xs2. split; [exact Hh|]. split.
  - apply Hq. apply (bool_decide_unpack _). by vm_compute.
  - destruct (sys_threads demo_end !! 1%nat) as [t|] eqn:E; [|by vm_compute in E].
    destruct (Hc 1%nat t E) as [_ Hi]. assert (Et : t_pc t = Idle ∧ t_log t = [(Dequeue true, Received (Some 3%positive))]).
    { vm_compute in E. by injection E as <-. }
    destruct Et as [Ep El]. rewrite <- El. exact (Hi Ep).
Defined.

(** C16: no data race on the queue.  In every reachable state of the threads that share a queue no
    step of a thread is undefined (no use of freed memory, no access outside the buffer, no
    overflow, no unlock of a mutex that is not held), deleting a message that is held is safe, and
    at most one thread is between its lock and its unlock. *)
Theorem queue_threads_safe l cap xs0 s0 s i t :
  2 ≤ cap → started l cap xs0 s0 → reaches (Some l) s0 s → sys_threads s !! i = Some t →
  (thread_step (Some l) t (sys_mem s) = Blocked ∨ ∃ t' m', thread_step (Some l) t (sys_mem s) = Ok (t', m')) ∧
  (∀ x, x ∈ t_held t → ∃ m', message_delete (Some x) (sys_mem s) = Ok (tt, m')) ∧
  (∀ j tj, sys_threads s !! j = Some tj → critical (t_pc t) = true → critical (t_pc tj) = true → i = j).
Proof.
  intros Hcap Hst Hr Hi. pose proof (started_inv _ _ _ _ Hst) as Hinv0.
  destruct (reaches_inv _ _ _ _ _ _ _ _ _ Hcap Hinv0 Hr) as (own & h & xs & es & Hinv & _).
  split_and!; [by eapply thread_step_safe| |].
  - intros x Hx. destruct (held_NoDup _ _ _ _ _ _ _ _ _ _ Hinv Hi) as [_ Hl]. destruct (Hl x Hx) as [msg Hmsg].
    rewrite (message_delete_live _ _ _ Hmsg). by eauto.
  - intros j tj Hj Hc Hcj. apply (inv_owner _ _ _ _ _ _ _ _ _ Hinv i t Hi) in Hc.
    apply (inv_owner _ _ _ _ _ _ _ _ _ Hinv j tj Hj) in Hcj. congruence.
Qed.

Lemma queue_threads_safe_witness :
  ∃ t, sys_threads demo_end !! 1%nat = Some t ∧ t_held t = [3%positive] ∧
    ∃ m', message_delete (Some 3%positive) (sys_mem demo_end) = Ok (tt, m').
Proof.
  destruct (sys_threads demo_end !! 1%nat) as [t|] eqn:E; [|by vm_compute in E].
  assert (Eh : t_held t = [3%positive]) by (vm_compute in E; by injection E as <-).
  destruct (queue_threads_safe 9 4 [] demo demo_end 1 t) as (_ & Hd & _);
    [lia|apply demo_started|apply demo_reaches|exact E|].
  exists t. split; [done|]. split; [exact Eh|]. apply Hd. rewrite Eh. by apply list_elem_of_singleton.
Defined.

(** C15: every message has one owner.  In every reachable state each message in memory is either in
    the buffer of the queue or in the hands of exactly one thread, none is in two places, and none
    of them has been freed: a message that leaves the queue because it overflows is freed, and
    nothing is lost. *)
Theorem message_has_one_owner l cap xs0 s0 s :
  2 ≤ cap → started l cap xs0 s0 → reaches (Some l) s0 s →
  ∃ q es, m_queues (sys_mem s) !! l = Some q ∧ q_elems q = Some <$> es ∧
    NoDup (es ++ (sys_threads s ≫= responsible)) ∧
    ∀ x, is_Some (m_msgs (sys_mem s) !! x) ↔ x ∈ es ++ (sys_threads s ≫= responsible).
Proof.
  intros Hcap Hst Hr. pose proof (started_inv _ _ _ _ Hst) as Hinv0.
  destruct (reaches_inv _ _ _ _ _ _ _ _ _ Hcap Hinv0 Hr) as (own & h & xs & es & Hinv & _).
  destruct (inv_queue _ _ _ _ _ _ _ _ _ Hinv) as (q & Hq & _ & _ & He & _).
  exists q, es. split_and!; [done|done|apply Hinv|apply Hinv].
Qed.

Lemma message_has_one_owner_witness :
  ∃ es, NoDup (es ++ (sys_threads demo_end ≫= responsible)) ∧
    ∀ x, is_Some (m_msgs (sys_mem demo_end) !! x) ↔ x ∈ es ++ (sys_threads demo_end ≫= responsible).
Proof.
  destruct (message_has_one_owner 9 4 [] demo demo_end) as (q & es & _ & _ & Hnd & Hl);
    [lia|apply demo_started|apply demo_reaches|].
  exists es. exact (conj Hnd Hl).
Defined.

(** C14: no wakeup is lost.  In every reachable state some thread can take a step without a spurious
    wakeup, unless every thread is outside of a call or waits in [message_queue_dequeue], and then
    threads wait only because the queue is empty. *)
Theorem no_lost_wakeup l cap xs0 s0 s :
  2 ≤ cap → started l cap xs0 s0 → reaches (Some l) s0 s →
  (∃ i j s', act (Some l) (Run i) s = Some s' ∨ act (Some l) (Signal i j) s = Some s') ∨
  Forall (λ t, t_pc t = Idle ∨ waiting t = true) (sys_threads s) ∧
  (Exists (λ t, waiting t = true) (sys_threads s) → queue_at (sys_mem s) l cap []).
Proof.
  intros Hcap Hst Hr. pose proof (started_inv _ _ _ _ Hst) as Hinv0.
  destruct (reaches_inv _ _ _ _ _ _ _ _ _ Hcap Hinv0 Hr) as (own & h & xs & es & Hinv & _).
  destruct own as [i|].
  { left. destruct (inv_queue _ _ _ _ _ _ _ _ _ Hinv) as (q & _ & _ & _ & _ & _ & t & Hi & _).
    assert (Hc : critical (t_pc t) = true) by by apply (inv_owner _ _ _ _ _ _ _ _ _ Hinv i t Hi).
    exists i. eapply thread_goes_on; try done; [by intros E; rewrite E in Hc| |by right].
    unfold waiting. by destruct (t_pc t) as [|? ?|? []]. }
  destruct (decide (Forall (λ t, t_pc t = Idle ∨ waiting t = true) (sys_threads s))) as [Hall|Hex].
  - right. split; [done|]. intros Hw. pose proof (inv_wake _ _ _ _ _ _ _ _ _ Hinv Hw) as Hle.
    assert (sum_list_with attends (sys_threads s) = 0%nat) as H0.
    { clear -Hall. induction (sys_threads s) as [|t ts IH]; [done|]. apply Forall_cons in Hall as [Ht Hts].
      simpl. rewrite IH by done. revert Ht. unfold attends, waiting. destruct (t_pc t) as [|? ?|? []]; naive_solver. }
    destruct es; [|simpl in Hle; lia]. destruct (inv_queue _ _ _ _ _ _ _ _ _ Hinv) as (q & Hq & Hok & Hqc & He & Hm & _).
    exists q. split_and!; try done. split; [constructor|set_solver].
  - left. apply not_Forall_Exists in Hex; [|intros ?; apply _].
    apply Exists_exists in Hex as (t & (i & Hi)%list_elem_of_lookup & Hn). exists i.
    simpl in Hn. eapply thread_goes_on; try done; [naive_solver| |by left].
    destruct (waiting t) eqn:E; [naive_solver|done].
Qed.

Lemma no_lost_wakeup_witness :
  ∃ s, run_actions (Some 9%positive) [Call 1 (Dequeue true); Run 1; Run 1] demo = Some s ∧
    ((∃ i j s', act (Some 9%positive) (Run i) s = Some s' ∨ act (Some 9%positive) (Signal i j) s = Some s') ∨
     queue_at (sys_mem s) 9 4 []).
Proof.
  destruct (run_actions (Some 9%positive) [Call 1 (Dequeue true); Run 1; Run 1] demo) as [s|] eqn:E; [|by vm_compute in E].
  exists s. split; [done|].
  destruct (no_lost_wakeup 9 4 [] demo s) as [H|[_ H]];
    [lia|apply demo_started|eapply run_actions_reaches; [constructor|exact E]|by left|right].
  apply H. vm_compute in E. injection E as <-. apply (bool_decide_unpack _). by vm_compute.
Defined.
