(* ===== verification/SocketUdp.v ===== *)
(** * SocketUdp: network/socket_udp.c

    The UDP socket with its two fixed buffers, and the network state of a process:
    memory, sockets, connections, the results that [recvfrom] will give on each
    descriptor, and a log of what was sent and slept. *)
From S2P Require Import Prelude Layout Memory Message.

Local Open Scope Z_scope.

Definition UDP_SOCKET_BUFFER_SIZE : nat := 2000.

Inductive udp_socket_status_t : Type :=
  | UDP_SOCKET_STATUS_SUCCESS
  | UDP_SOCKET_STATUS_ERROR_CREATE_SOCKET
  | UDP_SOCKET_STATUS_ERROR_BIND
  | UDP_SOCKET_STATUS_ERROR_RECEIVE
  | UDP_SOCKET_STATUS_ERROR_SEND
  | UDP_SOCKET_STATUS_ERROR_MEMORY.

#[export] Instance udp_socket_status_t_eq_dec : EqDecision udp_socket_status_t.
Proof. solve_decision. Defined.

Record udp_socket_t := Socket {
  fd : Z;
  outcoming_addr : sockaddr_in;
  incoming_addr : sockaddr_in;
  incoming_addr_len : Z;
  incoming_buffer : list byte;
  outcoming_buffer : list byte;
  receive_timeout_sec : Z;
}.

(** A thread of a connection. *)
Inductive thread_state : Type := NotStarted | Running | Joined.

(** [net_connection_t] of network/net_connection.h. *)
Record net_connection_t := Connection {
  socket : ptr;
  incoming_message_queue : ptr;
  outgoing_message_queue : ptr;
  receive_thread : thread_state;
  send_thread : thread_state;
  is_sending : bool;
  is_receiving : bool;
  receive_timeout_seconds : Z;
  send_timeout_seconds : Z;
}.

(** What [recvfrom] delivers: an error (a timeout included) or a datagram. *)
Inductive recv_result : Type :=
  | RecvError
  | RecvData (payload : list byte) (from : sockaddr_in).

(** Observable effects. *)
Inductive event : Type :=
  | EvSend (fd : Z) (to : sockaddr_in) (payload : list byte)
  | EvSleep (seconds : Z)
  | EvBind (fd : Z) (addr : sockaddr_in)
  | EvJoinReceiving (connection : loc)   (* pthread_join of its receiving thread *)
  | EvJoinSending (connection : loc).    (* pthread_join of its sending thread *)

Record net := Net {
  n_mem : mem;
  n_fds : gset Z;                      (* open descriptors *)
  n_socks : gmap loc udp_socket_t;
  n_conns : gmap loc net_connection_t;
  n_in : gmap Z (list recv_result);    (* by descriptor *)
  n_log : list event;                  (* newest last *)
}.

Definition with_mem (m : mem) (n : net) : net :=
  Net m (n_fds n) (n_socks n) (n_conns n) (n_in n) (n_log n).
Definition with_fds (s : gset Z) (n : net) : net :=
  Net (n_mem n) s (n_socks n) (n_conns n) (n_in n) (n_log n).
Definition with_socks (h : gmap loc udp_socket_t) (n : net) : net :=
  Net (n_mem n) (n_fds n) h (n_conns n) (n_in n) (n_log n).
Definition with_conns (h : gmap loc net_connection_t) (n : net) : net :=
  Net (n_mem n) (n_fds n) (n_socks n) h (n_in n) (n_log n).
Definition with_in (i : gmap Z (list recv_result)) (n : net) : net :=
  Net (n_mem n) (n_fds n) (n_socks n) (n_conns n) i (n_log n).
Definition with_log (l : list event) (n : net) : net :=
  Net (n_mem n) (n_fds n) (n_socks n) (n_conns n) (n_in n) l.

#[export] Program Instance net_allocator : Allocator net := {|
  faults_of n := m_faults (n_mem n); set_faults fs n := with_mem (with_faults fs (n_mem n)) n;
  next_of n := m_next (n_mem n); set_next l n := with_mem (with_next l (n_mem n)) n;
|}.
Next Obligation. by intros [[]]. Qed.
Next Obligation. done. Qed.
#[export] Program Instance net_socks : Store net udp_socket_t := {|
  heap_of := n_socks; set_heap := with_socks;
|}.
Solve All Obligations with done.
#[export] Program Instance net_conns : Store net net_connection_t := {|
  heap_of := n_conns; set_heap := with_conns;
|}.
Solve All Obligations with done.

Definition lift_mem {A} : M mem A → M net A := lift n_mem with_mem.

Definition log_event (e : event) : M net unit := modify (λ n, with_log (n_log n ++ [e]) n).
Definition sleep (seconds : Z) : M net unit := log_event (EvSleep seconds).

Lemma with_mem_id n : with_mem (n_mem n) n = n.
Proof. by destruct n. Qed.
Lemma with_socks_id n : with_socks (n_socks n) n = n.
Proof. by destruct n. Qed.
Lemma with_bytes_id m : with_bytes (m_bytes m) m = m.
Proof. by destruct m. Qed.

(** ** Descriptors *)

(** A descriptor that is not open and not one of the three standard streams; which one
    the kernel picks is not observable to the program. *)
Definition fresh_fd (s : gset Z) : Z := set_fold Z.max 2 s + 1.

Lemma foldr_max_le (ds : list Z) d : d ∈ ds → d ≤ foldr Z.max 2 ds.
Proof. induction 1; simpl; lia. Qed.
Lemma foldr_max_ge (ds : list Z) : 2 ≤ foldr Z.max 2 ds.
Proof. induction ds; simpl; lia. Qed.

Lemma fresh_fd_fresh (s : gset Z) : ¬ (fresh_fd s ∈ s) ∧ 3 ≤ fresh_fd s.
Proof.
  unfold fresh_fd. change (set_fold Z.max 2 s) with (foldr Z.max 2 (elements s)). split.
  - intros H%elem_of_elements%foldr_max_le. lia.
  - pose proof (foldr_max_ge (elements s)). lia.
Qed.

Definition sys_socket : M net Z :=
  let* ok := fallible in
  if ok then
    let* n := get_state in
    let d := fresh_fd (n_fds n) in
    modify (with_fds ({[d]} ∪ n_fds n)) ;; ret d
  else ret (-1).

Definition sys_close (d : Z) : M net unit := modify (λ n, with_fds (n_fds n ∖ {[d]}) n).

(** [recvfrom(fd, incoming_buffer, 2000, 0, &incoming_addr, &len)]: a datagram overwrites
    the first bytes of the buffer, cut off at its size; the rest of the buffer keeps its
    old content.  [None] is the return value -1. *)
Definition sys_recvfrom (usocket : ptr) : M net (option Z) :=
  let* s := load usocket in
  let* n := get_state in
  match default [] (n_in n !! fd s) with
  | [] => ret None
  | RecvError :: rest => modify (with_in (<[fd s := rest]> (n_in n))) ;; ret None
  | RecvData payload from :: rest =>
      modify (with_in (<[fd s := rest]> (n_in n))) ;;
      let bytes := take UDP_SOCKET_BUFFER_SIZE payload in
      let* buf := copy_in 0 bytes (incoming_buffer s) in
      store usocket (Socket (fd s) (outcoming_addr s) from (Z.of_nat sizeof_sockaddr) buf
                       (outcoming_buffer s) (receive_timeout_sec s)) ;;
      ret (Some (Z.of_nat (length bytes)))
  end.

(** ** Operations *)
Definition udp_socket_create (addr port : Z) : M net ptr :=
  let* n := get_state in
  let junk := decode_addr (junk_block (n_mem n) (m_next (n_mem n)) sizeof_sockaddr) in
  let* usocket := alloc (Socket 0 junk junk 0 [] [] 0) in
  match usocket with
  | None => ret None
  | Some _ =>
      let* d := sys_socket in
      if d =? -1 then free udp_socket_t usocket ;; ret None else
      store usocket
        (Socket d (SockAddr AF_INET port addr (sin_zero junk)) junk (Z.of_nat sizeof_sockaddr)
           (replicate UDP_SOCKET_BUFFER_SIZE NUL) (replicate UDP_SOCKET_BUFFER_SIZE NUL) 0) ;;
      ret usocket
  end.

Definition udp_socket_delete (usocket : ptr) : M net unit :=
  match usocket with
  | None => ret tt
  | Some _ =>
      let* s := load usocket in
      (if fd s =? -1 then ret tt else sys_close (fd s)) ;;
      free udp_socket_t usocket
  end.

Definition udp_socket_bind (usocket : ptr) : M net udp_socket_status_t :=
  match usocket with
  | None => ret UDP_SOCKET_STATUS_ERROR_BIND
  | Some _ =>
      let* s := load usocket in
      let* ok := fallible in
      if ok then log_event (EvBind (fd s) (outcoming_addr s)) ;; ret UDP_SOCKET_STATUS_SUCCESS else ret UDP_SOCKET_STATUS_ERROR_BIND
  end.

Definition udp_socket_receive_message (usocket : ptr)
    (receive_callback : option (sockaddr_in → list byte → Z → M net unit))
    : M net udp_socket_status_t :=
  match usocket with
  | None => ret UDP_SOCKET_STATUS_ERROR_RECEIVE
  | Some _ =>
      let* recv_len := sys_recvfrom usocket in
      match recv_len with
      | None => ret UDP_SOCKET_STATUS_ERROR_RECEIVE
      | Some len =>
          match receive_callback with
          | Some f => let* s := load usocket in f (incoming_addr s) (incoming_buffer s) len
          | None => ret tt
          end ;;
          ret UDP_SOCKET_STATUS_SUCCESS
      end
  end.

(** [sendto] goes to [incoming_addr], the field the receiving thread writes too. *)
Definition udp_socket_send (usocket : ptr) (data_length : Z) : M net udp_socket_status_t :=
  match usocket with
  | None => ret UDP_SOCKET_STATUS_ERROR_SEND
  | Some _ =>
      let* s := load usocket in
      let* bytes := copy_out 0 (Z.to_nat data_length) (outcoming_buffer s) in
      let* ok := fallible in
      if ok then
        log_event (EvSend (fd s) (incoming_addr s) bytes) ;; ret UDP_SOCKET_STATUS_SUCCESS
      else ret UDP_SOCKET_STATUS_ERROR_SEND
  end.

Definition udp_socket_set_receive_timeout (usocket : ptr) (seconds : Z) : M net udp_socket_status_t :=
  match usocket with
  | None => ret UDP_SOCKET_STATUS_ERROR_CREATE_SOCKET
  | Some _ =>
      let* s := load usocket in
      let* ok := fallible in
      if ok then
        store usocket (Socket (fd s) (outcoming_addr s) (incoming_addr s) (incoming_addr_len s)
                         (incoming_buffer s) (outcoming_buffer s) seconds) ;;
        ret UDP_SOCKET_STATUS_SUCCESS
      else ret UDP_SOCKET_STATUS_ERROR_CREATE_SOCKET
  end.

#[global] Arguments udp_socket_create : simpl never.
#[global] Arguments udp_socket_delete : simpl never.
#[global] Arguments udp_socket_bind : simpl never.
#[global] Arguments udp_socket_receive_message : simpl never.
#[global] Arguments udp_socket_send : simpl never.
#[global] Arguments udp_socket_set_receive_timeout : simpl never.

(** ** The type invariant of a socket *)
Definition sock_ok (s : udp_socket_t) : Prop :=
  length (incoming_buffer s) = UDP_SOCKET_BUFFER_SIZE ∧
  length (outcoming_buffer s) = UDP_SOCKET_BUFFER_SIZE ∧
  addr_ok (incoming_addr s) = true ∧ addr_ok (outcoming_addr s) = true.

Definition recv_ok (r : recv_result) : Prop :=
  match r with RecvError => True | RecvData _ from => addr_ok from = true end.

(** The socket after a datagram arrived. *)
Definition received (s : udp_socket_t) (payload : list byte) (from : sockaddr_in) : udp_socket_t :=
  Socket (fd s) (outcoming_addr s) from (Z.of_nat sizeof_sockaddr)
    (splice 0 (take UDP_SOCKET_BUFFER_SIZE payload) (incoming_buffer s))
    (outcoming_buffer s) (receive_timeout_sec s).

Lemma received_ok s payload from :
  sock_ok s → addr_ok from = true → sock_ok (received s payload from).
Proof.
  intros (? & ? & ? & ?) Hf. unfold sock_ok; simpl. split_and!; try done.
  rewrite length_splice; [done|]. rewrite length_take. lia.
Qed.

Lemma receive_message_eq n l s :
  n_socks n !! l = Some s → sock_ok s →
  udp_socket_receive_message (Some l) None n =
    match default [] (n_in n !! fd s) with
    | [] => Ok (UDP_SOCKET_STATUS_ERROR_RECEIVE, n)
    | RecvError :: rest =>
        Ok (UDP_SOCKET_STATUS_ERROR_RECEIVE, with_in (<[fd s := rest]> (n_in n)) n)
    | RecvData payload from :: rest =>
        Ok (UDP_SOCKET_STATUS_SUCCESS,
            with_socks (<[l := received s payload from]> (n_socks n))
              (with_in (<[fd s := rest]> (n_in n)) n))
    end.
Proof.
  intros Hl (Hi & _). unfold udp_socket_receive_message, sys_recvfrom. c_simpl. rewrite Hl.
  destruct (default [] (n_in n !! fd s)) as [|[|payload from] rest]; simpl; try done.
  rewrite copy_in_ok; [simpl; by rewrite Hl|]. rewrite length_take. lia.
Qed.

Lemma send_cases n l s len :
  n_socks n !! l = Some s → sock_ok s → 0 ≤ len ≤ Z.of_nat UDP_SOCKET_BUFFER_SIZE →
  ∃ ok fs, (m_faults (n_mem n) = [] → ok = true ∧ fs = []) ∧
    udp_socket_send (Some l) len n =
      Ok (if ok : bool then UDP_SOCKET_STATUS_SUCCESS else UDP_SOCKET_STATUS_ERROR_SEND,
          let n' := with_mem (with_faults fs (n_mem n)) n in
          if ok then with_log (n_log n ++ [EvSend (fd s) (incoming_addr s)
                                             (take (Z.to_nat len) (outcoming_buffer s))]) n'
          else n').
Proof.
  intros Hl (_ & Ho & _) Hlen. unfold udp_socket_send, bind, load. simpl. rewrite Hl.
  rewrite copy_out_ok by lia. simpl.
  destruct (fallible_cases n) as (ok & fs & -> & Hn). exists ok, fs. split; [done|].
  unfold slice. rewrite drop_0. by destruct ok.
Qed.
