(* ===== verification/NetConnection.v ===== *)
(** * NetConnection: network/net_connection.c

    A connection ties a UDP socket to an incoming and an outgoing message queue.  Two
    threads serve it: one turns datagrams into messages, the other messages into
    datagrams.  A thread function is a loop over an iteration; [NetTurns] lets the
    iterations of the threads take turns. *)
From S2P Require Import Prelude Layout Memory Message MessageQueue SocketUdp.

Local Open Scope Z_scope.

Inductive net_connection_status_t : Type :=
  | NET_CONNECTION_STATUS_SUCCESS
  | NET_CONNECTION_STATUS_ERROR_NULL_POINTER
  | NET_CONNECTION_STATUS_ERROR_SOCKET
  | NET_CONNECTION_STATUS_ERROR_QUEUE
  | NET_CONNECTION_STATUS_ERROR_THREAD
  | NET_CONNECTION_STATUS_ERROR_MESSAGE_FORMAT.

#[export] Instance net_connection_status_t_eq_dec : EqDecision net_connection_status_t.
Proof. solve_decision. Defined.

(** ** Field updates *)
Definition set_receiving (b : bool) (t : thread_state) (c : net_connection_t) : net_connection_t :=
  Connection (socket c) (incoming_message_queue c) (outgoing_message_queue c) t (send_thread c)
    (is_sending c) b (receive_timeout_seconds c) (send_timeout_seconds c).
Definition set_sending (b : bool) (t : thread_state) (c : net_connection_t) : net_connection_t :=
  Connection (socket c) (incoming_message_queue c) (outgoing_message_queue c) (receive_thread c) t
    b (is_receiving c) (receive_timeout_seconds c) (send_timeout_seconds c).
Definition set_pointers (s i o : ptr) (c : net_connection_t) : net_connection_t :=
  Connection s i o (receive_thread c) (send_thread c) (is_sending c) (is_receiving c)
    (receive_timeout_seconds c) (send_timeout_seconds c).
Definition set_incoming_addr (a : sockaddr_in) (s : udp_socket_t) : udp_socket_t :=
  Socket (fd s) (outcoming_addr s) a (incoming_addr_len s) (incoming_buffer s)
    (outcoming_buffer s) (receive_timeout_sec s).
Definition set_outcoming_buffer (b : list byte) (s : udp_socket_t) : udp_socket_t :=
  Socket (fd s) (outcoming_addr s) (incoming_addr s) (incoming_addr_len s) (incoming_buffer s)
    b (receive_timeout_sec s).

Definition load_msg (message : ptr) : M net message_t := lift_mem (load message).
Definition store_msg (message : ptr) (m : message_t) : M net unit := lift_mem (store message m).

(** [UDP_SOCKET_BUFFER_SIZE - sizeof(message_header_t)]. *)
Definition MAX_PAYLOAD : Z := Z.of_nat UDP_SOCKET_BUFFER_SIZE - Z.of_nat sizeof_header.

(** ** Headers and data in the socket's buffers

    [net_connection_read_header] and [net_connection_write_header] get the address of the
    header of [message]. *)
Definition net_connection_read_header (connection message : ptr) : M net net_connection_status_t :=
  match connection, message with
  | Some _, Some _ =>
      let* c := load connection in
      match socket c with
      | None => ret NET_CONNECTION_STATUS_ERROR_NULL_POINTER
      | Some _ =>
          let* s := load (socket c) in
          let* bytes := copy_out 0 sizeof_header (incoming_buffer s) in
          let* msg := load_msg message in
          store_msg message (Message (decode_header bytes) (data msg)) ;;
          ret NET_CONNECTION_STATUS_SUCCESS
      end
  | _, _ => ret NET_CONNECTION_STATUS_ERROR_NULL_POINTER
  end.

Definition net_connection_read_data (connection message : ptr) : M net net_connection_status_t :=
  match connection, message with
  | Some _, Some _ =>
      let* c := load connection in
      match socket c with
      | None => ret NET_CONNECTION_STATUS_ERROR_NULL_POINTER
      | Some _ =>
          let* msg := load_msg message in
          let len := hdr_length (header msg) in
          if 0 <? len then
            if MAX_PAYLOAD <? len then ret NET_CONNECTION_STATUS_ERROR_MESSAGE_FORMAT else
            let* s := load (socket c) in
            let* bytes := copy_out sizeof_header (Z.to_nat len) (incoming_buffer s) in
            let* block := lift_mem (load (data msg)) in
            let* block' := copy_in 0 bytes block in
            lift_mem (store (data msg) block') ;;
            ret NET_CONNECTION_STATUS_SUCCESS
          else ret NET_CONNECTION_STATUS_SUCCESS
      end
  | _, _ => ret NET_CONNECTION_STATUS_ERROR_NULL_POINTER
  end.

Definition net_connection_write_header (connection message : ptr) : M net net_connection_status_t :=
  match connection, message with
  | Some _, Some _ =>
      let* c := load connection in
      match socket c with
      | None => ret NET_CONNECTION_STATUS_ERROR_NULL_POINTER
      | Some _ =>
          let* s := load (socket c) in
          let* msg := load_msg message in
          let* buf := copy_in 0 (encode_header (header msg)) (outcoming_buffer s) in
          store (socket c) (set_outcoming_buffer buf s) ;;
          ret NET_CONNECTION_STATUS_SUCCESS
      end
  | _, _ => ret NET_CONNECTION_STATUS_ERROR_NULL_POINTER
  end.

Definition net_connection_write_data (connection message : ptr) : M net net_connection_status_t :=
  match connection, message with
  | Some _, Some _ =>
      let* c := load connection in
      match socket c with
      | None => ret NET_CONNECTION_STATUS_ERROR_NULL_POINTER
      | Some _ =>
          let* msg := load_msg message in
          let len := hdr_length (header msg) in
          if 0 <? len then
            if MAX_PAYLOAD <? len then ret NET_CONNECTION_STATUS_ERROR_MESSAGE_FORMAT else
            let* s := load (socket c) in
            let* block := lift_mem (load (data msg)) in
            let* bytes := copy_out 0 (Z.to_nat len) block in
            let* buf := copy_in sizeof_header bytes (outcoming_buffer s) in
            store (socket c) (set_outcoming_buffer buf s) ;;
            ret NET_CONNECTION_STATUS_SUCCESS
          else ret NET_CONNECTION_STATUS_SUCCESS
      end
  | _, _ => ret NET_CONNECTION_STATUS_ERROR_NULL_POINTER
  end.

(** ** Queues *)
Definition net_connection_add_to_queue (connection message_queue message : ptr)
    : M net net_connection_status_t :=
  match connection, message, message_queue with
  | Some _, Some _, Some _ =>
      let* st := lift_mem (message_queue_enqueue message_queue message) in
      if bool_decide (st = MESSAGE_QUEUE_STATUS_SUCCESS)
      then ret NET_CONNECTION_STATUS_SUCCESS
      else lift_mem (message_delete message) ;; ret NET_CONNECTION_STATUS_ERROR_QUEUE
  | _, _, _ => ret NET_CONNECTION_STATUS_ERROR_NULL_POINTER
  end.

Definition net_connection_send (connection message : ptr) : M net net_connection_status_t :=
  match connection, message with
  | Some _, Some _ =>
      let* c := load connection in
      match socket c, outgoing_message_queue c with
      | Some _, Some _ => net_connection_add_to_queue connection (outgoing_message_queue c) message
      | _, _ => ret NET_CONNECTION_STATUS_ERROR_NULL_POINTER
      end
  | _, _ => ret NET_CONNECTION_STATUS_ERROR_NULL_POINTER
  end.

Definition net_connection_receive (connection : ptr) : M net ptr :=
  match connection with
  | None => ret None
  | Some _ =>
      let* c := load connection in
      match incoming_message_queue c with
      | None => ret None
      | Some _ => lift_mem (message_queue_dequeue (incoming_message_queue c))
      end
  end.

Definition net_connection_receive_nonblocking (connection : ptr) : M net ptr :=
  match connection with
  | None => ret None
  | Some _ =>
      let* c := load connection in
      match incoming_message_queue c with
      | None => ret None
      | Some _ => lift_mem (message_queue_dequeue_nonblocking (incoming_message_queue c))
      end
  end.

(** ** The thread functions *)

(** Lines 61-69: hand the message over; on an error it is deleted here as well. *)
Definition receive_add (connection message : ptr) : M net unit :=
  let* c := load connection in
  let* st := net_connection_add_to_queue connection (incoming_message_queue c) message in
  if bool_decide (st = NET_CONNECTION_STATUS_SUCCESS) then ret tt
  else lift_mem (message_delete message).

Definition mark_invalid (message : ptr) : M net unit :=
  let* msg := load_msg message in
  store_msg message (Message (set_type MESSAGE_TYPE_NONE (header msg)) (data msg)).

(** Lines 38-69: fill a fresh message from the socket's buffer and hand it over. *)
Definition receive_fill (connection : ptr) (c : net_connection_t) (message : ptr) : M net unit :=
  let* header_status := net_connection_read_header connection message in
  let* s := load (socket c) in
  let* msg := load_msg message in
  store_msg message (Message (set_owner_addr (incoming_addr s) (header msg)) (data msg)) ;;
  if bool_decide (header_status ≠ NET_CONNECTION_STATUS_SUCCESS)
  then mark_invalid message ;; receive_add connection message
  else
    let* data_status := net_connection_read_data connection message in
    if bool_decide (data_status ≠ NET_CONNECTION_STATUS_SUCCESS)
    then mark_invalid message ;; receive_add connection message
    else receive_add connection message.

(** Lines 20-69: one turn of the receiving loop. *)
Definition receive_iteration (connection : ptr) : M net unit :=
  let* c := load connection in
  let* socket_status := udp_socket_receive_message (socket c) None in
  if bool_decide (socket_status ≠ UDP_SOCKET_STATUS_SUCCESS) then ret tt else
  let* message := lift_mem (message_create MESSAGE_TYPE_NONE (Z.of_nat UDP_SOCKET_BUFFER_SIZE)) in
  match message with
  | None => ret tt
  | Some _ => receive_fill connection c message
  end.

(** Lines 86-124: one turn of the sending loop. *)
Definition send_iteration (connection : ptr) : M net unit :=
  let* c := load connection in
  let* message := lift_mem (message_queue_dequeue_nonblocking (outgoing_message_queue c)) in
  match message with
  | None => sleep (receive_timeout_seconds c)
  | Some _ =>
      let* header_status := net_connection_write_header connection message in
      if bool_decide (header_status ≠ NET_CONNECTION_STATUS_SUCCESS)
      then lift_mem (message_delete message)
      else
        let* data_status := net_connection_write_data connection message in
        if bool_decide (data_status ≠ NET_CONNECTION_STATUS_SUCCESS)
        then lift_mem (message_delete message)
        else
          let* msg := load_msg message in
          let* s := load (socket c) in
          store (socket c) (set_incoming_addr (hdr_owner_addr (header msg)) s) ;;
          udp_socket_send (socket c) (hdr_length (header msg) + Z.of_nat sizeof_header) ;;
          lift_mem (message_delete message)
  end.

(** The loops; [fuel] bounds the number of turns. *)
Fixpoint receive_loop (fuel : nat) (connection : ptr) : M net unit :=
  let* c := load connection in
  if is_receiving c then
    match fuel with
    | O => no_fuel
    | S fuel => receive_iteration connection ;; receive_loop fuel connection
    end
  else ret tt.

Fixpoint send_loop (fuel : nat) (connection : ptr) : M net unit :=
  let* c := load connection in
  if is_sending c then
    match fuel with
    | O => no_fuel
    | S fuel => send_iteration connection ;; send_loop fuel connection
    end
  else ret tt.

Definition net_connection_receive_thread_func (fuel : nat) (arg : ptr) : M net unit :=
  match arg with None => ret tt | Some _ => receive_loop fuel arg end.
Definition net_connection_send_thread_func (fuel : nat) (arg : ptr) : M net unit :=
  match arg with None => ret tt | Some _ => send_loop fuel arg end.

(** ** Life cycle *)
Definition net_connection_start_receiving (connection : ptr) : M net net_connection_status_t :=
  match connection with
  | None => ret NET_CONNECTION_STATUS_ERROR_NULL_POINTER
  | Some _ =>
      let* c := load connection in
      if is_receiving c then ret NET_CONNECTION_STATUS_SUCCESS else
      let* created := fallible in
      if created then
        store connection (set_receiving true Running c) ;; ret NET_CONNECTION_STATUS_SUCCESS
      else
        store connection (set_receiving false (receive_thread c) c) ;;
        ret NET_CONNECTION_STATUS_ERROR_THREAD
  end.

(** [pthread_join] waits for the receiving loop, which ends its turn, finds the flag
    cleared and returns. *)
Definition net_connection_stop_receiving (connection : ptr) : M net net_connection_status_t :=
  match connection with
  | None => ret NET_CONNECTION_STATUS_ERROR_NULL_POINTER
  | Some l =>
      let* c := load connection in
      if negb (is_receiving c) then ret NET_CONNECTION_STATUS_SUCCESS else
      let* joined := fallible in
      if joined then
        log_event (EvJoinReceiving l) ;;
        store connection (set_receiving false Joined c) ;; ret NET_CONNECTION_STATUS_SUCCESS
      else
        store connection (set_receiving false (receive_thread c) c) ;;
        ret NET_CONNECTION_STATUS_ERROR_THREAD
  end.

Definition net_connection_start_sending (connection : ptr) : M net net_connection_status_t :=
  match connection with
  | None => ret NET_CONNECTION_STATUS_ERROR_NULL_POINTER
  | Some _ =>
      let* c := load connection in
      if is_sending c then ret NET_CONNECTION_STATUS_SUCCESS else
      let* created := fallible in
      if created then
        store connection (set_sending true Running c) ;; ret NET_CONNECTION_STATUS_SUCCESS
      else
        store connection (set_sending false (send_thread c) c) ;;
        ret NET_CONNECTION_STATUS_ERROR_THREAD
  end.

Definition net_connection_stop_sending (connection : ptr) : M net net_connection_status_t :=
  match connection with
  | None => ret NET_CONNECTION_STATUS_ERROR_NULL_POINTER
  | Some l =>
      let* c := load connection in
      if negb (is_sending c) then ret NET_CONNECTION_STATUS_SUCCESS else
      let* joined := fallible in
      if joined then
        log_event (EvJoinSending l) ;;
        store connection (set_sending false Joined c) ;; ret NET_CONNECTION_STATUS_SUCCESS
      else
        store connection (set_sending false (send_thread c) c) ;;
        ret NET_CONNECTION_STATUS_ERROR_THREAD
  end.

Definition net_connection_create (usocket incoming_queue outgoing_queue : ptr)
    (receive_timeout send_timeout : Z) : M net ptr :=
  match usocket, incoming_queue, outgoing_queue with
  | Some _, Some _, Some _ =>
      if (receive_timeout <? 0) || (send_timeout <? 0) then ret None else
      let* connection := alloc
        (Connection usocket incoming_queue outgoing_queue NotStarted NotStarted false false
           receive_timeout send_timeout) in
      match connection with
      | None => ret None
      | Some _ => udp_socket_set_receive_timeout usocket receive_timeout ;; ret connection
      end
  | _, _, _ => ret None
  end.

Definition net_connection_delete (connection : ptr) : M net unit :=
  match connection with
  | None => ret tt
  | Some _ =>
      net_connection_stop_receiving connection ;;
      net_connection_stop_sending connection ;;
      let* c := load connection in
      udp_socket_delete (socket c) ;;
      lift_mem (message_queue_delete (incoming_message_queue c)) ;;
      lift_mem (message_queue_delete (outgoing_message_queue c)) ;;
      store connection (set_pointers None None None c) ;;
      free net_connection_t connection
  end.

#[global] Arguments net_connection_read_header : simpl never.
#[global] Arguments net_connection_read_data : simpl never.
#[global] Arguments net_connection_write_header : simpl never.
#[global] Arguments net_connection_write_data : simpl never.
#[global] Arguments net_connection_add_to_queue : simpl never.
#[global] Arguments net_connection_send : simpl never.
#[global] Arguments net_connection_receive_nonblocking : simpl never.
#[global] Arguments receive_iteration : simpl never.
#[global] Arguments send_iteration : simpl never.

(** ** Invariants *)

(** Messages whose header may come from the wire: the length field is at most the block
    size or too large to be sent, a capacity field above the block size occurs only with
    blocks as large as the socket buffer, and every block has room for a process id. *)
Definition wire_fit (h : message_header_t) (n : nat) : Prop :=
  (hdr_length h ≤ Z.of_nat n ∨ MAX_PAYLOAD < hdr_length h) ∧
  (hdr_capacity h ≤ Z.of_nat n ∨ Z.of_nat UDP_SOCKET_BUFFER_SIZE ≤ Z.of_nat n) ∧
  (4 ≤ n)%nat.

(** What a connection looks like: [xs] are the messages of its incoming queue, [ys] those
    of the outgoing queue. *)
Record conn_at (n : net) (l : loc) (c : net_connection_t) (s : udp_socket_t)
    (ls li lo : loc) (capi capo : Z) (xs ys : list loc) : Prop := {
  ca_conn : n_conns n !! l = Some c;
  ca_socket : socket c = Some ls;
  ca_in : incoming_message_queue c = Some li;
  ca_out : outgoing_message_queue c = Some lo;
  ca_sock : n_socks n !! ls = Some s;
  ca_sock_ok : sock_ok s;
  ca_ne : li ≠ lo;
  ca_qin : queue_at (n_mem n) li capi xs;
  ca_qout : queue_at (n_mem n) lo capo ys;
  ca_live : live (n_mem n) (xs ++ ys);
  ca_mem : mem_ok wire_fit (n_mem n);
}.

(** What a step of one connection leaves alone: connections other than [l], sockets other than
    [ls], queues other than [qs], and every message but those in [own]. *)
Record touches (n n' : net) (l ls : loc) (qs own : list loc) : Prop := {
  tc_conns : ∀ k, k ≠ l → n_conns n' !! k = n_conns n !! k;
  tc_fds : n_fds n' = n_fds n;
  tc_socks : ∀ k, k ≠ ls → n_socks n' !! k = n_socks n !! k;
  tc_queues : ∀ k, k ∉ qs → m_queues (n_mem n') !! k = m_queues (n_mem n) !! k;
  tc_msgs : ∀ y, y ∉ own → is_Some (m_msgs (n_mem n) !! y) → is_Some (m_msgs (n_mem n') !! y);
}.

(** ** The wire format: what a datagram means *)
Definition parse_datagram (buf : list byte) (from : sockaddr_in) : message_header_t * list byte :=
  let h := set_owner_addr from (decode_header (slice 0 sizeof_header buf)) in
  if MAX_PAYLOAD <? hdr_length h then (set_type MESSAGE_TYPE_NONE h, [])
  else (h, slice sizeof_header (Z.to_nat (hdr_length h)) buf).

Definition format_datagram (h : message_header_t) (block : list byte) : list byte :=
  encode_header h ++ take (Z.to_nat (hdr_length h)) block.

(** ** Equations of the steps *)
Section Steps.
Context (n : net) (l ls x d : loc) (c : net_connection_t) (s : udp_socket_t).
Context (h : message_header_t) (bs : list byte).
Hypothesis (Hc : n_conns n !! l = Some c).
Hypothesis (Hsk : socket c = Some ls).
Hypothesis (Hs : n_socks n !! ls = Some s).
Hypothesis (Hok : sock_ok s).
Hypothesis (Hx : m_msgs (n_mem n) !! x = Some (Message h (Some d))).
Hypothesis (Hd : m_bytes (n_mem n) !! d = Some bs).

Lemma read_header_eq :
  net_connection_read_header (Some l) (Some x) n
  = Ok (NET_CONNECTION_STATUS_SUCCESS,
        with_mem (with_msgs (<[x := Message (decode_header (slice 0 sizeof_header (incoming_buffer s)))
                                     (Some d)]> (m_msgs (n_mem n))) (n_mem n)) n).
Proof using Hc Hsk Hs Hok Hx.
  destruct Hok as (Hi & _). unfold net_connection_read_header. c_simpl. rewrite Hc, Hsk. simpl.
  rewrite Hs. rewrite copy_out_ok by (rewrite Hi; unfold sizeof_header, UDP_SOCKET_BUFFER_SIZE; lia).
  unfold load_msg, store_msg, lift_mem, lift, load, store. simpl. rewrite Hx. simpl. rewrite Hx. done.
Qed.

Lemma read_data_short_eq :
  0 ≤ hdr_length h ≤ MAX_PAYLOAD → (Z.to_nat (hdr_length h) ≤ length bs)%nat →
  net_connection_read_data (Some l) (Some x) n
  = Ok (NET_CONNECTION_STATUS_SUCCESS,
        with_mem (with_bytes (<[d := splice 0 (slice sizeof_header (Z.to_nat (hdr_length h))
                                  (incoming_buffer s)) bs]> (m_bytes (n_mem n))) (n_mem n)) n).
Proof using Hc Hsk Hs Hok Hx Hd.
  intros Hl Hbs. destruct Hok as (Hi & _). unfold net_connection_read_data. c_simpl.
  rewrite Hc, Hsk. simpl. unfold load_msg, lift_mem, lift, load, store. simpl. rewrite Hx. simpl.
  assert (Hcut : length (slice sizeof_header (Z.to_nat (hdr_length h)) (incoming_buffer s))
                 = Z.to_nat (hdr_length h)).
  { apply length_slice. rewrite Hi. unfold MAX_PAYLOAD, UDP_SOCKET_BUFFER_SIZE, sizeof_header in *. lia. }
  destruct (Z.ltb_spec 0 (hdr_length h)) as [Hp|Hp].
  - destruct (Z.ltb_spec MAX_PAYLOAD (hdr_length h)); [lia|]. simpl. rewrite Hs.
    rewrite copy_out_ok.
    2: { rewrite Hi. unfold MAX_PAYLOAD, UDP_SOCKET_BUFFER_SIZE, sizeof_header in *. lia. }
    simpl. rewrite Hd. rewrite copy_in_ok by (rewrite Hcut; lia). simpl. by rewrite Hd.
  - assert (hdr_length h = 0) as -> by lia. rewrite Z2Nat.inj_0.
    change (slice sizeof_header 0 (incoming_buffer s)) with ([] : list byte). rewrite splice_nil. simpl.
    by rewrite insert_id, with_bytes_id, !with_mem_id by done.
Qed.

Lemma read_data_long_eq :
  MAX_PAYLOAD < hdr_length h →
  net_connection_read_data (Some l) (Some x) n = Ok (NET_CONNECTION_STATUS_ERROR_MESSAGE_FORMAT, n).
Proof using Hc Hsk Hx.
  intros Hl. unfold net_connection_read_data. c_simpl. rewrite Hc, Hsk. simpl.
  unfold load_msg, lift_mem, lift, load. simpl. rewrite Hx. simpl.
  unfold MAX_PAYLOAD, UDP_SOCKET_BUFFER_SIZE, sizeof_header in *.
  destruct (Z.ltb_spec 0 (hdr_length h)); [|lia].
  case_match eqn:E; [by rewrite with_mem_id|]. apply Z.ltb_ge in E. lia.
Qed.

Lemma mark_invalid_eq :
  mark_invalid (Some x) n
  = Ok (tt, with_mem (with_msgs (<[x := Message (set_type MESSAGE_TYPE_NONE h) (Some d)]>
                                   (m_msgs (n_mem n))) (n_mem n)) n).
Proof using Hx.
  unfold mark_invalid, load_msg, store_msg, lift_mem, lift, bind, load, store. simpl.
  rewrite Hx. simpl. by rewrite Hx.
Qed.

Lemma write_header_eq :
  header_ok h = true →
  net_connection_write_header (Some l) (Some x) n
  = Ok (NET_CONNECTION_STATUS_SUCCESS,
        with_socks (<[ls := set_outcoming_buffer (splice 0 (encode_header h) (outcoming_buffer s)) s]>
                      (n_socks n)) n).
Proof using Hc Hsk Hs Hok Hx.
  intros Hh. destruct Hok as (_ & Ho & _). unfold net_connection_write_header. c_simpl.
  rewrite Hc, Hsk. simpl. rewrite Hs. unfold load_msg, lift_mem, lift, load. simpl. rewrite Hx. simpl.
  rewrite copy_in_ok.
  2: { rewrite length_encode_header, Ho by done. unfold sizeof_header, UDP_SOCKET_BUFFER_SIZE. lia. }
  simpl. rewrite Hs. by rewrite with_mem_id.
Qed.

Lemma write_data_long_eq :
  MAX_PAYLOAD < hdr_length h →
  net_connection_write_data (Some l) (Some x) n = Ok (NET_CONNECTION_STATUS_ERROR_MESSAGE_FORMAT, n).
Proof using Hc Hsk Hx.
  intros Hl. unfold net_connection_write_data. c_simpl. rewrite Hc, Hsk. simpl.
  unfold load_msg, lift_mem, lift, load. simpl. rewrite Hx. simpl.
  unfold MAX_PAYLOAD, UDP_SOCKET_BUFFER_SIZE, sizeof_header in *.
  destruct (Z.ltb_spec 0 (hdr_length h)); [|lia].
  case_match eqn:E; [by rewrite with_mem_id|]. apply Z.ltb_ge in E. lia.
Qed.

Lemma write_data_short_eq :
  0 ≤ hdr_length h ≤ MAX_PAYLOAD → (Z.to_nat (hdr_length h) ≤ length bs)%nat →
  net_connection_write_data (Some l) (Some x) n
  = Ok (NET_CONNECTION_STATUS_SUCCESS,
        with_socks (<[ls := set_outcoming_buffer
            (splice sizeof_header (take (Z.to_nat (hdr_length h)) bs) (outcoming_buffer s)) s]>
              (n_socks n)) n).
Proof using Hc Hsk Hs Hok Hx Hd.
  intros Hl Hbs. destruct Hok as (_ & Ho & _). unfold net_connection_write_data. c_simpl.
  rewrite Hc, Hsk. simpl. unfold load_msg, lift_mem, lift, load. simpl. rewrite Hx. simpl.
  destruct (Z.ltb_spec 0 (hdr_length h)) as [Hp|Hp].
  - destruct (Z.ltb_spec MAX_PAYLOAD (hdr_length h)); [lia|]. simpl. rewrite Hs. simpl. rewrite Hd.
    rewrite copy_out_ok by lia. simpl. unfold slice; rewrite drop_0. rewrite copy_in_ok.
    2: { rewrite length_take, Ho. unfold MAX_PAYLOAD, UDP_SOCKET_BUFFER_SIZE, sizeof_header in *. lia. }
    simpl. rewrite Hs. by rewrite with_mem_id.
  - assert (hdr_length h = 0) as -> by lia. rewrite Z2Nat.inj_0, take_0, splice_nil.
    simpl. rewrite insert_id; [by rewrite with_socks_id, with_mem_id|].
    rewrite Hs. by destruct s.
Qed.
End Steps.

(** ** The receiving thread *)
Section Receiving.
Context (n : net) (l ls li lo : loc) (c : net_connection_t) (s : udp_socket_t).
Context (capi capo : Z) (xs ys : list loc).

(** [wire_fit] of a message just read from the wire into a block of the socket's size. *)
Lemma wire_fit_received h (k : nat) : k = UDP_SOCKET_BUFFER_SIZE → wire_fit h k.
Proof.
  intros ->. unfold wire_fit, MAX_PAYLOAD, UDP_SOCKET_BUFFER_SIZE, sizeof_header. lia.
Qed.

(** Handing a fresh message to the incoming queue. *)
Lemma receive_add_eq x :
  2 ≤ capi → conn_at n l c s ls li lo capi capo xs ys → m_faults (n_mem n) = [] →
  is_Some (m_msgs (n_mem n) !! x) → (x ∉ xs ++ ys) →
  ∃ m', receive_add (Some l) (Some x) n = Ok (tt, with_mem m' n) ∧
    conn_at (with_mem m' n) l c s ls li lo capi capo (fifo_enqueue (Z.to_nat capi) x xs) ys ∧
    m_faults m' = [] ∧ m_bytes m' = m_bytes (n_mem n) ∧
    m_msgs m' = delete_all (fifo_dropped (Z.to_nat capi) xs) (m_msgs (n_mem n)) ∧
    (∀ k, k ≠ li → m_queues m' !! k = m_queues (n_mem n) !! k).
Proof.
  intros Hcap [Hc Hsk Hin Hout Hs Hok Hne Hqi Hqo Hlive Hmem] Hf Hx Hnx.
  destruct (enqueue_refines li capi Hcap (n_mem n) xs x Hqi Hf Hx) as
    (m' & E & Hqi' & Hf' & Eb & En & Em & Hk); [set_solver|].
  exists m'. unfold receive_add, bind, load. simpl. rewrite Hc, Hin.
  unfold net_connection_add_to_queue, lift_mem, lift, bind. rewrite E. simpl.
  assert (Hlive' : live m' (fifo_enqueue (Z.to_nat capi) x xs ++ ys)).
  { eapply live_app_enq; [|exact Em]. destruct Hlive as [(Hnx' & Hd & Hny)%NoDup_app Hal].
    split.
    - apply NoDup_app. split_and!; [done| |]; [set_solver|]. apply NoDup_cons. set_solver.
    - intros y. rewrite elem_of_app, elem_of_cons. intros [?|[->|?]]; [apply Hal| |apply Hal]; set_solver. }
  split; [done|]. split_and!; try done. split; simpl; try done.
  - eapply queue_at_frame; [exact Hqo|by apply Hk|]. intros y Hy _. apply Hlive'. set_solver.
  - destruct Hqi as (q & Hl & _). destruct Hqi' as (q' & Hl' & _).
    by eapply (mem_ok_delete_all _ _ _ _ li q q').
Qed.

(** Storing the header and the block of a message keeps the connection as it is. *)
Lemma conn_at_msg_update x d h h' bs bs' :
  conn_at n l c s ls li lo capi capo xs ys →
  m_msgs (n_mem n) !! x = Some (Message h (Some d)) → m_bytes (n_mem n) !! d = Some bs →
  header_ok h' = true → wire_fit h' (length bs') →
  conn_at (with_mem (with_msgs (<[x := Message h' (Some d)]> (m_msgs (n_mem n)))
                       (with_bytes (<[d := bs']> (m_bytes (n_mem n))) (n_mem n))) n)
    l c s ls li lo capi capo xs ys.
Proof.
  intros [Hc Hsk Hin Hout Hs Hok Hne Hqi Hqo Hlive Hmem] Hx Hd Hh Hw.
  assert (Hfr : ∀ y, is_Some (m_msgs (n_mem n) !! y) →
            is_Some (<[x := Message h' (Some d)]> (m_msgs (n_mem n)) !! y)).
  { intros y Hy. destruct (decide (x = y)) as [->|]; [rewrite lookup_insert_eq; eauto|].
    by rewrite lookup_insert_ne. }
  split; simpl; try done.
  - eapply queue_at_frame; [exact Hqi|done|]. intros. by apply Hfr.
  - eapply queue_at_frame; [exact Hqo|done|]. intros. by apply Hfr.
  - eapply live_frame; [exact Hlive|]. intros. by apply Hfr.
  - by eapply mem_ok_update.
Qed.
End Receiving.

(** The memory after [message_create] gave the message [x] to a connection. *)
Lemma conn_at_create n l ls li lo c s capi capo xs ys m1 x d h bs :
  conn_at n l c s ls li lo capi capo xs ys →
  heap_ok m1 → m_queues m1 = m_queues (n_mem n) →
  m_msgs (n_mem n) !! x = None → m_bytes (n_mem n) !! d = None →
  m_msgs m1 = <[x := Message h (Some d)]> (m_msgs (n_mem n)) →
  m_bytes m1 = <[d := bs]> (m_bytes (n_mem n)) →
  header_ok h = true → wire_fit h (length bs) →
  (x ∉ xs ++ ys) ∧ conn_at (with_mem m1 n) l c s ls li lo capi capo xs ys.
Proof.
  intros [Hc Hsk Hin Hout Hs Hok Hne Hqi Hqo Hlive Hmem] HH Eq Hx Hd Em Eb Hh Hw.
  assert (Hfr : ∀ y, is_Some (m_msgs (n_mem n) !! y) → is_Some (m_msgs m1 !! y)).
  { intros y [msg Hy]. rewrite Em, lookup_insert_ne; [by eauto|]. intros <-. congruence. }
  split; [intros Hin'; destruct Hlive as [_ Hal]; destruct (Hal x Hin') as [? ?]; congruence|].
  split; simpl; try done.
  - eapply queue_at_frame; [exact Hqi|by rewrite Eq|]. intros. by apply Hfr.
  - eapply queue_at_frame; [exact Hqo|by rewrite Eq|]. intros. by apply Hfr.
  - eapply live_frame; [exact Hlive|]. intros. by apply Hfr.
  - by eapply mem_ok_insert.
Qed.

(** The header of a message read from the wire, with the sender's address. *)
Definition wire_header (s : udp_socket_t) : message_header_t :=
  set_owner_addr (incoming_addr s) (decode_header (slice 0 sizeof_header (incoming_buffer s))).

Lemma wire_header_ok s : sock_ok s → header_ok (wire_header s) = true.
Proof.
  intros (Hi & _ & Ha & _).
  assert (header_ok (decode_header (slice 0 sizeof_header (incoming_buffer s))) = true) as Hh.
  { apply decode_header_ok. rewrite length_slice; [done|]. rewrite Hi.
    unfold sizeof_header, UDP_SOCKET_BUFFER_SIZE. lia. }
  apply header_ok_spec in Hh as (? & ? & ? & ?). by apply header_ok_spec.
Qed.

Lemma header_ok_set_type t h :
  header_ok h = true → 0 ≤ t < 2 ^ 32 → header_ok (set_type t h) = true.
Proof. intros (? & ? & ? & ?)%header_ok_spec ?. by apply header_ok_spec. Qed.

(** A payload that [net_connection_read_data] accepts lies inside the buffers. *)
Lemma payload_fits len k :
  0 ≤ len ≤ MAX_PAYLOAD → k = UDP_SOCKET_BUFFER_SIZE →
  (sizeof_header + Z.to_nat len ≤ k)%nat ∧ (Z.to_nat len ≤ k)%nat.
Proof. intros Hl ->. unfold MAX_PAYLOAD, UDP_SOCKET_BUFFER_SIZE, sizeof_header in *. lia. Qed.

Lemma fifo_dropped_elem cap x xs : x ∈ fifo_dropped cap xs → x ∈ xs.
Proof.
  unfold fifo_dropped. case_bool_decide; [|set_solver].
  intros Hx. rewrite <- (take_drop (cap / 2) xs). set_solver.
Qed.

Section Filling.
Context (n : net) (l ls li lo x d : loc) (c : net_connection_t) (s : udp_socket_t).
Context (capi capo : Z) (xs ys : list loc) (h0 : message_header_t) (bs : list byte).
Hypothesis (Hat : conn_at n l c s ls li lo capi capo xs ys).
Hypothesis (Hcap : 2 ≤ capi).
Hypothesis (Hf : m_faults (n_mem n) = []).
Hypothesis (Hx : m_msgs (n_mem n) !! x = Some (Message h0 (Some d))).
Hypothesis (Hd : m_bytes (n_mem n) !! d = Some bs).
Hypothesis (Hlen : length bs = UDP_SOCKET_BUFFER_SIZE).
Hypothesis (Hnx : (x ∉ xs ++ ys)).

(** The network state with header [h'] and block [bs'] stored in the message. *)
Definition updated (h' : message_header_t) (bs' : list byte) : net :=
  with_mem (with_msgs (<[x := Message h' (Some d)]> (m_msgs (n_mem n)))
              (with_bytes (<[d := bs']> (m_bytes (n_mem n))) (n_mem n))) n.

Lemma updated_header h' :
  updated h' bs = with_mem (with_msgs (<[x := Message h' (Some d)]> (m_msgs (n_mem n))) (n_mem n)) n.
Proof using Hd. unfold updated. by rewrite (insert_id _ _ _ Hd), with_bytes_id. Qed.

Lemma receive_add_updated h' bs' :
  header_ok h' = true → length bs' = UDP_SOCKET_BUFFER_SIZE →
  ∃ m', receive_add (Some l) (Some x) (updated h' bs') = Ok (tt, with_mem m' n) ∧
    conn_at (with_mem m' n) l c s ls li lo capi capo (fifo_enqueue (Z.to_nat capi) x xs) ys ∧
    m_faults m' = [] ∧ message_at m' x h' bs' ∧
    (∀ k, k ≠ li → m_queues m' !! k = m_queues (n_mem n) !! k) ∧
    (∀ y, y ∉ xs → is_Some (m_msgs (n_mem n) !! y) → is_Some (m_msgs m' !! y)).
Proof using Hat Hcap Hf Hx Hd Hlen Hnx.
  intros Hh' Hl'.
  edestruct (receive_add_eq (updated h' bs')) as (m' & E & Hat' & Hf' & Eb & Em & Hk);
    [exact Hcap|apply (conn_at_msg_update n l ls li lo c s capi capo xs ys x d h0 h' bs bs' Hat Hx Hd Hh');
                by apply wire_fit_received|exact Hf|simpl; rewrite lookup_insert_eq; by eauto|exact Hnx|].
  exists m'. split_and!; [exact E|exact Hat'|done| |exact Hk|].
  - exists d. rewrite Eb, Em. simpl. rewrite lookup_delete_all, decide_False, !lookup_insert_eq; [done|].
    intros Hdr%fifo_dropped_elem. apply Hnx. set_solver.
  - intros y Hy Hl. rewrite Em, lookup_delete_all, decide_False by (intros ?%fifo_dropped_elem; done).
    simpl. destruct (decide (x = y)) as [->|]; [by rewrite lookup_insert_eq|by rewrite lookup_insert_ne].
Qed.

(** After the header was read and the sender's address put in. *)
Lemma receive_fill_header :
  receive_fill (Some l) c (Some x) n =
    bind (net_connection_read_data (Some l) (Some x)) (λ st,
      if bool_decide (st ≠ NET_CONNECTION_STATUS_SUCCESS)
      then mark_invalid (Some x) ;; receive_add (Some l) (Some x)
      else receive_add (Some l) (Some x)) (updated (wire_header s) bs).
Proof using Hat Hx Hd.
  destruct Hat as [Hc Hsk _ _ Hs Hok _ _ _ _ _].
  unfold receive_fill, bind at 1. rewrite (read_header_eq n l ls x d c s h0 Hc Hsk Hs Hok Hx).
  unfold load_msg, store_msg, lift_mem, lift, bind at 1 2 3, load, store.
  rewrite Hsk. simpl. rewrite Hs. simpl. rewrite lookup_insert_eq. simpl.
  rewrite lookup_insert_eq. simpl. rewrite insert_insert_eq, updated_header. done.
Qed.

Lemma receive_fill_spec :
  let p := parse_datagram (incoming_buffer s) (incoming_addr s) in
  ∃ m' bs', receive_fill (Some l) c (Some x) n = Ok (tt, with_mem m' n) ∧
    conn_at (with_mem m' n) l c s ls li lo capi capo (fifo_enqueue (Z.to_nat capi) x xs) ys ∧
    m_faults m' = [] ∧ message_at m' x p.1 bs' ∧
    length bs' = UDP_SOCKET_BUFFER_SIZE ∧ take (length p.2) bs' = p.2 ∧
    (∀ k, k ≠ li → m_queues m' !! k = m_queues (n_mem n) !! k) ∧
    (∀ y, y ∉ xs → is_Some (m_msgs (n_mem n) !! y) → is_Some (m_msgs m' !! y)).
Proof using Hat Hcap Hf Hx Hd Hlen Hnx.
  intros p. rewrite receive_fill_header.
  pose proof Hat as [Hc Hsk _ _ Hs Hok _ _ _ _ _]. pose proof Hok as (Hi & _).
  pose proof (wire_header_ok s Hok) as Hh. pose proof (proj1 (header_ok_spec _) Hh) as (_ & Hlb & _).
  assert (Hx1 : m_msgs (n_mem (updated (wire_header s) bs)) !! x
                = Some (Message (wire_header s) (Some d))) by apply lookup_insert_eq.
  assert (Hd1 : m_bytes (n_mem (updated (wire_header s) bs)) !! d = Some bs) by apply lookup_insert_eq.
  unfold p, parse_datagram, bind at 1. fold (wire_header s).
  destruct (Z.ltb_spec MAX_PAYLOAD (hdr_length (wire_header s))) as [Hlong|Hshort].
  - rewrite (read_data_long_eq (updated (wire_header s) bs) l ls x d c (wire_header s) Hc Hsk Hx1 Hlong). simpl.
    unfold bind at 1. rewrite (mark_invalid_eq (updated (wire_header s) bs) x d _ Hx1). simpl. rewrite insert_insert_eq.
    destruct (receive_add_updated (set_type MESSAGE_TYPE_NONE (wire_header s)) bs)
      as (m' & E & Hat' & Hf' & Hm' & Hk & Hy); [by apply header_ok_set_type|done|].
    exists m', bs. by split_and!.
  - destruct (payload_fits (hdr_length (wire_header s)) _ (conj (proj1 Hlb) Hshort) Hi) as [Hfit _].
    destruct (payload_fits (hdr_length (wire_header s)) _ (conj (proj1 Hlb) Hshort) Hlen) as [_ Hfit'].
    rewrite (read_data_short_eq (updated (wire_header s) bs) l ls x d c s _ bs Hc Hsk Hs Hok Hx1 Hd1) by (done || lia).
    pose proof (length_slice _ _ _ Hfit) as Hcut. cbn [fst snd].
    set (pl := slice sizeof_header _ _) in *. simpl. rewrite insert_insert_eq.
    set (bs' := splice 0 pl bs).
    assert (Hl' : length bs' = UDP_SOCKET_BUFFER_SIZE).
    { unfold bs'. rewrite length_splice; [done|]. rewrite Hcut. lia. }
    destruct (receive_add_updated (wire_header s) bs' Hh Hl') as (m' & E & Hat' & Hf' & Hm' & Hk & Hy).
    exists m', bs'. split_and!; try done. unfold bs'. rewrite take_splice_0 by lia.
    by apply take_ge.
Qed.
End Filling.

(** One turn of the receiving loop on a datagram. *)
Lemma receive_iteration_spec n l ls li lo c s capi capo xs ys payload from rest :
  conn_at n l c s ls li lo capi capo xs ys → 2 ≤ capi → m_faults (n_mem n) = [] →
  n_in n !! fd s = Some (RecvData payload from :: rest) → addr_ok from = true →
  let s' := received s payload from in
  let p := parse_datagram (incoming_buffer s') from in
  ∃ n' x bs, receive_iteration (Some l) n = Ok (tt, n') ∧
    conn_at n' l c s' ls li lo capi capo (fifo_enqueue (Z.to_nat capi) x xs) ys ∧
    (x ∉ xs ++ ys) ∧ m_faults (n_mem n') = [] ∧
    message_at (n_mem n') x p.1 bs ∧ length bs = UDP_SOCKET_BUFFER_SIZE ∧
    take (length p.2) bs = p.2 ∧
    n_in n' = <[fd s := rest]> (n_in n) ∧ n_log n' = n_log n ∧ n_conns n' = n_conns n ∧
    (∀ k, k ≠ li → m_queues (n_mem n') !! k = m_queues (n_mem n) !! k) ∧
    touches n n' l ls [li] xs ∧ m_msgs (n_mem n) !! x = None.
Proof.
  intros Hat Hcap Hf Hin Hfrom s' p. pose proof Hat as [Hc Hsk _ _ Hs Hok _ _ _ _ Hmem].
  unfold receive_iteration, bind at 1, load at 1. simpl. rewrite Hc, Hsk.
  unfold bind at 1. rewrite (receive_message_eq n ls s Hs Hok), Hin. simpl.
  fold s'. set (n1 := with_socks _ _).
  assert (Hat1 : conn_at n1 l c s' ls li lo capi capo xs ys).
  { destruct Hat. split; simpl; try done; [apply lookup_insert_eq|by apply received_ok]. }
  destruct (message_create_spec MESSAGE_TYPE_NONE (Z.of_nat UDP_SOCKET_BUFFER_SIZE) (n_mem n1))
    as (px & m1 & E1 & HH & Eq & Hnf & Hp); [apply Hmem|unfold UDP_SOCKET_BUFFER_SIZE; lia|].
  unfold bind at 1, lift_mem at 1, lift at 1. rewrite E1. destruct (Hnf Hf) as [Hf1 Hsome].
  destruct px as [x|]; [|destruct Hsome as [? ?]; [unfold UINT32_MAX, UDP_SOCKET_BUFFER_SIZE, sizeof_header; lia|done]].
  destruct Hp as (d & a & bs & Hxn & Hdn & _ & Hbs & Ha & _ & Em & Eb).
  rewrite Nat2Z.id in Hbs.
  destruct (conn_at_create n1 l ls li lo c s' capi capo xs ys m1 x d
              (Header MESSAGE_TYPE_NONE 0 a (Z.of_nat UDP_SOCKET_BUFFER_SIZE)) bs) as [Hnx Hat2]; try done.
  { by apply header_ok_spec. }
  { by apply wire_fit_received. }
  edestruct (receive_fill_spec (with_mem m1 n1) l ls li lo x d c s') as (m' & bs' & E & Hat' & Hf' & Hm' & Hl' & Ht & Hk & Hlv);
    [exact Hat2|done|exact Hf1|simpl; rewrite Em; apply lookup_insert_eq
    |simpl; rewrite Eb; apply lookup_insert_eq|done|done|].
  assert (Hk2 : ∀ k, k ≠ li → m_queues m' !! k = m_queues (n_mem n) !! k).
  { intros k Hk'. rewrite Hk by done. simpl. by rewrite Eq. }
  exists (with_mem m' (with_mem m1 n1)), x, bs'. split_and!; try done. split; simpl; try done.
  - intros k Hne. by rewrite lookup_insert_ne.
  - intros k Hne. apply Hk2. set_solver.
  - intros y Hy Hlive. apply Hlv; [done|]. simpl. rewrite Em.
    destruct (decide (x = y)) as [->|]; [by rewrite lookup_insert_eq|by rewrite lookup_insert_ne].
Qed.

(** ** The sending thread *)

(** A new socket buffer or peer address does not disturb the connection. *)
Lemma conn_at_sock n l ls li lo c s s' capi capo xs ys :
  conn_at n l c s ls li lo capi capo xs ys → sock_ok s' →
  conn_at (with_socks (<[ls := s']> (n_socks n)) n) l c s' ls li lo capi capo xs ys.
Proof. intros [] Hok. split; simpl; try done. apply lookup_insert_eq. Qed.

(** Taking the oldest message off the outgoing queue. *)
Lemma conn_at_dequeue n l ls li lo c s capi capo xs ys :
  conn_at n l c s ls li lo capi capo xs ys → 2 ≤ capo → m_faults (n_mem n) = [] →
  ∃ m', message_queue_dequeue_nonblocking (Some lo) (n_mem n) = Ok ((fifo_dequeue ys).1, m') ∧
    conn_at (with_mem m' n) l c s ls li lo capi capo xs (fifo_dequeue ys).2 ∧
    m_faults m' = [] ∧ m_msgs m' = m_msgs (n_mem n) ∧ m_bytes m' = m_bytes (n_mem n) ∧
    (∀ k, k ≠ lo → m_queues m' !! k = m_queues (n_mem n) !! k).
Proof.
  intros [Hc Hsk Hin Hout Hs Hok Hne Hqi Hqo Hlive Hmem] Hcap Hf.
  destruct (nonblocking_refines lo capo Hcap (n_mem n) ys Hqo Hf)
    as (m' & E & Hqo' & Hf' & Eb & En & Em & Hk).
  exists m'. split_and!; try done. split; simpl; try done.
  - eapply queue_at_frame; [exact Hqi|by apply Hk|]. by rewrite Em.
  - destruct Hlive as [Hnd Hal]. split.
    + destruct ys as [|y ys]; [done|]. simpl. apply NoDup_app in Hnd as (? & Hd & [? ?]%NoDup_cons).
      apply NoDup_app. split_and!; try done. set_solver.
    + intros z Hz. rewrite Em. apply Hal. destruct ys; [done|]. set_solver.
  - destruct Hqo as (q & Hl & _). destruct Hqo' as (q' & Hl' & _).
    by eapply (mem_ok_delete_all _ _ _ [] lo q q').
Qed.

(** Freeing a message that is in neither queue. *)
Lemma conn_at_delete n l ls li lo c s capi capo xs ys y :
  conn_at n l c s ls li lo capi capo xs ys → (y ∉ xs ++ ys) →
  conn_at (with_mem (with_msgs (delete y (m_msgs (n_mem n))) (n_mem n)) n)
    l c s ls li lo capi capo xs ys.
Proof.
  intros [Hc Hsk Hin Hout Hs Hok Hne Hqi Hqo Hlive Hmem] Hy.
  assert (Hfr : ∀ z, z ∈ xs ++ ys → is_Some (m_msgs (n_mem n) !! z) →
            is_Some (delete y (m_msgs (n_mem n)) !! z)).
  { intros z Hz ?. rewrite lookup_delete_ne; [done|]. intros ->. done. }
  split; simpl; try done.
  - eapply queue_at_frame; [exact Hqi|done|]. intros. apply Hfr; set_solver.
  - eapply queue_at_frame; [exact Hqo|done|]. intros. apply Hfr; set_solver.
  - eapply live_frame; [exact Hlive|]. intros. by apply Hfr.
  - by apply mem_ok_delete.
Qed.

(** The socket after a message with header [h] and block [bs] was put on the wire. *)
Definition sent (s : udp_socket_t) (h : message_header_t) (bs : list byte) : udp_socket_t :=
  set_incoming_addr (hdr_owner_addr h) (set_outcoming_buffer
    (splice sizeof_header (take (Z.to_nat (hdr_length h)) bs)
       (splice 0 (encode_header h) (outcoming_buffer s))) s).

Lemma length_header_buffer h s :
  header_ok h = true → sock_ok s →
  length (splice 0 (encode_header h) (outcoming_buffer s)) = UDP_SOCKET_BUFFER_SIZE.
Proof.
  intros Hh (_ & Ho & _). rewrite length_splice; [done|].
  rewrite length_encode_header, Ho by done. unfold sizeof_header, UDP_SOCKET_BUFFER_SIZE. lia.
Qed.

Lemma header_written_ok h s :
  header_ok h = true → sock_ok s →
  sock_ok (set_outcoming_buffer (splice 0 (encode_header h) (outcoming_buffer s)) s).
Proof. intros Hh Hs. pose proof Hs as (? & ? & ? & ?). split_and!; simpl; try done. by apply length_header_buffer. Qed.

Lemma sent_ok s h bs :
  sock_ok s → header_ok h = true → 0 ≤ hdr_length h ≤ MAX_PAYLOAD → sock_ok (sent s h bs).
Proof.
  intros Hs Hh Hl. pose proof Hs as (? & Ho & ? & ?).
  assert (addr_ok (hdr_owner_addr h) = true) by (by apply header_ok_spec in Hh as (_ & _ & ? & _)).
  unfold sock_ok, sent; cbn [incoming_buffer outcoming_buffer incoming_addr outcoming_addr
    set_incoming_addr set_outcoming_buffer].
  split_and!; [done| |done|done]. rewrite length_splice; [by apply length_header_buffer|].
  rewrite length_header_buffer, length_take by done.
  destruct (payload_fits (hdr_length h) _ Hl eq_refl). lia.
Qed.

(** The datagram that [udp_socket_send] takes from the buffer. *)
Lemma sent_datagram s h bs :
  sock_ok s → header_ok h = true → 0 ≤ hdr_length h ≤ MAX_PAYLOAD →
  (Z.to_nat (hdr_length h) ≤ length bs)%nat →
  take (Z.to_nat (hdr_length h + Z.of_nat sizeof_header)) (outcoming_buffer (sent s h bs))
  = format_datagram h bs.
Proof.
  intros Hs Hh Hl Hb. unfold format_datagram, sent; simpl.
  pose proof (length_encode_header h Hh) as Hle.
  destruct (payload_fits (hdr_length h) _ Hl eq_refl) as [Hf _].
  rewrite <- Hle.
  replace (Z.to_nat (hdr_length h + Z.of_nat (length (encode_header h))))
    with (length (encode_header h) + length (take (Z.to_nat (hdr_length h)) bs))%nat
    by (rewrite length_take; lia).
  apply take_two_splices. destruct Hs as (_ & -> & _). rewrite length_take, Hle. lia.
Qed.

Section Sending.
Context (n : net) (l ls li lo y : loc) (c : net_connection_t) (s : udp_socket_t).
Context (capi capo : Z) (xs ys : list loc).
Hypothesis (Hcap : 2 ≤ capo).
Hypothesis (Hf : m_faults (n_mem n) = []).

(** What a turn of the sending thread touches. *)
Lemma touches_send n' m' socks :
  n_conns n' = n_conns n → n_fds n' = n_fds n → n_socks n' = <[ls := socks]> (n_socks n) →
  m_queues (n_mem n') = m_queues m' → (∀ k, k ≠ lo → m_queues m' !! k = m_queues (n_mem n) !! k) →
  m_msgs (n_mem n') = delete y (m_msgs m') → m_msgs m' = m_msgs (n_mem n) →
  touches n n' l ls [lo] [y].
Proof using Type.
  clear Hcap Hf. intros Ec Ef Es Eq Hk Em Em'. split; [by rewrite Ec|by rewrite Ef| | |].
  - intros k Hne. by rewrite Es, lookup_insert_ne.
  - intros k Hne. rewrite Eq. apply Hk. set_solver.
  - intros z Hz Hlive. rewrite Em, Em', lookup_delete_ne by set_solver. done.
Qed.

(** An empty outgoing queue: the thread sleeps. *)
Lemma send_iteration_idle :
  conn_at n l c s ls li lo capi capo xs [] →
  ∃ m', send_iteration (Some l) n
        = Ok (tt, with_log (n_log n ++ [EvSleep (receive_timeout_seconds c)]) (with_mem m' n)) ∧
    conn_at (with_mem m' n) l c s ls li lo capi capo xs [] ∧ m_msgs m' = m_msgs (n_mem n) ∧
    m_faults m' = [] ∧ (∀ k, k ≠ lo → m_queues m' !! k = m_queues (n_mem n) !! k).
Proof using Hcap Hf.
  intros Hat. destruct (conn_at_dequeue _ _ _ _ _ _ _ _ _ _ _ Hat Hcap Hf) as (m' & E & Hat' & Hf' & Em & _ & Hk).
  exists m'. split_and!; try done. destruct Hat as [Hc _ _ Hout _ _ _ _ _ _ _].
  unfold send_iteration, bind, load. simpl. rewrite Hc, Hout.
  unfold lift_mem, lift. rewrite E. done.
Qed.

(** A message whose length field exceeds the payload limit is freed and not sent; only the
    header bytes of the socket's buffer change. *)
Lemma send_iteration_long h d :
  conn_at n l c s ls li lo capi capo xs (y :: ys) →
  m_msgs (n_mem n) !! y = Some (Message h (Some d)) → MAX_PAYLOAD < hdr_length h →
  ∃ n', send_iteration (Some l) n = Ok (tt, n') ∧
    conn_at n' l c (set_outcoming_buffer (splice 0 (encode_header h) (outcoming_buffer s)) s)
      ls li lo capi capo xs ys ∧
    n_log n' = n_log n ∧ m_msgs (n_mem n') = delete y (m_msgs (n_mem n)) ∧ m_faults (n_mem n') = [] ∧
    n_in n' = n_in n ∧ touches n n' l ls [lo] [y].
Proof using Hcap Hf.
  intros Hat Hy Hl.
  destruct (conn_at_dequeue _ _ _ _ _ _ _ _ _ _ _ Hat Hcap Hf) as (m1 & E & Hat1 & Hf1 & Em & Eb & Hkq).
  destruct (mem_ok_live _ _ _ _ (ca_mem _ _ _ _ _ _ _ _ _ _ _ Hat) Hy) as (h' & d' & bs & [= <- <-] & Hd & Hh & Hw).
  destruct Hat as [Hc Hsk _ Hout Hs Hok _ _ _ Hlive _].
  simpl in Hat1, E. rewrite <- Em in Hy.
  unfold send_iteration, bind at 1, load at 1. simpl. rewrite Hc, Hout.
  unfold bind at 1, lift_mem at 1, lift at 1. rewrite E. unfold bind at 1.
  rewrite (write_header_eq (with_mem m1 n) l ls y d c s h Hc Hsk Hs Hok Hy Hh). cbn [bool_decide decide_rel].
  set (s1 := set_outcoming_buffer _ s). set (n2 := with_socks _ _).
  assert (Hat2 : conn_at n2 l c s1 ls li lo capi capo xs ys) by (eapply conn_at_sock; [exact Hat1|by apply header_written_ok]).
  rewrite bool_decide_eq_false_2 by (by intros []). unfold bind at 1.
  rewrite (write_data_long_eq n2 l ls y d c h Hc Hsk Hy Hl).
  rewrite bool_decide_eq_true_2 by done.
  unfold lift_mem, lift. rewrite (message_delete_live (n_mem n2) y _ Hy).
  eexists. split; [done|]. split_and!; [apply conn_at_delete; [done|]|done|by simpl; rewrite Em|done|done|].
  - destruct Hlive as [(_ & Hd1 & [? _]%NoDup_cons)%NoDup_app _]. set_solver.
  - by apply (touches_send _ m1 s1).
Qed.

(** A message within the payload limit: one datagram to its owner address, then freed. *)
Lemma send_iteration_short h d bs :
  conn_at n l c s ls li lo capi capo xs (y :: ys) →
  m_msgs (n_mem n) !! y = Some (Message h (Some d)) → m_bytes (n_mem n) !! d = Some bs →
  hdr_length h ≤ MAX_PAYLOAD →
  ∃ n', send_iteration (Some l) n = Ok (tt, n') ∧
    conn_at n' l c (sent s h bs) ls li lo capi capo xs ys ∧
    n_log n' = n_log n ++ [EvSend (fd s) (hdr_owner_addr h) (format_datagram h bs)] ∧
    m_msgs (n_mem n') = delete y (m_msgs (n_mem n)) ∧ m_faults (n_mem n') = [] ∧ n_in n' = n_in n ∧
    touches n n' l ls [lo] [y].
Proof using Hcap Hf.
  intros Hat Hy Hd Hl.
  destruct (conn_at_dequeue _ _ _ _ _ _ _ _ _ _ _ Hat Hcap Hf) as (m1 & E & Hat1 & Hf1 & Em & Eb & Hkq).
  destruct (mem_ok_live _ _ _ _ (ca_mem _ _ _ _ _ _ _ _ _ _ _ Hat) Hy) as (h' & d' & bs' & [= <- <-] & Hd' & Hh & [Hw _]).
  rewrite Hd in Hd'. injection Hd' as <-.
  pose proof (proj1 (header_ok_spec h) Hh) as (_ & Hlb & _ & _).
  assert (Hb : (Z.to_nat (hdr_length h) ≤ length bs)%nat) by lia.
  assert (Hl' : 0 ≤ hdr_length h ≤ MAX_PAYLOAD) by lia.
  destruct Hat as [Hc Hsk _ Hout Hs Hok _ _ _ Hlive _].
  simpl in Hat1, E. rewrite <- Em in Hy. rewrite <- Eb in Hd.
  unfold send_iteration, bind at 1, load at 1. simpl. rewrite Hc, Hout.
  unfold bind at 1, lift_mem at 1, lift at 1. rewrite E. unfold bind at 1.
  rewrite (write_header_eq (with_mem m1 n) l ls y d c s h Hc Hsk Hs Hok Hy Hh).
  set (s1 := set_outcoming_buffer _ s). set (n2 := with_socks _ _).
  assert (Hat2 : conn_at n2 l c s1 ls li lo capi capo xs ys) by (eapply conn_at_sock; [exact Hat1|by apply header_written_ok]).
  rewrite bool_decide_eq_false_2 by (by intros []). unfold bind at 1.
  destruct Hat2 as [Hc2 _ _ _ Hs2 Hok2 _ _ _ _ _].
  rewrite (write_data_short_eq n2 l ls y d c s1 h bs Hc2 Hsk Hs2 Hok2 Hy Hd Hl' Hb).
  rewrite bool_decide_eq_false_2 by (by intros []).
  unfold load_msg, lift_mem, lift, bind at 1 2 3, load, store. rewrite Hsk. simpl. rewrite Hy. simpl.
  rewrite !insert_insert_eq, lookup_insert_eq. simpl. rewrite lookup_insert_eq. simpl.
  rewrite insert_insert_eq. set (n3 := with_socks _ _).
  assert (Hat3 : conn_at n3 l c (sent s h bs) ls li lo capi capo xs ys).
  { apply (conn_at_sock (with_mem m1 n) l ls li lo c s); [done|]. by apply sent_ok. }
  destruct (send_cases n3 ls (sent s h bs) (hdr_length h + Z.of_nat sizeof_header))
    as (ok & fs & Hfs & E3); [apply Hat3|apply Hat3| |].
  { unfold MAX_PAYLOAD, UDP_SOCKET_BUFFER_SIZE, sizeof_header in *. lia. }
  destruct (Hfs Hf1) as [-> ->]. unfold bind at 1. rewrite E3, sent_datagram by done. simpl.
  rewrite (with_faults_nil m1 Hf1).
  rewrite (message_delete_live m1 y _ Hy).
  eexists. split; [done|]. split_and!; [|done|by simpl; rewrite Em|done|done|by apply (touches_send _ m1 (sent s h bs))].
  apply (conn_at_delete (with_log _ (with_mem m1 n3))).
  - destruct Hat3. by split.
  - destruct Hlive as [(_ & Hd1 & [? _]%NoDup_cons)%NoDup_app _]. set_solver.
Qed.
End Sending.

(** ** Round trip of the wire format *)
Lemma parse_format h bs old from :
  header_ok h = true → hdr_length h ≤ MAX_PAYLOAD → (Z.to_nat (hdr_length h) ≤ length bs)%nat →
  length old = UDP_SOCKET_BUFFER_SIZE →
  parse_datagram (splice 0 (take UDP_SOCKET_BUFFER_SIZE (format_datagram h bs)) old) from
  = (set_owner_addr from h, take (Z.to_nat (hdr_length h)) bs).
Proof.
  intros Hh Hl Hb Ho. pose proof (length_encode_header h Hh) as Hle.
  pose proof (proj1 (header_ok_spec h) Hh) as (_ & Hlb & _ & _).
  destruct (payload_fits (hdr_length h) _ (conj (proj1 Hlb) Hl) eq_refl) as [Hfit _].
  assert (Hlt : length (take (Z.to_nat (hdr_length h)) bs) = Z.to_nat (hdr_length h))
    by (rewrite length_take; lia).
  unfold format_datagram. rewrite take_ge by (rewrite length_app, Hle, Hlt; lia).
  set (pl := take (Z.to_nat (hdr_length h)) bs) in *. unfold splice. rewrite take_0, app_nil_l.
  rewrite <- app_assoc. unfold parse_datagram. rewrite (slice_head sizeof_header) by done.
  rewrite decode_encode_header by done. cbn [set_owner_addr hdr_length].
  destruct (Z.ltb_spec MAX_PAYLOAD (hdr_length h)); [lia|].
  rewrite <- (Nat.add_0_r sizeof_header), (slice_skip sizeof_header 0), slice_head by done. done.
Qed.

(** ** An executable check of [conn_at], and two concrete connections *)
#[export] Instance wire_fit_dec h n : Decision (wire_fit h n).
Proof. unfold wire_fit. apply _. Defined.

Definition sock_okb (s : udp_socket_t) : bool :=
  (length (incoming_buffer s) =? UDP_SOCKET_BUFFER_SIZE)%nat &&
  (length (outcoming_buffer s) =? UDP_SOCKET_BUFFER_SIZE)%nat &&
  addr_ok (incoming_addr s) && addr_ok (outcoming_addr s).

Definition null_conn : net_connection_t := Connection None None None NotStarted NotStarted false false 0 0.
Definition null_sock : udp_socket_t := Socket 0 (SockAddr 0 0 0 []) (SockAddr 0 0 0 []) 0 [] [] 0.
Definition conn_of (n : net) (l : loc) : net_connection_t := default null_conn (n_conns n !! l).
Definition sock_of (n : net) (l : loc) : udp_socket_t := default null_sock (n_socks n !! l).

Definition conn_atb (n : net) (l ls li lo : loc) (capi capo : Z) (xs ys : list loc) : bool :=
  match n_conns n !! l, n_socks n !! ls with
  | Some c, Some s =>
      bool_decide (socket c = Some ls) && bool_decide (incoming_message_queue c = Some li) &&
      bool_decide (outgoing_message_queue c = Some lo) && sock_okb s && negb (Pos.eqb li lo) &&
      queue_atb (n_mem n) li capi xs && queue_atb (n_mem n) lo capo ys &&
      liveb (n_mem n) (xs ++ ys) && mem_okb wire_fit (n_mem n)
  | _, _ => false
  end.

Lemma conn_atb_sound n l ls li lo capi capo xs ys :
  conn_atb n l ls li lo capi capo xs ys = true →
  conn_at n l (conn_of n l) (sock_of n ls) ls li lo capi capo xs ys.
Proof.
  unfold conn_atb, conn_of, sock_of. destruct (n_conns n !! l) as [c|] eqn:Ec; [|done].
  destruct (n_socks n !! ls) as [s|] eqn:Es; [|done]. simpl.
  rewrite !andb_true_iff, negb_true_iff, Pos.eqb_neq, !bool_decide_eq_true.
  intros ((((((((? & ?) & ?) & Hs) & ?) & ?) & ?) & ?) & ?). split; try done.
  - unfold sock_okb in Hs. rewrite !andb_true_iff, !Nat.eqb_eq in Hs. by destruct Hs as [[[? ?] ?] ?].
  - by apply queue_atb_sound.
  - by apply queue_atb_sound.
  - by apply liveb_sound.
  - by apply (mem_okb_sound wire_fit).
Qed.

(** A process with one connection: the socket at address 1, the queues (of capacity 4) at 2
    and 3, the connection at 4, and nothing queued. *)
Definition net0 : net := Net mem0 ∅ ∅ ∅ ∅ [].
Definition peer : sockaddr_in := SockAddr AF_INET 5000 16777343 (replicate 8 NUL).
Definition open_connection : M net ptr :=
  let* usocket := udp_socket_create 16777343 34835 in
  let* incoming := lift_mem (message_queue_create 4) in
  let* outgoing := lift_mem (message_queue_create 4) in
  net_connection_create usocket incoming outgoing 1 1.
Definition idle_net : net := run open_connection net0.

(** The same process with one queued message (address 5, block 6) for [peer]. *)
Definition hello : list byte := cstring "hello"%string.
Definition busy_net : net :=
  run (let* message := lift_mem (message_create 1 8) in
       lift_mem (message_write message (Some hello) 5) ;;
       lift_mem (message_add_owner_addr message peer) ;;
       net_connection_send (Some 4%positive) message) idle_net.
Definition hello_header : message_header_t := Header 1 5 peer 8.

(** The same process when a datagram waits at its socket. *)
Definition with_datagram (payload : list byte) (n : net) : net :=
  with_in {[3 := [RecvData payload peer]]} n.

Lemma conn_at_datagram payload n l c s ls li lo capi capo xs ys :
  conn_at n l c s ls li lo capi capo xs ys →
  conn_at (with_datagram payload n) l c s ls li lo capi capo xs ys.
Proof. intros []. by split. Qed.

(** ** Properties *)

(** C11: a message put into the outgoing queue of one connection arrives unchanged in the
    incoming queue of another.  If the sender's oldest message has header [h] (payload within
    the limit) and data [bs], one turn of its sending loop emits exactly one datagram, to the
    owner address of [h], and frees the message; when a receiver's socket gets that datagram
    from address [from], one turn of its receiving loop appends a fresh message whose header is
    [h] with the owner address replaced by [from] and whose data starts with the same payload. *)
Theorem datagram_delivery n l ls li lo c s capi capo xs y ys h d bs
    n' l' ls' li' lo' c' s' capi' capo' xs' ys' from rest :
  conn_at n l c s ls li lo capi capo xs (y :: ys) → 2 ≤ capo → m_faults (n_mem n) = [] →
  m_msgs (n_mem n) !! y = Some (Message h (Some d)) → m_bytes (n_mem n) !! d = Some bs →
  hdr_length h ≤ MAX_PAYLOAD →
  conn_at n' l' c' s' ls' li' lo' capi' capo' xs' ys' → 2 ≤ capi' → m_faults (n_mem n') = [] →
  n_in n' !! fd s' = Some (RecvData (format_datagram h bs) from :: rest) → addr_ok from = true →
  ∃ n1 n1' x bs',
    ⟦ send_iteration (Some l) ⟧ n ⇓ tt, n1 ∧
    n_log n1 = n_log n ++ [EvSend (fd s) (hdr_owner_addr h) (format_datagram h bs)] ∧
    m_msgs (n_mem n1) !! y = None ∧
    ⟦ receive_iteration (Some l') ⟧ n' ⇓ tt, n1' ∧
    queue_at (n_mem n1') li' capi' (fifo_enqueue (Z.to_nat capi') x xs') ∧
    message_at (n_mem n1') x (set_owner_addr from h) bs' ∧
    take (Z.to_nat (hdr_length h)) bs' = take (Z.to_nat (hdr_length h)) bs.
Proof.
  intros Hat Hcap Hf Hy Hd Hl Hat' Hcap' Hf' Hin Hfrom.
  destruct (mem_ok_live _ _ _ _ (ca_mem _ _ _ _ _ _ _ _ _ _ _ Hat) Hy)
    as (h0 & d0 & bs0 & [= <- <-] & Hd0 & Hh & [Hw _]).
  rewrite Hd in Hd0. injection Hd0 as <-.
  destruct (send_iteration_short n l ls li lo y c s capi capo xs ys Hcap Hf h d bs Hat Hy Hd Hl)
    as (n1 & E & _ & Hlog & Em & _).
  destruct (receive_iteration_spec n' l' ls' li' lo' c' s' capi' capo' xs' ys'
              (format_datagram h bs) from rest Hat' Hcap' Hf' Hin Hfrom)
    as (n1' & x & bs' & E' & Hat1 & _ & _ & Hm & _ & Ht & _).
  pose proof (ca_sock_ok _ _ _ _ _ _ _ _ _ _ _ Hat') as (Hi & _).
  cbn [received incoming_buffer] in Hm, Ht. rewrite parse_format in Hm, Ht by (done || lia).
  cbn [fst snd] in Hm, Ht. rewrite length_take in Ht.
  exists n1, n1', x, bs'. split_and!; try done.
  - rewrite Em. apply lookup_delete_eq.
  - apply Hat1.
  - rewrite Nat.min_l in Ht by lia. done.
Qed.

Lemma datagram_delivery_witness :
  ∃ n1 n1' x, n_log n1 = [EvSend 3 peer (encode_header hello_header ++ hello)] ∧
    queue_at (n_mem n1') 2 4 [x] ∧ ∃ bs, message_at (n_mem n1') x hello_header bs ∧ take 5 bs = hello.
Proof.
  destruct (datagram_delivery busy_net 4 1 2 3 (conn_of busy_net 4) (sock_of busy_net 1) 4 4 [] 5 []
    hello_header 6 (hello ++ replicate 3 NUL)
    (with_datagram (encode_header hello_header ++ hello) idle_net) 4 1 2 3
    (conn_of idle_net 4) (sock_of idle_net 1) 4 4 [] [] peer [])
    as (n1 & n1' & x & bs & _ & Hlog & _ & _ & Hq & Hm & Ht);
    [by apply conn_atb_sound; vm_compute|lia|by vm_compute|by vm_compute|by vm_compute|by vm_compute|
     by apply conn_at_datagram, conn_atb_sound; vm_compute|lia|by vm_compute|by vm_compute|by vm_compute|].
  exists n1, n1', x. split; [exact Hlog|]. split; [exact Hq|]. exists bs. exact (conj Hm Ht).
Defined.

(** C13: the receiving thread is safe on every input.  Whatever bytes a datagram holds and
    however long it is, one turn of the receiving loop ends without undefined behaviour,
    keeps the connection well formed and appends one message carrying the sender's address;
    a length field above the payload limit makes the message type [MESSAGE_TYPE_NONE]. *)
Theorem receive_any_datagram n l ls li lo c s capi capo xs ys payload from rest :
  conn_at n l c s ls li lo capi capo xs ys → 2 ≤ capi → m_faults (n_mem n) = [] →
  n_in n !! fd s = Some (RecvData payload from :: rest) → addr_ok from = true →
  ∃ n' x h bs, ⟦ receive_iteration (Some l) ⟧ n ⇓ tt, n' ∧
    conn_at n' l c (received s payload from) ls li lo capi capo
      (fifo_enqueue (Z.to_nat capi) x xs) ys ∧
    message_at (n_mem n') x h bs ∧ length bs = UDP_SOCKET_BUFFER_SIZE ∧
    hdr_owner_addr h = from ∧
    (MAX_PAYLOAD < hdr_length h → hdr_type h = MESSAGE_TYPE_NONE).
Proof.
  intros Hat Hcap Hf Hin Hfrom.
  destruct (receive_iteration_spec n l ls li lo c s capi capo xs ys payload from rest Hat Hcap Hf Hin Hfrom)
    as (n' & x & bs & E & Hat' & _ & _ & Hm & Hlen & _).
  eexists n', x, _, bs. split_and!; try done.
  - unfold parse_datagram. by case_match.
  - unfold parse_datagram. case_match eqn:Hc; [done|]. simpl. apply Z.ltb_ge in Hc. simpl in Hc. lia.
Qed.

Lemma receive_any_datagram_witness :
  ∃ n' x h bs, ⟦ receive_iteration (Some 4%positive) ⟧
      (with_datagram (replicate 3000 Byte.xff) idle_net) ⇓ tt, n' ∧
    message_at (n_mem n') x h bs ∧ hdr_owner_addr h = peer.
Proof.
  destruct (receive_any_datagram (with_datagram (replicate 3000 Byte.xff) idle_net) 4 1 2 3
    (conn_of idle_net 4) (sock_of idle_net 1) 4 4 [] [] (replicate 3000 Byte.xff) peer [])
    as (n' & x & h & bs & E & _ & Hm & _ & Ho & _);
    [by apply conn_at_datagram, conn_atb_sound; vm_compute|lia|by vm_compute|by vm_compute|by vm_compute|].
  exists n', x, h, bs. exact (conj E (conj Hm Ho)).
Defined.

(** C18: headers are well typed on the wire.  Whatever bytes have arrived, the header that
    [net_connection_read_header] makes of them has in every field a value of the field's type, and
    [net_connection_write_header] puts exactly the same 28 bytes at the start of the other buffer
    and leaves the rest of it alone. *)
Theorem header_read_then_written n l ls li lo c s capi capo xs ys x h dl :
  conn_at n l c s ls li lo capi capo xs ys → m_msgs (n_mem n) !! x = Some (Message h (Some dl)) →
  ∃ n1 h1 n2 buf, ⟦ net_connection_read_header (Some l) (Some x) ⟧ n ⇓ NET_CONNECTION_STATUS_SUCCESS, n1 ∧
    m_msgs (n_mem n1) = <[x := Message h1 (Some dl)]> (m_msgs (n_mem n)) ∧ header_ok h1 = true ∧
    ⟦ net_connection_write_header (Some l) (Some x) ⟧ n1 ⇓ NET_CONNECTION_STATUS_SUCCESS, n2 ∧
    n_mem n2 = n_mem n1 ∧ n_socks n2 = <[ls := set_outcoming_buffer buf s]> (n_socks n) ∧
    buf = take sizeof_header (incoming_buffer s) ++ drop sizeof_header (outcoming_buffer s).
Proof.
  intros [Hc Hsk _ _ Hs Hok _ _ _ _ _] Hx. pose proof Hok as (Hi & _).
  assert (Hl : length (slice 0 sizeof_header (incoming_buffer s)) = sizeof_header)
    by (rewrite length_slice; [done|rewrite Hi; unfold sizeof_header, UDP_SOCKET_BUFFER_SIZE; lia]).
  pose proof (read_header_eq n l ls x dl c s h Hc Hsk Hs Hok Hx) as E1.
  set (h1 := decode_header _) in E1. set (n1 := with_mem _ _) in E1.
  assert (Hh : header_ok h1 = true) by (apply decode_header_ok; lia).
  pose proof (write_header_eq n1 l ls x dl c s h1 Hc Hsk Hs Hok (lookup_insert_eq _ _ _) Hh) as E2.
  eexists n1, h1, _, _. split_and!; [exact E1|done|done|exact E2|done..|].
  unfold h1. rewrite encode_decode_header by done. unfold splice. by rewrite Hl.
Qed.

Lemma header_read_then_written_witness :
  ∃ n1 n2, ⟦ net_connection_read_header (Some 4%positive) (Some 5%positive) ⟧ busy_net ⇓ NET_CONNECTION_STATUS_SUCCESS, n1 ∧
    ⟦ net_connection_write_header (Some 4%positive) (Some 5%positive) ⟧ n1 ⇓ NET_CONNECTION_STATUS_SUCCESS, n2.
Proof.
  destruct (header_read_then_written busy_net 4 1 2 3 (conn_of busy_net 4) (sock_of busy_net 1) 4 4 [] [5%positive]
              5 hello_header 6) as (n1 & h1 & n2 & buf & E1 & _ & _ & E2 & _);
    [by apply conn_atb_sound; vm_compute|by vm_compute|].
  exists n1, n2. exact (conj E1 E2).
Defined.

(** A datagram without a header replays the previous one.  The receiving loop never looks
    at the number of received bytes; on an empty datagram it builds a message from the bytes
    the previous datagram left in the buffer, now with the address of the new sender. *)
Theorem empty_datagram_replays n l ls li lo c s capi capo xs ys from rest :
  conn_at n l c s ls li lo capi capo xs ys → 2 ≤ capi → m_faults (n_mem n) = [] →
  n_in n !! fd s = Some (RecvData [] from :: rest) → addr_ok from = true →
  ∃ n' x bs, ⟦ receive_iteration (Some l) ⟧ n ⇓ tt, n' ∧
    queue_at (n_mem n') li capi (fifo_enqueue (Z.to_nat capi) x xs) ∧
    message_at (n_mem n') x (parse_datagram (incoming_buffer s) from).1 bs ∧
    take (length (parse_datagram (incoming_buffer s) from).2) bs
      = (parse_datagram (incoming_buffer s) from).2.
Proof.
  intros Hat Hcap Hf Hin Hfrom.
  destruct (receive_iteration_spec n l ls li lo c s capi capo xs ys [] from rest Hat Hcap Hf Hin Hfrom)
    as (n' & x & bs & E & Hat' & _ & _ & Hm & _ & Ht & _).
  cbn [received incoming_buffer] in Hm, Ht. rewrite take_nil, splice_nil in Hm, Ht.
  exists n', x, bs. split_and!; try done. apply Hat'.
Qed.

Lemma empty_datagram_replays_witness :
  ∃ n' x bs, ⟦ receive_iteration (Some 4%positive) ⟧ (with_datagram [] idle_net) ⇓ tt, n' ∧
    message_at (n_mem n') x (Header 0 0 peer 0) bs.
Proof.
  destruct (empty_datagram_replays (with_datagram [] idle_net) 4 1 2 3
    (conn_of idle_net 4) (sock_of idle_net 1) 4 4 [] [] peer [])
    as (n' & x & bs & E & _ & Hm & _);
    [by apply conn_at_datagram, conn_atb_sound; vm_compute|lia|by vm_compute|by vm_compute|by vm_compute|].
  assert (Ep : (parse_datagram (incoming_buffer (sock_of idle_net 1)) peer).1 = Header 0 0 peer 0)
    by (vm_compute; reflexivity).
  rewrite Ep in Hm. exists n', x, bs. exact (conj E Hm).
Defined.

(** The sending thread never overruns its buffer.  A queued message whose length field
    exceeds the payload limit (as an invalid message from the wire may have) is freed without
    anything being sent, and the connection stays well formed. *)
Theorem oversized_message_not_sent n l ls li lo c s capi capo xs y ys h d :
  conn_at n l c s ls li lo capi capo xs (y :: ys) → 2 ≤ capo → m_faults (n_mem n) = [] →
  m_msgs (n_mem n) !! y = Some (Message h (Some d)) → MAX_PAYLOAD < hdr_length h →
  ∃ n' s', ⟦ send_iteration (Some l) ⟧ n ⇓ tt, n' ∧
    conn_at n' l c s' ls li lo capi capo xs ys ∧
    n_log n' = n_log n ∧ m_msgs (n_mem n') !! y = None.
Proof.
  intros Hat Hcap Hf Hy Hl.
  destruct (send_iteration_long n l ls li lo y c s capi capo xs ys Hcap Hf h d Hat Hy Hl)
    as (n' & E & Hat' & Hlog & Em & _).
  eexists n', _. split_and!; try done. rewrite Em. apply lookup_delete_eq.
Qed.

Lemma oversized_message_not_sent_witness :
  ∃ n', ⟦ send_iteration (Some 4%positive) ⟧
     (run (let* message := lift_mem (message_create 1 4000) in
           lift_mem (message_write message (Some (replicate 3000 NUL)) 3000) ;;
           net_connection_send (Some 4%positive) message) idle_net) ⇓ tt, n' ∧ n_log n' = [].
Proof.
  set (n := run _ _).
  destruct (oversized_message_not_sent n 4 1 2 3 (conn_of n 4) (sock_of n 1) 4 4 [] 5 []
    (Header 1 3000 (SockAddr 0 0 0 (replicate 8 NUL)) 4000) 6) as (n' & s' & E & _ & Hlog & _);
    [by apply conn_atb_sound; vm_compute|lia|by vm_compute|by vm_compute|by vm_compute|].
  exists n'. split; [exact E|]. rewrite Hlog. by vm_compute.
Defined.

(** A failing enqueue makes the receiving thread free the message twice.
    [net_connection_add_to_queue] deletes the message when the queue reports an error, and
    lines 64-69 of the thread function delete it again. *)
Theorem queue_error_double_free n l ls li lo c s capi capo xs ys x fs :
  conn_at n l c s ls li lo capi capo xs ys → is_Some (m_msgs (n_mem n) !! x) →
  m_faults (n_mem n) = true :: fs →
  receive_add (Some l) (Some x) n = Undefined UB_dangling.
Proof.
  intros [Hc _ Hin _ _ _ _ _ _ _ _] [msg Hx] Hf.
  unfold receive_add, bind at 1, load. simpl. rewrite Hc, Hin.
  unfold net_connection_add_to_queue, lift_mem, lift, bind.
  unfold message_queue_enqueue, mutex_lock, fallible, bind. simpl. rewrite Hf. simpl.
  rewrite (message_delete_live (with_faults fs (n_mem n)) x msg Hx). simpl.
  unfold message_delete, free. simpl. by rewrite lookup_delete_eq.
Qed.

Lemma queue_error_double_free_witness :
  receive_add (Some 4%positive) (Some 5%positive)
    (with_mem (with_faults [true] (n_mem busy_net)) busy_net) = Undefined UB_dangling.
Proof.
  set (n := with_mem _ _).
  apply (queue_error_double_free n 4 1 2 3 (conn_of n 4) (sock_of n 1) 4 4 [] [5%positive] 5 []);
    [by apply conn_atb_sound; vm_compute|vm_compute; eauto|by vm_compute].
Defined.
