(* ===== verification/NetLifecycle.v ===== *)
(** * NetLifecycle: creating, starting, stopping and destroying a connection

    The life-cycle half of network/net_connection.c: sequences of start and stop calls as a
    state machine on the two flags, and what creation and destruction do with the socket, the
    queues and the messages. *)
From S2P Require Import Prelude Layout Memory Message MessageQueue SocketUdp NetConnection.

Local Open Scope Z_scope.

(** ** Life cycle: starting and stopping the threads *)
Inductive life_op : Type := StartReceiving | StopReceiving | StartSending | StopSending.

Definition run_life_op (connection : ptr) (op : life_op) : M net net_connection_status_t :=
  match op with
  | StartReceiving => net_connection_start_receiving connection
  | StopReceiving => net_connection_stop_receiving connection
  | StartSending => net_connection_start_sending connection
  | StopSending => net_connection_stop_sending connection
  end.

Fixpoint run_life (connection : ptr) (ops : list life_op) : M net (list net_connection_status_t) :=
  match ops with
  | [] => ret []
  | op :: ops =>
      let* st := run_life_op connection op in
      let* sts := run_life connection ops in
      ret (st :: sts)
  end.

(** A set flag means a running thread. *)
Definition threads_ok (c : net_connection_t) : Prop :=
  (is_receiving c = true → receive_thread c = Running) ∧
  (is_sending c = true → send_thread c = Running).

(** The flags after an operation, if no library call fails. *)
Definition flags_after (op : life_op) (f : bool * bool) : bool * bool :=
  match op with
  | StartReceiving => (true, f.2)
  | StopReceiving => (false, f.2)
  | StartSending => (f.1, true)
  | StopSending => (f.1, false)
  end.
Definition flags (c : net_connection_t) : bool * bool := (is_receiving c, is_sending c).

(** The threads that an operation joins, if no library call fails. *)
Definition joined_by (op : life_op) (l : loc) (f : bool * bool) : list event :=
  match op with
  | StopReceiving => if f.1 then [EvJoinReceiving l] else []
  | StopSending => if f.2 then [EvJoinSending l] else []
  | _ => []
  end.
(** Both threads of the connection [l], as far as they run. *)
Definition joins (l : loc) (f : bool * bool) : list event :=
  joined_by StopReceiving l f ++ joined_by StopSending l f.

(** Connection fields that no life-cycle operation touches. *)
Definition same_fields (c c' : net_connection_t) : Prop :=
  socket c' = socket c ∧ incoming_message_queue c' = incoming_message_queue c ∧
  outgoing_message_queue c' = outgoing_message_queue c ∧
  receive_timeout_seconds c' = receive_timeout_seconds c ∧
  send_timeout_seconds c' = send_timeout_seconds c.

Lemma run_life_op_spec n l c op :
  n_conns n !! l = Some c → threads_ok c →
  ∃ st n' c', run_life_op (Some l) op n = Ok (st, n') ∧ n_conns n' = <[l := c']> (n_conns n) ∧
    threads_ok c' ∧ same_fields c c' ∧
    (st = NET_CONNECTION_STATUS_SUCCESS ∧ flags c' = flags_after op (flags c)
     ∨ st = NET_CONNECTION_STATUS_ERROR_THREAD ∧ m_faults (n_mem n) ≠ []) ∧
    (m_faults (n_mem n) = [] → m_faults (n_mem n') = []) ∧
    (m_faults (n_mem n) = [] → n_log n' = n_log n ++ joined_by op l (flags c)) ∧
    n' = with_log (n_log n') (with_conns (n_conns n') (with_mem (with_faults (m_faults (n_mem n')) (n_mem n)) n)).
Proof.
  intros Hc [Hr Hs].
  assert (Hid : <[l := c]> (n_conns n) = n_conns n) by by apply insert_id.
  destruct op; unfold run_life_op, net_connection_start_receiving, net_connection_stop_receiving,
    net_connection_start_sending, net_connection_stop_sending, bind, load, store; simpl; rewrite Hc.
  all: match goal with
       | |- context [if is_receiving ?c then _ else _] => destruct (is_receiving c) eqn:Hb
       | |- context [if is_sending ?c then _ else _] => destruct (is_sending c) eqn:Hb
       | |- context [negb ?b] => destruct b eqn:Hb
       end; simpl.
  all: try (eexists _, n, c; split; [done|]; unfold flags, same_fields, threads_ok, joined_by;
            destruct c; simpl in *; simplify_eq; rewrite ?app_nil_r;
            split_and!; first [done|by left|by destruct n as [[]]]).
  all: destruct (fallible_cases n) as (ok & fs & -> & Hfs); simpl.
  all: destruct ok; unfold log_event, modify; simpl; rewrite Hc; simpl; eexists _, _, _; (split; [done|]).
  all: (split; [done|]); unfold threads_ok, same_fields, flags, joined_by; destruct c; simpl in *; simplify_eq.
  all: rewrite ?app_nil_r; split_and!; try done; try naive_solver.
  all: try (right; split; [done|]); intros Hf; by destruct (Hfs Hf).
Qed.

(** The connection [l] with other flags and threads, and more in the log. *)
Definition switch (l : loc) (c : net_connection_t) (evs : list event) (n : net) : net :=
  with_log (n_log n ++ evs) (with_conns (<[l := c]> (n_conns n)) n).

Lemma switch_switch l c1 e1 c2 e2 n : switch l c2 e2 (switch l c1 e1 n) = switch l c2 (e1 ++ e2) n.
Proof. unfold switch, with_log, with_conns. simpl. by rewrite insert_insert_eq, app_assoc. Qed.

(** Without failures, the operation succeeds, changes nothing but the flags and threads and joins
    the thread that it stops. *)
Lemma life_op_conn_at n l ls li lo c s capi capo xs ys op :
  conn_at n l c s ls li lo capi capo xs ys → threads_ok c → m_faults (n_mem n) = [] →
  ∃ c', run_life_op (Some l) op n
        = Ok (NET_CONNECTION_STATUS_SUCCESS, switch l c' (joined_by op l (flags c)) n) ∧
    conn_at (switch l c' (joined_by op l (flags c)) n) l c' s ls li lo capi capo xs ys ∧
    threads_ok c' ∧ same_fields c c' ∧ flags c' = flags_after op (flags c).
Proof.
  intros Hat Ht Hf. pose proof Hat as [Hc _ _ _ _ _ _ _ _ _ _].
  destruct (run_life_op_spec n l c op Hc Ht) as (st & n' & c' & E & En & Ht' & F & Hst & Hf' & Hlog & Eq).
  destruct Hst as [[-> Hfl]|[_ Hbad]]; [|done].
  rewrite (Hf' Hf), (Hlog Hf), (with_faults_nil _ Hf), with_mem_id, En in Eq. fold (switch l c' (joined_by op l (flags c)) n) in Eq.
  rewrite E, Eq. exists c'. split_and!; try done.
  destruct Hat, F as (? & ? & ? & _). split; simpl; try congruence; try done. apply lookup_insert_eq.
Qed.

(** ** Destruction *)

(** The descriptor of a socket is released with it. *)
Lemma udp_socket_delete_eq n l s :
  n_socks n !! l = Some s → 0 ≤ fd s →
  udp_socket_delete (Some l) n
  = Ok (tt, with_socks (delete l (n_socks n)) (with_fds (n_fds n ∖ {[fd s]}) n)).
Proof.
  intros Hs Hfd. unfold udp_socket_delete, bind, load, free, sys_close, modify. simpl. rewrite Hs.
  destruct (Z.eqb_spec (fd s) (-1)); [lia|]. simpl. by rewrite Hs.
Qed.

(** The part of [net_connection_delete] after the threads have stopped. *)
Lemma delete_resources n l ls li lo c s capi capo xs ys :
  conn_at n l c s ls li lo capi capo xs ys → 0 ≤ fd s → m_faults (n_mem n) = [] →
  (let* c := load (T := net_connection_t) (Some l) in
   udp_socket_delete (socket c) ;;
   lift_mem (message_queue_delete (incoming_message_queue c)) ;;
   lift_mem (message_queue_delete (outgoing_message_queue c)) ;;
   store (Some l) (set_pointers None None None c) ;;
   free net_connection_t (Some l)) n
  = Ok (tt, Net (with_queues (delete lo (delete li (m_queues (n_mem n))))
                   (with_msgs (delete_all ys (delete_all xs (m_msgs (n_mem n)))) (n_mem n)))
              (n_fds n ∖ {[fd s]}) (delete ls (n_socks n)) (delete l (n_conns n))
              (n_in n) (n_log n)).
Proof.
  intros [Hc Hsk Hin Hout Hs Hok Hne Hqi Hqo [Hnd Hal] Hmem] Hfd Hf.
  unfold bind at 1, load. simpl. rewrite Hc, Hsk, Hin, Hout.
  unfold bind at 1. rewrite (udp_socket_delete_eq n ls s Hs Hfd).
  unfold bind at 1, lift_mem at 1, lift at 1. cbn [n_mem with_socks with_fds].
  rewrite (message_queue_delete_eq (n_mem n) li capi xs Hqi Hf).
  set (m1 := with_queues _ _).
  assert (Hqo1 : queue_at m1 lo capo ys).
  { apply NoDup_app in Hnd as (_ & Hd & _).
    eapply queue_at_frame; [exact Hqo|simpl; by rewrite lookup_delete_ne by done|].
    intros y Hy. simpl. rewrite lookup_delete_all, decide_False; [done|]. intros ?. by eapply Hd. }
  unfold bind at 1, lift_mem, lift. cbn [n_mem with_mem].
  rewrite (message_queue_delete_eq m1 lo capo ys Hqo1 Hf).
  unfold bind, store, free. simpl. rewrite Hc. simpl. rewrite lookup_insert_eq. simpl.
  by rewrite delete_insert_eq.
Qed.

(** The whole of [net_connection_delete]. *)
Lemma net_connection_delete_eq n l ls li lo c s capi capo xs ys :
  conn_at n l c s ls li lo capi capo xs ys → threads_ok c → 0 ≤ fd s → m_faults (n_mem n) = [] →
  net_connection_delete (Some l) n
  = Ok (tt, Net (with_queues (delete lo (delete li (m_queues (n_mem n))))
                   (with_msgs (delete_all ys (delete_all xs (m_msgs (n_mem n)))) (n_mem n)))
              (n_fds n ∖ {[fd s]}) (delete ls (n_socks n)) (delete l (n_conns n))
              (n_in n) (n_log n ++ joins l (flags c))).
Proof.
  intros Hat Ht Hfd Hf.
  destruct (life_op_conn_at n l ls li lo c s capi capo xs ys StopReceiving Hat Ht Hf) as (c1 & E1 & Hat1 & Ht1 & _ & Hf1).
  set (n1 := switch _ _ _ n) in *.
  destruct (life_op_conn_at n1 l ls li lo c1 s capi capo xs ys StopSending Hat1 Ht1 Hf) as (c2 & E2 & Hat2 & _).
  rewrite Hf1 in E2, Hat2. set (n2 := switch _ _ _ n1) in *.
  unfold net_connection_delete. unfold run_life_op in E1, E2. unfold bind at 1. rewrite E1. unfold bind at 1. rewrite E2.
  rewrite (delete_resources n2 l ls li lo c2 s capi capo xs ys) by done. simpl.
  by rewrite !delete_insert_eq, <- app_assoc.
Qed.

(** ** Properties *)

(** The threads of a connection follow the calls.  Any sequence of start and stop calls,
    with no failing library call, reports success throughout and ends with exactly the flags
    that the last start or stop of each direction sets; with arbitrary failures of
    [pthread_create] and [pthread_join] every call still returns, and a set flag always means a
    running thread. *)
Theorem lifecycle l ops : ∀ n c,
  n_conns n !! l = Some c → threads_ok c →
  ∃ sts n' c', ⟦ run_life (Some l) ops ⟧ n ⇓ sts, n' ∧ n_conns n' !! l = Some c' ∧ threads_ok c' ∧
    (m_faults (n_mem n) = [] →
       Forall (λ st, st = NET_CONNECTION_STATUS_SUCCESS) sts ∧
       flags c' = foldl (λ f op, flags_after op f) (flags c) ops).
Proof.
  unfold returns. induction ops as [|op ops IH]; intros n c Hc Ht; simpl; unfold bind.
  { by exists [], n, c. }
  destruct (run_life_op_spec n l c op Hc Ht) as (st & n1 & c1 & -> & En & Ht1 & _ & Hst & Hf & _).
  destruct (IH n1 c1) as (sts & n' & c' & -> & Hc' & Ht' & Hgood); [by rewrite En, lookup_insert_eq|done|].
  exists (st :: sts), n', c'. split_and!; try done.
  intros Hnf. destruct (Hgood (Hf Hnf)) as [Hsts Hflags].
  destruct Hst as [[-> Hfl]|[_ Hbad]]; [|done]. split; [by constructor|]. by rewrite Hflags, Hfl.
Qed.

Lemma lifecycle_witness :
  ∃ sts n' c', ⟦ run_life (Some 4%positive) [StartReceiving; StartSending; StopReceiving] ⟧ idle_net ⇓ sts, n' ∧
    n_conns n' !! 4%positive = Some c' ∧ flags c' = (false, true).
Proof.
  destruct (lifecycle 4 [StartReceiving; StartSending; StopReceiving] idle_net (conn_of idle_net 4))
    as (sts & n' & c' & E & Hc & _ & Hf); [by vm_compute|by split; vm_compute|].
  destruct Hf as [_ Hfl]; [by vm_compute|]. by exists sts, n', c'.
Defined.

(** [net_connection_delete] releases everything the connection owns: both threads are
    joined, the descriptor is closed, the socket, both queues and the connection are freed, and
    so is every message still queued in either direction, each exactly once. *)
Theorem net_connection_delete_releases n l ls li lo c s capi capo xs ys :
  conn_at n l c s ls li lo capi capo xs ys → threads_ok c → 0 ≤ fd s → m_faults (n_mem n) = [] →
  ∃ n', ⟦ net_connection_delete (Some l) ⟧ n ⇓ tt, n' ∧
    n_conns n' !! l = None ∧ n_socks n' !! ls = None ∧ ¬ (fd s ∈ n_fds n') ∧
    m_queues (n_mem n') !! li = None ∧ m_queues (n_mem n') !! lo = None ∧
    n_log n' = n_log n ++ joins l (flags c) ∧
    ∀ y, m_msgs (n_mem n') !! y = if decide (y ∈ (xs ++ ys)) then None else m_msgs (n_mem n) !! y.
Proof.
  intros Hat Ht Hfd Hf. unfold returns.
  rewrite (net_connection_delete_eq n l ls li lo c s capi capo xs ys Hat Ht Hfd Hf).
  eexists. split; [done|]. simpl. split_and!; try apply lookup_delete_eq; try done; [set_solver| |].
  - rewrite lookup_delete_ne, lookup_delete_eq; [done|]. intros ->. by destruct Hat.
  - intros y. rewrite !lookup_delete_all. repeat case_decide; set_solver.
Qed.

Lemma net_connection_delete_releases_witness :
  ∃ n', ⟦ net_connection_delete (Some 4%positive) ⟧ busy_net ⇓ tt, n' ∧ n_conns n' !! 4%positive = None.
Proof.
  destruct (net_connection_delete_releases busy_net 4 1 2 3 (conn_of busy_net 4) (sock_of busy_net 1)
    4 4 [] [5%positive]) as (n' & E & Hc & _);
    [by apply conn_atb_sound; vm_compute|by split; vm_compute|by vm_compute|by vm_compute|].
  by exists n'.
Defined.
