(* ===== verification/NetTurns.v ===== *)
(** * NetTurns: turns of the threads that share a connection

    The receiving thread, the sending thread and the program's own calls take turns on one
    connection.  Each turn keeps the invariant [conn_inv], so any interleaving of turns does;
    this is what the server worker and the client rely on. *)
From S2P Require Import Prelude Layout Memory Message MessageQueue SocketUdp NetConnection.

Local Open Scope Z_scope.

(** Every address that the kernel will report is a valid socket address. *)
Definition inputs_ok (n : net) : Prop := ∀ d rs, n_in n !! d = Some rs → Forall recv_ok rs.

(** The connection at [l], with descriptor [d], holds the messages [xs] and [ys]; nothing fails. *)
Record conn_inv (n : net) (l : loc) (c : net_connection_t) (d : Z) (ls li lo : loc)
    (capi capo : Z) (xs ys : list loc) : Prop := {
  ci_conn : ∃ s, conn_at n l c s ls li lo capi capo xs ys ∧ fd s = d;
  ci_caps : 2 ≤ capi ∧ 2 ≤ capo;
  ci_faults : m_faults (n_mem n) = [];
  ci_inputs : inputs_ok n;
}.

Lemma inputs_ok_pop n d r rs :
  inputs_ok n → n_in n !! d = Some (r :: rs) → recv_ok r ∧
  ∀ d' rs', <[d := rs]> (n_in n) !! d' = Some rs' → Forall recv_ok rs'.
Proof.
  intros Hi E. pose proof (Hi d _ E) as [Hr Hrs]%Forall_cons. split; [done|].
  intros d' rs' [[<- <-]|[_ E']]%lookup_insert_Some; [done|by eapply Hi].
Qed.

(** A turn of one of the two threads. *)
Inductive thread_turn : Type := TurnReceive | TurnSend.
Definition net_turn (connection : ptr) (t : thread_turn) : M net unit :=
  match t with
  | TurnReceive => receive_iteration connection
  | TurnSend => send_iteration connection
  end.

Section Turns.
Context (l : loc) (c : net_connection_t) (d : Z) (ls li lo : loc) (capi capo : Z).
Implicit Types (n : net) (xs ys : list loc).

Lemma touches_more n n' qs own own' : touches n n' l ls qs own → own ⊆ own' → touches n n' l ls qs own'.
Proof using Type. intros [] ?. split; try done. intros y Hy. set_solver. Qed.

Lemma touches_refl n n' qs own :
  n_conns n' = n_conns n → n_fds n' = n_fds n → n_socks n' = n_socks n → 
  (∀ k, k ∉ qs → m_queues (n_mem n') !! k = m_queues (n_mem n) !! k) → m_msgs (n_mem n') = m_msgs (n_mem n) →
  touches n n' l ls qs own.
Proof using Type. intros Ec Ef Es Eq Em. split; [by rewrite Ec|by rewrite Ef|by rewrite Es|done|by rewrite Em]. Qed.

(** One turn of the receiving thread: at most one message is appended. *)
Lemma receive_turn n xs ys :
  conn_inv n l c d ls li lo capi capo xs ys →
  ∃ n' xs', receive_iteration (Some l) n = Ok (tt, n') ∧ conn_inv n' l c d ls li lo capi capo xs' ys ∧
    n_log n' = n_log n ∧ (xs' = xs ∨ ∃ x, xs' = fifo_enqueue (Z.to_nat capi) x xs) ∧
    touches n n' l ls [li] xs ∧ (∀ y, y ∈ xs' → y ∈ xs ∨ m_msgs (n_mem n) !! y = None).
Proof using Type.
  intros [(s & Hat & Hd) [Hci Hco] Hf Hi]. pose proof Hat as [Hc Hsk _ _ Hs Hok _ _ _ _ _].
  destruct (n_in n !! d) as [[|[|payload from] rest]|] eqn:E.
  3: { destruct (inputs_ok_pop _ _ _ _ Hi E) as [Hr Hrest].
       rewrite <- Hd in E. destruct (receive_iteration_spec n l ls li lo c s capi capo xs ys payload from rest Hat Hci Hf E Hr)
         as (n' & x & bs & E' & Hat' & _ & Hf' & _ & _ & _ & Ein & Elog & _ & _ & Htc & Hxn).
       exists n', (fifo_enqueue (Z.to_nat capi) x xs). split_and!; try done; [|eauto|].
       - split; try done; [by eexists|]. unfold inputs_ok. by rewrite Ein, Hd.
       - intros y [->|?]%fifo_enqueue_elem; auto. }
  all: unfold receive_iteration, bind at 1, load at 1; simpl; rewrite Hc, Hsk.
  all: unfold bind at 1; rewrite (receive_message_eq n ls s Hs Hok), Hd, E; simpl.
  1, 3: exists n, xs; split_and!; [done|split; eauto|done|by left|by apply touches_refl|auto].
  destruct (inputs_ok_pop _ _ _ _ Hi E) as [Hr Hrest].
  eexists _, xs. split_and!; [done| |done|by left|by apply touches_refl|auto].
  split; try done. exists s. split; [|done]. by destruct Hat.
Qed.

(** One turn of the sending thread: at most one message leaves the outgoing queue, and at most
    one datagram is sent. *)
Lemma send_turn n xs ys :
  conn_inv n l c d ls li lo capi capo xs ys →
  ∃ n', send_iteration (Some l) n = Ok (tt, n') ∧
    conn_inv n' l c d ls li lo capi capo xs (fifo_dequeue ys).2 ∧ n_in n' = n_in n ∧
    match ys with
    | [] => n_log n' = n_log n ++ [EvSleep (receive_timeout_seconds c)]
    | y :: _ => m_msgs (n_mem n') = delete y (m_msgs (n_mem n)) ∧
        (∀ h bs, message_at (n_mem n) y h bs →
           n_log n' = n_log n ++ (if hdr_length h <=? MAX_PAYLOAD
                                  then [EvSend d (hdr_owner_addr h) (format_datagram h bs)] else []))
    end ∧ touches n n' l ls [lo] ys.
Proof using Type.
  intros [(s & Hat & Hd) [Hci Hco] Hf Hi].
  assert (Hin : ∀ n', n_in n' = n_in n → inputs_ok n') by (intros n' E; unfold inputs_ok; by rewrite E).
  destruct ys as [|y ys]; simpl.
  - destruct (send_iteration_idle n l ls li lo c s capi capo xs Hco Hf Hat) as (m' & E & Hat' & Em & Hf' & Hk).
    rewrite E. eexists. split; [done|]. split_and!; try done.
    + split; try done. exists s. split; [|done]. by destruct Hat'.
    + apply touches_refl; try done. intros k Hne. apply Hk. set_solver.
  - assert (∃ h dl bs, m_msgs (n_mem n) !! y = Some (Message h (Some dl)) ∧ m_bytes (n_mem n) !! dl = Some bs)
      as (h & dl & bs & Hy & Hdl).
    { destruct (proj2 (ca_live _ _ _ _ _ _ _ _ _ _ _ Hat) y) as [msg Hmsg]; [set_solver|].
      destruct (mem_ok_live _ _ _ _ (ca_mem _ _ _ _ _ _ _ _ _ _ _ Hat) Hmsg) as (h & dl & bs & -> & ? & _).
      by exists h, dl, bs. }
    assert (Huniq : ∀ h' bs', message_at (n_mem n) y h' bs' → h' = h ∧ bs' = bs)
      by (intros h' bs' (d' & ? & ?); by simplify_eq).
    destruct (Z.leb_spec (hdr_length h) MAX_PAYLOAD) as [Hle|Hgt].
    + destruct (send_iteration_short n l ls li lo y c s capi capo xs ys Hco Hf h dl bs Hat Hy Hdl Hle)
        as (n' & E & Hat' & Hlog & Em & Hf' & Ein & Htc).
      exists n'.
      split_and!; try done; [split; try done; [by exists (sent s h bs)|by apply Hin]| |eapply touches_more; [exact Htc|set_solver]].
      intros h' bs' [-> ->]%Huniq. rewrite (proj2 (Z.leb_le _ _) Hle), Hlog. by rewrite Hd.
    + destruct (send_iteration_long n l ls li lo y c s capi capo xs ys Hco Hf h dl Hat Hy Hgt)
        as (n' & E & Hat' & Hlog & Em & Hf' & Ein & Htc).
      exists n'.
      split_and!; try done; [split; try done; [by eexists|by apply Hin]| |eapply touches_more; [exact Htc|set_solver]].
      intros h' bs' [-> ->]%Huniq. rewrite (proj2 (Z.leb_gt _ _) Hgt), Hlog. by rewrite app_nil_r.
Qed.

(** Taking the oldest incoming message. *)
Lemma take_turn n xs ys :
  conn_inv n l c d ls li lo capi capo xs ys →
  ∃ n', net_connection_receive_nonblocking (Some l) n = Ok ((fifo_dequeue xs).1, n') ∧
    conn_inv n' l c d ls li lo capi capo (fifo_dequeue xs).2 ys ∧
    m_msgs (n_mem n') = m_msgs (n_mem n) ∧ m_bytes (n_mem n') = m_bytes (n_mem n) ∧
    n_log n' = n_log n ∧ n_in n' = n_in n ∧ n_conns n' = n_conns n ∧
    (∀ k, k ≠ li → m_queues (n_mem n') !! k = m_queues (n_mem n) !! k) ∧
    (∀ x, (fifo_dequeue xs).1 = Some x →
      is_Some (m_msgs (n_mem n) !! x) ∧ (x ∉ (fifo_dequeue xs).2 ++ ys)) ∧
    touches n n' l ls [li] [].
Proof using Type.
  intros [(s & Hat & Hd) [Hci Hco] Hf Hi]. pose proof Hat as [Hc Hsk Hin Hout Hs Hok Hne Hqi Hqo [Hnd Hal] Hmem].
  destruct (nonblocking_refines li capi Hci (n_mem n) xs Hqi Hf) as (m' & E & Hqi' & Hf' & Eb & En & Em & Hk).
  exists (with_mem m' n). split.
  { unfold net_connection_receive_nonblocking, bind, load. simpl. rewrite Hc, Hin.
    unfold lift_mem, lift. by rewrite E. }
  split_and!; try done.
  - split; try done. exists s. split; [|done]. split; simpl; try done.
    + eapply queue_at_frame; [exact Hqo|by apply Hk|]. by rewrite Em.
    + split; [|intros z Hz; rewrite Em; apply Hal; destruct xs; [done|set_solver]].
      destruct xs as [|x xs]; [done|]. by apply NoDup_cons in Hnd as [_ ?].
    + destruct Hqi as (q & Hl & _). destruct Hqi' as (q' & Hl' & _).
      by eapply (mem_ok_delete_all _ _ _ [] li q q').
  - intros x Hx. destruct xs as [|x' xs]; [done|]. simpl in Hx. injection Hx as ->.
    split; [apply Hal; set_solver|]. by apply NoDup_cons in Hnd as [? _].
  - apply touches_refl; try done. intros k Hne'. apply Hk. set_solver.
Qed.

(** Handing a message to the outgoing queue. *)
Lemma put_turn n xs ys x :
  conn_inv n l c d ls li lo capi capo xs ys → is_Some (m_msgs (n_mem n) !! x) → (x ∉ xs ++ ys) →
  ∃ n', net_connection_send (Some l) (Some x) n = Ok (NET_CONNECTION_STATUS_SUCCESS, n') ∧
    conn_inv n' l c d ls li lo capi capo xs (fifo_enqueue (Z.to_nat capo) x ys) ∧
    m_msgs (n_mem n') = delete_all (fifo_dropped (Z.to_nat capo) ys) (m_msgs (n_mem n)) ∧
    m_bytes (n_mem n') = m_bytes (n_mem n) ∧ n_log n' = n_log n ∧ n_in n' = n_in n ∧
    n_conns n' = n_conns n ∧ touches n n' l ls [lo] ys.
Proof using Type.
  intros [(s & Hat & Hd) [Hci Hco] Hf Hi] Hx Hnx.
  pose proof Hat as [Hc Hsk Hin Hout Hs Hok Hne Hqi Hqo Hlive Hmem].
  destruct (enqueue_refines lo capo Hco (n_mem n) ys x Hqo Hf Hx) as
    (m' & E & Hqo' & Hf' & Eb & En & Em & Hk); [set_solver|].
  exists (with_mem m' n). split.
  { unfold net_connection_send, bind, load. simpl. rewrite Hc, Hsk, Hout.
    unfold net_connection_add_to_queue, lift_mem, lift, bind. by rewrite E. }
  split_and!; try done.
  2: { split; simpl; try done; [intros k Hne'; apply Hk; set_solver|].
       intros y Hy ?. rewrite Em, lookup_delete_all, decide_False by (intros ?%fifo_dropped_elem; done). done. }
  split; try done. exists s. split; [|done].
  assert (Hlive' : live m' (fifo_enqueue (Z.to_nat capo) x ys ++ xs)).
  { eapply live_app_enq; [|exact Em]. destruct Hlive as [(Hnx' & Hdj & Hny)%NoDup_app Hal].
    split.
    - apply NoDup_app. split_and!; [done| |]; [set_solver|]. apply NoDup_cons. set_solver.
    - intros y. rewrite elem_of_app, elem_of_cons. intros [?|[->|?]]; [apply Hal| |apply Hal]; set_solver. }
  split; simpl; try done.
  - eapply queue_at_frame; [exact Hqi|by apply Hk|]. intros y Hy _. apply Hlive'. set_solver.
  - destruct Hlive' as [Hnd Hal]. split; [|set_solver].
    by rewrite (Permutation_app_comm xs).
  - destruct Hqo as (q & Hl & _). destruct Hqo' as (q' & Hl' & _).
    by eapply (mem_ok_delete_all _ _ _ _ lo q q').
Qed.
End Turns.
