(* ===== verification/NetSteps.v ===== *)
(** * NetSteps: the two threads of a connection, statement by statement

    [NetTurns] lets the threads of network/net_connection.c take turns that are whole loop
    iterations.  Here they are interleaved after every statement that touches something shared:
    the receiving and the sending thread function as step functions with a program counter, and the
    program that owns the connection, which takes and gives messages, changes the ones it holds and
    clears the flags.  A call of a queue operation is one step: [QueueShared] shows that threads
    which share a queue cannot tell the difference. *)
From S2P Require Import Prelude Layout Memory Message MessageQueue SocketUdp NetConnection NetTurns.

Local Open Scope Z_scope.

(** Where the receiving thread is. *)
Inductive receive_pc : Type :=
  | RcvTest                        (* line 18: while (connection->is_receiving) *)
  | RcvSocket                      (* line 23: the call of udp_socket_receive_message *)
  | RcvCalled (usocket : ptr)      (* line 23: inside recvfrom, which has been called *)
  | RcvCreate                      (* line 31: message_create *)
  | RcvHeader (message : loc)      (* line 39: net_connection_read_header *)
  | RcvOwner (message : loc) (header_status : net_connection_status_t)   (* line 40: owner_addr *)
  | RcvData (message : loc)        (* line 50: net_connection_read_data *)
  | RcvInvalid (message : loc)     (* lines 45 and 54: header.type = MESSAGE_TYPE_NONE *)
  | RcvAdd (message : loc)         (* line 63: net_connection_add_to_queue *)
  | RcvEnd.

(** Where the sending thread is. *)
Inductive send_pc : Type :=
  | SndTest                        (* line 84: while (connection->is_sending) *)
  | SndDequeue                     (* line 86: message_queue_dequeue_nonblocking *)
  | SndHeader (message : loc)      (* line 94: net_connection_write_header *)
  | SndData (message : loc)        (* line 102: net_connection_write_data *)
  | SndAddr (message : loc)        (* line 110: incoming_addr = owner_addr *)
  | SndSend (message : loc)        (* line 117: udp_socket_send *)
  | SndDelete (message : loc)      (* lines 98, 106 and 124: message_delete *)
  | SndEnd.

#[export] Instance receive_pc_eq_dec : EqDecision receive_pc.
Proof. solve_decision. Defined.
#[export] Instance send_pc_eq_dec : EqDecision send_pc.
Proof. solve_decision. Defined.

(** One step of [net_connection_receive_thread_func].  [recvfrom] takes two: the thread calls it, and
    some time later it returns, having written the buffer and the address; in between the thread is
    blocked in the call. *)
Definition receive_step (connection : ptr) (pc : receive_pc) : M net receive_pc :=
  match pc with
  | RcvTest =>
      let* c := load connection in
      ret (if is_receiving c then RcvSocket else RcvEnd)
  | RcvSocket =>
      let* c := load connection in
      ret (RcvCalled (socket c))
  | RcvCalled usocket =>
      let* st := udp_socket_receive_message usocket None in
      ret (if bool_decide (st ≠ UDP_SOCKET_STATUS_SUCCESS) then RcvTest else RcvCreate)
  | RcvCreate =>
      let* message := lift_mem (message_create MESSAGE_TYPE_NONE (Z.of_nat UDP_SOCKET_BUFFER_SIZE)) in
      ret (match message with None => RcvTest | Some x => RcvHeader x end)
  | RcvHeader x =>
      let* st := net_connection_read_header connection (Some x) in
      ret (RcvOwner x st)
  | RcvOwner x st =>
      let* c := load connection in
      let* s := load (socket c) in
      let* msg := load_msg (Some x) in
      store_msg (Some x) (Message (set_owner_addr (incoming_addr s) (header msg)) (data msg)) ;;
      ret (if bool_decide (st ≠ NET_CONNECTION_STATUS_SUCCESS) then RcvInvalid x else RcvData x)
  | RcvData x =>
      let* st := net_connection_read_data connection (Some x) in
      ret (if bool_decide (st ≠ NET_CONNECTION_STATUS_SUCCESS) then RcvInvalid x else RcvAdd x)
  | RcvInvalid x => mark_invalid (Some x) ;; ret (RcvAdd x)
  | RcvAdd x => receive_add connection (Some x) ;; ret RcvTest
  | RcvEnd => blocked
  end.

(** One step of [net_connection_send_thread_func]. *)
Definition send_step (connection : ptr) (pc : send_pc) : M net send_pc :=
  match pc with
  | SndTest =>
      let* c := load connection in
      ret (if is_sending c then SndDequeue else SndEnd)
  | SndDequeue =>
      let* c := load connection in
      let* message := lift_mem (message_queue_dequeue_nonblocking (outgoing_message_queue c)) in
      match message with
      | None => sleep (receive_timeout_seconds c) ;; ret SndTest
      | Some y => ret (SndHeader y)
      end
  | SndHeader y =>
      let* st := net_connection_write_header connection (Some y) in
      ret (if bool_decide (st ≠ NET_CONNECTION_STATUS_SUCCESS) then SndDelete y else SndData y)
  | SndData y =>
      let* st := net_connection_write_data connection (Some y) in
      ret (if bool_decide (st ≠ NET_CONNECTION_STATUS_SUCCESS) then SndDelete y else SndAddr y)
  | SndAddr y =>
      let* c := load connection in
      let* msg := load_msg (Some y) in
      let* s := load (socket c) in
      store (socket c) (set_incoming_addr (hdr_owner_addr (header msg)) s) ;;
      ret (SndSend y)
  | SndSend y =>
      let* c := load connection in
      let* msg := load_msg (Some y) in
      udp_socket_send (socket c) (hdr_length (header msg) + Z.of_nat sizeof_header) ;;
      ret (SndDelete y)
  | SndDelete y => lift_mem (message_delete (Some y)) ;; ret SndTest
  | SndEnd => blocked
  end.

(** ** The connection as a system of three threads *)

(** [ns_held] are the messages that the program has in its hands. *)
Record net_sys := NetSys {
  ns_net : net;
  ns_rcv : receive_pc;
  ns_snd : send_pc;
  ns_held : list loc;
}.

Inductive net_action : Type :=
  | StepReceive
  | StepSend
  | Take                                             (* net_connection_receive_nonblocking *)
  | Give (x : loc)                                   (* net_connection_send *)
  | Make (type data_capacity : Z)                    (* message_create *)
  | Drop (x : loc)                                   (* message_delete *)
  | Change (x : loc) (h : message_header_t) (bs : list byte)
  | ClearReceiving                                   (* is_receiving = 0 *)
  | ClearSending.                                    (* is_sending = 0 *)

(** What the program does to a message that it holds: it may overwrite header and block, as long
    as the fields have values of their types and the block stays large enough for them. *)
Definition change_message (x : loc) (h : message_header_t) (bs : list byte) : M mem unit :=
  let* msg := load (Some x) in
  let* _bs := load (T := list byte) (data msg) in
  store (data msg) bs ;;
  store (Some x) (Message h (data msg)).

Definition set_net (n : net) (s : net_sys) : net_sys := NetSys n (ns_rcv s) (ns_snd s) (ns_held s).
Definition set_rcv (pc : receive_pc) (s : net_sys) : net_sys := NetSys (ns_net s) pc (ns_snd s) (ns_held s).
Definition set_snd (pc : send_pc) (s : net_sys) : net_sys := NetSys (ns_net s) (ns_rcv s) pc (ns_held s).
Definition set_held (xs : list loc) (s : net_sys) : net_sys := NetSys (ns_net s) (ns_rcv s) (ns_snd s) xs.
Definition in_net {A} : M net A → M net_sys A := lift ns_net set_net.

Definition net_act (connection : ptr) (a : net_action) : M net_sys unit :=
  let* s := get_state in
  match a with
  | StepReceive => let* pc := in_net (receive_step connection (ns_rcv s)) in modify (set_rcv pc)
  | StepSend => let* pc := in_net (send_step connection (ns_snd s)) in modify (set_snd pc)
  | Take =>
      let* p := in_net (net_connection_receive_nonblocking connection) in
      modify (set_held (ns_held s ++ option_list p))
  | Give x => in_net (net_connection_send connection (Some x)) ;; modify (set_held (filter (.≠ x) (ns_held s)))
  | Make type data_capacity =>
      let* p := in_net (lift_mem (message_create type data_capacity)) in
      modify (set_held (ns_held s ++ option_list p))
  | Drop x => in_net (lift_mem (message_delete (Some x))) ;; modify (set_held (filter (.≠ x) (ns_held s)))
  | Change x h bs => in_net (lift_mem (change_message x h bs))
  | ClearReceiving =>
      in_net (let* c := load connection in store connection (set_receiving false (receive_thread c) c))
  | ClearSending =>
      in_net (let* c := load connection in store connection (set_sending false (send_thread c) c))
  end.

(** The program uses only messages that it holds. *)
Definition allowed (a : net_action) (s : net_sys) : bool :=
  match a with
  | Give x | Drop x => bool_decide (x ∈ ns_held s)
  | Change x h bs => bool_decide (x ∈ ns_held s) && header_ok h && bool_decide (wire_fit h (length bs))
  | Make type data_capacity => (0 <=? type) && (type <? 2 ^ 32) && (4 <=? data_capacity)
  | _ => true
  end.

Inductive net_reaches (connection : ptr) (s0 : net_sys) : net_sys → Prop :=
  | net_reaches_refl : net_reaches connection s0 s0
  | net_reaches_act s s' a :
      net_reaches connection s0 s → allowed a s = true → ⟦ net_act connection a ⟧ s ⇓ tt, s' →
      net_reaches connection s0 s'.

Fixpoint net_run (connection : ptr) (actions : list net_action) (s : net_sys) : option net_sys :=
  match actions with
  | [] => Some s
  | a :: actions =>
      if negb (allowed a s) then None else
      match net_act connection a s with Ok (_, s') => net_run connection actions s' | _ => None end
  end.

Lemma net_run_reaches connection actions s0 : ∀ s s',
  net_reaches connection s0 s → net_run connection actions s = Some s' → net_reaches connection s0 s'.
Proof.
  induction actions as [|a actions IH]; intros s s' Hr; simpl; [by intros [= <-]|].
  destruct (allowed a s) eqn:Ha; [simpl|done]. destruct (net_act connection a s) as [[[] s1]| | | |] eqn:E; try done.
  apply IH. by eapply net_reaches_act.
Qed.

(** ** The invariant *)

(** The message that a thread is working on. *)
Definition rcv_msgs (pc : receive_pc) : list loc :=
  match pc with
  | RcvHeader x | RcvOwner x _ | RcvData x | RcvInvalid x | RcvAdd x => [x]
  | _ => []
  end.
Definition snd_msgs (pc : send_pc) : list loc :=
  match pc with
  | SndHeader y | SndData y | SndAddr y | SndSend y | SndDelete y => [y]
  | _ => []
  end.
Definition locals (s : net_sys) : list loc := rcv_msgs (ns_rcv s) ++ snd_msgs (ns_snd s) ++ ns_held s.

(** The socket of a blocked [recvfrom] is that of the connection; the message being received has a
    block of the size of the socket's buffer. *)
Definition rcv_ok (ls : loc) (m : mem) (pc : receive_pc) : Prop :=
  match pc with
  | RcvCalled usocket => usocket = Some ls
  | RcvHeader x | RcvOwner x _ | RcvData x => ∃ h bs, message_at m x h bs ∧ length bs = UDP_SOCKET_BUFFER_SIZE
  | _ => True
  end.

(** What the sending thread has put into the socket's buffer. *)
Definition snd_ok (m : mem) (s : udp_socket_t) (pc : send_pc) : Prop :=
  match pc with
  | SndData y => ∃ h bs, message_at m y h bs ∧ take sizeof_header (outcoming_buffer s) = encode_header h
  | SndAddr y | SndSend y => ∃ h bs, message_at m y h bs ∧ 0 ≤ hdr_length h ≤ MAX_PAYLOAD ∧
      take (Z.to_nat (hdr_length h + Z.of_nat sizeof_header)) (outcoming_buffer s) = format_datagram h bs
  | _ => True
  end.

(** The messages in memory are exactly [zs], each once. *)
Definition accounted (m : mem) (zs : list loc) : Prop :=
  NoDup zs ∧ ∀ x, is_Some (m_msgs m !! x) ↔ x ∈ zs.

Lemma accounted_perm m zs zs' : zs ≡ₚ zs' → accounted m zs → accounted m zs'.
Proof. intros HP [Hnd Hl]. split; [by rewrite <- HP|]. intros x. by rewrite <- HP. Qed.

Lemma accounted_same m m' zs :
  (∀ x, is_Some (m_msgs m' !! x) ↔ is_Some (m_msgs m !! x)) → accounted m zs → accounted m' zs.
Proof. intros E [Hnd Hl]. split; [done|]. intros x. by rewrite E. Qed.

Lemma accounted_delete m m' y zs :
  accounted m (y :: zs) → m_msgs m' = delete y (m_msgs m) → accounted m' zs.
Proof.
  intros [[Hy Hnd]%NoDup_cons Hl] E. split; [done|]. intros x. rewrite E, lookup_delete_is_Some, Hl, elem_of_cons.
  split; [naive_solver|]. intros Hx. split; [|by right]. by intros ->.
Qed.

Lemma accounted_insert m m' y msg zs :
  accounted m zs → m_msgs m !! y = None → m_msgs m' = <[y := msg]> (m_msgs m) → accounted m' (y :: zs).
Proof.
  intros [Hnd Hl] Hy E. split.
  - apply NoDup_cons. split; [|done]. rewrite <- Hl, Hy. by intros [].
  - intros x. rewrite E, lookup_insert_is_Some, Hl, elem_of_cons. destruct (decide (y = x)); naive_solver.
Qed.

Lemma accounted_enqueue cap m m' x xs zs :
  (0 < cap)%nat → accounted m (xs ++ x :: zs) → m_msgs m' = delete_all (fifo_dropped cap xs) (m_msgs m) →
  accounted m' (fifo_enqueue cap x xs ++ zs).
Proof.
  intros Hc Ha E. rewrite <- (drop_fifo_dropped xs cap x) by done. set (k := length _) in *.
  assert (Ed : fifo_dropped cap xs = take k xs).
  { unfold k, fifo_dropped. case_bool_decide; [|done]. rewrite length_take.
    destruct (decide (cap / 2 ≤ length xs)%nat); [f_equal; lia|rewrite !take_ge; [done|lia..]]. }
  rewrite Ed in E. rewrite <- (take_drop k xs) in Ha. revert E.
  assert (HP : (take k xs ++ drop k xs) ++ x :: zs ≡ₚ take k xs ++ (drop k xs ++ [x]) ++ zs) by by rewrite <- !app_assoc.
  apply (accounted_perm _ _ _ HP) in Ha. clear HP Ed. generalize (take k xs) (drop k xs ++ [x]) Ha. clear.
  intros ds es [(Hd & Hdj & Hnd)%NoDup_app Hl] E. split; [done|].
  intros y. rewrite E, lookup_delete_all. specialize (Hl y). rewrite elem_of_app in Hl.
  case_decide as Hy; [|naive_solver]. split; [by intros []|]. intros Hy'. destruct (Hdj y Hy Hy').
Qed.

Lemma accounted_live m zs xs : accounted m zs → (∀ x, x ∈ xs → x ∈ zs) → NoDup xs → live m xs.
Proof. intros [_ Hl] Hs Hnd. split; [done|]. intros x Hx. by apply Hl, Hs. Qed.

Lemma same_message_eq m m' x :
  m_msgs m' = m_msgs m → m_bytes m' = m_bytes m → same_message m m' x.
Proof. intros Em Eb h bs (d & Hx & Hd). exists d. by rewrite Em, Eb. Qed.

Lemma same_message_update m x d h bs h' bs' z :
  mem_ok wire_fit m → m_msgs m !! x = Some (Message h (Some d)) → m_bytes m !! d = Some bs → z ≠ x →
  same_message m (with_msgs (<[x := Message h' (Some d)]> (m_msgs m)) (with_bytes (<[d := bs']> (m_bytes m)) m)) z.
Proof.
  intros Hm Hx Hd. by apply (only_touches_update wire_fit m (with_msgs _ (with_bytes _ m)) x d h bs h' bs' Hm Hx Hd).
Qed.

Lemma same_message_delete m m' ds z :
  m_msgs m' = delete_all ds (m_msgs m) → m_bytes m' = m_bytes m → z ∉ ds → same_message m m' z.
Proof.
  intros Em Eb Hz h bs (d & Hx & Hd). exists d. rewrite Em, Eb, lookup_delete_all, decide_False by done. done.
Qed.

Lemma same_message_create m m' x d msg bs z :
  m_msgs m !! x = None → m_bytes m !! d = None → m_msgs m' = <[x := msg]> (m_msgs m) → m_bytes m' = <[d := bs]> (m_bytes m) →
  same_message m m' z.
Proof.
  intros Hx Hd Em Eb h b (dz & Hz & Hdz). exists dz. rewrite Em, Eb.
  rewrite !lookup_insert_ne; [done|congruence|congruence].
Qed.

Lemma rcv_ok_frame ls m m' pc :
  rcv_ok ls m pc → (∀ x, x ∈ rcv_msgs pc → same_message m m' x) → rcv_ok ls m' pc.
Proof.
  intros H Hf. destruct pc; simpl in *; try done; destruct H as (h & bs & Hx & Hl); exists h, bs;
    (split; [apply Hf; [by apply list_elem_of_singleton|done]|done]).
Qed.

Lemma snd_ok_frame m m' s s' pc :
  snd_ok m s pc → outcoming_buffer s' = outcoming_buffer s → (∀ x, x ∈ snd_msgs pc → same_message m m' x) →
  snd_ok m' s' pc.
Proof.
  intros H Eb Hf. destruct pc; simpl in *; try done; destruct H as (h & bs & Hx & Hl); exists h, bs; rewrite Eb;
    (split; [apply Hf; [by apply list_elem_of_singleton|done]|done]).
Qed.

Section Threads.
Context (l ls li lo : loc) (d : Z) (capi capo : Z).
Implicit Types (n : net) (s : net_sys) (c : net_connection_t) (sk : udp_socket_t) (xs ys : list loc).

Record net_inv s c sk xs ys : Prop := {
  ni_conn : conn_at (ns_net s) l c sk ls li lo capi capo xs ys;
  ni_fd : fd sk = d;
  ni_caps : 2 ≤ capi ∧ 2 ≤ capo;
  ni_faults : m_faults (n_mem (ns_net s)) = [];
  ni_inputs : inputs_ok (ns_net s);
  ni_acc : accounted (n_mem (ns_net s)) (xs ++ ys ++ locals s);
  ni_rcv : rcv_ok ls (n_mem (ns_net s)) (ns_rcv s);
  ni_snd : snd_ok (n_mem (ns_net s)) sk (ns_snd s);
}.

(** The messages of one thread are those of no other, nor of a queue. *)
Lemma rcv_local s c sk xs ys x :
  net_inv s c sk xs ys → x ∈ rcv_msgs (ns_rcv s) → (x ∉ snd_msgs (ns_snd s) ++ ns_held s) ∧ (x ∉ xs ++ ys).
Proof using Type.
  intros H Hx. destruct (ni_acc _ _ _ _ _ H) as [Hnd _]. unfold locals in Hnd. rewrite app_assoc in Hnd.
  apply NoDup_app in Hnd as (_ & Hd & Hnd). apply NoDup_app in Hnd as (_ & Hd' & _).
  split; [by apply Hd'|]. intros Hin. apply (Hd x Hin). set_solver.
Qed.
Lemma snd_local s c sk xs ys y :
  net_inv s c sk xs ys → y ∈ snd_msgs (ns_snd s) → (y ∉ rcv_msgs (ns_rcv s) ++ ns_held s) ∧ (y ∉ xs ++ ys).
Proof using Type.
  intros H Hy. destruct (ni_acc _ _ _ _ _ H) as [Hnd _]. unfold locals in Hnd. rewrite app_assoc in Hnd.
  apply NoDup_app in Hnd as (_ & Hd & Hnd). apply NoDup_app in Hnd as (_ & Hd' & Hnd).
  apply NoDup_app in Hnd as (_ & Hd'' & _). split; [|intros Hin; apply (Hd y Hin); set_solver].
  rewrite elem_of_app. intros [Hin|Hin]; [apply (Hd' y Hin); set_solver|by apply (Hd'' y Hy)].
Qed.
Lemma held_local s c sk xs ys x :
  net_inv s c sk xs ys → x ∈ ns_held s →
  (x ∉ rcv_msgs (ns_rcv s) ++ snd_msgs (ns_snd s)) ∧ (x ∉ xs ++ ys) ∧ NoDup (ns_held s).
Proof using Type.
  intros H Hx. destruct (ni_acc _ _ _ _ _ H) as [Hnd _]. unfold locals in Hnd. rewrite !app_assoc in Hnd.
  apply NoDup_app in Hnd as (_ & Hd & Hnd). split_and!; [| |done]; intros Hin; apply (Hd x); [set_solver|done|set_solver|done].
Qed.

(** Every live message has a block of its own. *)
Lemma message_parts s c sk xs ys x :
  net_inv s c sk xs ys → x ∈ xs ++ ys ++ locals s →
  ∃ h dl bs, m_msgs (n_mem (ns_net s)) !! x = Some (Message h (Some dl)) ∧ m_bytes (n_mem (ns_net s)) !! dl = Some bs ∧
    header_ok h = true ∧ wire_fit h (length bs).
Proof using Type.
  intros H Hx. destruct (proj2 (proj2 (ni_acc _ _ _ _ _ H) x) Hx) as [msg Hmsg].
  destruct (mem_ok_live _ _ _ _ (ca_mem _ _ _ _ _ _ _ _ _ _ _ (ni_conn _ _ _ _ _ H)) Hmsg) as (h & dl & bs & -> & Hd & Hh & Hw).
  by exists h, dl, bs.
Qed.

(** A new header and block for a message that only the receiving thread, only the program or only
    the sending thread uses. *)
Lemma net_inv_update s c sk xs ys x h dl bs h' bs' rcv :
  net_inv s c sk xs ys → m_msgs (n_mem (ns_net s)) !! x = Some (Message h (Some dl)) →
  m_bytes (n_mem (ns_net s)) !! dl = Some bs → header_ok h' = true → wire_fit h' (length bs') →
  (x ∉ snd_msgs (ns_snd s)) → rcv_msgs rcv = rcv_msgs (ns_rcv s) →
  let m' := with_msgs (<[x := Message h' (Some dl)]> (m_msgs (n_mem (ns_net s))))
              (with_bytes (<[dl := bs']> (m_bytes (n_mem (ns_net s)))) (n_mem (ns_net s))) in
  (message_at m' x h' bs' → rcv_ok ls m' rcv) →
  net_inv (NetSys (with_mem m' (ns_net s)) rcv (ns_snd s) (ns_held s)) c sk xs ys.
Proof using Type.
  intros H Hx Hd Hh Hw Hsnd Hr m' Hrcv. split; simpl.
  - by eapply conn_at_msg_update; [apply H|..].
  - apply H.
  - apply H.
  - apply H.
  - apply (ni_inputs _ _ _ _ _ H).
  - unfold locals; simpl. rewrite Hr. eapply accounted_same; [|apply (ni_acc _ _ _ _ _ H)].
    intros z. simpl. rewrite lookup_insert_is_Some. destruct (decide (x = z)) as [->|]; [rewrite Hx|]; naive_solver.
  - apply Hrcv. exists dl. simpl. by rewrite !lookup_insert_eq.
  - eapply snd_ok_frame; [apply H|done|]. intros z Hz. eapply same_message_update; [|done|done|by intros ->].
    apply (ca_mem _ _ _ _ _ _ _ _ _ _ _ (ni_conn _ _ _ _ _ H)).
Qed.

(** The same with the block as it is. *)
Lemma net_inv_header s c sk xs ys x h dl bs h' rcv :
  net_inv s c sk xs ys → m_msgs (n_mem (ns_net s)) !! x = Some (Message h (Some dl)) →
  m_bytes (n_mem (ns_net s)) !! dl = Some bs → header_ok h' = true → wire_fit h' (length bs) →
  (x ∉ snd_msgs (ns_snd s)) → rcv_msgs rcv = rcv_msgs (ns_rcv s) →
  let m' := with_msgs (<[x := Message h' (Some dl)]> (m_msgs (n_mem (ns_net s)))) (n_mem (ns_net s)) in
  (message_at m' x h' bs → rcv_ok ls m' rcv) →
  net_inv (NetSys (with_mem m' (ns_net s)) rcv (ns_snd s) (ns_held s)) c sk xs ys.
Proof using Type.
  intros H Hx Hd Hh Hw Hsnd Hr m' Hrcv.
  pose proof (net_inv_update s c sk xs ys x h dl bs h' bs rcv H Hx Hd Hh Hw Hsnd Hr) as G.
  rewrite (insert_id (m_bytes _)), with_bytes_id in G by done. by apply G.
Qed.

(** *** Steps of the receiving thread *)
Section ReceiveStep.
Context (s : net_sys) (c : net_connection_t) (sk : udp_socket_t) (xs ys : list loc).
Hypothesis (H : net_inv s c sk xs ys).

Definition good_receive (o : outcome (receive_pc * net)) : Prop :=
  ∃ pc n' sk' xs', o = Ok (pc, n') ∧ net_inv (NetSys n' pc (ns_snd s) (ns_held s)) c sk' xs' ys ∧
    n_log n' = n_log (ns_net s) ∧ (pc ≠ RcvCreate → sk' = sk).

(** [recvfrom] is called. *)
Lemma receive_call_next : ns_rcv s = RcvSocket →
  receive_step (Some l) RcvSocket (ns_net s) = Ok (RcvCalled (Some ls), ns_net s) ∧
  net_inv (NetSys (ns_net s) (RcvCalled (Some ls)) (ns_snd s) (ns_held s)) c sk xs ys.
Proof using H.
  intros Hpc. destruct H as [Hat Hfd Hcaps Hf Hin Hacc Hr Hs]. pose proof Hat as [Hc Hsk _ _ _ _ _ _ _ _ _].
  unfold locals in Hacc. rewrite Hpc in Hacc. split; [|by split].
  cbn [receive_step]. unfold bind, load. simpl. by rewrite Hc, Hsk.
Qed.

(** A datagram arrives. *)
Lemma receive_socket_next payload from rest :
  ns_rcv s = RcvCalled (Some ls) → n_in (ns_net s) !! d = Some (RecvData payload from :: rest) →
  ∃ n', receive_step (Some l) (RcvCalled (Some ls)) (ns_net s) = Ok (RcvCreate, n') ∧ n_mem n' = n_mem (ns_net s) ∧
    n_log n' = n_log (ns_net s) ∧ net_inv (NetSys n' RcvCreate (ns_snd s) (ns_held s)) c (received sk payload from) xs ys.
Proof using H.
  intros Hpc E. destruct H as [Hat Hfd Hcaps Hf Hin Hacc Hr Hs]. pose proof Hat as [Hc Hsk _ _ Hss Hok _ _ _ _ _].
  cbn [receive_step]. unfold bind. rewrite (receive_message_eq _ _ _ Hss Hok), Hfd, E. simpl.
  destruct (inputs_ok_pop _ _ _ _ Hin E) as [Hfrom Hrest]. unfold locals in Hacc. rewrite Hpc in Hacc. simpl in Hacc.
  eexists. split_and!; [done..|]. split; simpl; try done.
  apply (conn_at_sock (with_in (<[d := rest]> (n_in (ns_net s))) (ns_net s)) l ls li lo c sk); [by destruct Hat|].
  by apply received_ok.
Qed.

Lemma receive_socket_good p : ns_rcv s = RcvCalled p → good_receive (receive_step (Some l) (ns_rcv s) (ns_net s)).
Proof using H.
  intros Hpc. pose proof (ni_rcv _ _ _ _ _ H) as Hp. rewrite Hpc in Hp. simpl in Hp. subst p.
  unfold good_receive. rewrite Hpc.
  destruct (n_in (ns_net s) !! d) as [[|[|payload from] rest]|] eqn:E.
  3: { destruct (receive_socket_next _ _ _ Hpc E) as (n' & -> & _ & Hlog & H').
       by exists RcvCreate, n', (received sk payload from), xs. }
  all: destruct H as [Hat Hfd Hcaps Hf Hin Hacc Hr Hs]; pose proof Hat as [Hc Hsk _ _ Hss Hok _ _ _ _ _];
    unfold locals in Hacc; rewrite Hpc in Hacc; simpl in Hacc; cbn [receive_step]; unfold bind;
    rewrite (receive_message_eq _ _ _ Hss Hok), Hfd, E; simpl.
  1, 3: exists RcvTest, (ns_net s), sk, xs; split_and!; try done.
  destruct (inputs_ok_pop _ _ _ _ Hin E) as [_ Hrest].
  exists RcvTest, (with_in (<[d := rest]> (n_in (ns_net s))) (ns_net s)), sk, xs. split_and!; try done.
  split; try done. by destruct Hat.
Qed.

Lemma receive_create_next : ns_rcv s = RcvCreate →
  ∃ x n', receive_step (Some l) RcvCreate (ns_net s) = Ok (RcvHeader x, n') ∧ n_log n' = n_log (ns_net s) ∧
    net_inv (NetSys n' (RcvHeader x) (ns_snd s) (ns_held s)) c sk xs ys.
Proof using H.
  intros Hpc. destruct H as [Hat Hfd Hcaps Hf Hin Hacc Hr Hs]. cbn [receive_step]. unfold lift_mem, bind, lift.
  unfold locals in Hacc. rewrite Hpc in Hacc. simpl in Hacc.
  destruct (message_create_spec MESSAGE_TYPE_NONE (Z.of_nat UDP_SOCKET_BUFFER_SIZE) (n_mem (ns_net s)))
    as (p & m' & -> & Hh & Hq & Hf' & Hp); [apply (ca_mem _ _ _ _ _ _ _ _ _ _ _ Hat)|lia|].
  destruct (Hf' Hf) as [Hf1 [x ->]]; [unfold UINT32_MAX, UDP_SOCKET_BUFFER_SIZE, sizeof_header; lia|].
  destruct Hp as (dl & a & bs & Hx & Hd & _ & Hlen & Ha & _ & Em & Eb).
  assert (Hl : length bs = UDP_SOCKET_BUFFER_SIZE) by (rewrite Hlen; lia).
  eexists x, _. split_and!; [done..|]. split; simpl; try done.
  - eapply conn_at_create; [exact Hat|done..| |by apply wire_fit_received].
    apply header_ok_spec. simpl. unfold UDP_SOCKET_BUFFER_SIZE, MESSAGE_TYPE_NONE. split_and!; try done; lia.
  - eapply accounted_perm; [|eapply accounted_insert; [exact Hacc|done|exact Em]].
    unfold locals; simpl. rewrite !(app_assoc xs ys). apply Permutation_middle.
  - exists (Header MESSAGE_TYPE_NONE 0 a (Z.of_nat UDP_SOCKET_BUFFER_SIZE)), bs. split; [|done]. exists dl.
    by rewrite Em, Eb, !lookup_insert_eq.
  - eapply snd_ok_frame; [exact Hs|done|]. intros z Hz. by eapply same_message_create.
Qed.

Lemma receive_create_good : ns_rcv s = RcvCreate → good_receive (receive_step (Some l) (ns_rcv s) (ns_net s)).
Proof using H.
  intros Hpc. unfold good_receive. rewrite Hpc. destruct (receive_create_next Hpc) as (x & n' & -> & Hlog & H').
  by exists (RcvHeader x), n', sk, xs.
Qed.

(** The message in the hands of the receiving thread. *)
Lemma receive_parts x : x ∈ rcv_msgs (ns_rcv s) →
  ∃ h dl bs, m_msgs (n_mem (ns_net s)) !! x = Some (Message h (Some dl)) ∧ m_bytes (n_mem (ns_net s)) !! dl = Some bs ∧
    header_ok h = true ∧ wire_fit h (length bs) ∧ (x ∉ snd_msgs (ns_snd s)) ∧ (x ∉ xs ++ ys).
Proof using H.
  intros Hx. destruct (message_parts _ _ _ _ _ x H) as (h & dl & bs & ? & ? & ? & ?); [unfold locals; set_solver|].
  destruct (rcv_local _ _ _ _ _ x H Hx) as [Hn ?]. exists h, dl, bs. split_and!; try done. set_solver.
Qed.

(** A step that only changes the header of that message. *)
Lemma receive_header_good x h dl bs h' pc' o :
  rcv_msgs (ns_rcv s) = [x] → m_msgs (n_mem (ns_net s)) !! x = Some (Message h (Some dl)) →
  m_bytes (n_mem (ns_net s)) !! dl = Some bs → header_ok h' = true → wire_fit h' (length bs) →
  (x ∉ snd_msgs (ns_snd s)) → rcv_msgs pc' = [x] →
  (∀ m, message_at m x h' bs → rcv_ok ls m pc') →
  o = Ok (pc', with_mem (with_msgs (<[x := Message h' (Some dl)]> (m_msgs (n_mem (ns_net s)))) (n_mem (ns_net s))) (ns_net s)) →
  good_receive o.
Proof using H.
  intros Hr Hx Hd Hh Hw Hn Hr' Hok ->. eexists _, _, sk, xs. split; [done|]. split_and!; try done.
  eapply net_inv_header; eauto. by rewrite Hr', Hr.
Qed.

Lemma receive_message_good x :
  rcv_msgs (ns_rcv s) = [x] → (∀ y, ns_rcv s ≠ RcvAdd y) → good_receive (receive_step (Some l) (ns_rcv s) (ns_net s)).
Proof using H.
  intros Hr Hna. pose proof (ni_conn _ _ _ _ _ H) as [Hc Hsk _ _ Hss Hok _ _ _ _ _].
  destruct (receive_parts x) as (h & dl & bs & Hx & Hd & Hh & Hw & Hsn & Hq); [rewrite Hr; by apply list_elem_of_singleton|].
  pose proof (ni_rcv _ _ _ _ _ H) as Hro.
  assert (Hblk : ∀ m h' bs', m = n_mem (ns_net s) → message_at m x h' bs' → bs' = bs ∧ h' = h)
    by (intros m h' bs' -> (d' & ? & ?); by simplify_eq).
  destruct (ns_rcv s) as [| | | |y|y st|y|y|y|] eqn:Hpc; try done; injection Hr as ->.
  - destruct Hro as (h0 & bs0 & Hm0 & Hl). destruct (Hblk _ _ _ eq_refl Hm0) as [-> _].
    apply (receive_header_good x h dl bs (decode_header (slice 0 sizeof_header (incoming_buffer sk)))
             (RcvOwner x NET_CONNECTION_STATUS_SUCCESS)); try done.
    + by rewrite Hpc.
    + apply decode_header_ok. rewrite length_slice; [done|]. destruct Hok as (-> & _). unfold sizeof_header, UDP_SOCKET_BUFFER_SIZE. lia.
    + by apply wire_fit_received.
    + intros m Hm. by eexists _, _.
    + cbn [receive_step]. unfold bind. by rewrite (read_header_eq _ _ _ _ _ _ _ _ Hc Hsk Hss Hok Hx).
  - destruct Hro as (h0 & bs0 & Hm0 & Hl). destruct (Hblk _ _ _ eq_refl Hm0) as [-> _].
    apply (receive_header_good x h dl bs (set_owner_addr (incoming_addr sk) h)
             (if bool_decide (st ≠ NET_CONNECTION_STATUS_SUCCESS) then RcvInvalid x else RcvData x)); try done.
    + by rewrite Hpc.
    + apply header_ok_spec in Hh as (? & ? & ? & ?). destruct Hok as (_ & _ & ? & _). by apply header_ok_spec.
    + by case_bool_decide.
    + intros m Hm. case_bool_decide; simpl; [done|]. by eexists _, _.
    + cbn [receive_step]. unfold bind, load, load_msg, store_msg, lift_mem, lift, store. simpl. rewrite Hc, Hsk. simpl. rewrite Hss.
      simpl. rewrite Hx. simpl. rewrite Hx. done.
  - destruct Hro as (h0 & bs0 & Hm0 & Hl). destruct (Hblk _ _ _ eq_refl Hm0) as [-> _].
    cbn [receive_step]. destruct (Z.leb_spec (hdr_length h) MAX_PAYLOAD) as [Hle|Hgt].
    + assert (Hlen : 0 ≤ hdr_length h ≤ MAX_PAYLOAD) by (apply header_ok_spec in Hh as (_ & ? & _); lia).
      destruct (payload_fits _ _ Hlen Hl) as [Hfit' Hfit].
      unfold bind. rewrite (read_data_short_eq _ _ _ _ _ _ _ _ _ Hc Hsk Hss Hok Hx Hd Hlen Hfit).
      eexists (RcvAdd x), _, sk, xs. split; [done|]. split_and!; try done.
      pose proof (net_inv_update s c sk xs ys x h dl bs h
        (splice 0 (slice sizeof_header (Z.to_nat (hdr_length h)) (incoming_buffer sk)) bs) (RcvAdd x) H Hx Hd Hh) as G.
      simpl in G. rewrite (insert_id (m_msgs _)) in G by done. apply G; try done; [|by rewrite Hpc].
      apply wire_fit_received. rewrite length_splice; [done|]. rewrite length_slice; [simpl; lia|].
      destruct Hok as (-> & _). by rewrite <- Hl.
    + unfold bind. rewrite (read_data_long_eq _ _ _ _ _ _ _ Hc Hsk Hx Hgt).
      eexists (RcvInvalid x), _, sk, xs. split; [done|]. split_and!; try done. destruct H as [Hat Hfd Hcaps Hf Hin Hacc Hr Hs].
      unfold locals in Hacc. rewrite Hpc in Hacc. by split.
  - apply (receive_header_good x h dl bs (set_type MESSAGE_TYPE_NONE h) (RcvAdd x)); try done.
    + by rewrite Hpc.
    + by apply header_ok_set_type.
    + cbn [receive_step]. unfold bind. by rewrite (mark_invalid_eq _ _ _ _ Hx).
  - by destruct (Hna x).
Qed.

Lemma receive_add_good x : ns_rcv s = RcvAdd x → good_receive (receive_step (Some l) (ns_rcv s) (ns_net s)).
Proof using H.
  intros Hpc. destruct (receive_parts x) as (h & dl & bs & Hx & Hd & _ & _ & Hsn & Hq);
    [rewrite Hpc; by apply list_elem_of_singleton|].
  destruct H as [Hat Hfd [Hci Hco] Hf Hin Hacc Hr Hs].
  destruct (receive_add_eq (ns_net s) l ls li lo c sk capi capo xs ys x Hci Hat Hf) as (m' & E & Hat' & Hf' & Eb & Em & _);
    [by rewrite Hx|done|].
  unfold good_receive. rewrite Hpc. cbn [receive_step]. unfold bind. rewrite E.
  eexists RcvTest, _, sk, (fifo_enqueue (Z.to_nat capi) x xs). split; [done|]. split_and!; try done. split; simpl; try done.
  - unfold locals; simpl. eapply accounted_enqueue; [lia| |exact Em]. eapply accounted_perm; [|exact Hacc].
    unfold locals. rewrite Hpc. simpl. by rewrite <- Permutation_middle.
  - eapply snd_ok_frame; [exact Hs|done|]. intros z Hz. eapply same_message_delete; [exact Em|done|].
    intros Hzd%fifo_dropped_elem. destruct Hacc as [(_ & Hdj & _)%NoDup_app _]. apply (Hdj z Hzd). unfold locals. set_solver.
Qed.

Lemma receive_step_good :
  ns_rcv s = RcvEnd ∧ receive_step (Some l) (ns_rcv s) (ns_net s) = Blocked ∨
  good_receive (receive_step (Some l) (ns_rcv s) (ns_net s)).
Proof using H.
  destruct (ns_rcv s) as [| |p| |x|x st|x|x|x|] eqn:Hpc; [right; rewrite <- Hpc..|by left].
  - pose proof (ca_conn _ _ _ _ _ _ _ _ _ _ _ (ni_conn _ _ _ _ _ H)) as Hc. rewrite Hpc. cbn [receive_step].
    unfold bind, load. simpl. rewrite Hc. eexists (if is_receiving c then RcvSocket else RcvEnd), (ns_net s), sk, xs.
    split; [done|]. split_and!; try done. destruct H as [Hat Hfd Hcaps Hf Hin Hacc Hr Hs].
    unfold locals in Hacc. rewrite Hpc in Hacc. destruct (is_receiving c); by split.
  - destruct (receive_call_next Hpc) as [E H']. rewrite Hpc, E. by eexists _, _, sk, xs.
  - by eapply receive_socket_good.
  - by apply receive_create_good.
  - apply (receive_message_good x); rewrite Hpc; done.
  - apply (receive_message_good x); rewrite Hpc; done.
  - apply (receive_message_good x); rewrite Hpc; done.
  - apply (receive_message_good x); rewrite Hpc; done.
  - by eapply receive_add_good.
Qed.
End ReceiveStep.

(** *** Steps of the sending thread *)
Section SendStep.
Context (s : net_sys) (c : net_connection_t) (sk : udp_socket_t) (xs ys : list loc).
Hypothesis (H : net_inv s c sk xs ys).

Definition good_send (o : outcome (send_pc * net)) : Prop :=
  ∃ pc n' sk' ys', o = Ok (pc, n') ∧ net_inv (NetSys n' (ns_rcv s) pc (ns_held s)) c sk' xs ys' ∧
    incoming_buffer sk' = incoming_buffer sk.

Lemma send_parts y : y ∈ snd_msgs (ns_snd s) →
  ∃ h dl bs, m_msgs (n_mem (ns_net s)) !! y = Some (Message h (Some dl)) ∧ m_bytes (n_mem (ns_net s)) !! dl = Some bs ∧
    header_ok h = true ∧ wire_fit h (length bs) ∧ (y ∉ rcv_msgs (ns_rcv s)) ∧ (y ∉ xs ++ ys).
Proof using H.
  intros Hy. destruct (message_parts _ _ _ _ _ y H) as (h & dl & bs & ? & ? & ? & ?); [unfold locals; set_solver|].
  destruct (snd_local _ _ _ _ _ y H Hy) as [Hn ?]. exists h, dl, bs. split_and!; try done. set_solver.
Qed.

(** A step that only changes the socket. *)
Lemma net_inv_socket sk' pc' :
  snd_msgs pc' = snd_msgs (ns_snd s) → sock_ok sk' → fd sk' = fd sk → snd_ok (n_mem (ns_net s)) sk' pc' →
  net_inv (NetSys (with_socks (<[ls := sk']> (n_socks (ns_net s))) (ns_net s)) (ns_rcv s) pc' (ns_held s)) c sk' xs ys.
Proof using H.
  intros Hm Hok Hfd Hsnd. destruct H as [Hat Hfd' Hcaps Hf Hi Hacc Hr Hs]. split; simpl; try done.
  - by eapply conn_at_sock.
  - congruence.
  - unfold locals; simpl. rewrite Hm. exact Hacc.
Qed.

(** The message leaves the queue. *)
Lemma send_dequeue_next y ys' : ns_snd s = SndDequeue → ys = y :: ys' →
  ∃ m', send_step (Some l) SndDequeue (ns_net s) = Ok (SndHeader y, with_mem m' (ns_net s)) ∧
    m_msgs m' = m_msgs (n_mem (ns_net s)) ∧ m_bytes m' = m_bytes (n_mem (ns_net s)) ∧
    net_inv (NetSys (with_mem m' (ns_net s)) (ns_rcv s) (SndHeader y) (ns_held s)) c sk xs ys'.
Proof using H.
  intros Hpc Hys. destruct H as [Hat Hfd [Hci Hco] Hf Hin Hacc Hr Hs]. rewrite Hys in Hat, Hacc.
  destruct (conn_at_dequeue _ _ _ _ _ _ _ _ _ _ _ Hat Hco Hf) as (m' & E & Hat' & Hf' & Em & Eb & _).
  unfold locals in Hacc. rewrite Hpc in Hacc. simpl in Hacc, Hat'.
  pose proof Hat as [Hc _ _ Hout _ _ _ _ _ _ _]. exists m'.
  split. { cbn [send_step]. unfold bind, load, lift_mem, lift. simpl. by rewrite Hc, Hout, E. }
  split_and!; [done..|]. split; simpl; try done.
  - apply (accounted_same (n_mem (ns_net s))); [by rewrite Em|]. eapply accounted_perm; [|exact Hacc]. unfold locals; simpl.
    rewrite !(app_assoc ys'). f_equiv. apply Permutation_middle.
  - eapply rcv_ok_frame; [exact Hr|intros; by apply same_message_eq].
Qed.

Lemma send_dequeue_good : ns_snd s = SndDequeue → good_send (send_step (Some l) (ns_snd s) (ns_net s)).
Proof using H.
  intros Hpc. unfold good_send. rewrite Hpc. destruct (decide (ys = [])) as [Hys|Hys].
  - destruct H as [Hat Hfd [Hci Hco] Hf Hin Hacc Hr Hs]. rewrite Hys in Hat, Hacc.
    destruct (conn_at_dequeue _ _ _ _ _ _ _ _ _ _ _ Hat Hco Hf) as (m' & E & Hat' & Hf' & Em & Eb & _).
    pose proof Hat as [Hc _ _ Hout _ _ _ _ _ _ _]. unfold locals in Hacc. rewrite Hpc in Hacc.
    cbn [send_step]. unfold bind, load, lift_mem, lift. simpl. rewrite Hc, Hout, E. simpl.
    eexists SndTest, _, sk, []. split; [done|]. split; [|done]. split; simpl; try done; [by destruct Hat'| |].
    + by apply (accounted_same (n_mem (ns_net s))); [rewrite Em|].
    + eapply rcv_ok_frame; [exact Hr|intros; by apply same_message_eq].
  - assert (∃ y ys', ys = y :: ys') as (y & ys' & Ey) by (destruct ys; [done|by eauto]).
    destruct (send_dequeue_next y ys' Hpc Ey) as (m' & -> & _ & _ & H'). by eexists _, _, sk, ys'.
Qed.

Lemma send_header_next y : ns_snd s = SndHeader y →
  ∃ sk', send_step (Some l) (SndHeader y) (ns_net s)
         = Ok (SndData y, with_socks (<[ls := sk']> (n_socks (ns_net s))) (ns_net s)) ∧
    net_inv (NetSys (with_socks (<[ls := sk']> (n_socks (ns_net s))) (ns_net s)) (ns_rcv s) (SndData y) (ns_held s)) c sk' xs ys ∧
    incoming_buffer sk' = incoming_buffer sk.
Proof using H.
  intros Hpc. destruct (send_parts y) as (h & dl & bs & Hy & Hd & Hh & Hw & _ & _);
    [rewrite Hpc; by apply list_elem_of_singleton|].
  pose proof (ni_conn _ _ _ _ _ H) as [Hc Hsk _ _ Hss Hok _ _ _ _ _].
  exists (set_outcoming_buffer (splice 0 (encode_header h) (outcoming_buffer sk)) sk). split; [|split; [|done]].
  - cbn [send_step]. unfold bind. by rewrite (write_header_eq _ _ _ _ _ _ _ _ Hc Hsk Hss Hok Hy Hh).
  - apply net_inv_socket; rewrite ?Hpc; try done; [by apply header_written_ok|].
    exists h, bs. split; [by exists dl|]. cbn [outcoming_buffer set_outcoming_buffer].
    pose proof (length_encode_header h Hh) as Hl. rewrite take_splice_0 by lia. apply take_ge. lia.
Qed.

Lemma send_data_next y h bs : ns_snd s = SndData y → message_at (n_mem (ns_net s)) y h bs → hdr_length h ≤ MAX_PAYLOAD →
  ∃ sk', send_step (Some l) (SndData y) (ns_net s)
         = Ok (SndAddr y, with_socks (<[ls := sk']> (n_socks (ns_net s))) (ns_net s)) ∧
    net_inv (NetSys (with_socks (<[ls := sk']> (n_socks (ns_net s))) (ns_net s)) (ns_rcv s) (SndAddr y) (ns_held s)) c sk' xs ys ∧
    incoming_buffer sk' = incoming_buffer sk.
Proof using H.
  intros Hpc (dl & Hy & Hd) Hshort. destruct (send_parts y) as (h0 & dl0 & bs0 & Hy0 & Hd0 & Hh & Hw & _ & _);
    [rewrite Hpc; by apply list_elem_of_singleton|].
  rewrite Hy in Hy0. injection Hy0 as <- <-. rewrite Hd in Hd0. injection Hd0 as <-.
  pose proof (ni_conn _ _ _ _ _ H) as [Hc Hsk _ _ Hss Hok _ _ _ _ _].
  pose proof (ni_snd _ _ _ _ _ H) as Hso. rewrite Hpc in Hso. destruct Hso as (h0 & bs0 & (d0 & Hy0 & Hd0) & Hbuf).
  rewrite Hy in Hy0. injection Hy0 as <- <-. rewrite Hd in Hd0. injection Hd0 as <-.
  pose proof (length_encode_header h Hh) as Hle. pose proof (proj1 (header_ok_spec h) Hh) as (_ & Hlb & _ & _).
  assert (Hlen : 0 ≤ hdr_length h ≤ MAX_PAYLOAD) by lia. destruct Hw as [Hw _].
  assert (Hb : (Z.to_nat (hdr_length h) ≤ length bs)%nat) by lia.
  assert (Hpl : length (take (Z.to_nat (hdr_length h)) bs) = Z.to_nat (hdr_length h)) by (rewrite length_take; lia).
  destruct (payload_fits _ _ Hlen eq_refl) as [Hfit _].
  exists (set_outcoming_buffer (splice sizeof_header (take (Z.to_nat (hdr_length h)) bs) (outcoming_buffer sk)) sk).
  split; [|split; [|done]].
  - cbn [send_step]. unfold bind. by rewrite (write_data_short_eq _ _ _ _ _ _ _ _ _ Hc Hsk Hss Hok Hy Hd Hlen Hb).
  - apply net_inv_socket; rewrite ?Hpc; try done.
    + destruct Hok as (? & Ho & ? & ?). split_and!; try done. cbn [outcoming_buffer set_outcoming_buffer].
      rewrite length_splice; [done|]. rewrite Hpl, Ho. lia.
    + exists h, bs. split; [by exists dl|]. split; [done|]. cbn [outcoming_buffer set_outcoming_buffer].
      unfold format_datagram, splice. rewrite Hbuf, app_assoc, take_app_le by (rewrite length_app, Hpl, Hle; lia).
      apply take_ge. rewrite length_app, Hpl, Hle. lia.
Qed.

Lemma send_data_good y : ns_snd s = SndData y → good_send (send_step (Some l) (ns_snd s) (ns_net s)).
Proof using H.
  intros Hpc. destruct (send_parts y) as (h & dl & bs & Hy & Hd & _); [rewrite Hpc; by apply list_elem_of_singleton|].
  rewrite Hpc. destruct (Z.leb_spec (hdr_length h) MAX_PAYLOAD) as [Hshort|Hlong].
  - destruct (send_data_next y h bs Hpc) as (sk' & -> & H' & Hi); [by exists dl|done|]. by eexists _, _, sk', ys.
  - pose proof (ni_conn _ _ _ _ _ H) as [Hc Hsk _ _ _ _ _ _ _ _ _]. cbn [send_step]. unfold bind.
    rewrite (write_data_long_eq _ _ _ _ _ _ _ Hc Hsk Hy Hlong). eexists (SndDelete y), _, sk, ys. split; [done|]. split; [|done].
    destruct H as [Hat Hfd Hcaps Hf Hin Hacc Hr Hs]. unfold locals in Hacc. rewrite Hpc in Hacc. by split.
Qed.

(** The address of the recipient goes into the socket. *)
Lemma send_addr_next y h bs : ns_snd s = SndAddr y → message_at (n_mem (ns_net s)) y h bs →
  let n' := with_socks (<[ls := set_incoming_addr (hdr_owner_addr h) sk]> (n_socks (ns_net s))) (ns_net s) in
  send_step (Some l) (SndAddr y) (ns_net s) = Ok (SndSend y, n') ∧
  net_inv (NetSys n' (ns_rcv s) (SndSend y) (ns_held s)) c (set_incoming_addr (hdr_owner_addr h) sk) xs ys.
Proof using H.
  intros Hpc (dl & Hy & Hd) n'. destruct (send_parts y) as (h0 & dl0 & bs0 & Hy0 & Hd0 & Hh & _ & _ & _);
    [rewrite Hpc; by apply list_elem_of_singleton|].
  rewrite Hy in Hy0. injection Hy0 as <- <-.
  pose proof (ni_conn _ _ _ _ _ H) as [Hc Hsk _ _ Hss Hok _ _ _ _ _].
  pose proof (ni_snd _ _ _ _ _ H) as Hso. rewrite Hpc in Hso. split.
  - cbn [send_step]. unfold bind, load, load_msg, lift_mem, lift, store. simpl. rewrite Hc. simpl. rewrite Hy. simpl.
    rewrite Hsk. simpl. rewrite Hss. simpl. rewrite Hss, with_mem_id. done.
  - apply net_inv_socket; rewrite ?Hpc; try done.
    destruct Hok as (? & ? & ? & ?). apply header_ok_spec in Hh as (_ & _ & ? & _). by split_and!.
Qed.

(** What [sendto] puts on the wire. *)
Lemma send_send_eq y : ns_snd s = SndSend y →
  ∃ h bs, message_at (n_mem (ns_net s)) y h bs ∧
    send_step (Some l) (SndSend y) (ns_net s)
    = Ok (SndDelete y, with_log (n_log (ns_net s) ++ [EvSend d (incoming_addr sk) (format_datagram h bs)]) (ns_net s)).
Proof using H.
  intros Hpc. destruct (send_parts y) as (h & dl & bs & Hy & Hd & Hh & Hw & _ & _);
    [rewrite Hpc; by apply list_elem_of_singleton|].
  pose proof (ni_conn _ _ _ _ _ H) as [Hc Hsk _ _ Hss Hok _ _ _ _ _].
  pose proof (ni_snd _ _ _ _ _ H) as Hso. rewrite Hpc in Hso.
  destruct Hso as (h0 & bs0 & (d0 & Hy0 & Hd0) & Hlen & Hbuf). rewrite Hy in Hy0. injection Hy0 as <- <-. rewrite Hd in Hd0. injection Hd0 as <-.
  exists h, bs. split; [by exists dl|]. cbn [send_step]. unfold bind, load, load_msg, lift_mem, lift. simpl.
  rewrite Hc. simpl. rewrite Hy. simpl. rewrite Hsk, with_mem_id.
  destruct (send_cases (ns_net s) ls sk (hdr_length h + Z.of_nat sizeof_header) Hss Hok) as (ok & fs & Hfs & E).
  { unfold MAX_PAYLOAD, UDP_SOCKET_BUFFER_SIZE, sizeof_header in *. lia. }
  destruct (Hfs (ni_faults _ _ _ _ _ H)) as [-> ->]. rewrite E, Hbuf, (ni_fd _ _ _ _ _ H).
  rewrite (with_faults_nil _ (ni_faults _ _ _ _ _ H)). simpl. by rewrite with_mem_id.
Qed.

Lemma send_step_good :
  ns_snd s = SndEnd ∧ send_step (Some l) (ns_snd s) (ns_net s) = Blocked ∨
  good_send (send_step (Some l) (ns_snd s) (ns_net s)).
Proof using H.
  destruct (ns_snd s) as [| |y|y|y|y|y|] eqn:Hpc; [right; rewrite <- Hpc..|by left].
  - pose proof (ca_conn _ _ _ _ _ _ _ _ _ _ _ (ni_conn _ _ _ _ _ H)) as Hc. rewrite Hpc. cbn [send_step].
    unfold bind, load. simpl. rewrite Hc. eexists (if is_sending c then SndDequeue else SndEnd), (ns_net s), sk, ys.
    split; [done|]. split; [|done]. destruct H as [Hat Hfd Hcaps Hf Hin Hacc Hr Hs].
    unfold locals in Hacc. rewrite Hpc in Hacc. destruct (is_sending c); by split.
  - by apply send_dequeue_good.
  - rewrite Hpc. destruct (send_header_next y Hpc) as (sk' & -> & H' & Hi). by eexists _, _, sk', ys.
  - by eapply send_data_good.
  - destruct (send_parts y) as (h & dl & bs & Hy & Hd & _); [rewrite Hpc; by apply list_elem_of_singleton|].
    destruct (send_addr_next y h bs Hpc) as [E H']; [by exists dl|]. rewrite Hpc, E. by eexists _, _, _, ys.
  - destruct (send_send_eq y Hpc) as (h & bs & _ & E). rewrite Hpc, E.
    eexists (SndDelete y), _, sk, ys. split; [done|]. split; [|done].
    destruct H as [Hat Hfd Hcaps Hf Hin Hacc Hr Hs]. unfold locals in Hacc. rewrite Hpc in Hacc. split; simpl; try done.
    by destruct Hat.
  - destruct (send_parts y) as (h & dl & bs & Hy & _ & _ & _ & Hnr & Hq); [rewrite Hpc; by apply list_elem_of_singleton|].
    destruct H as [Hat Hfd Hcaps Hf Hin Hacc Hr Hs].
    rewrite Hpc. cbn [send_step]. unfold bind, lift_mem, lift. rewrite (message_delete_live _ _ _ Hy).
    eexists SndTest, _, sk, ys. split; [done|]. split; [|done]. split; simpl; try done.
    + by apply conn_at_delete.
    + unfold locals; simpl. eapply accounted_delete; [|done]. eapply accounted_perm; [|exact Hacc].
      unfold locals. rewrite Hpc. simpl. rewrite !app_assoc. by rewrite <- Permutation_middle.
    + eapply rcv_ok_frame; [exact Hr|]. intros z Hz. apply (same_message_delete _ _ [y]); [done|done|set_solver].
Qed.
End SendStep.

(** *** Steps of the program *)
Lemma conn_at_take n c sk xs ys :
  conn_at n l c sk ls li lo capi capo xs ys → 2 ≤ capi → m_faults (n_mem n) = [] →
  ∃ m', net_connection_receive_nonblocking (Some l) n = Ok ((fifo_dequeue xs).1, with_mem m' n) ∧
    conn_at (with_mem m' n) l c sk ls li lo capi capo (fifo_dequeue xs).2 ys ∧
    m_faults m' = [] ∧ m_msgs m' = m_msgs (n_mem n) ∧ m_bytes m' = m_bytes (n_mem n).
Proof using Type.
  intros Hat Hci Hf. pose proof Hat as [Hc Hsk Hin Hout Hs Hok Hne Hqi Hqo [Hnd Hal] Hmem].
  destruct (nonblocking_refines li capi Hci (n_mem n) xs Hqi Hf) as (m' & E & Hqi' & Hf' & Eb & En & Em & Hk).
  exists m'. split.
  { unfold net_connection_receive_nonblocking, bind, load. simpl. rewrite Hc, Hin. unfold lift_mem, lift. by rewrite E. }
  split_and!; try done. split; simpl; try done.
  - eapply queue_at_frame; [exact Hqo|by apply Hk|]. by rewrite Em.
  - split; [|intros z Hz; rewrite Em; apply Hal; destruct xs; [done|set_solver]].
    destruct xs as [|x xs]; [done|]. by apply NoDup_cons in Hnd as [_ ?].
  - destruct Hqi as (q & Hl & _). destruct Hqi' as (q' & Hl' & _). by eapply (mem_ok_delete_all _ _ _ [] li q q').
Qed.

Lemma conn_at_give n c sk xs ys x :
  conn_at n l c sk ls li lo capi capo xs ys → 2 ≤ capo → m_faults (n_mem n) = [] →
  is_Some (m_msgs (n_mem n) !! x) → (x ∉ xs ++ ys) →
  ∃ m', net_connection_send (Some l) (Some x) n = Ok (NET_CONNECTION_STATUS_SUCCESS, with_mem m' n) ∧
    conn_at (with_mem m' n) l c sk ls li lo capi capo xs (fifo_enqueue (Z.to_nat capo) x ys) ∧
    m_faults m' = [] ∧ m_msgs m' = delete_all (fifo_dropped (Z.to_nat capo) ys) (m_msgs (n_mem n)) ∧
    m_bytes m' = m_bytes (n_mem n).
Proof using Type.
  intros Hat Hco Hf Hx Hnx. pose proof Hat as [Hc Hsk Hin Hout Hs Hok Hne Hqi Hqo Hlive Hmem].
  destruct (enqueue_refines lo capo Hco (n_mem n) ys x Hqo Hf Hx) as (m' & E & Hqo' & Hf' & Eb & En & Em & Hk); [set_solver|].
  exists m'. split.
  { unfold net_connection_send, bind, load. simpl. rewrite Hc, Hsk, Hout.
    unfold net_connection_add_to_queue, lift_mem, lift, bind. by rewrite E. }
  split_and!; try done.
  assert (Hlive' : live m' (fifo_enqueue (Z.to_nat capo) x ys ++ xs)).
  { eapply live_app_enq; [|exact Em]. destruct Hlive as [Hnd Hal]. split.
    - rewrite <- Permutation_middle. apply NoDup_cons. rewrite (Permutation_app_comm ys). split; done.
    - intros y. rewrite elem_of_app, elem_of_cons. intros [?|[->|?]]; [apply Hal; set_solver|done|apply Hal; set_solver]. }
  split; simpl; try done.
  - eapply queue_at_frame; [exact Hqi|by apply Hk|]. intros y Hy _. apply Hlive'. set_solver.
  - destruct Hlive' as [Hnd Hal]. split; [by rewrite (Permutation_app_comm xs)|set_solver].
  - destruct Hqo as (q & Hl & _). destruct Hqo' as (q' & Hl' & _). by eapply (mem_ok_delete_all _ _ _ _ lo q q').
Qed.

(** Taking one of the messages that the program holds out of the account. *)
Lemma held_out s c sk xs ys x :
  net_inv s c sk xs ys → x ∈ ns_held s →
  xs ++ ys ++ locals s ≡ₚ x :: xs ++ ys ++ rcv_msgs (ns_rcv s) ++ snd_msgs (ns_snd s) ++ filter (.≠ x) (ns_held s).
Proof using Type.
  intros H Hx. destruct (held_local _ _ _ _ _ _ H Hx) as (_ & _ & Hnd). unfold locals.
  assert (HP : ns_held s ≡ₚ x :: filter (.≠ x) (ns_held s)).
  { apply NoDup_Permutation; [done| |].
    - apply NoDup_cons. split; [rewrite list_elem_of_filter; naive_solver|by apply NoDup_filter].
    - intros y. rewrite elem_of_cons, list_elem_of_filter. destruct (decide (y = x)); naive_solver. }
  rewrite HP at 1. rewrite !app_assoc. by rewrite <- Permutation_middle.
Qed.

Definition good_act (a : net_action) s c sk xs ys : Prop :=
  ∃ s' c' sk' xs' ys', ⟦ net_act (Some l) a ⟧ s ⇓ tt, s' ∧ net_inv s' c' sk' xs' ys' ∧
    (a ≠ StepReceive → a ≠ StepSend → n_log (ns_net s') = n_log (ns_net s) ∧ sk' = sk ∧ ns_rcv s' = ns_rcv s ∧ ns_snd s' = ns_snd s).

Lemma take_good s c sk xs ys : net_inv s c sk xs ys → good_act Take s c sk xs ys.
Proof using Type.
  intros H. pose proof H as [Hat Hfd [Hci Hco] Hf Hin Hacc Hr Hs].
  destruct (conn_at_take _ _ _ _ _ Hat Hci Hf) as (m' & E & Hat' & Hf' & Em & Eb).
  eexists (NetSys (with_mem m' (ns_net s)) (ns_rcv s) (ns_snd s) (ns_held s ++ option_list (fifo_dequeue xs).1)), c, sk, _, ys.
  split; [|split; [|done]].
  - unfold returns, net_act, in_net, lift, bind. simpl. by rewrite E.
  - split; simpl; try done.
    + apply (accounted_same (n_mem (ns_net s))); [by rewrite Em|]. eapply accounted_perm; [|exact Hacc].
      unfold locals; simpl. destruct xs as [|x xs']; simpl; [by rewrite app_nil_r|].
      rewrite !app_assoc. apply Permutation_cons_append.
    + eapply rcv_ok_frame; [exact Hr|intros; by apply same_message_eq].
    + eapply snd_ok_frame; [exact Hs|done|intros; by apply same_message_eq].
Qed.

Lemma give_good s c sk xs ys x : net_inv s c sk xs ys → x ∈ ns_held s → good_act (Give x) s c sk xs ys.
Proof using Type.
  intros H Hx. pose proof H as [Hat Hfd [Hci Hco] Hf Hin Hacc Hr Hs]. destruct (held_local _ _ _ _ _ _ H Hx) as (Hl1 & Hl2 & _).
  destruct (conn_at_give _ _ _ _ _ x Hat Hco Hf) as (m' & E & Hat' & Hf' & Em & Eb);
    [apply Hacc; unfold locals; set_solver|done|].
  eexists (NetSys (with_mem m' (ns_net s)) (ns_rcv s) (ns_snd s) (filter (.≠ x) (ns_held s))), c, sk, xs, _.
  assert (Hkeep : ∀ z, z ∈ rcv_msgs (ns_rcv s) ++ snd_msgs (ns_snd s) → same_message (n_mem (ns_net s)) m' z).
  { intros z Hz. eapply same_message_delete; [exact Em|done|]. intros Hzd%fifo_dropped_elem.
    destruct Hacc as [Hnd _]. rewrite app_assoc in Hnd. apply NoDup_app in Hnd as (_ & Hdj & _).
    apply (Hdj z); [set_solver|]. unfold locals. set_solver. }
  split; [|split; [|done]].
  - unfold returns, net_act, in_net, lift, bind. simpl. by rewrite E.
  - split; simpl; try done.
    + unfold locals; simpl. eapply accounted_perm; [apply Permutation_app_swap_app|].
      eapply (accounted_enqueue (Z.to_nat capo)); [lia| |exact Em]. eapply accounted_perm; [|exact Hacc].
      rewrite (held_out _ _ _ _ _ x H Hx). rewrite <- Permutation_middle. constructor.
      apply Permutation_app_swap_app.
    + eapply rcv_ok_frame; [exact Hr|]. intros z Hz. apply Hkeep. set_solver.
    + eapply snd_ok_frame; [exact Hs|done|]. intros z Hz. apply Hkeep. set_solver.
Qed.

Lemma make_good s c sk xs ys ty k :
  net_inv s c sk xs ys → 0 ≤ ty < 2 ^ 32 → 4 ≤ k → good_act (Make ty k) s c sk xs ys.
Proof using Type.
  intros H Hty Hk. pose proof H as [Hat Hfd Hcaps Hf Hin Hacc Hr Hs].
  destruct (message_create_spec ty k (n_mem (ns_net s))) as (p & m' & E & Hh & Hq & Hf' & Hp);
    [apply (ca_mem _ _ _ _ _ _ _ _ _ _ _ Hat)|lia|]. destruct (Hf' Hf) as [Hf1 _].
  eexists (NetSys (with_mem m' (ns_net s)) (ns_rcv s) (ns_snd s) (ns_held s ++ option_list p)), c, sk, xs, ys.
  split; [|split; [|done]].
  { unfold returns, net_act, in_net, lift_mem, lift, bind. simpl. by rewrite E. }
  destruct p as [x|].
  - destruct Hp as (dl & a & bs & Hx & Hd & _ & Hlen & Ha & Hmax & Em & Eb). split; simpl; try done.
    + eapply conn_at_create; [exact Hat|done..| |].
      * apply header_ok_spec. simpl. unfold UINT32_MAX, sizeof_header in *. split_and!; try done; lia.
      * unfold wire_fit. simpl. rewrite Hlen. lia.
    + eapply accounted_perm; [|eapply accounted_insert; [exact Hacc|done|exact Em]].
      unfold locals; simpl. rewrite !app_assoc. apply Permutation_cons_append.
    + eapply rcv_ok_frame; [exact Hr|]. intros z Hz. by eapply same_message_create.
    + eapply snd_ok_frame; [exact Hs|done|]. intros z Hz. by eapply same_message_create.
  - destruct Hp as [Em Eb]. split; simpl; try done.
    + destruct Hat as [Hc Hsk Hi Ho Hss Hok Hne Hqi Hqo Hlive [Hheap Hown Hinj]]. split; simpl; try done.
      * eapply queue_at_frame; [exact Hqi|by rewrite Hq|by rewrite Em].
      * eapply queue_at_frame; [exact Hqo|by rewrite Hq|by rewrite Em].
      * eapply live_frame; [exact Hlive|by rewrite Em].
      * split; [done|by rewrite Em, Eb|by rewrite Em].
    + apply (accounted_same (n_mem (ns_net s))); [by rewrite Em|]. unfold locals; simpl. by rewrite app_nil_r.
    + eapply rcv_ok_frame; [exact Hr|intros; by apply same_message_eq].
    + eapply snd_ok_frame; [exact Hs|done|intros; by apply same_message_eq].
Qed.

Lemma drop_good s c sk xs ys x : net_inv s c sk xs ys → x ∈ ns_held s → good_act (Drop x) s c sk xs ys.
Proof using Type.
  intros H Hx. pose proof H as [Hat Hfd Hcaps Hf Hin Hacc Hr Hs]. destruct (held_local _ _ _ _ _ _ H Hx) as (Hl1 & Hl2 & _).
  destruct (message_parts _ _ _ _ _ x H) as (h & dl & bs & Hm & _); [unfold locals; set_solver|].
  eexists (NetSys (with_mem (with_msgs (delete x (m_msgs (n_mem (ns_net s)))) (n_mem (ns_net s))) (ns_net s))
             (ns_rcv s) (ns_snd s) (filter (.≠ x) (ns_held s))), c, sk, xs, ys.
  split; [|split; [|done]].
  { unfold returns, net_act, in_net, lift_mem, lift, bind. simpl. by rewrite (message_delete_live _ _ _ Hm). }
  split; simpl; try done.
  - by apply conn_at_delete.
  - unfold locals; simpl. eapply accounted_delete; [|done]. eapply accounted_perm; [|exact Hacc].
    apply (held_out _ _ _ _ _ x H Hx).
  - eapply rcv_ok_frame; [exact Hr|]. intros z Hz. apply (same_message_delete _ _ [x]); [done|done|set_solver].
  - eapply snd_ok_frame; [exact Hs|done|]. intros z Hz. apply (same_message_delete _ _ [x]); [done|done|set_solver].
Qed.

Lemma change_good s c sk xs ys x h' bs' :
  net_inv s c sk xs ys → x ∈ ns_held s → header_ok h' = true → wire_fit h' (length bs') →
  good_act (Change x h' bs') s c sk xs ys.
Proof using Type.
  intros H Hx Hh Hw. destruct (held_local _ _ _ _ _ _ H Hx) as (Hl1 & Hl2 & _).
  destruct (message_parts _ _ _ _ _ x H) as (h & dl & bs & Hm & Hd & _); [unfold locals; set_solver|].
  set (m' := with_msgs (<[x := Message h' (Some dl)]> (m_msgs (n_mem (ns_net s))))
               (with_bytes (<[dl := bs']> (m_bytes (n_mem (ns_net s)))) (n_mem (ns_net s)))).
  eexists (NetSys (with_mem m' (ns_net s)) (ns_rcv s) (ns_snd s) (ns_held s)), c, sk, xs, ys.
  split; [|split; [|done]].
  { unfold returns, net_act, in_net, lift_mem, lift, bind, change_message, bind, load, store. simpl. rewrite Hm. simpl.
    rewrite Hd. simpl. rewrite Hd. simpl. by rewrite Hm. }
  eapply net_inv_update; try done; [set_solver|]. intros _. eapply rcv_ok_frame; [apply H|].
  intros z Hz. eapply same_message_update; [|done|done|set_solver].
  apply (ca_mem _ _ _ _ _ _ _ _ _ _ _ (ni_conn _ _ _ _ _ H)).
Qed.

(** Clearing a flag. *)
Lemma flags_good s c sk xs ys c' :
  net_inv s c sk xs ys → socket c' = socket c → incoming_message_queue c' = incoming_message_queue c →
  outgoing_message_queue c' = outgoing_message_queue c →
  net_inv (set_net (with_conns (<[l := c']> (n_conns (ns_net s))) (ns_net s)) s) c' sk xs ys.
Proof using Type.
  intros [Hat Hfd Hcaps Hf Hin Hacc Hr Hs] E1 E2 E3. split; simpl; try done.
  destruct Hat. split; simpl; try done; [apply lookup_insert_eq|by rewrite E1|by rewrite E2|by rewrite E3].
Qed.

Lemma act_good a s c sk xs ys :
  net_inv s c sk xs ys → allowed a s = true →
  net_act (Some l) a s = Blocked ∧ (a = StepReceive ∧ ns_rcv s = RcvEnd ∨ a = StepSend ∧ ns_snd s = SndEnd) ∨
  good_act a s c sk xs ys.
Proof using Type.
  intros H Ha. pose proof (ca_conn _ _ _ _ _ _ _ _ _ _ _ (ni_conn _ _ _ _ _ H)) as Hc.
  destruct a as [| | |x|ty k|x|x h bs| |]; simpl in Ha.
  - destruct (receive_step_good s c sk xs ys H) as [[Hpc E]|(pc & n' & sk' & xs' & E & H' & _)].
    + left. split; [|by left]. unfold net_act, in_net, lift, bind. simpl. by rewrite E.
    + right. exists (NetSys n' pc (ns_snd s) (ns_held s)), c, sk', xs', ys. split; [|done].
      unfold returns, net_act, in_net, lift, bind. simpl. by rewrite E.
  - destruct (send_step_good s c sk xs ys H) as [[Hpc E]|(pc & n' & sk' & ys' & E & H' & _)].
    + left. split; [|by right]. unfold net_act, in_net, lift, bind. simpl. by rewrite E.
    + right. exists (NetSys n' (ns_rcv s) pc (ns_held s)), c, sk', xs, ys'. split; [|done].
      unfold returns, net_act, in_net, lift, bind. simpl. by rewrite E.
  - right. by apply take_good.
  - right. apply give_good; [done|by apply bool_decide_eq_true_1 in Ha].
  - right. apply andb_true_iff in Ha as [[H0 H1]%andb_true_iff H2]. apply make_good; [done|lia|lia].
  - right. apply drop_good; [done|by apply bool_decide_eq_true_1 in Ha].
  - right. apply andb_true_iff in Ha as [[H0%bool_decide_eq_true_1 H1]%andb_true_iff H2%bool_decide_eq_true_1].
    by apply change_good.
  - right. exists (set_net (with_conns (<[l := set_receiving false (receive_thread c) c]> (n_conns (ns_net s))) (ns_net s)) s),
      (set_receiving false (receive_thread c) c), sk, xs, ys. split; [|split; [by eapply flags_good|done]].
    unfold returns, net_act, in_net, lift, bind, load, store. simpl. by rewrite Hc, Hc.
  - right. exists (set_net (with_conns (<[l := set_sending false (send_thread c) c]> (n_conns (ns_net s))) (ns_net s)) s),
      (set_sending false (send_thread c) c), sk, xs, ys. split; [|split; [by eapply flags_good|done]].
    unfold returns, net_act, in_net, lift, bind, load, store. simpl. by rewrite Hc, Hc.
Qed.

Lemma net_reaches_inv s0 s c sk xs ys :
  net_inv s0 c sk xs ys → net_reaches (Some l) s0 s → ∃ c' sk' xs' ys', net_inv s c' sk' xs' ys'.
Proof using Type.
  intros H0 Hr. induction Hr as [|s s' a Hr IH Ha E]; [by exists c, sk, xs, ys|].
  destruct IH as (c1 & sk1 & xs1 & ys1 & H1).
  destruct (act_good a s c1 sk1 xs1 ys1 H1 Ha) as [[E' _]|(s2 & c2 & sk2 & xs2 & ys2 & E' & H2 & _)];
    unfold returns in *; rewrite E' in E; [done|]. injection E as <-. by exists c2, sk2, xs2, ys2.
Qed.
End Threads.
