(* ===== verification/NetInterleave.v ===== *)
(** * NetInterleave: what can and cannot happen between the threads of a connection

    Theorems on the steps of [NetSteps]: a turn of a thread is the sequence of its steps, every
    interleaving is safe and loses no message, an answer goes to its owner unless a [recvfrom], whenever
    it was called, delivers a datagram between the two statements that set the address and send, and
    a request is attributed to another client if the sending thread comes in between [recvfrom] and
    the read of the address. *)
From S2P Require Import Prelude Layout Memory Message MessageQueue SocketUdp NetConnection NetTurns NetSteps.

Local Open Scope Z_scope.

(** ** A turn is the sequence of its steps *)
Section Turns.
Context (connection : ptr).

(** The steps of a thread from [pc] to its next test of the flag; [fuel] bounds their number. *)
Fixpoint run_receive (fuel : nat) (pc : receive_pc) : M net unit :=
  match pc, fuel with
  | RcvTest, _ => ret tt
  | _, O => no_fuel
  | _, S fuel => let* pc := receive_step connection pc in run_receive fuel pc
  end.
Fixpoint run_send (fuel : nat) (pc : send_pc) : M net unit :=
  match pc, fuel with
  | SndTest, _ => ret tt
  | _, O => no_fuel
  | _, S fuel => let* pc := send_step connection pc in run_send fuel pc
  end.

(** Computations that do not change connections. *)
Definition keeps_conns {A} (m : M net A) : Prop := ∀ n a n', m n = Ok (a, n') → n_conns n' = n_conns n.

Lemma keeps_bind {A B} (m : M net A) (f : A → M net B) :
  keeps_conns m → (∀ a, keeps_conns (f a)) → keeps_conns (bind m f).
Proof using Type. intros Hm Hf n b n' E. apply bind_inv in E as (a & n1 & E1 & E2). by rewrite (Hf _ _ _ _ E2), (Hm _ _ _ E1). Qed.
Lemma keeps_ret {A} (a : A) : keeps_conns (ret a).
Proof using Type. by intros n b n' [= _ <-]. Qed.
Lemma keeps_lift {A} (m : M mem A) : keeps_conns (lift_mem m).
Proof using Type. intros n a n'. unfold lift_mem, lift. destruct (m (n_mem n)) as [[]| | | |]; try done. by intros [= _ <-]. Qed.
Lemma keeps_load (T : Type) `{!Store net T} p : keeps_conns (load (T := T) p).
Proof using Type. intros n a n'. unfold load. destruct p; [|done]. destruct (_ !! _); [|done]. by intros [= _ <-]. Qed.
Lemma keeps_store_sock p (sk : udp_socket_t) : keeps_conns (store p sk).
Proof using Type. intros n a n'. unfold store. destruct p; [|done]. destruct (_ !! _); [|done]. by intros [= _ <-]. Qed.
Lemma keeps_copy_out off k bs : keeps_conns (copy_out off k bs).
Proof using Type. unfold copy_out. case_bool_decide; [apply keeps_ret|]. by intros ? ? ?. Qed.
Lemma keeps_copy_in off b1 b2 : keeps_conns (copy_in off b1 b2).
Proof using Type. unfold copy_in. case_bool_decide; [apply keeps_ret|]. by intros ? ? ?. Qed.
End Turns.

Create HintDb conns.
#[export] Hint Resolve keeps_ret keeps_lift keeps_load keeps_store_sock keeps_copy_out keeps_copy_in : conns.

(** Walks through a computation. *)
Ltac keeps_conns_tac :=
  repeat match goal with
  | |- keeps_conns (bind _ _) => apply keeps_bind; [|intros ?]
  | |- keeps_conns (match ?x with _ => _ end) => destruct x
  | |- keeps_conns (let _ := _ in _) => cbv zeta
  end; auto with conns.

Section Keeps.
Context (connection : ptr).
Lemma keeps_read_header x : keeps_conns (net_connection_read_header connection x).
Proof. unfold net_connection_read_header, load_msg, store_msg. keeps_conns_tac. Qed.
Lemma keeps_read_data x : keeps_conns (net_connection_read_data connection x).
Proof. unfold net_connection_read_data, load_msg, store_msg. keeps_conns_tac. Qed.
Lemma keeps_write_header x : keeps_conns (net_connection_write_header connection x).
Proof. unfold net_connection_write_header, load_msg, store_msg. keeps_conns_tac. Qed.
Lemma keeps_write_data x : keeps_conns (net_connection_write_data connection x).
Proof. unfold net_connection_write_data, load_msg, store_msg. keeps_conns_tac. Qed.
Lemma keeps_receive p : keeps_conns (udp_socket_receive_message p None).
Proof.
  unfold udp_socket_receive_message, sys_recvfrom. keeps_conns_tac.
  all: by intros ? ? ? [= _ <-].
Qed.
End Keeps.

(** Loading the connection again gives what it gave before. *)
Lemma reload {A} connection (m : M net A) n c n1 a n2 :
  keeps_conns m → load connection n = Ok (c, n1) → m n1 = Ok (a, n2) → load connection n2 = Ok (c : net_connection_t, n2).
Proof.
  intros Hm. unfold load. destruct connection as [l|]; [|done]. simpl. destruct (n_conns n !! l) as [c0|] eqn:E; [|done].
  intros [= -> ->] E2. by rewrite (Hm _ _ _ E2), E.
Qed.
Lemma load_pure (T : Type) `{!Store net T} p n (x : T) n' : load p n = Ok (x, n') → n' = n.
Proof. unfold load. destruct p; [|done]. destruct (_ !! _); [|done]. by intros [= _ ->]. Qed.

Ltac after_ret :=
  match goal with |- bind (ret ?v) ?k ?n = _ => change (bind (ret v) k n) with (k v n) end.

Section Equal.
Context (connection : ptr).

Lemma run_receive_step fuel pc n :
  pc ≠ RcvTest → run_receive connection (S fuel) pc n = bind (receive_step connection pc) (run_receive connection fuel) n.
Proof. by destruct pc. Qed.
Lemma run_send_step fuel pc n :
  pc ≠ SndTest → run_send connection (S fuel) pc n = bind (send_step connection pc) (run_send connection fuel) n.
Proof. by destruct pc. Qed.

(** From the point where the message is complete. *)
Lemma run_add fuel x n : run_receive connection (S fuel) (RcvAdd x) n = receive_add connection (Some x) n.
Proof.
  rewrite run_receive_step by done. cbn [receive_step]. rewrite bind_assoc.
  unfold bind at 1. destruct (receive_add connection (Some x) n) as [[[] n']| | | |]; by destruct fuel.
Qed.
Lemma run_invalid fuel x n :
  run_receive connection (S (S fuel)) (RcvInvalid x) n = (mark_invalid (Some x) ;; receive_add connection (Some x)) n.
Proof.
  rewrite run_receive_step by done. cbn [receive_step]. rewrite bind_assoc. apply bind_ext. intros [] n1 _. apply run_add.
Qed.

Lemma run_receive_eq n : run_receive connection 8 RcvSocket n = receive_iteration connection n.
Proof.
  unfold receive_iteration, receive_fill. rewrite run_receive_step by done. cbn [receive_step]. rewrite bind_assoc.
  apply bind_ext. intros c n1 E1. pose proof (load_pure _ _ _ _ _ E1) as ->. after_ret.
  rewrite run_receive_step by done. cbn [receive_step]. rewrite bind_assoc.
  apply bind_ext. intros st n2 E2. pose proof (reload _ _ _ _ _ _ _ (keeps_receive _) E1 E2) as R2.
  change (run_receive connection 6 (if bool_decide (st ≠ UDP_SOCKET_STATUS_SUCCESS) then RcvTest else RcvCreate) n2 =
    (if bool_decide (st ≠ UDP_SOCKET_STATUS_SUCCESS) then ret tt else
     let* message := lift_mem (message_create MESSAGE_TYPE_NONE (Z.of_nat UDP_SOCKET_BUFFER_SIZE)) in
     match message with None => ret tt | Some _ => receive_fill connection c message end) n2).
  case_bool_decide as Hst; [done|]. rewrite run_receive_step by done. cbn [receive_step]. rewrite bind_assoc.
  apply bind_ext. intros [x|] n3 E3; [|done]. pose proof (reload _ _ _ _ _ _ _ (keeps_lift _) R2 E3) as R3.
  change (run_receive connection 5 (RcvHeader x) n3 = receive_fill connection c (Some x) n3).
  unfold receive_fill. rewrite run_receive_step by done. cbn [receive_step]. rewrite bind_assoc.
  apply bind_ext. intros hs n4 E4. pose proof (reload _ _ _ _ _ _ _ (keeps_read_header _ _) R3 E4) as R4.
  change (run_receive connection 4 (RcvOwner x hs) n4 = 
    (let* s := load (socket c) in
     let* msg := load_msg (Some x) in
     store_msg (Some x) (Message (set_owner_addr (incoming_addr s) (header msg)) (data msg)) ;;
     if bool_decide (hs ≠ NET_CONNECTION_STATUS_SUCCESS)
     then mark_invalid (Some x) ;; receive_add connection (Some x)
     else
       let* data_status := net_connection_read_data connection (Some x) in
       if bool_decide (data_status ≠ NET_CONNECTION_STATUS_SUCCESS)
       then mark_invalid (Some x) ;; receive_add connection (Some x)
       else receive_add connection (Some x)) n4).
  rewrite run_receive_step by done. cbn [receive_step]. rewrite bind_assoc, (bind_ok _ _ _ _ _ R4), bind_assoc.
  apply bind_ext. intros sk n5 E5. rewrite bind_assoc. apply bind_ext. intros msg n6 E6. rewrite bind_assoc.
  apply bind_ext. intros [] n7 E7.
  after_ret.
  case_bool_decide; [apply run_invalid|]. rewrite run_receive_step by done. cbn [receive_step]. rewrite bind_assoc.
  apply bind_ext. intros ds n8 E8.
  after_ret.
  case_bool_decide; [apply run_invalid|apply run_add].
Qed.

Lemma run_delete fuel y n : run_send connection (S fuel) (SndDelete y) n = lift_mem (message_delete (Some y)) n.
Proof.
  rewrite run_send_step by done. cbn [send_step]. rewrite bind_assoc.
  unfold bind at 1. destruct (lift_mem _ n) as [[[] n']| | | |]; by destruct fuel.
Qed.

Lemma run_send_eq n : run_send connection 6 SndDequeue n = send_iteration connection n.
Proof.
  unfold send_iteration. rewrite run_send_step by done. cbn [send_step]. rewrite bind_assoc.
  apply bind_ext. intros c n1 E1. pose proof (load_pure _ _ _ _ _ E1) as ->. rewrite bind_assoc.
  apply bind_ext. intros [y|] n2 E2.
  2: { rewrite bind_assoc. unfold bind at 1. by destruct (sleep _ n2) as [[[] n']| | | |]. }
  pose proof (reload _ _ _ _ _ _ _ (keeps_lift _) E1 E2) as R2.
  after_ret.
  rewrite run_send_step by done. cbn [send_step]. rewrite bind_assoc.
  apply bind_ext. intros hs n3 E3. pose proof (reload _ _ _ _ _ _ _ (keeps_write_header _ _) R2 E3) as R3.
  after_ret.
  case_bool_decide; [apply run_delete|]. rewrite run_send_step by done. cbn [send_step]. rewrite bind_assoc.
  apply bind_ext. intros ds n4 E4. pose proof (reload _ _ _ _ _ _ _ (keeps_write_data _ _) R3 E4) as R4.
  after_ret.
  case_bool_decide; [apply run_delete|]. rewrite run_send_step by done. cbn [send_step].
  rewrite bind_assoc, (bind_ok _ _ _ _ _ R4), bind_assoc.
  apply bind_ext. intros msg n5 E5. pose proof (reload _ _ _ _ _ _ _ (keeps_lift _) R4 E5) as R5. rewrite bind_assoc.
  apply bind_ext. intros sk n6 E6. pose proof (load_pure _ _ _ _ _ E6) as ->. rewrite bind_assoc.
  apply bind_ext. intros [] n7 E7. pose proof (reload _ _ _ _ _ _ _ (keeps_store_sock _ _) R5 E7) as R7.
  after_ret.
  rewrite run_send_step by done. cbn [send_step]. rewrite bind_assoc, (bind_ok _ _ _ _ _ R7), bind_assoc.
  assert (Em : load_msg (Some y) n7 = Ok (msg, n7)).
  { unfold load_msg, lift_mem, lift, load in *. simpl in *. destruct (m_msgs (n_mem n4) !! y) as [msg'|] eqn:Ey; [|done].
    injection E5 as -> <-. unfold store in E7. destruct (socket c) as [ls|]; [|done]. simpl in E7, E6. rewrite ?with_mem_id in *.
    destruct (n_socks n4 !! ls); [|done]. injection E7 as <-. simpl. rewrite Ey. by destruct n4. }
  rewrite (bind_ok _ _ _ _ _ Em), bind_assoc. apply bind_ext. intros st n8 E8.
  after_ret. apply run_delete.
Qed.
End Equal.

(** ** Between the store of the recipient and the send *)

(** Actions of the other threads in which [recvfrom] delivers no datagram: it may be called, be blocked
    and time out. *)
Inductive quiet (connection : ptr) (s0 : net_sys) : net_sys → Prop :=
  | quiet_refl : quiet connection s0 s0
  | quiet_act s s' a :
      quiet connection s0 s → allowed a s = true → a ≠ StepSend → (a = StepReceive → ns_rcv s' ≠ RcvCreate) →
      ⟦ net_act connection a ⟧ s ⇓ tt, s' → quiet connection s0 s'.

Section Window.
Context (l ls li lo : loc) (d capi capo : Z).
Implicit Types (s : net_sys).

Lemma quiet_inv s0 s c sk xs ys :
  net_inv l ls li lo d capi capo s0 c sk xs ys → quiet (Some l) s0 s → ∃ c' xs' ys', net_inv l ls li lo d capi capo s c' sk xs' ys' ∧ ns_snd s = ns_snd s0.
Proof using Type.
  intros H0 Hq. induction Hq as [|s s' a Hq IH Ha Hns Hnr E]; [by exists c, xs, ys|].
  destruct IH as (c1 & xs1 & ys1 & H1 & Hs1). unfold returns in E.
  assert (a = StepReceive ∨ a ≠ StepReceive) as [->|Hne] by (destruct a; auto).
  - destruct (receive_step_good l ls li lo d capi capo s c1 sk xs1 ys1 H1) as [[_ E']|(pc & n' & sk' & xs' & E' & H' & _ & Hsk)].
    + unfold net_act, in_net, lift, bind in E. simpl in E. by rewrite E' in E.
    + unfold net_act, in_net, lift, bind in E. simpl in E. rewrite E' in E. injection E as <-.
      rewrite (Hsk (Hnr eq_refl)) in H'. by exists c1, xs', ys1.
  - destruct (act_good l ls li lo d capi capo a s c1 sk xs1 ys1 H1 Ha) as [[E' _]|(s2 & c2 & sk2 & xs2 & ys2 & E' & H2 & Hrest)];
      unfold returns in *; rewrite E' in E; [done|]. injection E as <-.
    destruct (Hrest Hne Hns) as (_ & -> & _ & Hsnd). exists c2, xs2, ys2. by rewrite Hsnd.
Qed.

(** The buffer determines the datagram. *)
Lemma same_datagram s s' c c' sk sk' xs xs' ys ys' y h bs h' bs' :
  net_inv l ls li lo d capi capo s c sk xs ys → net_inv l ls li lo d capi capo s' c' sk' xs' ys' → outcoming_buffer sk' = outcoming_buffer sk →
  ns_snd s = SndAddr y → ns_snd s' = SndSend y →
  message_at (n_mem (ns_net s)) y h bs → message_at (n_mem (ns_net s')) y h' bs' →
  format_datagram h' bs' = format_datagram h bs.
Proof using Type.
  intros H H' Eb Hp Hp' (dl & Hy & Hd) (dl' & Hy' & Hd').
  pose proof (ni_snd _ _ _ _ _ _ _ _ _ _ _ _ H) as Hs. rewrite Hp in Hs.
  pose proof (ni_snd _ _ _ _ _ _ _ _ _ _ _ _ H') as Hs'. rewrite Hp' in Hs'.
  destruct Hs as (h0 & bs0 & (d0 & Hy0 & Hd0) & Hl & Hbuf). rewrite Hy in Hy0. injection Hy0 as <- <-.
  rewrite Hd in Hd0. injection Hd0 as <-.
  destruct Hs' as (h0 & bs0 & (d0 & Hy0 & Hd0) & Hl' & Hbuf'). rewrite Hy' in Hy0. injection Hy0 as <- <-.
  rewrite Hd' in Hd0. injection Hd0 as <-. rewrite Eb in Hbuf'.
  destruct (send_parts _ _ _ _ _ _ _ _ _ _ _ _ H y) as (h0 & d0 & bs0 & Hy0 & _ & Hh & _); [rewrite Hp; by apply list_elem_of_singleton|].
  rewrite Hy in Hy0. injection Hy0 as <- <-.
  destruct (send_parts _ _ _ _ _ _ _ _ _ _ _ _ H' y) as (h0 & d0' & bs0' & Hy0 & _ & Hh' & _); [rewrite Hp'; by apply list_elem_of_singleton|].
  rewrite Hy' in Hy0. injection Hy0 as <- <-.
  assert (Hpre : ∀ hh b (m : nat), header_ok hh = true → 0 ≤ hdr_length hh →
    take (Z.to_nat (hdr_length hh + Z.of_nat sizeof_header)) (outcoming_buffer sk) = format_datagram hh b →
    take sizeof_header (outcoming_buffer sk) = encode_header hh).
  { intros hh b _ Hhh Hll E. pose proof (length_encode_header hh Hhh) as Hle.
    rewrite <- (take_take_prefix sizeof_header (Z.to_nat (hdr_length hh + Z.of_nat sizeof_header))) by lia.
    rewrite E. unfold format_datagram. rewrite take_app_le by lia. apply take_ge. lia. }
  assert (encode_header h = encode_header h') as Eh.
  { rewrite <- (Hpre h bs 0%nat) by (done || lia). by rewrite <- (Hpre h' bs' 0%nat) by (done || lia). }
  assert (h = h') as <-.
  { rewrite <- (decode_encode_header h), <- (decode_encode_header h') by done. by rewrite Eh. }
  by rewrite <- Hbuf, <- Hbuf'.
Qed.

Lemma net_run_cons a actions s s' :
  allowed a s = true → ⟦ net_act (Some l) a ⟧ s ⇓ tt, s' → net_run (Some l) (a :: actions) s = net_run (Some l) actions s'.
Proof using Type. intros Ha E. simpl. rewrite Ha. simpl. unfold returns in E. by rewrite E. Qed.

Lemma act_receive s pc n' :
  receive_step (Some l) (ns_rcv s) (ns_net s) = Ok (pc, n') →
  ⟦ net_act (Some l) StepReceive ⟧ s ⇓ tt, NetSys n' pc (ns_snd s) (ns_held s).
Proof using Type. intros E. unfold returns, net_act, in_net, lift, bind. simpl. by rewrite E. Qed.
Lemma act_send s pc n' :
  send_step (Some l) (ns_snd s) (ns_net s) = Ok (pc, n') →
  ⟦ net_act (Some l) StepSend ⟧ s ⇓ tt, NetSys n' (ns_rcv s) pc (ns_held s).
Proof using Type. intros E. unfold returns, net_act, in_net, lift, bind. simpl. by rewrite E. Qed.

Lemma net_run_receive n rc sd hs pc n' actions :
  receive_step (Some l) rc n = Ok (pc, n') →
  net_run (Some l) (StepReceive :: actions) (NetSys n rc sd hs) = net_run (Some l) actions (NetSys n' pc sd hs).
Proof using Type. intros E. apply net_run_cons; [done|]. by apply (act_receive (NetSys n rc sd hs)). Qed.
Lemma net_run_send n rc sd hs pc n' actions :
  send_step (Some l) sd n = Ok (pc, n') →
  net_run (Some l) (StepSend :: actions) (NetSys n rc sd hs) = net_run (Some l) actions (NetSys n' rc pc hs).
Proof using Type. intros E. apply net_run_cons; [done|]. by apply (act_send (NetSys n rc sd hs)). Qed.
End Window.

(** ** Who sent it *)
Section Owner.
Context (l ls li lo : loc) (d capi capo : Z).
Implicit Types (s : net_sys).

(** The receiving thread copies the header and then stores the address that the socket has by then. *)
Lemma owner_steps s c sk xs ys x :
  net_inv l ls li lo d capi capo s c sk xs ys → ns_rcv s = RcvHeader x →
  ∃ s' h bs, net_run (Some l) [StepReceive; StepReceive] s = Some s' ∧ ns_rcv s' = RcvData x ∧
    message_at (n_mem (ns_net s')) x h bs ∧ hdr_owner_addr h = incoming_addr sk.
Proof using Type.
  intros H Hpc. pose proof (ni_conn _ _ _ _ _ _ _ _ _ _ _ _ H) as [Hc Hsk _ _ Hss Hok _ _ _ _ _].
  destruct (receive_parts _ _ _ _ _ _ _ _ _ _ _ _ H x) as (h & dl & bs & Hx & Hd & _);
    [rewrite Hpc; by apply list_elem_of_singleton|].
  pose proof (read_header_eq _ _ _ _ _ _ _ _ Hc Hsk Hss Hok Hx) as E1.
  set (h1 := decode_header _) in E1. set (n1 := with_mem _ _) in E1.
  assert (Hx1 : m_msgs (n_mem n1) !! x = Some (Message h1 (Some dl))) by apply lookup_insert_eq.
  rewrite (net_run_cons l StepReceive _ s (NetSys n1 (RcvOwner x NET_CONNECTION_STATUS_SUCCESS) (ns_snd s) (ns_held s)));
    [|done|apply act_receive; rewrite Hpc; cbn [receive_step]; unfold bind; by rewrite E1].
  set (h2 := set_owner_addr (incoming_addr sk) h1).
  set (n2 := with_mem (with_msgs (<[x := Message h2 (Some dl)]> (m_msgs (n_mem n1))) (n_mem n1)) n1).
  erewrite (net_run_cons l StepReceive _ _ (NetSys n2 (RcvData x) (ns_snd s) (ns_held s))); [|done|].
  2: { apply (act_receive l (NetSys n1 (RcvOwner x NET_CONNECTION_STATUS_SUCCESS) (ns_snd s) (ns_held s))). simpl. unfold bind, load, load_msg, store_msg, lift_mem, lift, store. simpl. rewrite Hc, Hsk. simpl.
       rewrite Hss. simpl. rewrite lookup_insert_eq. simpl. rewrite lookup_insert_eq. simpl. unfold n2, n1. simpl.
       by rewrite !insert_insert_eq. }
  eexists _, h2, bs. split; [done|]. split; [done|]. split; [|done]. exists dl. split; [apply lookup_insert_eq|done].
Qed.
End Owner.

(** A connection with one message to send, both threads inside their loops, and a datagram from
    another client. *)
Definition stranger : sockaddr_in := SockAddr AF_INET 6000 16777343 (replicate 8 NUL).
Definition busy_sys : net_sys :=
  NetSys (with_in {[3 := [RecvData (encode_header hello_header) stranger]]} busy_net) RcvSocket SndDequeue [].

Lemma busy_sys_inv :
  net_inv 4 1 2 3 3 4 4 busy_sys (conn_of busy_net 4) (sock_of busy_net 1) [] [5%positive].
Proof.
  assert (Hb : conn_at busy_net 4 (conn_of busy_net 4) (sock_of busy_net 1) 1 2 3 4 4 [] [5%positive])
    by (apply conn_atb_sound; by vm_compute).
  split; [by destruct Hb|by vm_compute|done|by vm_compute| | |done|done].
  - intros k rs. unfold busy_sys. simpl. intros [<- <-]%lookup_singleton_Some. by repeat constructor.
  - assert (Hd : dom (m_msgs (n_mem busy_net)) = {[5%positive]}) by (apply (bool_decide_unpack _); by vm_compute).
    split; [apply NoDup_singleton|]. intros x. change (n_mem (ns_net busy_sys)) with (n_mem busy_net).
    change ([] ++ [5%positive] ++ locals busy_sys) with [5%positive].
    by rewrite <- elem_of_dom, Hd, elem_of_singleton, list_elem_of_singleton.
Qed.

(** The thread whose step [a] would be has ended. *)
Definition ended (a : net_action) (s : net_sys) : Prop :=
  a = StepReceive ∧ ns_rcv s = RcvEnd ∨ a = StepSend ∧ ns_snd s = SndEnd.

(** Both queues are well formed, and every message in memory is in one of them or in the hands of
    one thread. *)
Definition in_one_place (li lo : loc) (capi capo : Z) (s : net_sys) : Prop :=
  ∃ xs ys, queue_at (n_mem (ns_net s)) li capi xs ∧ queue_at (n_mem (ns_net s)) lo capo ys ∧
    NoDup (xs ++ ys ++ locals s) ∧ ∀ x, is_Some (m_msgs (n_mem (ns_net s)) !! x) ↔ x ∈ xs ++ ys ++ locals s.

(** The receiving thread has a message whose owner is [owner]. *)
Definition received_from (owner : sockaddr_in) (s : net_sys) : Prop :=
  ∃ x h bs, ns_rcv s = RcvData x ∧ message_at (n_mem (ns_net s)) x h bs ∧ hdr_owner_addr h = owner.

(** ** Properties *)

(** The two translations of a loop iteration agree: in every state the steps of the receiving thread
    from the call of [recvfrom] to its next test of the flag, not interrupted, have the outcome of
    the turn [receive_iteration], and the steps of the sending thread that of [send_iteration]; eight
    and six steps are enough. *)
Lemma turns_are_steps connection n :
  run_receive connection 8 RcvSocket n = receive_iteration connection n ∧
  run_send connection 6 SndDequeue n = send_iteration connection n.
Proof. split; [apply run_receive_eq|apply run_send_eq]. Qed.

(** C5: the threads of a connection are safe in every interleaving.  However the statements of the
    receiving thread, the sending thread and the program, which uses only messages that it holds,
    are interleaved and whatever arrives from the network, no step is undefined and none blocks
    (but for a thread that has ended), both queues stay well formed, and every message in memory is
    in one queue or in the hands of one thread, once. *)
Theorem net_threads_safe l ls li lo d capi capo s0 s c sk xs ys a :
  net_inv l ls li lo d capi capo s0 c sk xs ys → net_reaches (Some l) s0 s → allowed a s = true →
  ((∃ s', ⟦ net_act (Some l) a ⟧ s ⇓ tt, s') ∨
   net_act (Some l) a s = Blocked ∧ ended a s) ∧ in_one_place li lo capi capo s.
Proof.
  intros H0 Hr Ha. destruct (net_reaches_inv _ _ _ _ _ _ _ _ _ _ _ _ _ H0 Hr) as (c1 & sk1 & xs1 & ys1 & H1). split.
  - destruct (act_good _ _ _ _ _ _ _ a s c1 sk1 xs1 ys1 H1 Ha) as [[E Hw]|(s' & _ & _ & _ & _ & E & _)]; [by right|left; by eauto].
  - exists xs1, ys1. pose proof (ni_conn _ _ _ _ _ _ _ _ _ _ _ _ H1) as [_ _ _ _ _ _ _ Hqi Hqo _ _].
    destruct (ni_acc _ _ _ _ _ _ _ _ _ _ _ _ H1). by split_and!.
Qed.

Lemma net_threads_safe_witness :
  ∃ s s', net_run (Some 4%positive) [StepReceive; StepSend; StepReceive; Make 1 8; StepSend] busy_sys = Some s ∧
    ⟦ net_act (Some 4%positive) StepReceive ⟧ s ⇓ tt, s'.
Proof.
  destruct (net_run (Some 4%positive) [StepReceive; StepSend; StepReceive; Make 1 8; StepSend] busy_sys) as [s|] eqn:E;
    [|by vm_compute in E].
  destruct (net_threads_safe 4 1 2 3 3 4 4 busy_sys s (conn_of busy_net 4) (sock_of busy_net 1) [] [5%positive] StepReceive)
    as [[[s' Hs']|[_ [[_ Hp]|[Hp _]]]] _]; [apply busy_sys_inv|eapply net_run_reaches; [constructor|exact E]|done| | |done].
  - exists s, s'. exact (conj eq_refl Hs').
  - exfalso. vm_compute in E. injection E as <-. done.
Defined.

(** C17: where an answer goes.  In every interleaving, once the sending thread has stored the address
    of the recipient, then whatever all the threads do before the send, as long as no [recvfrom]
    delivers a datagram (it may be blocked in a call, time out and be called again), the datagram
    goes to the owner of the message and has exactly its header and payload.  If a [recvfrom] in
    which the receiving thread is blocked, called before the store or after it, does deliver a
    datagram, the answer goes to the sender of that datagram instead. *)
Theorem reply_goes_to_owner l ls li lo d capi capo s0 s1 s2 s3 c sk xs ys y h bs :
  net_inv l ls li lo d capi capo s0 c sk xs ys → net_reaches (Some l) s0 s1 →
  ns_snd s1 = SndAddr y → message_at (n_mem (ns_net s1)) y h bs →
  ⟦ net_act (Some l) StepSend ⟧ s1 ⇓ tt, s2 → quiet (Some l) s2 s3 →
  (∃ s4, net_run (Some l) [StepSend] s3 = Some s4 ∧
     n_log (ns_net s4) = n_log (ns_net s3) ++ [EvSend d (hdr_owner_addr h) (format_datagram h bs)]) ∧
  (∀ p payload from rest,
     ns_rcv s3 = RcvCalled p → n_in (ns_net s3) !! d = Some (RecvData payload from :: rest) →
     ∃ s4, net_run (Some l) [StepReceive; StepSend] s3 = Some s4 ∧
       n_log (ns_net s4) = n_log (ns_net s3) ++ [EvSend d from (format_datagram h bs)]).
Proof.
  intros H0 Hr Hpc Hm E2 Hq.
  destruct (net_reaches_inv _ _ _ _ _ _ _ _ _ _ _ _ _ H0 Hr) as (c1 & sk1 & xs1 & ys1 & H1).
  destruct (send_addr_next _ _ _ _ _ _ _ _ _ _ _ _ H1 y h bs Hpc Hm) as [E H2].
  unfold returns, net_act, in_net, lift, bind in E2. simpl in E2. rewrite Hpc, E in E2. injection E2 as <-.
  destruct (quiet_inv _ _ _ _ _ _ _ _ _ _ _ _ _ H2 Hq) as (c3 & xs3 & ys3 & H3 & Hp3). simpl in Hp3. split.
  - destruct (send_send_eq _ _ _ _ _ _ _ _ _ _ _ _ H3 y Hp3) as (h3 & bs3 & Hm3 & E3).
    eexists. split; [by erewrite net_run_cons by (done || (apply act_send; rewrite Hp3; exact E3))|]. simpl. do 3 f_equal.
    by eapply (same_datagram _ _ _ _ _ _ _ s1 s3).
  - intros p payload from rest Hpr Hin. pose proof (ni_rcv _ _ _ _ _ _ _ _ _ _ _ _ H3) as Hls.
    rewrite Hpr in Hls. simpl in Hls. subst p.
    destruct (receive_socket_next _ _ _ _ _ _ _ _ _ _ _ _ H3 _ _ _ Hpr Hin) as (n4 & E4 & _ & Hlog4 & H4).
    destruct (send_send_eq _ _ _ _ _ _ _ _ _ _ _ _ H4 y Hp3) as (h4 & bs4 & Hm4 & E5). simpl in E5.
    eexists. split.
    { erewrite net_run_cons; [|done|apply act_receive; rewrite Hpr; exact E4].
      erewrite net_run_send; [|rewrite Hp3; exact E5]. done. }
    simpl. rewrite Hlog4. do 3 f_equal. by eapply (same_datagram _ _ _ _ _ _ _ s1 (NetSys n4 RcvCreate (ns_snd s3) (ns_held s3))).
Qed.

(** The receiving thread calls [recvfrom] before the answer is taken from the queue. *)
Lemma reply_goes_to_owner_witness :
  ∃ s2 s4 s4',
    net_run (Some 4%positive) [StepReceive; StepSend; StepSend; StepSend; StepSend] busy_sys = Some s2 ∧
    ns_rcv s2 = RcvCalled (Some 1%positive) ∧
    net_run (Some 4%positive) [StepSend] s2 = Some s4 ∧
    n_log (ns_net s4) = [EvSend 3 peer (encode_header hello_header ++ hello)] ∧
    net_run (Some 4%positive) [StepReceive; StepSend] s2 = Some s4' ∧
    n_log (ns_net s4') = [EvSend 3 stranger (encode_header hello_header ++ hello)].
Proof.
  destruct (net_run (Some 4%positive) [StepReceive; StepSend; StepSend; StepSend] busy_sys) as [s1|] eqn:E1; [|by vm_compute in E1].
  destruct (net_act (Some 4%positive) StepSend s1) as [[[] s2]| | | |] eqn:E2;
    [|by vm_compute in E1; injection E1 as <-; vm_compute in E2..].
  assert (E12 : net_run (Some 4%positive) [StepReceive; StepSend; StepSend; StepSend; StepSend] busy_sys = Some s2)
    by (vm_compute in E1; injection E1 as <-; vm_compute in E2; injection E2 as <-; by vm_compute).
  assert (Hs2 : ns_rcv s2 = RcvCalled (Some 1%positive) ∧ n_log (ns_net s2) = [] ∧
                n_in (ns_net s2) !! 3 = Some [RecvData (encode_header hello_header) stranger])
    by (vm_compute in E12; injection E12 as <-; by vm_compute).
  destruct Hs2 as (Hr & Hl & Hin).
  destruct (reply_goes_to_owner 4 1 2 3 3 4 4 busy_sys s1 s2 s2 (conn_of busy_net 4) (sock_of busy_net 1) [] [5%positive]
              5 hello_header (hello ++ replicate 3 NUL)) as ((s4 & E4 & Hlog) & Hlate).
  - apply busy_sys_inv.
  - eapply net_run_reaches; [constructor|exact E1].
  - vm_compute in E1. by injection E1 as <-.
  - vm_compute in E1. injection E1 as <-. by exists 6%positive.
  - exact E2.
  - constructor.
  - destruct (Hlate _ _ _ _ Hr Hin) as (s4' & E4' & Hlog'). rewrite Hl in Hlog, Hlog'.
    exists s2, s4, s4'. exact (conj E12 (conj Hr (conj E4 (conj Hlog (conj E4' Hlog'))))).
Defined.

(** C38: a request can be attributed to another client.  If the sending thread stores the address of
    its recipient after [recvfrom] has taken a datagram and before the receiving thread reads the
    address of the sender, the message made from that datagram gets the address of the recipient:
    the answer to it will go there.  Without the interruption it gets the address of its sender. *)
Theorem request_from_wrong_client l ls li lo d capi capo s c sk xs ys y h bs payload from rest :
  net_inv l ls li lo d capi capo s c sk xs (y :: ys) → ns_rcv s = RcvSocket → ns_snd s = SndDequeue →
  n_in (ns_net s) !! d = Some (RecvData payload from :: rest) →
  message_at (n_mem (ns_net s)) y h bs → hdr_length h ≤ MAX_PAYLOAD →
  (∃ s', net_run (Some l) [StepReceive; StepReceive; StepReceive; StepReceive; StepReceive] s = Some s' ∧ received_from from s') ∧
  (∃ s', net_run (Some l) [StepReceive; StepReceive; StepSend; StepSend; StepSend; StepSend; StepReceive; StepReceive; StepReceive] s
         = Some s' ∧ received_from (hdr_owner_addr h) s').
Proof.
  intros H Hr Hs Hin Hm Hl. destruct (receive_call_next _ _ _ _ _ _ _ _ _ _ _ _ H Hr) as [E0 Hcall].
  pose proof (receive_socket_next _ _ _ _ _ _ _ _ _ _ _ _ Hcall _ _ _ eq_refl Hin) as (n1 & E1 & Em1 & _ & H1). cbn [ns_net ns_snd ns_held] in E1, Em1, H1.
  assert (Hrun1 : ∀ acts, net_run (Some l) (StepReceive :: StepReceive :: acts) s
                          = net_run (Some l) acts (NetSys n1 RcvCreate (ns_snd s) (ns_held s))).
  { intros acts. erewrite net_run_cons; [|done|apply act_receive; rewrite Hr; exact E0].
    by rewrite (net_run_receive _ _ _ _ _ _ _ _ E1). }
  split.
  - destruct (receive_create_next _ _ _ _ _ _ _ _ _ _ _ _ H1 eq_refl) as (x & n2 & E2 & _ & H2).
    destruct (owner_steps _ _ _ _ _ _ _ _ _ _ _ _ x H2 eq_refl) as (s' & h' & bs' & E3 & Hpc & Hmsg & Ho).
    exists s'. rewrite Hrun1.
    rewrite (net_run_receive _ _ _ _ _ _ _ _ E2). split; [exact E3|]. by exists x, h', bs'.
  - rewrite <- Em1 in Hm. change n1 with (ns_net (NetSys n1 RcvCreate (ns_snd s) (ns_held s))) in Hm.
    destruct (send_dequeue_next _ _ _ _ _ _ _ _ _ _ _ _ H1 y ys Hs eq_refl) as (m2 & E2 & Ems & Ebs & H2).
    assert (Hm2 : message_at m2 y h bs) by (destruct Hm as (dl & ? & ?); exists dl; by rewrite Ems, Ebs).
    destruct (send_header_next _ _ _ _ _ _ _ _ _ _ _ _ H2 y eq_refl) as (sk3 & E3 & H3 & _).
    destruct (send_data_next _ _ _ _ _ _ _ _ _ _ _ _ H3 y h bs eq_refl Hm2 Hl) as (sk4 & E4 & H4 & _).
    destruct (send_addr_next _ _ _ _ _ _ _ _ _ _ _ _ H4 y h bs eq_refl Hm2) as [E5 H5].
    destruct (receive_create_next _ _ _ _ _ _ _ _ _ _ _ _ H5 eq_refl) as (x & n6 & E6 & _ & H6).
    destruct (owner_steps _ _ _ _ _ _ _ _ _ _ _ _ x H6 eq_refl) as (s' & h' & bs' & E7 & Hpc & Hmsg & Ho).
    exists s'. rewrite Hrun1.
    rewrite Hs, (net_run_send _ _ _ _ _ _ _ _ E2).
    rewrite (net_run_send _ _ _ _ _ _ _ _ E3). rewrite (net_run_send _ _ _ _ _ _ _ _ E4).
    rewrite (net_run_send _ _ _ _ _ _ _ _ E5). rewrite (net_run_receive _ _ _ _ _ _ _ _ E6).
    split; [exact E7|]. by exists x, h', bs'.
Qed.

Lemma request_from_wrong_client_witness :
  ∃ s', net_run (Some 4%positive) [StepReceive; StepReceive; StepSend; StepSend; StepSend; StepSend; StepReceive; StepReceive; StepReceive]
          busy_sys = Some s' ∧ received_from peer s' ∧ peer ≠ stranger.
Proof.
  destruct (request_from_wrong_client 4 1 2 3 3 4 4 busy_sys (conn_of busy_net 4) (sock_of busy_net 1) [] [] 5
              hello_header (hello ++ replicate 3 NUL) (encode_header hello_header) stranger [])
    as [_ (s' & E & Ho)];
    [apply busy_sys_inv|done|done|by vm_compute|by exists 6%positive|by vm_compute|].
  exists s'. split; [exact E|]. split; [exact Ho|done].
Defined.
