(* ===== verification/NetRace.v ===== *)
(** * NetRace: the address field that both threads of a connection write

    [udp_socket_send] sends to [incoming_addr] of the socket, which the sending thread sets from
    the owner of the message (network/net_connection.c, line 110) and which [recvfrom] in the
    receiving thread overwrites.  Nothing orders the two.  [send_iteration_with] is the turn of
    the sending thread with another thread's step between the two statements. *)
From S2P Require Import Prelude Layout Memory Message MessageQueue SocketUdp NetConnection NetTurns.

Local Open Scope Z_scope.

(** Lines 86-124 with [mid] between the assignment of the address and [udp_socket_send]. *)
Definition send_iteration_with (mid : M net unit) (connection : ptr) : M net unit :=
  let* c := load connection in
  let* message := lift_mem (message_queue_dequeue_nonblocking (outgoing_message_queue c)) in
  match message with
  | None => sleep (receive_timeout_seconds c)
  | Some _ =>
      let* header_status := net_connection_write_header connection message in
      if bool_decide (header_status ≠ NET_CONNECTION_STATUS_SUCCESS)
      then lift_mem (message_delete message)
      else
        let* data_status := net_connection_write_data connection message in
        if bool_decide (data_status ≠ NET_CONNECTION_STATUS_SUCCESS)
        then lift_mem (message_delete message)
        else
          let* msg := load_msg message in
          let* s := load (socket c) in
          store (socket c) (set_incoming_addr (hdr_owner_addr (header msg)) s) ;;
          mid ;;
          let* msg := load_msg message in
          udp_socket_send (socket c) (hdr_length (header msg) + Z.of_nat sizeof_header) ;;
          lift_mem (message_delete message)
  end.

(** What the receiving thread does there: [udp_socket_receive_message] (line 23). *)
Definition receive_datagram (connection : ptr) : M net unit :=
  let* c := load connection in
  udp_socket_receive_message (socket c) None ;;
  ret tt.

(** The rest of the turn after [mid]. *)
Definition send_finish (usocket message : ptr) : M net unit :=
  let* msg := load_msg message in
  udp_socket_send usocket (hdr_length (header msg) + Z.of_nat sizeof_header) ;;
  lift_mem (message_delete message).

(** The split turn is the turn: with nothing in between the two are equal in every state. *)
Lemma send_iteration_skip connection n :
  send_iteration_with (ret tt) connection n = send_iteration connection n.
Proof.
  unfold send_iteration_with, send_iteration. apply bind_ext. intros c n1 _.
  apply bind_ext. intros [y|] n2 _; [|done].
  apply bind_ext. intros st1 n3 _. case_bool_decide; [done|].
  apply bind_ext. intros st2 n4 _. case_bool_decide; [done|].
  apply bind_ext. intros msg n5 E5. apply bind_ext. intros s n6 E6. apply bind_ext. intros [] n7 E7.
  rewrite (bind_ok _ _ n7 tt n7) by done.
  assert (load_msg (Some y) n7 = Ok (msg, n7)) as E; [|by rewrite (bind_ok _ _ _ _ _ E)].
  unfold load_msg, lift_mem, lift, load in *. simpl in *.
  destruct (m_msgs (n_mem n4) !! y) as [msg'|] eqn:Ey; [|done]. injection E5 as -> <-.
  destruct (socket c) as [ls|]; [|done]. destruct (n_socks _ !! ls) eqn:Es in E6; [|done]. injection E6 as -> <-.
  unfold store in E7. simpl in E7, Es. rewrite Es in E7. injection E7 as <-. simpl. rewrite Ey. by destruct n4.
Qed.

Section Race.
Context (n : net) (l ls li lo y d : loc) (c : net_connection_t) (s : udp_socket_t).
Context (capi capo : Z) (xs ys : list loc) (h : message_header_t) (bs : list byte).
Hypothesis (Hcap : 2 ≤ capo).
Hypothesis (Hf : m_faults (n_mem n) = []).
Hypothesis (Hat : conn_at n l c s ls li lo capi capo xs (y :: ys)).
Hypothesis (Hy : m_msgs (n_mem n) !! y = Some (Message h (Some d))).
Hypothesis (Hd : m_bytes (n_mem n) !! d = Some bs).
Hypothesis (Hl : hdr_length h ≤ MAX_PAYLOAD).

Lemma race_facts : header_ok h = true ∧ 0 ≤ hdr_length h ≤ MAX_PAYLOAD ∧
  (Z.to_nat (hdr_length h) ≤ length bs)%nat.
Proof using Hat Hy Hd Hl.
  destruct (mem_ok_live _ _ _ _ (ca_mem _ _ _ _ _ _ _ _ _ _ _ Hat) Hy) as (h' & d' & bs' & [= <- <-] & Hd' & Hh & [Hw _]).
  rewrite Hd in Hd'. injection Hd' as <-. pose proof (proj1 (header_ok_spec h) Hh) as (_ & Hlb & _ & _).
  split_and!; [done|lia|lia|lia].
Qed.

(** Up to the race the turn has filled the buffer and set the address. *)
Lemma send_iteration_with_eq mid :
  ∃ m1, m_faults m1 = [] ∧ m_msgs m1 = m_msgs (n_mem n) ∧
    let n3 := with_socks (<[ls := sent s h bs]> (n_socks n)) (with_mem m1 n) in
    conn_at n3 l c (sent s h bs) ls li lo capi capo xs ys ∧
    send_iteration_with mid (Some l) n = (mid ;; send_finish (Some ls) (Some y)) n3.
Proof using Hcap Hf Hat Hy Hd Hl.
  destruct race_facts as (Hh & Hl' & Hb).
  destruct (conn_at_dequeue _ _ _ _ _ _ _ _ _ _ _ Hat Hcap Hf) as (m1 & E & Hat1 & Hf1 & Em & Eb & _).
  exists m1. split; [done|]. split; [done|]. destruct Hat as [Hc Hsk _ Hout Hs Hok _ _ _ _ _].
  simpl in Hat1, E. rewrite <- Em in Hy. rewrite <- Eb in Hd. cbv zeta.
  set (n3 := with_socks _ _).
  assert (Hat3 : conn_at n3 l c (sent s h bs) ls li lo capi capo xs ys)
    by (apply (conn_at_sock (with_mem m1 n) l ls li lo c s); [done|by apply sent_ok]).
  split; [exact Hat3|].
  unfold send_iteration_with, bind at 1, load at 1. simpl. rewrite Hc, Hout.
  unfold bind at 1, lift_mem at 1, lift at 1. rewrite E. unfold bind at 1.
  rewrite (write_header_eq (with_mem m1 n) l ls y d c s h Hc Hsk Hs Hok Hy Hh).
  set (s1 := set_outcoming_buffer _ s). set (n2 := with_socks _ (with_mem m1 n)).
  assert (Hat2 : conn_at n2 l c s1 ls li lo capi capo xs ys) by (eapply conn_at_sock; [exact Hat1|by apply header_written_ok]).
  rewrite bool_decide_eq_false_2 by (by intros []). unfold bind at 1.
  destruct Hat2 as [Hc2 _ _ _ Hs2 Hok2 _ _ _ _ _].
  rewrite (write_data_short_eq n2 l ls y d c s1 h bs Hc2 Hsk Hs2 Hok2 Hy Hd Hl' Hb).
  rewrite bool_decide_eq_false_2 by (by intros []).
  rewrite Hsk. fold (send_finish (Some ls) (Some y)).
  unfold load_msg, lift_mem, lift, bind at 1 2 3, load, store. simpl. rewrite Hy. simpl.
  rewrite !insert_insert_eq, lookup_insert_eq. simpl. rewrite lookup_insert_eq. simpl.
  rewrite insert_insert_eq. done.
Qed.

(** Sending from a state where the socket is [sk], whose outgoing buffer is ready. *)
Lemma send_finish_eq n3 sk :
  n_socks n3 !! ls = Some sk → sock_ok sk → outcoming_buffer sk = outcoming_buffer (sent s h bs) →
  m_faults (n_mem n3) = [] → m_msgs (n_mem n3) = m_msgs (n_mem n) →
  send_finish (Some ls) (Some y) n3
  = Ok (tt, with_mem (with_msgs (delete y (m_msgs (n_mem n3))) (n_mem n3))
        (with_log (n_log n3 ++ [EvSend (fd sk) (incoming_addr sk) (format_datagram h bs)]) n3)).
Proof using Hat Hy Hd Hl.
  intros Hs3 Hok3 Hbuf Hf3 Em3. destruct race_facts as (Hh & Hl' & Hb).
  assert (Hy3 : m_msgs (n_mem n3) !! y = Some (Message h (Some d))) by by rewrite Em3.
  unfold send_finish, bind at 1, load_msg, lift_mem, lift, load. simpl. rewrite Hy3, with_mem_id. cbn [header].
  destruct (send_cases n3 ls sk (hdr_length h + Z.of_nat sizeof_header) Hs3 Hok3)
    as (ok & fs & Hfs & E3).
  { unfold MAX_PAYLOAD, UDP_SOCKET_BUFFER_SIZE, sizeof_header in *. lia. }
  destruct (Hfs Hf3) as [-> ->]. unfold bind. rewrite E3, Hbuf.
  rewrite sent_datagram by (done || apply Hat). cbv zeta. rewrite (with_faults_nil _ Hf3), with_mem_id.
  cbn [n_mem with_log]. by rewrite (message_delete_live (n_mem n3) y _ Hy3).
Qed.
End Race.

(** With nothing in between, the turn is the one of the sending thread. *)
Lemma send_iteration_with_ret n l ls li lo y d c s capi capo xs ys h bs :
  2 ≤ capo → m_faults (n_mem n) = [] → conn_at n l c s ls li lo capi capo xs (y :: ys) →
  m_msgs (n_mem n) !! y = Some (Message h (Some d)) → m_bytes (n_mem n) !! d = Some bs → hdr_length h ≤ MAX_PAYLOAD →
  ∃ n', send_iteration_with (ret tt) (Some l) n = Ok (tt, n') ∧
    n_log n' = n_log n ++ [EvSend (fd s) (hdr_owner_addr h) (format_datagram h bs)].
Proof.
  intros Hcap Hf Hat Hy Hd Hl.
  destruct (send_iteration_with_eq n l ls li lo y d c s capi capo xs ys h bs Hcap Hf Hat Hy Hd Hl (ret tt))
    as (m1 & Hf1 & Em & Hat3 & ->).
  rewrite (bind_ok (ret tt) _ _ tt _ eq_refl).
  rewrite (send_finish_eq n l ls li lo y d c s capi capo xs ys h bs Hat Hy Hd Hl _ (sent s h bs));
    [by eexists|apply Hat3|apply Hat3|done|done|done].
Qed.

(** ** Properties *)

(** C37: an answer can go to the wrong client.  If a datagram from another client arrives after the
    sending thread has set the peer address from its message and before it sends, the message is
    sent to that other client instead of its owner. *)
Theorem reply_to_wrong_client n l ls li lo y d c s capi capo xs ys h bs payload other rest :
  2 ≤ capo → m_faults (n_mem n) = [] → conn_at n l c s ls li lo capi capo xs (y :: ys) →
  m_msgs (n_mem n) !! y = Some (Message h (Some d)) → m_bytes (n_mem n) !! d = Some bs →
  hdr_length h ≤ MAX_PAYLOAD →
  n_in n !! fd s = Some (RecvData payload other :: rest) → addr_ok other = true →
  (∃ n', ⟦ send_iteration_with (ret tt) (Some l) ⟧ n ⇓ tt, n' ∧
     n_log n' = n_log n ++ [EvSend (fd s) (hdr_owner_addr h) (format_datagram h bs)]) ∧
  (∃ n', ⟦ send_iteration_with (receive_datagram (Some l)) (Some l) ⟧ n ⇓ tt, n' ∧
     n_log n' = n_log n ++ [EvSend (fd s) other (format_datagram h bs)]).
Proof.
  intros Hcap Hf Hat Hy Hd Hl Hin Hother. split; [by eapply send_iteration_with_ret|].
  destruct (send_iteration_with_eq n l ls li lo y d c s capi capo xs ys h bs Hcap Hf Hat Hy Hd Hl (receive_datagram (Some l)))
    as (m1 & Hf1 & Em & Hat3 & E). unfold returns. rewrite E. set (n3 := with_socks _ _) in *.
  destruct Hat3 as [Hc3 Hsk3 _ _ Hs3 Hok3 _ _ _ _ _].
  assert (Ec : load (Some l) n3 = Ok (c, n3)) by by apply load_ok.
  assert (Er : udp_socket_receive_message (Some ls) None n3
    = Ok (UDP_SOCKET_STATUS_SUCCESS, with_socks (<[ls := received (sent s h bs) payload other]> (n_socks n3))
            (with_in (<[fd s := rest]> (n_in n3)) n3))).
  { rewrite (receive_message_eq n3 ls _ Hs3 Hok3). change (fd (sent s h bs)) with (fd s).
    change (n_in n3) with (n_in n). by rewrite Hin. }
  assert (Ed : receive_datagram (Some l) n3
    = Ok (tt, with_socks (<[ls := received (sent s h bs) payload other]> (n_socks n3))
            (with_in (<[fd s := rest]> (n_in n3)) n3))).
  { unfold receive_datagram. rewrite (bind_ok _ _ _ _ _ Ec), Hsk3. by rewrite (bind_ok _ _ _ _ _ Er). }
  rewrite (bind_ok _ _ _ _ _ Ed).
  rewrite (send_finish_eq n l ls li lo y d c s capi capo xs ys h bs Hat Hy Hd Hl _ (received (sent s h bs) payload other));
    [by eexists|apply lookup_insert_eq|by apply received_ok|done|done|done].
Qed.

Lemma reply_to_wrong_client_witness :
  ∃ n', ⟦ send_iteration_with (receive_datagram (Some 4%positive)) (Some 4%positive) ⟧
          (with_in {[3 := [RecvData [] (SockAddr AF_INET 6000 16777343 (replicate 8 NUL))]]} busy_net) ⇓ tt, n' ∧
    n_log n' = [EvSend 3 (SockAddr AF_INET 6000 16777343 (replicate 8 NUL)) (encode_header hello_header ++ hello)].
Proof.
  destruct (reply_to_wrong_client
    (with_in {[3 := [RecvData [] (SockAddr AF_INET 6000 16777343 (replicate 8 NUL))]]} busy_net)
    4 1 2 3 5 6 (conn_of busy_net 4) (sock_of busy_net 1) 4 4 [] [] hello_header (hello ++ replicate 3 NUL)
    [] (SockAddr AF_INET 6000 16777343 (replicate 8 NUL)) []) as [_ (n' & E & Hlog)];
    [lia|by vm_compute| |by vm_compute|by vm_compute|by vm_compute|by vm_compute|by vm_compute|].
  - assert (Hb : conn_at busy_net 4 (conn_of busy_net 4) (sock_of busy_net 1) 1 2 3 4 4 [] [5%positive])
      by (apply conn_atb_sound; by vm_compute).
    destruct Hb. by split.
  - exists n'. exact (conj E Hlog).
Defined.
