(* ===== verification/NetOpen.v ===== *)
(** * NetOpen: the calls that open a connection, one library failure at a time

    Socket, queues and connection are created in turn by server/server_worker.c and by
    client/client.c.  The specifications here say what each call leaves behind when one library
    call of the whole run fails, at any point, or none does ([one_fault]): either NULL, and the
    state as before apart from addresses that were used up, or a fresh object. *)
From S2P Require Import Prelude Layout Memory Message MessageQueue SocketUdp NetConnection.
From S2P Require Import NetTurns.

Local Open Scope Z_scope.

(** At most one library call fails: the one after [k] that succeed. *)
Definition one_fault (fs : list bool) : Prop := fs = [] ∨ ∃ k, fs = replicate k false ++ [true].

(** The faults left after [c] calls. *)
Definition spent (c : nat) (fs fs' : list bool) : Prop := one_fault fs' ∧ fs' = drop c fs.
(** One of the next [c] calls fails. *)
Definition failing (c : nat) (fs : list bool) : Prop := fs ≠ [] ∧ (length fs ≤ c)%nat.

Lemma spent_refl fs : one_fault fs → spent 0 fs fs.
Proof. by split. Qed.
Lemma spent_trans c d fs1 fs2 fs3 : spent c fs1 fs2 → spent d fs2 fs3 → spent (c + d) fs1 fs3.
Proof. intros [_ ->] [? ->]. split; [done|]. by rewrite drop_drop. Qed.
Lemma spent_one c fs fs' : spent c fs fs' → one_fault fs'.
Proof. by intros []. Qed.
Lemma spent_nil c fs fs' : spent c fs fs' → fs = [] → fs' = [].
Proof. intros [_ ->] ->. apply drop_nil. Qed.
Lemma failing_later c d fs fs' : spent c fs fs' → failing d fs' → failing (c + d) fs.
Proof.
  intros [_ ->] [Hne Hl]. rewrite length_drop in Hl. split; [intros ->; by rewrite drop_nil in Hne|lia].
Qed.
Lemma failing_le c d fs : failing c fs → (c ≤ d)%nat → failing d fs.
Proof. intros [? ?] ?. split; [done|lia]. Qed.

Lemma fallible_one {S} `{Allocator S} (s : S) :
  one_fault (faults_of s) →
  (∃ fs, fallible s = Ok (true, set_faults fs s) ∧ spent 1 (faults_of s) fs) ∨
  (failing 1 (faults_of s) ∧ fallible s = Ok (false, set_faults [] s)).
Proof.
  unfold fallible. intros [E|[[|k] E]]; rewrite E; simpl.
  - left. exists []. rewrite <- E at 1. rewrite set_faults_id. split; [done|]. by split; [left|].
  - right. split; [split; [done|simpl; lia]|done].
  - left. eexists. split; [done|]. split; [right; by exists k|done].
Qed.

(** A memory in which only addresses and faults were used up. *)
Definition bump (k : loc) (fs : list bool) (m : mem) : mem := with_next k (with_faults fs m).

(** Nothing lives at or above the next address. *)
Record net_fresh (n : net) : Prop := {
  nf_heap : heap_ok (n_mem n);
  nf_socks : fresh_above (m_next (n_mem n)) (n_socks n);
  nf_conns : fresh_above (m_next (n_mem n)) (n_conns n);
}.

Lemma fresh_above_le {T} a b (h : gmap loc T) : fresh_above a h → (a ≤ b)%positive → fresh_above b h.
Proof. intros F Hle l Hl. apply F. lia. Qed.

Lemma heap_ok_bump m k fs : heap_ok m → (m_next m ≤ k)%positive → heap_ok (bump k fs m).
Proof. intros [? ? ?] ?. split; by eapply fresh_above_le. Qed.

Lemma mem_ok_bump P m k fs : mem_ok P m → (m_next m ≤ k)%positive → mem_ok P (bump k fs m).
Proof. intros [? ? ?] ?. split; [by apply heap_ok_bump|done|done]. Qed.

Lemma net_fresh_bump n k fs :
  net_fresh n → (m_next (n_mem n) ≤ k)%positive → net_fresh (with_mem (bump k fs (n_mem n)) n).
Proof. intros [? ? ?] ?. split; [by apply heap_ok_bump|by eapply fresh_above_le..]. Qed.

(** ** The calls *)

(** Freeing what was just allocated. *)
Ltac undo_alloc := rewrite lookup_insert_eq; simpl; rewrite delete_insert_id by done.

(** The socket that [udp_socket_create] makes. *)
Definition new_socket (n : net) (addr port : Z) : udp_socket_t :=
  let junk := decode_addr (junk_block (n_mem n) (m_next (n_mem n)) sizeof_sockaddr) in
  Socket (fresh_fd (n_fds n)) (SockAddr AF_INET port addr (sin_zero junk)) junk (Z.of_nat sizeof_sockaddr)
    (replicate UDP_SOCKET_BUFFER_SIZE NUL) (replicate UDP_SOCKET_BUFFER_SIZE NUL) 0.

Lemma new_socket_ok n addr port :
  0 ≤ addr < 2 ^ 32 → 0 ≤ port < 2 ^ 16 → sock_ok (new_socket n addr port).
Proof.
  intros Ha Hp. set (junk := decode_addr (junk_block (n_mem n) (m_next (n_mem n)) sizeof_sockaddr)).
  assert (Hj : addr_ok junk = true) by (apply decode_addr_ok, length_junk_block).
  unfold new_socket, sock_ok. fold junk. cbn [incoming_buffer outcoming_buffer incoming_addr outcoming_addr].
  rewrite length_replicate. split_and!; try done.
  apply addr_ok_spec in Hj as (? & ? & ? & ?). apply addr_ok_spec. unfold AF_INET. simpl. split_and!; try done; lia.
Qed.

Lemma udp_socket_create_one n addr port :
  net_fresh n → one_fault (m_faults (n_mem n)) →
  (failing 2 (m_faults (n_mem n)) ∧ ∃ k, (m_next (n_mem n) ≤ k)%positive ∧
     udp_socket_create addr port n = Ok (None, with_mem (bump k [] (n_mem n)) n)) ∨
  (∃ fs, spent 2 (m_faults (n_mem n)) fs ∧
     let l := m_next (n_mem n) in
     udp_socket_create addr port n
     = Ok (Some l, with_fds ({[fresh_fd (n_fds n)]} ∪ n_fds n)
             (with_socks (<[l := new_socket n addr port]> (n_socks n))
                (with_mem (bump (Pos.succ l) fs (n_mem n)) n)))).
Proof.
  intros [_ Hs _] Hf. set (l := m_next (n_mem n)).
  assert (Hl : n_socks n !! l = None) by (apply Hs; lia).
  unfold udp_socket_create, bind, get_state, alloc, bind.
  destruct (fallible_one (H := net_allocator) n Hf) as [(fs & -> & Hfs)|[Hne ->]]; simpl.
  2: { left. split; [by eapply failing_le; [exact Hne|lia]|]. exists l. split; [lia|]. by destruct n as [[]]. }
  fold l. set (n1 := with_socks _ _). unfold sys_socket, bind, get_state, modify.
  destruct (fallible_one (H := net_allocator) n1 (spent_one _ _ _ Hfs)) as [(fs2 & -> & Hfs2)|[Hne ->]]; simpl.
  - right. exists fs2. split; [by eapply (spent_trans 1 1)|].
    destruct (Z.eqb_spec (fresh_fd (n_fds n)) (-1)) as [E|_]; [pose proof (fresh_fd_fresh (n_fds n)); lia|].
    unfold store. simpl. rewrite lookup_insert_eq. simpl. rewrite insert_insert_eq.
    unfold new_socket. fold l. by destruct n as [[]].
  - left. split; [by eapply (failing_later 1 1)|]. exists (Pos.succ l). split; [lia|].
    unfold free. simpl. undo_alloc. by destruct n as [[]].
Qed.

Lemma udp_socket_bind_one n l s :
  n_socks n !! l = Some s → one_fault (m_faults (n_mem n)) →
  (failing 1 (m_faults (n_mem n)) ∧
     udp_socket_bind (Some l) n = Ok (UDP_SOCKET_STATUS_ERROR_BIND, with_mem (with_faults [] (n_mem n)) n)) ∨
  (∃ fs, spent 1 (m_faults (n_mem n)) fs ∧
     udp_socket_bind (Some l) n
     = Ok (UDP_SOCKET_STATUS_SUCCESS, with_log (n_log n ++ [EvBind (fd s) (outcoming_addr s)])
                                        (with_mem (with_faults fs (n_mem n)) n))).
Proof.
  intros Hl Hf. unfold udp_socket_bind, bind, load. simpl. rewrite Hl.
  destruct (fallible_one (H := net_allocator) n Hf) as [(fs & -> & Hfs)|[Hne ->]]; [right; eauto|left; done].
Qed.

(** A new queue. *)
Definition new_queue (cap : Z) : message_queue_t := Queue (replicate (Z.to_nat cap) None) cap 0 0 false.

Lemma message_queue_create_one m cap :
  0 < cap → heap_ok m → one_fault (m_faults m) →
  (failing 4 (m_faults m) ∧ ∃ k, (m_next m ≤ k)%positive ∧ message_queue_create cap m = Ok (None, bump k [] m)) ∨
  (∃ fs, spent 4 (m_faults m) fs ∧
     message_queue_create cap m
     = Ok (Some (m_next m), with_queues (<[m_next m := new_queue cap]> (m_queues m)) (bump (Pos.succ (m_next m)) fs m))).
Proof.
  intros Hc [_ _ Hq] Hf. set (l := m_next m). assert (Hl : m_queues m !! l = None) by (apply Hq; lia).
  unfold message_queue_create. destruct (Z.leb_spec cap 0); [lia|]. unfold alloc, bind.
  destruct (fallible_one (H := mem_allocator) m Hf) as [(fs & -> & Hfs)|[Hne ->]]; simpl.
  2: { left. split; [eapply failing_le; [exact Hne|lia]|]. exists l. split; [lia|]. by destruct m. }
  fold l. set (m1 := with_queues _ _).
  assert (Hne' : ∀ c fs', (c ≤ 3)%nat → spent c (m_faults m) fs' → failing 1 fs' → failing 4 (m_faults m))
    by (intros c fs' Hc' H' ?; eapply failing_le; [by eapply failing_later|lia]).
  destruct (fallible_one (H := mem_allocator) m1 (spent_one _ _ _ Hfs)) as [(fs1 & -> & Hfs1)|[Hne ->]]; simpl.
  2: { left. split; [by eapply Hne'; [|done..]; lia|]. exists (Pos.succ l). split; [lia|]. undo_alloc. by destruct m. }
  assert (Hs1 : spent 2 (m_faults m) fs1) by (by eapply (spent_trans 1 1)).
  destruct (fallible_one (H := mem_allocator) (with_faults fs1 m1) (spent_one _ _ _ Hs1)) as [(fs2 & -> & Hfs2)|[Hne ->]]; simpl.
  2: { left. split; [by eapply Hne'; [|done..]; lia|]. exists (Pos.succ l). split; [lia|]. undo_alloc. by destruct m. }
  assert (Hs2 : spent 3 (m_faults m) fs2) by (by eapply (spent_trans 2 1)).
  destruct (fallible_one (H := mem_allocator) (with_faults fs2 (with_faults fs1 m1)) (spent_one _ _ _ Hs2)) as [(fs3 & -> & Hfs3)|[Hne ->]]; simpl.
  2: { left. split; [by eapply Hne'; [|done..]; lia|]. exists (Pos.succ l). split; [lia|]. undo_alloc. by destruct m. }
  right. exists fs3. split; [by eapply (spent_trans 3 1)|]. unfold store. simpl. rewrite lookup_insert_eq. simpl.
  rewrite insert_insert_eq. by destruct m.
Qed.

(** The socket after [udp_socket_set_receive_timeout], whose failure goes unnoticed. *)
Definition timed (s s' : udp_socket_t) : Prop :=
  s' = s ∨ ∃ t, s' = Socket (fd s) (outcoming_addr s) (incoming_addr s) (incoming_addr_len s)
                     (incoming_buffer s) (outcoming_buffer s) t.

Lemma timed_facts s s' :
  timed s s' → (sock_ok s → sock_ok s') ∧ fd s' = fd s ∧ outcoming_addr s' = outcoming_addr s.
Proof. by intros [->|[t ->]]. Qed.

(** A new connection. *)
Definition new_conn (ls li lo : loc) (receive_timeout send_timeout : Z) : net_connection_t :=
  Connection (Some ls) (Some li) (Some lo) NotStarted NotStarted false false receive_timeout send_timeout.

Lemma net_connection_create_one n ls li lo s rt st :
  0 ≤ rt → 0 ≤ st → n_socks n !! ls = Some s → one_fault (m_faults (n_mem n)) →
  (failing 1 (m_faults (n_mem n)) ∧
     net_connection_create (Some ls) (Some li) (Some lo) rt st n = Ok (None, with_mem (with_faults [] (n_mem n)) n)) ∨
  (∃ fs s', spent 2 (m_faults (n_mem n)) fs ∧ timed s s' ∧
     let l := m_next (n_mem n) in
     net_connection_create (Some ls) (Some li) (Some lo) rt st n
     = Ok (Some l, with_socks (<[ls := s']> (n_socks n))
             (with_conns (<[l := new_conn ls li lo rt st]> (n_conns n))
                (with_mem (bump (Pos.succ l) fs (n_mem n)) n)))).
Proof.
  intros Hrt Hst Hs Hf. unfold net_connection_create.
  destruct (Z.ltb_spec rt 0); [lia|]. destruct (Z.ltb_spec st 0); [lia|]. cbn [orb].
  unfold bind, alloc, bind. destruct (fallible_one (H := net_allocator) n Hf) as [(fs & -> & Hfs)|[Hne ->]]; simpl.
  2: { left. by split. }
  right. set (n1 := with_conns _ _). unfold udp_socket_set_receive_timeout, bind, load. simpl. rewrite Hs.
  destruct (fallible_one (H := net_allocator) n1 (spent_one _ _ _ Hfs)) as [(fs1 & -> & Hfs1)|[Hne ->]].
  - eexists fs1, _. split; [by eapply (spent_trans 1 1)|]. split; [right; by exists rt|].
    unfold store. simpl. rewrite Hs. by destruct n as [[]].
  - exists [], s. split.
    { apply (spent_trans 1 1 _ fs); [done|]. split; [by left|]. symmetry. apply drop_ge. apply Hne. } split; [by left|].
    simpl. rewrite insert_id by done. by destruct n as [[]].
Qed.

(** ** The opened connection *)
Definition opened (n : net) (s : udp_socket_t) (cap rt st : Z) (fs : list bool) : net :=
  let l := m_next (n_mem n) in
  Net (with_queues (<[(l + 2)%positive := new_queue cap]> (<[(l + 1)%positive := new_queue cap]> (m_queues (n_mem n))))
         (bump (l + 4) fs (n_mem n)))
    ({[fresh_fd (n_fds n)]} ∪ n_fds n) (<[l := s]> (n_socks n))
    (<[(l + 3)%positive := new_conn l (l + 1) (l + 2) rt st]> (n_conns n)) (n_in n)
    (n_log n ++ [EvBind (fd s) (outcoming_addr s)]).

Lemma conn_at_opened n s cap rt st fs :
  mem_ok wire_fit (n_mem n) → sock_ok s → 0 < cap → cap + cap / 2 ≤ INT_MAX →
  let l := m_next (n_mem n) in
  conn_at (opened n s cap rt st fs) (l + 3) (new_conn l (l + 1) (l + 2) rt st) s l (l + 1) (l + 2) cap cap [] [].
Proof.
  intros [[Hb Hm Hq] Hown Hinj] Hs Hc Hi l.
  split; simpl; try done; try apply lookup_insert_eq; fold l; try lia.
  - apply queue_at_fresh; [done..|]. simpl. rewrite lookup_insert_ne by lia. apply lookup_insert_eq.
  - apply queue_at_fresh; [done..|]. apply lookup_insert_eq.
  - split; [constructor|set_solver].
  - split; [|done|done]. split; simpl.
    + eapply fresh_above_le; [exact Hb|lia].
    + eapply fresh_above_le; [exact Hm|lia].
    + intros k Hk. rewrite !lookup_insert_ne by lia. apply Hq. lia.
Qed.

Lemma net_fresh_opened n s cap rt st fs : net_fresh n → net_fresh (opened n s cap rt st fs).
Proof.
  intros [[Hb Hm Hq] Hs Hc]. split; [split|..]; simpl.
  - eapply fresh_above_le; [exact Hb|lia].
  - eapply fresh_above_le; [exact Hm|lia].
  - intros k Hk. rewrite !lookup_insert_ne by lia. apply Hq. lia.
  - intros k Hk. rewrite lookup_insert_ne by lia. apply Hs. lia.
  - intros k Hk. rewrite lookup_insert_ne by lia. apply Hc. lia.
Qed.
