(* ===== verification/NetMany.v ===== *)
(** * NetMany: several connections in one process

    client/client.c opens one connection per server port.  [many] describes a list of connections
    that share one network state and own disjoint resources; a step of one of them, given by what
    it touches ([touches]), leaves the others as they are.  Opening, starting, stopping and deleting
    a connection and the turns of its threads are such steps. *)
From S2P Require Import Prelude Layout Memory Message MessageQueue SocketUdp NetConnection.
From S2P Require Import NetLifecycle NetTurns NetOpen.

Local Open Scope Z_scope.

(** Where a connection lives, and its descriptor. *)
Record endpoint := Endpoint {
  ep_conn : loc;
  ep_sock : loc;
  ep_in : loc;
  ep_out : loc;
  ep_fd : Z;
}.
(** Its flags and threads, and the messages in its queues. *)
Record traffic := Traffic {
  tr_conn : net_connection_t;
  tr_in : list loc;
  tr_out : list loc;
}.
Definition owned (t : traffic) : list loc := tr_in t ++ tr_out t.

Definition apart (e e' : endpoint) : Prop :=
  ep_conn e ≠ ep_conn e' ∧ ep_sock e ≠ ep_sock e' ∧ ep_fd e ≠ ep_fd e' ∧
  ep_in e ≠ ep_in e' ∧ ep_in e ≠ ep_out e' ∧ ep_out e ≠ ep_in e' ∧ ep_out e ≠ ep_out e'.

Definition queues_of (es : list endpoint) : list loc := concat ((λ e, [ep_in e; ep_out e]) <$> es).

(** What steps of the connections [es] leave alone. *)
Record kept (n n' : net) (es : list endpoint) : Prop := {
  kp_conns : ∀ k, k ∉ ep_conn <$> es → n_conns n' !! k = n_conns n !! k;
  kp_socks : ∀ k, k ∉ ep_sock <$> es → n_socks n' !! k = n_socks n !! k;
  kp_queues : ∀ k, k ∉ queues_of es → m_queues (n_mem n') !! k = m_queues (n_mem n) !! k;
  kp_fds : n_fds n' = n_fds n;
}.
Lemma kept_refl n n' es :
  n_conns n' = n_conns n → n_socks n' = n_socks n → m_queues (n_mem n') = m_queues (n_mem n) →
  n_fds n' = n_fds n → kept n n' es.
Proof. intros Ec Es Eq Ef. split; [by rewrite Ec|by rewrite Es|by rewrite Eq|done]. Qed.
Lemma kept_trans n1 n2 n3 es : kept n1 n2 es → kept n2 n3 es → kept n1 n3 es.
Proof.
  intros [C1 S1 Q1 F1] [C2 S2 Q2 F2]. split; [| | |congruence]; intros k Hk;
    [rewrite C2, C1|rewrite S2, S1|rewrite Q2, Q1]; done.
Qed.
Lemma kept_touches n n' es i e own :
  es !! i = Some e → touches n n' (ep_conn e) (ep_sock e) [ep_in e; ep_out e] own → kept n n' es.
Proof.
  intros He [Tc Tf Ts Tq _]. apply list_elem_of_lookup_2 in He.
  assert (Hq : ∀ k, k ∉ queues_of es → k ∉ [ep_in e; ep_out e]).
  { intros k Hk Hin. apply Hk. apply list_elem_of_In, in_concat. exists [ep_in e; ep_out e].
    split; [|by apply list_elem_of_In]. by apply list_elem_of_In, (list_elem_of_fmap_2 (λ e, [ep_in e; ep_out e])). }
  split; [| |auto|done]; intros k Hk; [apply Tc|apply Ts]; intros ->; by apply Hk, list_elem_of_fmap_2.
Qed.

Section Many.
Context (cap : Z).
Implicit Types (n : net) (e : endpoint) (t : traffic) (es : list endpoint) (ts : list traffic).

Record conn_here n e t : Prop := {
  ch_conn : ∃ s, conn_at n (ep_conn e) (tr_conn t) s (ep_sock e) (ep_in e) (ep_out e) cap cap (tr_in t) (tr_out t) ∧
                 fd s = ep_fd e;
  ch_threads : threads_ok (tr_conn t);
}.

Record many n es ts : Prop := {
  mn_each : Forall2 (conn_here n) es ts;
  mn_fds : Forall (λ e, 0 ≤ ep_fd e ∧ ep_fd e ∈ n_fds n) es;
  mn_apart : ∀ i j e e', i ≠ j → es !! i = Some e → es !! j = Some e' → apart e e';
  mn_owned : ∀ i j t t' y, i ≠ j → ts !! i = Some t → ts !! j = Some t' → y ∈ owned t → y ∉ owned t';
  mn_mem : mem_ok wire_fit (n_mem n);
  mn_faults : m_faults (n_mem n) = [];
  mn_inputs : inputs_ok n;
}.

Lemma many_lookup n es ts i e :
  many n es ts → es !! i = Some e → ∃ t, ts !! i = Some t ∧ conn_here n e t.
Proof using Type. intros H E. by eapply Forall2_lookup_l in E; [|apply H]. Qed.

Lemma conn_here_live n e t y : conn_here n e t → y ∈ owned t → is_Some (m_msgs (n_mem n) !! y).
Proof using Type. intros [(s & Hat & _) _]. by apply (proj2 (ca_live _ _ _ _ _ _ _ _ _ _ _ Hat)). Qed.

(** A connection is one that [conn_inv] describes. *)
Lemma many_conn_inv n es ts i e t :
  2 ≤ cap → many n es ts → es !! i = Some e → ts !! i = Some t →
  conn_inv n (ep_conn e) (tr_conn t) (ep_fd e) (ep_sock e) (ep_in e) (ep_out e) cap cap (tr_in t) (tr_out t).
Proof using Type.
  intros Hcap H He Ht. destruct (many_lookup _ _ _ _ _ H He) as (t' & Ht' & [Hc _]). simplify_eq.
  split; [exact Hc|done|apply H|apply H].
Qed.

(** The other connections do not notice a step. *)
Lemma conn_here_frame n n' e t e' t' :
  conn_here n e' t' → touches n n' (ep_conn e) (ep_sock e) [ep_in e; ep_out e] (owned t) →
  apart e' e → (∀ y, y ∈ owned t' → y ∉ owned t) → mem_ok wire_fit (n_mem n') → conn_here n' e' t'.
Proof using Type.
  intros [(s & [Hc Hsk Hin Hout Hs Hok Hne Hqi Hqo Hlive Hmem] & Hfd) Hth] [Tc _ Ts Tq Tm] (A1 & A2 & _ & A4 & A5 & A6 & A7) Hown Hmem'.
  assert (Hfr : ∀ y, y ∈ owned t' → is_Some (m_msgs (n_mem n) !! y) → is_Some (m_msgs (n_mem n') !! y)) by eauto.
  split; [|done]. exists s. split; [|done]. split; try done.
  - by rewrite Tc.
  - by rewrite Ts.
  - eapply queue_at_frame; [exact Hqi|apply Tq; set_solver|]. intros y Hy. apply Hfr. unfold owned. set_solver.
  - eapply queue_at_frame; [exact Hqo|apply Tq; set_solver|]. intros y Hy. apply Hfr. unfold owned. set_solver.
  - eapply live_frame; [exact Hlive|exact Hfr].
Qed.

(** Descriptors do not matter to the objects. *)
Lemma conn_here_fds n e t fds : conn_here (with_fds fds n) e t → conn_here n e t.
Proof using Type. intros [(s & [] & ?) ?]. split; [|done]. exists s. by split. Qed.

(** A step of the connection number [i]. *)
Lemma many_step n n' es ts i e t t' :
  many n es ts → es !! i = Some e → ts !! i = Some t →
  touches n n' (ep_conn e) (ep_sock e) [ep_in e; ep_out e] (owned t) →
  conn_here n' e t' → (∀ y, y ∈ owned t' → y ∈ owned t ∨ m_msgs (n_mem n) !! y = None) →
  m_faults (n_mem n') = [] → inputs_ok n' → many n' es (<[i := t']> ts).
Proof using Type.
  intros [Heach Hfds Hap Hown Hmem Hf Hi] He Ht Htc Hnew Hsub Hf' Hi'.
  assert (Hmem' : mem_ok wire_fit (n_mem n')) by (destruct Hnew as [(s & Hat & _) _]; apply Hat).
  assert (Hlen : length es = length ts) by by eapply Forall2_length.
  assert (Hlt : (i < length ts)%nat) by by eapply lookup_lt_Some.
  assert (Hlive : ∀ j tj y, ts !! j = Some tj → y ∈ owned tj → is_Some (m_msgs (n_mem n) !! y)).
  { intros j tj y Hj Hy. eapply Forall2_lookup_r in Hj as (ej & _ & Hj); [|exact Heach]. by eapply conn_here_live. }
  assert (Hother : ∀ j tj y, i ≠ j → ts !! j = Some tj → y ∈ owned tj → y ∉ owned t').
  { intros j tj y Hne Hj Hy Hy'. destruct (Hsub y Hy') as [Hold|Hno].
    - by eapply (Hown i j).
    - destruct (Hlive j tj y Hj Hy). congruence. }
  split; try done.
  - apply Forall2_same_length_lookup_2; [by rewrite length_insert|].
    intros j ej tj Hej [(<- & <- & _)|[Hne Hj]]%list_lookup_insert_Some; [by simplify_eq|].
    eapply conn_here_frame; [|exact Htc|by eapply (Hap j i)| |done].
    + by eapply Forall2_lookup_lr.
    + intros y Hy. by eapply (Hown j i).
  - destruct Htc as [_ Ef _ _ _]. by rewrite Ef.
  - intros j k tj tk y Hjk [(<- & <- & _)|[Hne Hj]]%list_lookup_insert_Some [(<- & <- & _)|[Hne' Hk]]%list_lookup_insert_Some Hy; try done.
    + intros Hyk. by eapply (Hother k tk y).
    + by eapply (Hother j tj y).
    + by eapply (Hown j k).
Qed.

Lemma touches_qs n n' l ls qs qs' own own' :
  touches n n' l ls qs own → qs ⊆ qs' → own ⊆ own' → touches n n' l ls qs' own'.
Proof using Type. intros [] ? ?. split; try done; set_solver. Qed.

(** ** Turns of the threads *)
Section Turns.
Context (n : net) (es : list endpoint) (ts : list traffic) (i : nat) (e : endpoint) (t : traffic).
Hypothesis (Hcap : 2 ≤ cap).
Hypothesis (Hmany : many n es ts).
Hypothesis (He : es !! i = Some e).
Hypothesis (Ht : ts !! i = Some t).

(** A step that [conn_inv] describes. *)
Lemma many_conn_step n' c' xs' ys' :
  conn_inv n' (ep_conn e) c' (ep_fd e) (ep_sock e) (ep_in e) (ep_out e) cap cap xs' ys' → threads_ok c' →
  touches n n' (ep_conn e) (ep_sock e) [ep_in e; ep_out e] (owned t) →
  (∀ y, y ∈ xs' ++ ys' → y ∈ owned t ∨ m_msgs (n_mem n) !! y = None) →
  many n' es (<[i := Traffic c' xs' ys']> ts).
Proof using Hmany He Ht.
  intros [Hc _ Hf Hi] Hth Htc Hown. by eapply many_step.
Qed.

Lemma many_threads : threads_ok (tr_conn t).
Proof using Hmany He Ht. destruct (many_lookup _ _ _ _ _ Hmany He) as (t' & ? & [_ ?]). by simplify_eq. Qed.

Lemma many_receive :
  ∃ n' xs', receive_iteration (Some (ep_conn e)) n = Ok (tt, n') ∧
    many n' es (<[i := Traffic (tr_conn t) xs' (tr_out t)]> ts) ∧ kept n n' es.
Proof using Hcap Hmany He Ht.
  destruct (receive_turn _ _ _ _ _ _ _ _ n _ _ (many_conn_inv _ _ _ _ _ _ Hcap Hmany He Ht))
    as (n' & xs' & E & Hc & El & _ & Htc & Hnew).
  assert (Htc' : touches n n' (ep_conn e) (ep_sock e) [ep_in e; ep_out e] (owned t))
    by (eapply touches_qs; [exact Htc|set_solver|unfold owned; set_solver]).
  exists n', xs'. split_and!; [done| |by eapply kept_touches]. eapply many_conn_step; [exact Hc|apply many_threads|done|].
  - intros y [Hy|Hy]%elem_of_app; [|unfold owned; set_solver]. destruct (Hnew y Hy); unfold owned; set_solver.
Qed.

Lemma many_send :
  ∃ n', send_iteration (Some (ep_conn e)) n = Ok (tt, n') ∧
    many n' es (<[i := Traffic (tr_conn t) (tr_in t) (fifo_dequeue (tr_out t)).2]> ts) ∧ kept n n' es.
Proof using Hcap Hmany He Ht.
  destruct (send_turn _ _ _ _ _ _ _ _ n _ _ (many_conn_inv _ _ _ _ _ _ Hcap Hmany He Ht))
    as (n' & E & Hc & _ & _ & Htc).
  assert (Htc' : touches n n' (ep_conn e) (ep_sock e) [ep_in e; ep_out e] (owned t))
    by (eapply touches_qs; [exact Htc|set_solver|unfold owned; set_solver]).
  exists n'. split_and!; [done| |by eapply kept_touches]. eapply many_conn_step; [exact Hc|apply many_threads|done|].
  - intros y Hy. left. unfold owned. destruct (tr_out t); set_solver.
Qed.

(** Taking the oldest incoming message. *)
Lemma many_take :
  ∃ n', net_connection_receive_nonblocking (Some (ep_conn e)) n = Ok ((fifo_dequeue (tr_in t)).1, n') ∧
    many n' es (<[i := Traffic (tr_conn t) (fifo_dequeue (tr_in t)).2 (tr_out t)]> ts) ∧ kept n n' es ∧
    m_msgs (n_mem n') = m_msgs (n_mem n) ∧ m_bytes (n_mem n') = m_bytes (n_mem n).
Proof using Hcap Hmany He Ht.
  destruct (take_turn _ _ _ _ _ _ _ _ n _ _ (many_conn_inv _ _ _ _ _ _ Hcap Hmany He Ht))
    as (n' & E & Hc & Em & Eb & _ & _ & _ & _ & _ & Htc).
  assert (Htc' : touches n n' (ep_conn e) (ep_sock e) [ep_in e; ep_out e] (owned t))
    by (eapply touches_qs; [exact Htc|set_solver|unfold owned; set_solver]).
  exists n'. split_and!; [done| |by eapply kept_touches|done|done]. eapply many_conn_step; [exact Hc|apply many_threads|done|].
  intros y Hy. left. unfold owned. destruct (tr_in t); set_solver.
Qed.

(** Starting or stopping a thread. *)
Lemma many_life op :
  ∃ c' n', run_life_op (Some (ep_conn e)) op n = Ok (NET_CONNECTION_STATUS_SUCCESS, n') ∧
    n' = switch (ep_conn e) c' (joined_by op (ep_conn e) (flags (tr_conn t))) n ∧
    many n' es (<[i := Traffic c' (tr_in t) (tr_out t)]> ts) ∧
    flags c' = flags_after op (flags (tr_conn t)) ∧ kept n n' es.
Proof using Hcap Hmany He Ht.
  destruct (many_conn_inv _ _ _ _ _ _ Hcap Hmany He Ht) as [(s & Hat & Hfd) _ Hf Hi].
  destruct (life_op_conn_at _ _ _ _ _ _ _ _ _ _ _ op Hat many_threads Hf) as (c' & E & Hat' & Hth & _ & Hfl).
  set (n' := switch _ _ _ n) in *.
  assert (Htc : touches n n' (ep_conn e) (ep_sock e) [ep_in e; ep_out e] (owned t)).
  { split; simpl; try done. intros k Hne. by rewrite lookup_insert_ne. }
  exists c', n'. split; [exact E|]. split; [done|]. split; [|split; [done|by eapply kept_touches]].
  eapply many_conn_step; [split; [by exists s|done|done|exact Hi]|done|done|auto].
Qed.
End Turns.

(** The state of the network apart from the connections: the log. *)
Lemma many_log n es ts log : many n es ts → many (with_log log n) es ts.
Proof using Type.
  intros [Heach ? ? ? ? ? ?]. split; try done. eapply Forall2_impl; [exact Heach|].
  intros e t [(s & [] & ?) ?]. split; [|done]. exists s. by split.
Qed.

(** ** Opening another connection *)
Definition new_endpoint (n : net) : endpoint :=
  let l := m_next (n_mem n) in Endpoint (l + 3) l (l + 1) (l + 2) (fresh_fd (n_fds n)).
Definition new_traffic (n : net) (rt st : Z) : traffic :=
  let l := m_next (n_mem n) in Traffic (new_conn l (l + 1) (l + 2) rt st) [] [].

Lemma many_opened n es ts s rt st fs :
  many n es ts → net_fresh n → sock_ok s → fd s = fresh_fd (n_fds n) → fs = [] →
  2 ≤ cap → cap + cap / 2 ≤ INT_MAX →
  many (opened n s cap rt st fs) (es ++ [new_endpoint n]) (ts ++ [new_traffic n rt st]).
Proof using Type.
  intros [Heach Hfds Hap Hown Hmem Hf Hi] Hfr Hs Hfd -> Hcap Hint.
  set (l := m_next (n_mem n)). set (e := new_endpoint n). set (t := new_traffic n rt st).
  pose proof (conn_at_opened n s cap rt st [] Hmem Hs ltac:(lia) Hint) as Hat. cbv zeta in Hat. fold l in Hat.
  assert (Htc : touches n (with_fds (n_fds n) (opened n s cap rt st [])) (ep_conn e) (ep_sock e) [ep_in e; ep_out e] (owned t)).
  { split; simpl; fold l; [intros k Hk; by rewrite lookup_insert_ne|done|intros k Hk; by rewrite lookup_insert_ne| |done].
    intros k Hk. rewrite !lookup_insert_ne by set_solver. done. }
  assert (Hap' : Forall (λ e', apart e' e) es).
  { apply Forall_forall. intros e' (i & Hi')%list_elem_of_lookup.
    destruct (Forall2_lookup_l _ _ _ _ _ Heach Hi') as (t' & _ & [(s' & [Hc' _ _ _ Hs' _ _ (q1 & Hq1 & _) (q2 & Hq2 & _) _ _] & _) _]).
    pose proof (Forall_lookup_1 _ _ _ _ Hfds Hi') as [_ Hin].
    destruct Hfr as [[_ _ Fq] Fs Fc]. unfold apart, e, new_endpoint. simpl.
    pose proof (fresh_above_live _ _ _ _ Fc Hc'). pose proof (fresh_above_live _ _ _ _ Fs Hs').
    pose proof (fresh_above_live _ _ _ _ Fq Hq1). pose proof (fresh_above_live _ _ _ _ Fq Hq2).
    pose proof (fresh_fd_fresh (n_fds n)) as [Hnf _]. split_and!; try lia. intros E. apply Hnf. by rewrite <- E. }
  assert (Hsym : ∀ e', apart e' e → apart e e') by (unfold apart; naive_solver).
  assert (Hlen : length es = length ts) by by eapply Forall2_length.
  split; try done.
  - apply Forall2_app; [|constructor; [|done]].
    + apply Forall2_same_length_lookup_2; [done|]. intros j ej tj Hej Htj.
      eapply conn_here_fds, conn_here_frame; [by eapply Forall2_lookup_lr|exact Htc|exact (Forall_lookup_1 _ _ _ _ Hap' Hej)|set_solver|apply Hat].
    + split; [by exists s|by split].
  - apply Forall_app. split; [eapply Forall_impl; [exact Hfds|]; intros e' [Hge Hin]; split; [exact Hge|simpl; apply elem_of_union; by right]|].
    pose proof (fresh_fd_fresh (n_fds n)) as [_ ?]. constructor; [|done]. split; [simpl; lia|]. simpl. apply elem_of_union. left. by apply elem_of_singleton.
  - intros i j e1 e2 Hne [H1|[? H1]]%lookup_app_Some [H2|[? H2]]%lookup_app_Some.
    + by eapply Hap.
    + apply list_lookup_singleton_Some in H2 as [_ <-]. exact (Forall_lookup_1 _ _ _ _ Hap' H1).
    + apply list_lookup_singleton_Some in H1 as [_ <-]. apply Hsym. exact (Forall_lookup_1 _ _ _ _ Hap' H2).
    + apply list_lookup_singleton_Some in H1 as [? _], H2 as [? _]. lia.
  - intros i j t1 t2 y Hne [H1|[? H1]]%lookup_app_Some [H2|[? H2]]%lookup_app_Some Hy.
    + by eapply (Hown i j).
    + apply list_lookup_singleton_Some in H2 as [_ <-]. set_solver.
    + apply list_lookup_singleton_Some in H1 as [_ <-]. set_solver.
    + apply list_lookup_singleton_Some in H1 as [? _], H2 as [? _]. lia.
  - apply Hat.
Qed.

(** ** Deleting the first connection *)
Lemma mem_ok_shrink P m m' :
  mem_ok P m → m_next m' = m_next m → m_bytes m' = m_bytes m → m_msgs m' ⊆ m_msgs m →
  m_queues m' ⊆ m_queues m → mem_ok P m'.
Proof using Type.
  intros [[Fb Fm Fq] Own Inj] En Eb Em Eq.
  assert (Hsub : ∀ {T} (h h' : gmap loc T) k, h' ⊆ h → fresh_above k h → fresh_above k h').
  { intros T h h' k Hs F x Hx. eapply lookup_weaken_None; [by apply F|done]. }
  split.
  - split; rewrite En; [by rewrite Eb|by eapply Hsub|by eapply Hsub].
  - intros l msg Hl. rewrite Eb. eapply Own. by eapply lookup_weaken.
  - intros l1 l2 msg1 msg2 H1 H2. eapply Inj; by eapply lookup_weaken.
Qed.

Lemma delete_all_subseteq xs (h : gmap loc message_t) : delete_all xs h ⊆ h.
Proof using Type. apply map_subseteq_spec. intros k x. rewrite lookup_delete_all. by case_decide. Qed.

Lemma many_delete n e es t ts :
  many n (e :: es) (t :: ts) →
  ∃ n', net_connection_delete (Some (ep_conn e)) n = Ok (tt, n') ∧ many n' es ts ∧
    n_conns n' = delete (ep_conn e) (n_conns n) ∧ n_socks n' = delete (ep_sock e) (n_socks n) ∧
    n_fds n' = n_fds n ∖ {[ep_fd e]} ∧
    m_queues (n_mem n') = delete (ep_out e) (delete (ep_in e) (m_queues (n_mem n))) ∧
    m_msgs (n_mem n') = delete_all (tr_out t) (delete_all (tr_in t) (m_msgs (n_mem n))) ∧
    n_log n' = n_log n ++ joins (ep_conn e) (flags (tr_conn t)).
Proof using Type.
  intros Hmany. pose proof Hmany as [Heach Hfds Hap Hown Hmem Hf Hi].
  apply Forall2_cons in Heach as [[(s & Hat & Hfd) Hth] Heach]. apply Forall_cons in Hfds as [[Hfd0 _] Hfds].
  pose proof (net_connection_delete_eq _ _ _ _ _ _ _ _ _ _ _ Hat Hth ltac:(lia) Hf) as E. rewrite Hfd in E.
  eexists. split; [exact E|]. split; [|done]. set (n' := Net _ _ _ _ _ _).
  assert (Hmem' : mem_ok wire_fit (n_mem n')) by (eapply mem_ok_shrink; try done; simpl;
    [by etransitivity; apply delete_all_subseteq|by etransitivity; apply delete_subseteq]).
  assert (Htc : touches n (with_fds (n_fds n) n') (ep_conn e) (ep_sock e) [ep_in e; ep_out e] (owned t)).
  { split; simpl; [intros k Hk; by rewrite lookup_delete_ne|done|intros k Hk; by rewrite lookup_delete_ne| |].
    - intros k Hk. rewrite !lookup_delete_ne by set_solver. done.
    - intros y Hy ?. unfold owned in Hy. rewrite !lookup_delete_all, !decide_False by set_solver. done. }
  split; try done.
  - apply Forall2_same_length_lookup_2; [by eapply Forall2_length|]. intros j ej tj Hej Htj.
    eapply conn_here_fds, (conn_here_frame n (with_fds (n_fds n) n') e t ej tj);
      [by eapply Forall2_lookup_lr|exact Htc|by apply (Hap (S j) 0%nat)| |exact Hmem'].
    intros y Hy. by apply (Hown (S j) 0%nat tj t y).
  - apply Forall_forall. intros e' He'. pose proof (proj1 (Forall_forall _ _) Hfds e' He') as [? ?].
    apply list_elem_of_lookup in He' as (j & Hj). split; [done|].
    destruct (Hap 0%nat (S j) e e' ltac:(done) eq_refl Hj) as (_ & _ & ? & _). simpl. set_solver.
  - intros i j e1 e2 Hne. apply (Hap (S i) (S j)). lia.
  - intros i j t1 t2 y Hne. apply (Hown (S i) (S j)). lia.
Qed.
End Many.
