(* ===== verification/Journal.v ===== *)
(** * Journal: server/journal.c

    The journal is a region of anonymous shared memory: eight bytes with the number of bytes
    in use (these eight included), then the entries.  The struct [journal_t] with its mutex is
    an ordinary heap object.  Abstractly a journal is an append-only byte log of bounded size;
    the file proves that the operations implement that log on every branch. *)
From S2P Require Import Prelude Layout Memory.

Local Open Scope Z_scope.

Inductive journal_status_t : Type :=
  | JOURNAL_STATUS_SUCCESS
  | JOURNAL_STATUS_ERROR_MUNMAP
  | JOURNAL_STATUS_ERROR_MMAP
  | JOURNAL_STATUS_ERROR_MALLOC
  | JOURNAL_STATUS_ERROR_MUTEX_INIT
  | JOURNAL_STATUS_ERROR_MUTEX_LOCK
  | JOURNAL_STATUS_ERROR_MUTEX_UNLOCK
  | JOURNAL_STATUS_ERROR_WRITE
  | JOURNAL_STATUS_ERROR_READ
  | JOURNAL_STATUS_ERROR_NO_SPACE
  | JOURNAL_STATUS_ERROR_PARAMS_NULL.

#[export] Instance journal_status_t_eq_dec : EqDecision journal_status_t.
Proof. solve_decision. Defined.

Record journal_t := Journal {
  j_mutex : bool;      (* locked? *)
  max_size : Z;
  journal_ptr : ptr;   (* the mapping *)
}.

(** Private heap objects and shared mappings of a process. *)
Record jmem := JMem {
  j_faults : list bool;
  j_next : loc;
  j_journals : gmap loc journal_t;
  j_maps : gmap loc (list byte);
}.
Definition with_jfaults (fs : list bool) (m : jmem) : jmem :=
  JMem fs (j_next m) (j_journals m) (j_maps m).
Definition with_jnext (l : loc) (m : jmem) : jmem :=
  JMem (j_faults m) l (j_journals m) (j_maps m).
Definition with_journals (h : gmap loc journal_t) (m : jmem) : jmem :=
  JMem (j_faults m) (j_next m) h (j_maps m).
Definition with_maps (h : gmap loc (list byte)) (m : jmem) : jmem :=
  JMem (j_faults m) (j_next m) (j_journals m) h.

#[export] Program Instance jmem_allocator : Allocator jmem := {|
  faults_of := j_faults; set_faults := with_jfaults;
  next_of := j_next; set_next := with_jnext;
|}.
Next Obligation. by intros []. Qed.
Next Obligation. done. Qed.
#[export] Program Instance jmem_journals : Store jmem journal_t := {|
  heap_of := j_journals; set_heap := with_journals;
|}.
Solve All Obligations with done.
#[export] Program Instance jmem_maps : Store jmem (list byte) := {|
  heap_of := j_maps; set_heap := with_maps;
|}.
Solve All Obligations with done.

(** [size_t] values in memory. *)
Definition encode_size (z : Z) : list byte := le_split 8 z.
Definition decode_size (bs : list byte) : Z := le_combine bs.

(** ** The mutex of a journal *)
Definition set_jmutex (b : bool) (j : journal_t) : journal_t :=
  Journal b (max_size j) (journal_ptr j).
Definition jmutex_lock (journal : ptr) : M jmem bool :=
  let* ok := fallible in
  if ok then
    let* j := load journal in
    if j_mutex j then blocked else store journal (set_jmutex true j) ;; ret true
  else ret false.
Definition jmutex_unlock (journal : ptr) : M jmem bool :=
  let* ok := fallible in
  if ok then
    let* j := load journal in
    if j_mutex j then store journal (set_jmutex false j) ;; ret true else undefined UB_mutex
  else ret false.

(** [munmap]: [false] is the return value -1. *)
Definition sys_munmap (p : ptr) : M jmem bool :=
  let* ok := fallible in
  if ok then free (list byte) p ;; ret true else ret false.

(** ** Operations *)
Definition journal_create (size : Z) : M jmem ptr :=
  if size <=? sizeof_size_t then ret None else
  let* journal := alloc (Journal false 0 None) in
  match journal with
  | None => ret None
  | Some _ =>
      store journal (Journal false size None) ;;
      let* mapping := alloc (replicate (Z.to_nat size) NUL) in
      match mapping with
      | None => free journal_t journal ;; ret None
      | Some _ =>
          store journal (Journal false size mapping) ;;
          let* region := load mapping in
          let* region := copy_in 0 (encode_size sizeof_size_t) region in
          store mapping region ;;
          let* attr_ok := fallible in
          if negb attr_ok then sys_munmap mapping ;; free journal_t journal ;; ret None else
          let* shared_ok := fallible in
          if negb shared_ok then sys_munmap mapping ;; free journal_t journal ;; ret None else
          let* mutex_ok := fallible in
          if negb mutex_ok then sys_munmap mapping ;; free journal_t journal ;; ret None else
          ret journal
      end
  end.

(** A failing [pthread_mutex_destroy] is only logged. *)
Definition journal_delete (journal : ptr) : M jmem journal_status_t :=
  match journal with
  | None => ret JOURNAL_STATUS_ERROR_PARAMS_NULL
  | Some _ =>
      let* j := load journal in
      let* unmapped := sys_munmap (journal_ptr j) in
      if negb unmapped then ret JOURNAL_STATUS_ERROR_MUNMAP else
      free journal_t journal ;; ret JOURNAL_STATUS_SUCCESS
  end.

(** Lines 117-129: the part of [journal_write] under the lock; [false] is the branch without
    enough space. *)
Definition append_locked (journal : ptr) (data : list byte) (data_size : Z) : M jmem bool :=
  let* j := load journal in
  let* region := load (journal_ptr j) in
  let* bytes := copy_out 0 (Z.to_nat sizeof_size_t) region in
  let cur_size := decode_size bytes in
  if max_size j <? wrap64 (cur_size + data_size) then ret false else
  let* src := copy_out 0 (Z.to_nat data_size) data in
  let* region := copy_in (Z.to_nat cur_size) src region in
  let* region := copy_in 0 (encode_size (wrap64 (cur_size + data_size))) region in
  store (journal_ptr j) region ;;
  ret true.

Definition journal_write (journal : ptr) (data : option (list byte)) (data_size : Z)
    : M jmem journal_status_t :=
  match journal, data with
  | Some _, Some src =>
      if data_size =? 0 then ret JOURNAL_STATUS_SUCCESS else
      let* locked := jmutex_lock journal in
      if negb locked then ret JOURNAL_STATUS_ERROR_MUTEX_LOCK else
      let* appended := append_locked journal src data_size in
      if negb appended then jmutex_unlock journal ;; ret JOURNAL_STATUS_ERROR_NO_SPACE else
      let* unlocked := jmutex_unlock journal in
      if negb unlocked then ret JOURNAL_STATUS_ERROR_MUTEX_UNLOCK else ret JOURNAL_STATUS_SUCCESS
  | _, _ => ret JOURNAL_STATUS_ERROR_PARAMS_NULL
  end.

(** [buffer] is the caller's memory and [buffer_size] the caller's variable; both are returned
    with what the call leaves in them. *)
Definition journal_read (journal : ptr) (buffer : option (list byte)) (buffer_size : option Z)
    : M jmem (journal_status_t * option (list byte) * option Z) :=
  match journal, buffer, buffer_size with
  | Some _, Some dst, Some size =>
      let* locked := jmutex_lock journal in
      if negb locked then ret (JOURNAL_STATUS_ERROR_MUTEX_LOCK, buffer, Some 0) else
      let* j := load journal in
      let* region := load (journal_ptr j) in
      let* bytes := copy_out 0 (Z.to_nat sizeof_size_t) region in
      let cur_size := decode_size bytes in
      if size <? cur_size then
        jmutex_unlock journal ;; ret (JOURNAL_STATUS_ERROR_READ, buffer, Some 0)
      else
      let n := wrap64 (cur_size - sizeof_size_t) in
      let* entries := copy_out (Z.to_nat sizeof_size_t) (Z.to_nat n) region in
      let* dst' := copy_in 0 entries dst in
      let* unlocked := jmutex_unlock journal in
      if negb unlocked then ret (JOURNAL_STATUS_ERROR_MUTEX_UNLOCK, Some dst', Some 0) else
      ret (JOURNAL_STATUS_SUCCESS, Some dst', Some n)
  | _, _, _ => ret (JOURNAL_STATUS_ERROR_PARAMS_NULL, buffer, buffer_size)
  end.

#[global] Arguments journal_create : simpl never.
#[global] Arguments journal_delete : simpl never.
#[global] Arguments journal_write : simpl never.
#[global] Arguments journal_read : simpl never.
#[global] Arguments append_locked : simpl never.
#[global] Arguments sys_munmap : simpl never.

(** ** The region as an abstract log *)
Definition region_of (log rest : list byte) : list byte :=
  encode_size (sizeof_size_t + Z.of_nat (length log)) ++ log ++ rest.

#[global] Arguments encode_size : simpl never.
#[global] Arguments decode_size : simpl never.
#[global] Arguments region_of : simpl never.

(** Sizes of C objects are below 2^63. *)
Definition PTRDIFF_MAX : Z := 2 ^ 63 - 1.

(** An unlocked journal of size [cap] at [l] whose entries are the bytes [log]. *)
Definition journal_at (m : jmem) (l : loc) (cap : Z) (log : list byte) : Prop :=
  ∃ p rest, j_journals m !! l = Some (Journal false cap (Some p)) ∧
    j_maps m !! p = Some (region_of log rest) ∧
    sizeof_size_t + Z.of_nat (length log) + Z.of_nat (length rest) = cap ∧ cap ≤ PTRDIFF_MAX.

(** The abstract log: entries are appended while they fit. *)
Definition log_append (cap : Z) (log entry : list byte) : bool * list byte :=
  if cap <? sizeof_size_t + Z.of_nat (length log) + Z.of_nat (length entry)
  then (false, log) else (true, log ++ entry).

Section Region.
Implicit Types (log rest d : list byte).

Lemma length_encode_size z : length (encode_size z) = 8%nat.
Proof. apply length_le_split. Qed.

Lemma length_region_of log rest :
  Z.of_nat (length (region_of log rest)) = sizeof_size_t + Z.of_nat (length log) + Z.of_nat (length rest).
Proof. unfold region_of. rewrite !length_app, length_encode_size. unfold sizeof_size_t. lia. Qed.

Lemma region_size log rest :
  sizeof_size_t + Z.of_nat (length log) ≤ PTRDIFF_MAX →
  decode_size (slice 0 8 (region_of log rest)) = sizeof_size_t + Z.of_nat (length log).
Proof.
  intros H. unfold region_of, slice. rewrite drop_0, take_app_length' by (by rewrite length_encode_size).
  apply le_combine_split_id. unfold sizeof_size_t, PTRDIFF_MAX in *. lia.
Qed.

Lemma region_entries log rest : slice 8 (length log) (region_of log rest) = log.
Proof.
  unfold region_of, slice. rewrite drop_app_length' by (by rewrite length_encode_size).
  apply take_app_length.
Qed.

(** Copying an entry behind the first bytes [log] and then storing their size makes a region
    with the entry appended, whatever the size field was before. *)
Lemma size_append hd log rest d :
  length hd = 8%nat → (length d ≤ length rest)%nat →
  splice 0 (encode_size (sizeof_size_t + Z.of_nat (length log) + Z.of_nat (length d)))
    (splice (8 + length log) d (hd ++ log ++ rest))
  = region_of (log ++ d) (drop (length d) rest).
Proof.
  intros Hhd Hd. unfold region_of.
  assert (splice (8 + length log) d (hd ++ log ++ rest) = hd ++ log ++ d ++ drop (length d) rest) as ->.
  - rewrite (app_assoc hd log rest). unfold splice.
    rewrite (take_app_length' (hd ++ log)), drop_app_ge by (rewrite length_app; lia).
    rewrite <- app_assoc. do 4 f_equal. rewrite length_app. lia.
  - unfold splice. rewrite take_0, app_nil_l, length_encode_size, length_app, Nat2Z.inj_add, Z.add_assoc.
    f_equal. rewrite drop_app_length' by (by rewrite Hhd). by rewrite app_assoc.
Qed.

Lemma splice_region log rest d :
  (length d ≤ length rest)%nat →
  splice (8 + length log) d (region_of log rest) = region_of log (d ++ drop (length d) rest).
Proof.
  intros Hd. unfold region_of. set (hd := encode_size _). assert (Hhd : length hd = 8%nat) by apply length_encode_size.
  rewrite !(app_assoc hd log). unfold splice.
  rewrite (take_app_length' (hd ++ log)), drop_app_ge by (rewrite length_app; lia).
  do 3 f_equal. rewrite length_app. lia.
Qed.

Lemma region_append log rest d :
  (length d ≤ length rest)%nat →
  splice 0 (encode_size (sizeof_size_t + Z.of_nat (length log) + Z.of_nat (length d)))
    (splice (8 + length log) d (region_of log rest))
  = region_of (log ++ d) (drop (length d) rest).
Proof. intros. apply size_append; [apply length_encode_size|done]. Qed.

(** Storing the size of a log whose last entry is already in place. *)
Lemma region_store_size log d rest :
  splice 0 (encode_size (sizeof_size_t + Z.of_nat (length log) + Z.of_nat (length d)))
    (region_of log (d ++ rest)) = region_of (log ++ d) rest.
Proof.
  rewrite <- (drop_app_length d rest) at 2.
  rewrite <- region_append, splice_region by (rewrite length_app; lia).
  by rewrite drop_app_length.
Qed.
End Region.

(** ** Reading a region whose content is not known *)
Definition size_field (region : list byte) : Z := decode_size (slice 0 8 region).
(** The entries, as far as the size field tells. *)
Definition log_in (region : list byte) : list byte :=
  slice 8 (Z.to_nat (size_field region - sizeof_size_t)) region.
(** The size field points into the mapping of [cap] bytes. *)
Definition region_ok (cap : Z) (region : list byte) : Prop :=
  Z.of_nat (length region) = cap ∧ sizeof_size_t ≤ size_field region ≤ cap.

Lemma region_log_in cap region :
  region_ok cap region → ∃ rest, region = region_of (log_in region) rest ∧
    sizeof_size_t + Z.of_nat (length (log_in region)) + Z.of_nat (length rest) = cap.
Proof.
  intros [Hl Hs]. unfold sizeof_size_t in *. set (k := Z.to_nat (size_field region - 8)).
  assert (Hk : length (log_in region) = k).
  { unfold log_in, sizeof_size_t. fold k. apply length_slice. unfold k. lia. }
  exists (drop (8 + k) region). rewrite Hk, length_drop. split; [|unfold k in *; lia].
  unfold region_of. rewrite Hk. unfold sizeof_size_t.
  replace (8 + Z.of_nat k) with (size_field region) by (unfold k; lia).
  unfold size_field, encode_size, decode_size. rewrite le_split_combine by (rewrite length_slice; lia).
  unfold log_in, sizeof_size_t. fold k. unfold slice. rewrite drop_0, <- (drop_drop region k 8).
  by rewrite take_drop, take_drop.
Qed.

Lemma region_of_ok cap log rest :
  sizeof_size_t + Z.of_nat (length log) + Z.of_nat (length rest) = cap → cap ≤ PTRDIFF_MAX →
  region_ok cap (region_of log rest) ∧ log_in (region_of log rest) = log.
Proof.
  intros Hl Hc. assert (Hs : size_field (region_of log rest) = sizeof_size_t + Z.of_nat (length log))
    by (apply region_size; lia).
  split.
  - split; [by rewrite length_region_of|]. rewrite Hs. lia.
  - unfold log_in. rewrite Hs. replace (Z.to_nat _) with (length log) by lia. apply region_entries.
Qed.

(** ** Equations of the operations *)
Section Locks.
Context (m : jmem) (l : loc) (j : journal_t).
Hypothesis (Hl : j_journals m !! l = Some j).

Lemma jmutex_lock_cases :
  j_mutex j = false →
  ∃ ok fs, jmutex_lock (Some l) m
    = Ok (ok, if ok : bool then with_journals (<[l := set_jmutex true j]> (j_journals m)) (with_jfaults fs m)
              else with_jfaults fs m) ∧ (j_faults m = [] → ok = true ∧ fs = []).
Proof using Hl.
  intros Hm. unfold jmutex_lock, bind. destruct (fallible_cases m) as (ok & fs & -> & Hfs).
  exists ok, fs. split; [|done]. destruct ok; simpl; [|done]. by rewrite Hl, Hm; simpl; rewrite Hl.
Qed.

Lemma jmutex_unlock_cases :
  j_mutex j = true →
  ∃ ok fs, jmutex_unlock (Some l) m
    = Ok (ok, if ok : bool then with_journals (<[l := set_jmutex false j]> (j_journals m)) (with_jfaults fs m)
              else with_jfaults fs m) ∧ (j_faults m = [] → ok = true ∧ fs = []).
Proof using Hl.
  intros Hm. unfold jmutex_unlock, bind. destruct (fallible_cases m) as (ok & fs & -> & Hfs).
  exists ok, fs. split; [|done]. destruct ok; simpl; [|done]. by rewrite Hl, Hm; simpl; rewrite Hl.
Qed.
End Locks.

Section Append.
Context (m : jmem) (l p : loc) (b : bool) (cap : Z) (log rest : list byte).
Hypothesis (Hl : j_journals m !! l = Some (Journal b cap (Some p))).
Hypothesis (Hp : j_maps m !! p = Some (region_of log rest)).
Hypothesis (Hcap : sizeof_size_t + Z.of_nat (length log) + Z.of_nat (length rest) = cap).
Hypothesis (Hmax : cap ≤ PTRDIFF_MAX).

Lemma append_locked_eq src n :
  0 ≤ n ≤ Z.of_nat (length src) → n ≤ PTRDIFF_MAX →
  let d := take (Z.to_nat n) src in
  append_locked (Some l) src n m
  = if cap <? sizeof_size_t + Z.of_nat (length log) + n then Ok (false, m)
    else Ok (true, with_maps (<[p := region_of (log ++ d) (drop (Z.to_nat n) rest)]> (j_maps m)) m).
Proof using Hl Hp Hcap Hmax.
  intros Hn Hn2 d. assert (Hd : length d = Z.to_nat n) by (unfold d; rewrite length_take; lia).
  unfold append_locked, bind, load. simpl. rewrite Hl. simpl. rewrite Hp.
  rewrite copy_out_ok by (pose proof (length_region_of log rest); unfold sizeof_size_t in *; lia).
  change (Z.to_nat sizeof_size_t) with 8%nat. rewrite region_size by lia.
  unfold wrap64. rewrite Z.mod_small by (unfold PTRDIFF_MAX, sizeof_size_t in *; lia).
  destruct (Z.ltb_spec cap (sizeof_size_t + Z.of_nat (length log) + n)); [done|].
  rewrite copy_out_ok by lia. unfold slice. rewrite drop_0. fold d.
  replace (Z.to_nat (sizeof_size_t + Z.of_nat (length log))) with (8 + length log)%nat
    by (unfold sizeof_size_t; lia).
  pose proof (length_region_of log rest). unfold sizeof_size_t in *.
  rewrite copy_in_ok by (rewrite Hd; lia).
  rewrite copy_in_ok by (rewrite length_encode_size, length_splice; lia).
  simpl. rewrite Hp. unfold ret. do 4 f_equal.
  rewrite <- (Z2Nat.id n) at 1 by lia. rewrite <- Hd. apply region_append. lia.
Qed.
End Append.

Section Calls.
Context (m : jmem) (l : loc) (cap : Z) (log : list byte).
Hypothesis (Hat : journal_at m l cap log).

(** Every way a call of [journal_write] can end. *)
Lemma journal_write_cases src n :
  0 < n ≤ Z.of_nat (length src) → n ≤ PTRDIFF_MAX →
  let d := take (Z.to_nat n) src in
  ∃ st m', journal_write (Some l) (Some src) n m = Ok (st, m') ∧
    (∀ k, k ≠ l → j_journals m' !! k = j_journals m !! k) ∧
    (j_faults m = [] →
       st = (if (log_append cap log d).1 then JOURNAL_STATUS_SUCCESS else JOURNAL_STATUS_ERROR_NO_SPACE) ∧
       journal_at m' l cap (log_append cap log d).2 ∧ j_faults m' = []) ∧
    (st = JOURNAL_STATUS_ERROR_MUTEX_LOCK ∧ m' = with_jfaults (j_faults m') m
     ∨ st = JOURNAL_STATUS_ERROR_NO_SPACE ∧ (log_append cap log d).1 = false ∧ j_maps m' = j_maps m
     ∨ st = JOURNAL_STATUS_SUCCESS ∧ (log_append cap log d).1 = true ∧ journal_at m' l cap (log ++ d)
     ∨ st = JOURNAL_STATUS_ERROR_MUTEX_UNLOCK ∧ (log_append cap log d).1 = true ∧
       ∃ j, j_journals m' !! l = Some j ∧ j_mutex j = true ∧
            journal_at (with_journals (<[l := set_jmutex false j]> (j_journals m')) m') l cap (log ++ d)).
Proof using Hat.
  intros Hn Hn2 d. destruct Hat as (p & rest & Hl & Hp & Hsz & Hcap).
  assert (Hd : Z.of_nat (length d) = n) by (unfold d; rewrite length_take; lia).
  unfold journal_write. destruct (Z.eqb_spec n 0); [lia|].
  destruct (jmutex_lock_cases m l _ Hl eq_refl) as (ok1 & fs1 & E1 & H1).
  rewrite (bind_ok _ _ _ _ _ E1). destruct ok1; simpl.
  2: { eexists _, _. split; [done|]. split_and!; [done|naive_solver|by left]. }
  set (m1 := with_journals _ _).
  assert (Hl1 : j_journals m1 !! l = Some (Journal true cap (Some p))) by apply lookup_insert_eq.
  pose proof (append_locked_eq m1 l p true cap log rest Hl1 Hp Hsz Hcap src n ltac:(lia) Hn2) as Ea.
  unfold log_append. rewrite Hd.
  destruct (Z.ltb_spec cap (sizeof_size_t + Z.of_nat (length log) + n)) as [Hfull|Hfit];
    cbv zeta in Ea; rewrite (bind_ok _ _ _ _ _ Ea); cbn [negb fst snd].
  - destruct (jmutex_unlock_cases m1 l _ Hl1 eq_refl) as (ok2 & fs2 & E2 & H2).
    rewrite (bind_ok _ _ _ _ _ E2). eexists _, _. split; [done|].
    split_and!; [intros k Hk; destruct ok2; simpl; by rewrite ?lookup_insert_ne by done| |].
    + intros F. destruct (H1 F) as [_ ->], H2 as [-> ->]; [done|].
      split_and!; [done| |done]. exists p, rest. simpl. by rewrite lookup_insert_eq.
    + right; left. by destruct ok2.
  - set (m2 := with_maps _ _) in *.
    destruct (jmutex_unlock_cases m2 l _ Hl1 eq_refl) as (ok2 & fs2 & E2 & H2).
    rewrite (bind_ok _ _ _ _ _ E2).
    assert (Hnew : ∀ m3 : jmem, j_journals m3 !! l = Some (Journal false cap (Some p)) →
              j_maps m3 = j_maps m2 → journal_at m3 l cap (log ++ d)).
    { intros m3 El Em. exists p, (drop (Z.to_nat n) rest). split_and!; [done| |unfold d in *; rewrite length_app, length_drop; lia|done].
      rewrite Em. apply lookup_insert_eq. }
    destruct ok2; cbn [negb]; (eexists _, _; split; [done|]); simpl in Hl1.
    + split_and!; [intros k Hk; simpl; by rewrite !lookup_insert_ne by done| |].
      * intros F. destruct (H1 F) as [_ ->], H2 as [_ ->]; [done|].
        split_and!; [done| |done]. apply Hnew; [apply lookup_insert_eq|done].
      * right; right; left. split_and!; try done. apply Hnew; [apply lookup_insert_eq|done].
    + split_and!; [intros k Hk; simpl; by rewrite !lookup_insert_ne by done| |].
      * intros F. destruct (H1 F) as [_ ->], H2 as [? _]; done.
      * right; right; right. split_and!; try done. eexists. split_and!; [apply lookup_insert_eq|done|].
        apply Hnew; [apply lookup_insert_eq|done].
Qed.

(** Every way a call of [journal_read] can end. *)
Lemma journal_read_cases dst size :
  0 ≤ size ≤ Z.of_nat (length dst) →
  ∃ st dst' n m', journal_read (Some l) (Some dst) (Some size) m = Ok ((st, Some dst', Some n), m') ∧
    j_maps m' = j_maps m ∧
    (j_faults m = [] → m' = m ∧
       st = if size <? sizeof_size_t + Z.of_nat (length log)
            then JOURNAL_STATUS_ERROR_READ else JOURNAL_STATUS_SUCCESS) ∧
    (st = JOURNAL_STATUS_SUCCESS ∧ dst' = splice 0 log dst ∧ n = Z.of_nat (length log) ∧
       sizeof_size_t + Z.of_nat (length log) ≤ size
     ∨ st = JOURNAL_STATUS_ERROR_READ ∧ dst' = dst ∧ n = 0 ∧ size < sizeof_size_t + Z.of_nat (length log)
     ∨ (st = JOURNAL_STATUS_ERROR_MUTEX_LOCK ∨ st = JOURNAL_STATUS_ERROR_MUTEX_UNLOCK) ∧ n = 0).
Proof using Hat.
  intros Hs. destruct Hat as (p & rest & Hl & Hp & Hsz & Hcap). unfold journal_read.
  destruct (jmutex_lock_cases m l _ Hl eq_refl) as (ok1 & fs1 & E1 & H1).
  rewrite (bind_ok _ _ _ _ _ E1). destruct ok1; cbn [negb].
  2: { eexists _, _, _, _. split; [done|]. naive_solver. }
  set (m1 := with_journals _ _).
  assert (Hl1 : j_journals m1 !! l = Some (Journal true cap (Some p))) by apply lookup_insert_eq.
  assert (Ej : load (Some l) m1 = Ok (Journal true cap (Some p), m1)) by by apply load_ok.
  assert (Er : load (Some p) m1 = Ok (region_of log rest, m1)) by by apply load_ok.
  rewrite (bind_ok _ _ _ _ _ Ej). cbn [journal_ptr]. rewrite (bind_ok _ _ _ _ _ Er).
  pose proof (length_region_of log rest) as Hlen. unfold sizeof_size_t in *.
  rewrite (bind_ok _ _ m1 _ m1 (copy_out_ok 0 8 (region_of log rest) m1 ltac:(lia))).
  change (slice 0 8) with (slice 0 (Z.to_nat 8)). rewrite region_size by (unfold sizeof_size_t; lia).
  unfold sizeof_size_t.
  assert (Hback : ∀ fs, fs1 = [] → fs = [] → j_faults m = [] →
    with_journals (<[l := set_jmutex false (Journal true cap (Some p))]> (j_journals m1)) (with_jfaults fs m1) = m).
  { intros fs F1 F2 F3. destruct m; simpl in *; subst. unfold with_journals, with_jfaults, set_jmutex; simpl.
    by rewrite insert_insert_eq, insert_id. }
  destruct (jmutex_unlock_cases m1 l _ Hl1 eq_refl) as (ok2 & fs2 & E2 & H2).
  destruct (Z.ltb_spec size (8 + Z.of_nat (length log))).
  - rewrite (bind_ok _ _ _ _ _ E2). eexists _, _, _, _. split; [done|].
    split_and!; [by destruct ok2| |naive_solver].
    intros F. destruct (H1 F) as [_ F1]. destruct H2 as [-> F2]; [done|]. split; [by apply Hback|done].
  - assert (wrap64 (8 + Z.of_nat (length log) - 8) = Z.of_nat (length log)) as ->
      by (unfold wrap64, PTRDIFF_MAX in *; rewrite Z.mod_small; lia).
    rewrite (bind_ok _ _ m1 _ m1 (copy_out_ok 8 (Z.to_nat (Z.of_nat (length log))) (region_of log rest) m1 ltac:(lia))).
    rewrite Nat2Z.id, region_entries.
    rewrite (bind_ok _ _ m1 _ m1 (copy_in_ok 0 log dst m1 ltac:(lia))).
    rewrite (bind_ok _ _ _ _ _ E2). destruct ok2; cbn [negb]; (eexists _, _, _, _; split; [done|]).
    + split_and!; [done| |by left].
      intros F. destruct (H1 F) as [_ F1]. destruct H2 as [_ F2]; [done|]. split; [by apply Hback|done].
    + split_and!; [done| |naive_solver]. intros F. destruct (H1 F) as [_ F1]. by destruct H2.
Qed.
End Calls.

(** ** Creation *)
Record jheap_ok (m : jmem) : Prop := {
  jok_journals : fresh_above (j_next m) (j_journals m);
  jok_maps : fresh_above (j_next m) (j_maps m);
}.
#[export] Hint Resolve jok_journals jok_maps : heap.

(** The three error exits of [journal_create] below the mapping. *)
Lemma create_cleanup m l p j region js maps :
  j_journals m = <[l := j]> js → j_maps m = <[p := region]> maps →
  js !! l = None → maps !! p = None →
  ∃ m', (sys_munmap (Some p) ;; free journal_t (Some l) ;; ret (None : ptr)) m = Ok (None, m') ∧
    j_next m' = j_next m ∧ j_journals m' = js ∧ (j_maps m' = maps ∨ j_maps m' = j_maps m).
Proof.
  intros Ej Em Hl Hp. unfold sys_munmap, bind.
  destruct (fallible_cases m) as (ok & fs & -> & _).
  destruct ok; unfold free; simpl; rewrite ?Em, ?lookup_insert_eq; simpl; rewrite Ej, lookup_insert_eq;
    eexists; (split; [done|]); simpl; rewrite ?delete_insert_id by done; auto.
Qed.

Lemma journal_create_spec size m :
  jheap_ok m → size ≤ PTRDIFF_MAX →
  ∃ p m', journal_create size m = Ok (p, m') ∧ jheap_ok m' ∧
    (j_faults m = [] → j_faults m' = [] ∧ (sizeof_size_t < size → is_Some p)) ∧
    match p with
    | None => j_journals m' = j_journals m ∧ j_maps m ⊆ j_maps m'
    | Some l => sizeof_size_t < size ∧ j_journals m !! l = None ∧ journal_at m' l size []
    end.
Proof.
  intros [Hj Hm] Hsize. unfold journal_create.
  destruct (Z.leb_spec size sizeof_size_t) as [Hle|Hgt].
  { eexists None, m. split_and!; try done. intros. split; [done|lia]. }
  unfold bind at 1. match goal with |- context [alloc ?x m] => destruct (alloc_cases x m)
    as (fs & Hfs & [[Hne ->]| ->]) end; simpl in *.
  { eexists None, _. split; [done|]. split_and!; try done. }
  set (l := j_next m). assert (Hl : j_journals m !! l = None) by (apply Hj; lia).
  unfold bind at 1, store at 1. simpl. rewrite lookup_insert_eq, insert_insert_eq.
  set (m1 := with_journals _ _). unfold bind at 1.
  match goal with |- context [alloc ?x m1] => destruct (alloc_cases x m1)
    as (fs' & Hfs' & [[Hne ->]| ->]) end; simpl in *.
  { unfold bind, free. simpl. rewrite lookup_insert_eq. eexists None, _. split; [done|]. simpl.
    rewrite delete_insert_id by done. split_and!; try done; [split; simpl; auto with heap|naive_solver]. }
  set (p := Pos.succ l). assert (Hp : j_maps m !! p = None) by (apply Hm; lia).
  unfold bind at 1, store at 1. simpl. rewrite lookup_insert_eq, insert_insert_eq.
  unfold bind at 1, load. simpl. rewrite lookup_insert_eq.
  unfold bind at 1. rewrite copy_in_ok by (rewrite length_encode_size, length_replicate; unfold sizeof_size_t in *; lia).
  unfold bind at 1, store at 1. simpl. rewrite lookup_insert_eq, insert_insert_eq.
  set (region := splice 0 _ _). set (j := Journal false size (Some p)). set (m2 := with_maps _ _).
  assert (Hgood : ∀ fs, jheap_ok (with_jfaults fs m2)).
  { intros ?. split; simpl; [apply fresh_above_succ, fresh_above_alloc, Hj|].
    apply (fresh_above_alloc (Pos.succ (j_next m))), fresh_above_succ, Hm. }
  assert (Hbad : ∀ fs, (j_faults m = [] → false = true ∧ fs = []) →
    ∃ q m', (sys_munmap (Some p) ;; free journal_t (Some l) ;; ret (None : ptr)) (with_jfaults fs m2)
            = Ok (q, m') ∧ jheap_ok m' ∧
      (j_faults m = [] → j_faults m' = [] ∧ (sizeof_size_t < size → is_Some q)) ∧
      match q with
      | None => j_journals m' = j_journals m ∧ j_maps m ⊆ j_maps m'
      | Some l => sizeof_size_t < size ∧ j_journals m !! l = None ∧ journal_at m' l size []
      end).
  { intros fs0 Hf0. destruct (create_cleanup (with_jfaults fs0 m2) l p j region (j_journals m) (j_maps m))
      as (m' & E & En & Ej & Em); try done.
    exists None, m'. split_and!; [done| |naive_solver|done|].
    - split; rewrite En; [rewrite Ej; by apply fresh_above_succ, fresh_above_succ|].
      destruct Em as [->| ->]; [by apply fresh_above_succ, fresh_above_succ|apply (Hgood [])].
    - destruct Em as [->| ->]; [done|]. by apply insert_subseteq. }
  unfold bind at 1. destruct (fallible_cases m2) as (ok1 & fs1 & -> & H1).
  change (set_faults fs1 m2) with (with_jfaults fs1 m2).
  destruct ok1; cbn [negb]; [|apply Hbad; naive_solver].
  unfold bind at 1. destruct (fallible_cases (with_jfaults fs1 m2)) as (ok2 & fs2 & -> & H2).
  change (set_faults fs2 _) with (with_jfaults fs2 m2).
  destruct ok2; cbn [negb]; [|apply Hbad; naive_solver].
  unfold bind at 1. destruct (fallible_cases (with_jfaults fs2 m2)) as (ok3 & fs3 & -> & H3).
  change (set_faults fs3 _) with (with_jfaults fs3 m2).
  destruct ok3; cbn [negb]; [|apply Hbad; naive_solver].
  eexists (Some l), _. split; [done|]. split_and!; [apply Hgood|naive_solver|done|done|].
  exists p, (replicate (Z.to_nat size - 8) NUL). simpl. rewrite !lookup_insert_eq, length_replicate.
  unfold sizeof_size_t in *. split_and!; [done| |lia|done].
  unfold region, region_of, splice. rewrite take_0, length_encode_size, drop_replicate. done.
Qed.

(** ** Sequences of calls, on the code and on the abstract log *)
Inductive journal_op : Type := JWrite (entry : list byte) | JRead (size : nat).

(** A read hands over a buffer of [size] bytes; its answer is what the call put there. *)
Fixpoint run_journal (journal : ptr) (ops : list journal_op)
    : M jmem (list (journal_status_t * list byte)) :=
  match ops with
  | [] => ret []
  | JWrite entry :: ops =>
      let* st := journal_write journal (Some entry) (Z.of_nat (length entry)) in
      let* answers := run_journal journal ops in
      ret ((st, []) :: answers)
  | JRead size :: ops =>
      let* ' (st, buffer, n) := journal_read journal (Some (replicate size NUL)) (Some (Z.of_nat size)) in
      let* answers := run_journal journal ops in
      ret ((st, take (Z.to_nat (default 0 n)) (default [] buffer)) :: answers)
  end.

Fixpoint log_run (cap : Z) (ops : list journal_op) (log : list byte)
    : list (journal_status_t * list byte) * list byte :=
  match ops with
  | [] => ([], log)
  | JWrite entry :: ops =>
      let '(fits, log') := log_append cap log entry in
      let '(answers, final) := log_run cap ops log' in
      ((if fits then JOURNAL_STATUS_SUCCESS else JOURNAL_STATUS_ERROR_NO_SPACE, []) :: answers, final)
  | JRead size :: ops =>
      let '(answers, final) := log_run cap ops log in
      ((if Z.of_nat size <? sizeof_size_t + Z.of_nat (length log)
        then (JOURNAL_STATUS_ERROR_READ, []) else (JOURNAL_STATUS_SUCCESS, log)) :: answers, final)
  end.

Definition entry_sizes (ops : list journal_op) : Prop :=
  Forall (λ op, match op with JWrite d => Z.of_nat (length d) ≤ PTRDIFF_MAX | JRead _ => True end) ops.

Lemma journal_write_log m l cap log d :
  journal_at m l cap log → j_faults m = [] → Z.of_nat (length d) ≤ PTRDIFF_MAX →
  ∃ m', journal_write (Some l) (Some d) (Z.of_nat (length d)) m
        = Ok (if (log_append cap log d).1 then JOURNAL_STATUS_SUCCESS else JOURNAL_STATUS_ERROR_NO_SPACE, m') ∧
    journal_at m' l cap (log_append cap log d).2 ∧ j_faults m' = [].
Proof.
  intros Hat Hf Hd. destruct d as [|b d].
  - destruct Hat as (p & rest & Hl & Hp & Hsz & Hcap). exists m. unfold log_append.
    destruct (Z.ltb_spec cap (sizeof_size_t + Z.of_nat (length log) + Z.of_nat (length ([] : list byte)))); simpl in *; [lia|].
    rewrite app_nil_r. split_and!; [done|by exists p, rest|done].
  - destruct (journal_write_cases m l cap log Hat (b :: d) (Z.of_nat (length (b :: d))))
      as (st & m' & E & _ & Hok & _); [simpl; lia|done|].
    rewrite Nat2Z.id, take_ge in Hok by done. destruct (Hok Hf) as (-> & ? & ?). by exists m'.
Qed.

Lemma journal_read_log m l cap log size :
  journal_at m l cap log → j_faults m = [] →
  ∃ dst n, journal_read (Some l) (Some (replicate size NUL)) (Some (Z.of_nat size)) m
    = Ok ((if Z.of_nat size <? sizeof_size_t + Z.of_nat (length log)
           then JOURNAL_STATUS_ERROR_READ else JOURNAL_STATUS_SUCCESS, Some dst, Some n), m) ∧
    take (Z.to_nat n) dst = if Z.of_nat size <? sizeof_size_t + Z.of_nat (length log) then [] else log.
Proof.
  intros Hat Hf. destruct (journal_read_cases m l cap log Hat (replicate size NUL) (Z.of_nat size))
    as (st & dst & n & m' & E & _ & Hok & Hc); [rewrite length_replicate; lia|].
  destruct (Hok Hf) as [-> Est]. exists dst, n. rewrite E, Est. split; [done|].
  destruct (Z.ltb_spec (Z.of_nat size) (sizeof_size_t + Z.of_nat (length log)));
    destruct Hc as [(? & -> & -> & ?)|[(? & -> & -> & ?)|([?|?] & ?)]]; simplify_eq; try lia; try done.
  rewrite Nat2Z.id, take_splice_0 by done. by apply take_ge.
Qed.

(** ** Properties *)

(** C19: the journal is an append-only log.  Any sequence of writes and reads gives the answers
    of the abstract log: a write is accepted exactly when the entry still fits, appends it
    unchanged and never disturbs earlier entries; a read returns all entries in the order they
    were written, or fails if the buffer cannot hold them plus the eight bytes of the size
    field. *)
Theorem journal_refines_log l cap ops m log :
  journal_at m l cap log → j_faults m = [] → entry_sizes ops →
  ∃ m', ⟦ run_journal (Some l) ops ⟧ m ⇓ (log_run cap ops log).1, m' ∧
        journal_at m' l cap (log_run cap ops log).2.
Proof.
  unfold returns. revert m log. induction ops as [|[d|size] ops IH]; intros m log Hat Hf Hs.
  - by exists m.
  - apply Forall_cons in Hs as [Hd Hs]. simpl.
    destruct (journal_write_log m l cap log d Hat Hf Hd) as (m1 & E & Hat1 & Hf1).
    destruct (log_append cap log d) as [fits log'] eqn:Ea. simpl in *.
    destruct (IH m1 log' Hat1 Hf1 Hs) as (m' & E' & Hat'). exists m'. unfold bind. rewrite E, E'.
    by destruct (log_run cap ops log').
  - apply Forall_cons in Hs as [_ Hs]. simpl.
    destruct (journal_read_log m l cap log size Hat Hf) as (dst & n & E & Hn).
    destruct (IH m log Hat Hf Hs) as (m' & E' & Hat'). exists m'. unfold bind. rewrite E, E'. simpl.
    rewrite Hn. destruct (log_run cap ops log). simpl. by case_match.
Qed.

Definition jmem0 : jmem := JMem [] 1 ∅ ∅.
Definition jmem1 : jmem := run (journal_create 20) jmem0.
Lemma jmem1_at : journal_at jmem1 1 20 [].
Proof. exists 2%positive, (replicate 12 NUL). by split_and!; vm_compute. Qed.

Lemma journal_refines_log_witness :
  ∃ m', ⟦ run_journal (Some 1%positive)
            [JWrite (cstring "abc"%string); JWrite (cstring "too long!!"%string);
             JWrite (cstring "de"%string); JRead 13; JRead 12] ⟧ jmem1
     ⇓ [(JOURNAL_STATUS_SUCCESS, []); (JOURNAL_STATUS_ERROR_NO_SPACE, []); (JOURNAL_STATUS_SUCCESS, []);
        (JOURNAL_STATUS_SUCCESS, cstring "abcde"%string); (JOURNAL_STATUS_ERROR_READ, [])], m'.
Proof.
  destruct (journal_refines_log 1 20 [JWrite (cstring "abc"%string); JWrite (cstring "too long!!"%string);
             JWrite (cstring "de"%string); JRead 13; JRead 12] jmem1 [] jmem1_at) as (m' & E & _);
    [done|by repeat constructor|]. by exists m'.
Defined.

(** C20: a journal write on every branch.  Whatever mutex call fails, [journal_write] returns and
    touches nothing but its own journal; [ERROR_MUTEX_LOCK] and [ERROR_NO_SPACE] mean that the
    shared region is unchanged, [SUCCESS] and [ERROR_MUTEX_UNLOCK] that the entry was appended,
    in the latter case with the mutex still locked. *)
Theorem journal_write_branches m l cap log src n :
  journal_at m l cap log → 0 < n ≤ Z.of_nat (length src) → n ≤ PTRDIFF_MAX →
  let d := take (Z.to_nat n) src in
  ∃ st m', journal_write (Some l) (Some src) n m = Ok (st, m') ∧
    (∀ k, k ≠ l → j_journals m' !! k = j_journals m !! k) ∧
    match st with
    | JOURNAL_STATUS_ERROR_MUTEX_LOCK => j_maps m' = j_maps m ∧ j_journals m' = j_journals m
    | JOURNAL_STATUS_ERROR_NO_SPACE => (log_append cap log d).1 = false ∧ j_maps m' = j_maps m
    | JOURNAL_STATUS_SUCCESS => (log_append cap log d).1 = true ∧ journal_at m' l cap (log ++ d)
    | JOURNAL_STATUS_ERROR_MUTEX_UNLOCK => (log_append cap log d).1 = true ∧
        ∃ j, j_journals m' !! l = Some j ∧ j_mutex j = true ∧
             journal_at (with_journals (<[l := set_jmutex false j]> (j_journals m')) m') l cap (log ++ d)
    | _ => False
    end.
Proof.
  intros Hat Hn Hn2 d. destruct (journal_write_cases m l cap log Hat src n Hn Hn2)
    as (st & m' & E & Hk & _ & Hc). exists st, m'. split_and!; [done|done|].
  destruct Hc as [[-> ->]|[(-> & ? & ?)|[(-> & ? & ?)|(-> & ? & ?)]]]; done.
Qed.

Lemma journal_write_branches_witness :
  ∃ st m', journal_write (Some 1%positive) (Some (cstring "abc"%string)) 3 (with_jfaults [false; true] jmem1)
           = Ok (st, m').
Proof.
  destruct (journal_write_branches (with_jfaults [false; true] jmem1) 1 20 [] (cstring "abc"%string) 3)
    as (st & m' & E & _); [exact jmem1_at|simpl; lia|by vm_compute|]. by exists st, m'.
Defined.

(** [journal_create] on every branch: NULL for a size that leaves no room behind the size
    field and after any failing library call, with no journal left behind and no older mapping
    lost; otherwise a fresh, unlocked journal without entries. *)
Theorem journal_create_total size m :
  jheap_ok m → size ≤ PTRDIFF_MAX →
  ∃ p m', journal_create size m = Ok (p, m') ∧ jheap_ok m' ∧
    (size ≤ sizeof_size_t → p = None) ∧ (sizeof_size_t < size → j_faults m = [] → is_Some p) ∧
    match p with
    | None => j_journals m' = j_journals m ∧ j_maps m ⊆ j_maps m'
    | Some l => j_journals m !! l = None ∧ journal_at m' l size []
    end.
Proof.
  intros Hh Hs. destruct (journal_create_spec size m Hh Hs) as (p & m' & E & Hh' & Hf & Hp).
  exists p, m'. split_and!; try done; [|naive_solver|]; destruct p; try done; destruct Hp; [lia|done].
Qed.

Lemma journal_create_total_witness :
  ∃ p m', journal_create 1024 jmem0 = Ok (p, m') ∧ is_Some p.
Proof.
  destruct (journal_create_total 1024 jmem0) as (p & m' & E & _ & _ & Hs & _);
    [by split|by vm_compute|]. exists p, m'. split; [exact E|by apply Hs].
Defined.

Lemma journal_delete_ok m l cap log :
  journal_at m l cap log → j_faults m = [] →
  ∃ m', journal_delete (Some l) m = Ok (JOURNAL_STATUS_SUCCESS, m') ∧ j_journals m' !! l = None ∧ j_faults m' = [].
Proof.
  intros (p & rest & Hl & Hp & _) Hf. unfold journal_delete, sys_munmap, bind, load. simpl. rewrite Hl.
  rewrite fallible_nil by done. unfold free. simpl. rewrite Hp. simpl. rewrite Hl. eexists. split; [done|].
  split; [apply lookup_delete_eq|done].
Qed.

(** [journal_delete] releases the mapping and the struct; if [munmap] fails the journal is
    kept and stays usable. *)
Theorem journal_delete_spec m l cap log :
  journal_at m l cap log →
  ∃ st m', journal_delete (Some l) m = Ok (st, m') ∧
    (j_faults m = [] → st = JOURNAL_STATUS_SUCCESS) ∧
    (st = JOURNAL_STATUS_SUCCESS ∧ j_journals m' = delete l (j_journals m) ∧
       (∃ p, j_maps m' = delete p (j_maps m) ∧ is_Some (j_maps m !! p))
     ∨ st = JOURNAL_STATUS_ERROR_MUNMAP ∧ journal_at m' l cap log).
Proof.
  intros (p & rest & Hl & Hp & Hsz & Hcap). unfold journal_delete, sys_munmap, bind, load. simpl. rewrite Hl.
  destruct (fallible_cases m) as (ok & fs & -> & Hfs).
  destruct ok; unfold free; simpl; rewrite ?Hp; simpl; rewrite ?Hl; eexists _, _; (split; [done|]); simpl.
  - split; [done|]. left. split_and!; try done. exists p. by rewrite Hp.
  - split; [naive_solver|]. right. split; [done|]. by exists p, rest.
Qed.

Lemma journal_delete_spec_witness :
  ∃ m', journal_delete (Some 1%positive) jmem1 = Ok (JOURNAL_STATUS_SUCCESS, m').
Proof.
  destruct (journal_delete_spec jmem1 1 20 [] jmem1_at) as (st & m' & E & Hst & _).
  exists m'. rewrite <- Hst; done.
Defined.
