(* ===== verification/JournalShared.v ===== *)
(** * JournalShared: concurrent writers of one journal

    The steps of [journal_write] (server/journal.c) as a transition system over the shared
    mapping: every writer locks its mutex, reads the size, copies its entry, stores the new
    size and unlocks.  [mutex_of] says which mutex a writer locks.  Threads of one process lock
    the same one; processes do not: [journal_create] puts the mutex into [malloc] memory
    (journal.c, lines 19 and 51), which [fork] (utility/safe_process.c, called in a loop by
    server/server.c) copies, while the mapping itself stays shared.  A [memcpy] is one step; one
    that leaves the mapping makes the writer undefined ([PUndefined]), as in [append_locked]. *)
From S2P Require Import Prelude Layout Memory Journal.

Local Open Scope Z_scope.

(** Where a writer is in [journal_write]. *)
Inductive writer_pc : Type :=
  | PStart                         (* before pthread_mutex_lock *)
  | PLocked                        (* before the size is read *)
  | PSize (cur_size : Z)           (* before the check and the copy *)
  | PCopied (cur_size : Z)         (* before the new size is stored *)
  | PUnlock (st : journal_status_t)  (* before pthread_mutex_unlock *)
  | PDone (st : journal_status_t)
  | PUndefined.                    (* a memcpy outside the mapping *)

#[export] Instance writer_pc_eq_dec : EqDecision writer_pc.
Proof. solve_decision. Defined.

Record shared := Shared {
  s_region : list byte;
  s_locks : gmap nat nat;    (* held mutexes and their owners *)
  s_pcs : list writer_pc;
}.

Section Writers.
Context (cap : Z) (mutex_of : nat → nat) (entry : nat → list byte).

Definition set_pc (i : nat) (pc : writer_pc) (s : shared) : shared :=
  Shared (s_region s) (s_locks s) (<[i := pc]> (s_pcs s)).

(** Do the [n] bytes from [off] on lie in the mapping? *)
Definition inside (off n : nat) (region : list byte) : bool := bool_decide (off + n ≤ length region)%nat.

(** One step of writer [i]; [None] if it is suspended or has finished. *)
Definition write_step (i : nat) (s : shared) : option shared :=
  pc ← s_pcs s !! i;
  match pc with
  | PStart =>
      match s_locks s !! mutex_of i with
      | Some _ => None
      | None => Some (set_pc i PLocked (Shared (s_region s) (<[mutex_of i := i]> (s_locks s)) (s_pcs s)))
      end
  | PLocked =>
      if inside 0 8 (s_region s) then Some (set_pc i (PSize (size_field (s_region s))) s)
      else Some (set_pc i PUndefined s)
  | PSize cur_size =>
      if cap <? wrap64 (cur_size + Z.of_nat (length (entry i)))
      then Some (set_pc i (PUnlock JOURNAL_STATUS_ERROR_NO_SPACE) s)
      else if inside (Z.to_nat cur_size) (length (entry i)) (s_region s)
      then Some (set_pc i (PCopied cur_size)
             (Shared (splice (Z.to_nat cur_size) (entry i) (s_region s)) (s_locks s) (s_pcs s)))
      else Some (set_pc i PUndefined s)
  | PCopied cur_size =>
      if inside 0 8 (s_region s)
      then Some (set_pc i (PUnlock JOURNAL_STATUS_SUCCESS)
        (Shared (splice 0 (encode_size (wrap64 (cur_size + Z.of_nat (length (entry i))))) (s_region s))
           (s_locks s) (s_pcs s)))
      else Some (set_pc i PUndefined s)
  | PUnlock st => Some (set_pc i (PDone st) (Shared (s_region s) (delete (mutex_of i) (s_locks s)) (s_pcs s)))
  | PDone _ | PUndefined => None
  end.

Inductive reachable (s0 : shared) : shared → Prop :=
  | reach_refl : reachable s0 s0
  | reach_step i s s' : reachable s0 s → write_step i s = Some s' → reachable s0 s'.

Fixpoint run_schedule (sched : list nat) (s : shared) : option shared :=
  match sched with
  | [] => Some s
  | i :: sched => s' ← write_step i s; run_schedule sched s'
  end.

Lemma run_schedule_reachable sched s0 : ∀ s s',
  reachable s0 s → run_schedule sched s = Some s' → reachable s0 s'.
Proof using Type.
  induction sched as [|i sched IH]; intros s s' Hr; simpl; [by intros [= <-]|].
  destruct (write_step i s) as [s1|] eqn:E; [|done]. simpl. apply IH. by eapply reach_step.
Qed.

Lemma run_cons i sched s s' :
  write_step i s = Some s' → run_schedule (i :: sched) s = run_schedule sched s'.
Proof using Type. intros E. simpl. by rewrite E. Qed.

Definition initial (log rest : list byte) (writers : nat) : shared :=
  Shared (region_of log rest) ∅ (replicate writers PStart).

(** Has the writer's entry been appended? *)
Definition accepted (pc : writer_pc) : bool :=
  match pc with
  | PUnlock st | PDone st => bool_decide (st = JOURNAL_STATUS_SUCCESS)
  | _ => false
  end.
Definition critical (pc : writer_pc) : bool :=
  match pc with PStart | PDone _ | PUndefined => false | _ => true end.
Definition finished (pc : writer_pc) : bool :=
  match pc with PDone _ => true | _ => false end.
End Writers.

(** ** Writers that share one mutex *)
Section OneMutex.
Context (cap : Z) (mutex_of : nat → nat) (entry : nat → list byte) (mx : nat) (log0 : list byte).
Hypothesis (Hmx : ∀ i, mutex_of i = mx).
Hypothesis (Hcap : cap ≤ PTRDIFF_MAX).
Hypothesis (Hent : ∀ i, Z.of_nat (length (entry i)) ≤ PTRDIFF_MAX).

(** The log when the writers [acc] have been accepted, in this order. *)
Definition log_of (acc : list nat) : list byte := log0 ++ concat (entry <$> acc).
Definition size_of (acc : list nat) : Z := sizeof_size_t + Z.of_nat (length (log_of acc)).

(** What the program counter of writer [i] says about the log and the free bytes [rest]. *)
Definition pc_ok (acc : list nat) (rest : list byte) (i : nat) (pc : writer_pc) : Prop :=
  match pc with
  | PStart | PLocked => True
  | PSize cur => cur = size_of acc
  | PCopied cur => cur = size_of acc ∧ ∃ r, rest = entry i ++ r
  | PUnlock st | PDone st =>
      st = JOURNAL_STATUS_SUCCESS ∨
      st = JOURNAL_STATUS_ERROR_NO_SPACE ∧ cap < size_of acc + Z.of_nat (length (entry i))
  | PUndefined => False
  end.

Record inv (s : shared) (acc : list nat) (rest : list byte) : Prop := {
  inv_nodup : NoDup acc;
  inv_live : ∀ i, i ∈ acc → ∃ pc, s_pcs s !! i = Some pc ∧ accepted pc = true;
  inv_acc : ∀ i pc, s_pcs s !! i = Some pc → accepted pc = true → i ∈ acc;
  inv_lock : ∀ i pc, s_pcs s !! i = Some pc → critical pc = true → s_locks s !! mx = Some i;
  inv_owner : ∀ i, s_locks s !! mx = Some i → ∃ pc, s_pcs s !! i = Some pc ∧ critical pc = true;
  inv_size : size_of acc + Z.of_nat (length rest) = cap;
  inv_region : s_region s = region_of (log_of acc) rest;
  inv_pc : ∀ i pc, s_pcs s !! i = Some pc → pc_ok acc rest i pc;
}.

(** A step inside the critical section keeps the owner of the lock. *)
Lemma owner_kept s acc rest i pc pc' :
  inv s acc rest → s_pcs s !! i = Some pc → critical pc' = true →
  ∀ k, s_locks s !! mx = Some k → ∃ pck, <[i := pc']> (s_pcs s) !! k = Some pck ∧ critical pck = true.
Proof using Type.
  intros H Hi Hc k Hk. destruct (decide (k = i)) as [->|].
  - exists pc'. by rewrite list_lookup_insert_eq by (by eapply lookup_lt_Some).
  - rewrite list_lookup_insert_ne by done. by eapply inv_owner.
Qed.

(** Changing the program counter of one writer that stays accepted, or stays not accepted. *)
Lemma inv_move s acc rest i pc pc' locks :
  inv s acc rest → s_pcs s !! i = Some pc → accepted pc' = accepted pc → pc_ok acc rest i pc' →
  (∀ k pck, <[i := pc']> (s_pcs s) !! k = Some pck → critical pck = true → locks !! mx = Some k) →
  (∀ k, locks !! mx = Some k → ∃ pck, <[i := pc']> (s_pcs s) !! k = Some pck ∧ critical pck = true) →
  inv (Shared (s_region s) locks (<[i := pc']> (s_pcs s))) acc rest.
Proof using Type.
  intros [Hnd Hlive Hacc Hlock Hown Hsz Hreg Hpc] Hi Ha Hok Hl Hl'. split; simpl; try done.
  - intros k Hk. destruct (Hlive k Hk) as (pck & Ek & Hak). destruct (decide (k = i)) as [->|].
    + exists pc'. split; [apply list_lookup_insert_eq; by eapply lookup_lt_Some|congruence].
    + exists pck. by rewrite list_lookup_insert_ne.
  - intros k pck. rewrite list_lookup_insert_Some. intros [(<- & <- & _)|[_ Ek]]; [|by apply Hacc].
    rewrite Ha. by apply Hacc.
  - intros k pck. rewrite list_lookup_insert_Some. intros [(<- & <- & _)|[_ Ek]]; [done|by apply Hpc].
Qed.

(** A writer in its critical section is the only one there. *)
Lemma inv_exclusive s acc rest i pc j pcj :
  inv s acc rest → s_pcs s !! i = Some pc → critical pc = true →
  s_pcs s !! j = Some pcj → critical pcj = true → i = j.
Proof using Type. intros H Hi Hc Hj Hcj. pose proof (inv_lock _ _ _ H _ _ Hi Hc). pose proof (inv_lock _ _ _ H _ _ Hj Hcj). congruence. Qed.

(** Rewriting free bytes that no writer but [i] relies on. *)
Lemma inv_rest s acc rest rest' i cur :
  inv s acc rest → s_pcs s !! i = Some (PSize cur) → (∃ r, rest' = entry i ++ r) →
  length rest' = length rest →
  inv (set_pc i (PCopied cur) (Shared (region_of (log_of acc) rest') (s_locks s) (s_pcs s))) acc rest'.
Proof using Hmx Hcap Hent.
  intros H Hi Hr Hl. pose proof (inv_pc _ _ _ H i _ Hi) as Hcur. simpl in Hcur.
  pose proof (owner_kept s acc rest i _ (PCopied cur) H Hi eq_refl) as Howner.
  destruct H as [Hnd Hlive Hacc Hlock Hown Hsz Hreg Hpc]. split; simpl; try done.
  - intros k Hk. destruct (Hlive k Hk) as (pck & Ek & Hak). exists pck.
    rewrite list_lookup_insert_ne; [done|]. intros <-. by simplify_eq.
  - intros k pck. rewrite list_lookup_insert_Some. intros [(<- & <- & _)|[_ Ek]]; [done|by apply Hacc].
  - intros k pck. rewrite list_lookup_insert_Some. intros [(<- & <- & _)|[_ Ek]]; [|by eapply Hlock].
    intros _. by eapply Hlock.
  - by rewrite Hl.
  - intros k pck. rewrite list_lookup_insert_Some. intros [(<- & <- & _)|[Hne Ek]]; [done|].
    pose proof (Hpc k pck Ek) as Hok. destruct pck; try done. exfalso. apply Hne.
    assert (Some i = Some k) as [= ?]; [|done]. rewrite <- (Hlock i _ Hi eq_refl). by eapply Hlock.
Qed.

(** Storing the new size accepts the entry. *)
Lemma inv_accept s acc i cur r :
  inv s acc (entry i ++ r) → s_pcs s !! i = Some (PCopied cur) →
  inv (set_pc i (PUnlock JOURNAL_STATUS_SUCCESS)
         (Shared (region_of (log_of (acc ++ [i])) r) (s_locks s) (s_pcs s))) (acc ++ [i]) r.
Proof using Hmx Hcap Hent.
  intros H Hi. pose proof (owner_kept s acc _ i _ (PUnlock JOURNAL_STATUS_SUCCESS) H Hi eq_refl) as Howner.
  destruct H as [Hnd Hlive Hacc Hlock Hown Hsz Hreg Hpc].
  assert (Hni : i ∉ acc) by (intros (? & ? & ?)%Hlive; by simplify_eq).
  assert (Hlog : size_of (acc ++ [i]) = size_of acc + Z.of_nat (length (entry i))).
  { unfold size_of, log_of. rewrite fmap_app, concat_app, !length_app. simpl. rewrite app_nil_r. lia. }
  assert (Hil : (i < length (s_pcs s))%nat) by by eapply lookup_lt_Some.
  split; simpl; try done.
  - apply NoDup_app. split_and!; [done|set_solver|apply NoDup_singleton].
  - intros k [Hk| ->%list_elem_of_singleton]%elem_of_app.
    + destruct (Hlive k Hk) as (pck & Ek & Hak). exists pck. rewrite list_lookup_insert_ne; [done|]. by intros <-.
    + eexists. by rewrite list_lookup_insert_eq.
  - intros k pck. rewrite list_lookup_insert_Some. intros [(<- & <- & _)|[_ Ek]] Ha; [set_solver|].
    apply elem_of_app. left. by eapply Hacc.
  - intros k pck. rewrite list_lookup_insert_Some. intros [(<- & <- & _)|[_ Ek]]; [|by eapply Hlock].
    intros _. by eapply Hlock.
  - rewrite Hlog. rewrite length_app in Hsz. lia.
  - intros k pck. rewrite list_lookup_insert_Some. intros [(<- & <- & _)|[Hne Ek]]; [by left|].
    assert (Hcrit : critical pck = false).
    { destruct (critical pck) eqn:E; [|done]. exfalso. apply Hne.
      assert (Some i = Some k) as [= ?]; [|done]. rewrite <- (Hlock i _ Hi eq_refl). by eapply Hlock. }
    pose proof (Hpc k pck Ek) as Hok. destruct pck as [| | | | |st|]; try done. simpl in *.
    destruct Hok as [?|[? ?]]; [by left|]. right. split; [done|]. rewrite Hlog. lia.
Qed.

Lemma inv_step s s' i acc rest :
  inv s acc rest → write_step cap mutex_of entry i s = Some s' →
  ∃ acc' rest', inv s' acc' rest'.
Proof using Hmx Hcap Hent.
  intros H. unfold write_step. destruct (s_pcs s !! i) as [pc|] eqn:Hi; [|done]. simpl.
  pose proof (inv_pc _ _ _ H i pc Hi) as Hok. pose proof (inv_size _ _ _ H) as Hsz.
  pose proof (inv_region _ _ _ H) as Hreg. pose proof (Hent i) as Hei.
  assert (Hsame : ∀ k pck pc', (critical pc' = true → critical pc = true) →
    <[i := pc']> (s_pcs s) !! k = Some pck → critical pck = true → s_locks s !! mx = Some k).
  { intros k pck pc' Hcr. rewrite list_lookup_insert_Some. intros [(<- & <- & _)|[_ Ek]] Hc.
    - eapply inv_lock; [done|exact Hi|auto].
    - by eapply inv_lock. }
  assert (Hsz8 : sizeof_size_t + Z.of_nat (length (log_of acc)) ≤ PTRDIFF_MAX) by (unfold size_of in *; lia).
  assert (Hwrap : wrap64 (size_of acc + Z.of_nat (length (entry i))) = size_of acc + Z.of_nat (length (entry i))).
  { unfold wrap64. apply Z.mod_small. unfold size_of, sizeof_size_t, PTRDIFF_MAX in *. lia. }
  assert (Hin : ∀ off n, (off + n ≤ Z.to_nat cap)%nat → inside off n (s_region s) = true).
  { intros off n Hle. apply bool_decide_eq_true_2. pose proof (length_region_of (log_of acc) rest). rewrite Hreg.
    unfold size_of in Hsz. lia. }
  destruct pc as [| |cur|cur|st|st|]; [| | | | |done|done].
  - destruct (s_locks s !! mutex_of i) eqn:El; [done|]. intros [= <-]. rewrite Hmx in *.
    exists acc, rest. unfold set_pc; simpl. eapply inv_move; [done|exact Hi|done|done| |].
    { intros k pck. rewrite list_lookup_insert_Some.
      intros [(<- & <- & _)|[_ Ek]] Hc; [apply lookup_insert_eq|].
      pose proof (inv_lock _ _ _ H _ _ Ek Hc). congruence. }
    intros k. rewrite lookup_insert_eq. intros [= <-]. exists PLocked. by rewrite list_lookup_insert_eq by (by eapply lookup_lt_Some).
  - rewrite Hin by (unfold size_of, sizeof_size_t in *; lia). intros [= <-]. exists acc, rest.
    eapply inv_move; [done|exact Hi|done| |by intros; eapply Hsame|by eapply owner_kept].
    simpl. rewrite Hreg. by apply region_size.
  - simpl in Hok. subst cur. rewrite Hwrap.
    destruct (Z.ltb_spec cap (size_of acc + Z.of_nat (length (entry i)))) as [Hfull|Hfit];
      [|rewrite Hin by (unfold size_of, sizeof_size_t in *; lia)]; intros [= <-].
    + exists acc, rest. eapply inv_move; [done|exact Hi|done|by right|by intros; eapply Hsame|by eapply owner_kept].
    + eexists acc, _. unfold size_of, sizeof_size_t in *. rewrite Hreg.
      replace (Z.to_nat (8 + Z.of_nat (length (log_of acc)))) with (8 + length (log_of acc))%nat by lia.
      rewrite splice_region by lia. eapply inv_rest; [exact H|exact Hi|eauto|].
      rewrite length_app, length_drop. lia.
  - destruct Hok as [-> [r ->]]. rewrite Hwrap, Hin by (unfold size_of, sizeof_size_t in *; lia). intros [= <-]. exists (acc ++ [i]), r.
    rewrite Hreg. unfold size_of. rewrite region_store_size.
    replace (log_of acc ++ entry i) with (log_of (acc ++ [i])); [by eapply inv_accept|].
    unfold log_of. rewrite fmap_app, concat_app. simpl. by rewrite app_nil_r, app_assoc.
  - intros [= <-]. rewrite Hmx. exists acc, rest. unfold set_pc; simpl.
    eapply inv_move; [done|exact Hi|done|done| |].
    { intros k pck. rewrite list_lookup_insert_Some. intros [(<- & <- & _)|[Hne Ek]] Hc; [done|].
      exfalso. apply Hne. eapply inv_exclusive; [exact H|exact Hi|done|exact Ek|done]. }
    intros k. by rewrite lookup_delete_eq.
Qed.

Lemma inv_initial rest writers :
  sizeof_size_t + Z.of_nat (length log0) + Z.of_nat (length rest) = cap →
  inv (initial log0 rest writers) [] rest.
Proof using Hmx Hcap Hent.
  intros Hsz. assert (Hpcs : ∀ i pc, replicate writers PStart !! i = Some pc → pc = PStart)
    by (intros ? ? ?%lookup_replicate; naive_solver).
  split; simpl; try (intros i pc ->%Hpcs; done).
  - constructor.
  - set_solver.
  - intros i. by rewrite lookup_empty.
  - unfold size_of, log_of. simpl. by rewrite app_nil_r.
  - unfold log_of. simpl. by rewrite app_nil_r.
Qed.

Lemma inv_reachable rest writers s :
  sizeof_size_t + Z.of_nat (length log0) + Z.of_nat (length rest) = cap →
  reachable cap mutex_of entry (initial log0 rest writers) s →
  ∃ acc rest', inv s acc rest'.
Proof using Hmx Hcap Hent.
  intros Hsz. induction 1 as [|i s s' _ (acc & rest' & H) Hs]; [by exists [], rest; apply inv_initial|].
  by eapply inv_step.
Qed.
End OneMutex.

(** ** Properties *)

(** C21: writers that share a mutex lose nothing.  For any number of writers in one process, any
    interleaving of their steps, and any reachable state in which all calls have returned, the
    journal holds its old entries followed by exactly the entries of the writers that got
    [SUCCESS], each once and unbroken, in some order; every other writer got [ERROR_NO_SPACE]
    and its entry indeed does not fit behind the final log. *)
Theorem shared_mutex_keeps_entries cap mutex_of entry mx log0 rest writers s :
  (∀ i, mutex_of i = mx) → cap ≤ PTRDIFF_MAX → (∀ i, Z.of_nat (length (entry i)) ≤ PTRDIFF_MAX) →
  sizeof_size_t + Z.of_nat (length log0) + Z.of_nat (length rest) = cap →
  reachable cap mutex_of entry (initial log0 rest writers) s → forallb finished (s_pcs s) = true →
  ∃ acc rest', NoDup acc ∧ s_region s = region_of (log0 ++ concat (entry <$> acc)) rest' ∧
    Z.of_nat (length (s_region s)) = cap ∧
    ∀ i pc, s_pcs s !! i = Some pc →
      pc = PDone JOURNAL_STATUS_SUCCESS ∧ i ∈ acc
      ∨ pc = PDone JOURNAL_STATUS_ERROR_NO_SPACE ∧ ¬ (i ∈ acc) ∧
        cap < sizeof_size_t + Z.of_nat (length (log0 ++ concat (entry <$> acc))) + Z.of_nat (length (entry i)).
Proof.
  intros Hmx Hcap Hent Hsz Hr Hfin.
  destruct (inv_reachable cap mutex_of entry mx log0 Hmx Hcap Hent rest writers s Hsz Hr) as (acc & rest' & H).
  exists acc, rest'. split_and!; [apply H|apply H| |].
  - rewrite (inv_region _ _ _ _ _ _ _ H), length_region_of. apply (inv_size _ _ _ _ _ _ _ H).
  - intros i pc Hi. rewrite forallb_forall in Hfin.
    specialize (Hfin pc (proj1 (list_elem_of_In _ _) (list_elem_of_lookup_2 _ _ _ Hi))).
    destruct pc as [| | | | |st|]; try done.
    destruct (inv_pc _ _ _ _ _ _ _ H i _ Hi) as [->|[-> Hfull]]; [left|right]; split; try done.
    + by eapply inv_acc.
    + split; [|done]. intros (pc & Hpc & Ha)%(inv_live _ _ _ _ _ _ _ H). by simplify_eq.
Qed.

Definition demo_entry (i : nat) : list byte := cstring (if i is 0%nat then "aa" else "bbb")%string.
Definition demo_initial : shared := initial [] (replicate 12 NUL) 2.
Definition final_of (o : option shared) : shared := default demo_initial o.

Lemma shared_mutex_keeps_entries_witness :
  ∃ acc rest', s_region (final_of (run_schedule 20 (λ _, 0%nat) demo_entry
      [1;1;1;1;1;0;0;0;0;0]%nat demo_initial)) = region_of (concat (demo_entry <$> acc)) rest'.
Proof.
  destruct (shared_mutex_keeps_entries 20 (λ _, 0%nat) demo_entry 0 [] (replicate 12 NUL) 2
    (final_of (run_schedule 20 (λ _, 0%nat) demo_entry [1;1;1;1;1;0;0;0;0;0]%nat demo_initial)))
    as (acc & rest' & _ & E & _);
    [done|by vm_compute|by intros [|?]; vm_compute|done| |by vm_compute|].
  { eapply (run_schedule_reachable _ _ _ [1;1;1;1;1;0;0;0;0;0]%nat); [apply reach_refl|by vm_compute]. }
  by exists acc, rest'.
Defined.

(** The lock discipline is free of deadlock.  In every reachable state some writer that has
    not returned can take a step, unless all have returned. *)
Theorem shared_mutex_progress cap mutex_of entry mx log0 rest writers s :
  (∀ i, mutex_of i = mx) → cap ≤ PTRDIFF_MAX → (∀ i, Z.of_nat (length (entry i)) ≤ PTRDIFF_MAX) →
  sizeof_size_t + Z.of_nat (length log0) + Z.of_nat (length rest) = cap →
  reachable cap mutex_of entry (initial log0 rest writers) s → forallb finished (s_pcs s) = false →
  ∃ i s', write_step cap mutex_of entry i s = Some s'.
Proof.
  intros Hmx Hcap Hent Hsz Hr Hfin.
  destruct (inv_reachable cap mutex_of entry mx log0 Hmx Hcap Hent rest writers s Hsz Hr) as (acc & rest' & H).
  assert (Hcrit : ∀ i pc, s_pcs s !! i = Some pc → critical pc = true →
            ∃ s', write_step cap mutex_of entry i s = Some s').
  { intros i pc Hi Hc. unfold write_step. rewrite Hi. simpl. destruct pc; try done; repeat case_match; eauto. }
  assert (∃ i pc, s_pcs s !! i = Some pc ∧ finished pc = false) as (i & pc & Hi & Hnf).
  { clear -Hfin. induction (s_pcs s) as [|pc pcs IH]; [done|]. simpl in Hfin.
    destruct (finished pc) eqn:E; [|by exists 0%nat, pc].
    destruct (IH Hfin) as (i & pc' & ? & ?). by exists (S i), pc'. }
  destruct (critical pc) eqn:Hc; [exists i; by eapply Hcrit|].
  pose proof (inv_pc _ _ _ _ _ _ _ H i pc Hi) as Hok. destruct pc; try done.
  destruct (s_locks s !! mx) as [k|] eqn:El.
  - destruct (inv_owner _ _ _ _ _ _ _ H k El) as (pck & Hk & Hck). exists k. by eapply Hcrit.
  - exists i. unfold write_step. rewrite Hi. simpl. rewrite Hmx, El. eauto.
Qed.

Lemma shared_mutex_progress_witness :
  ∃ i s', write_step 20 (λ _, 0%nat) demo_entry i demo_initial = Some s'.
Proof.
  apply (shared_mutex_progress 20 (λ _, 0%nat) demo_entry 0 [] (replicate 12 NUL) 2 demo_initial);
    [done|by vm_compute|by intros [|?]; vm_compute|done|apply reach_refl|by vm_compute].
Defined.

(** C36: worker processes can lose journal entries.  Two processes lock different copies of the
    mutex, so there is an interleaving in which both calls of [journal_write] return [SUCCESS]
    and the first entry is overwritten by the second, whatever the entries, as long as both
    together would have fitted. *)
Theorem forked_mutex_loses_entry cap a b log0 rest :
  sizeof_size_t + Z.of_nat (length log0) + Z.of_nat (length rest) = cap → cap ≤ PTRDIFF_MAX →
  (length a + length b ≤ length rest)%nat →
  ∃ s rest', reachable cap (λ i, i) (λ i, if i is 0%nat then a else b) (initial log0 rest 2) s ∧
    s_pcs s = [PDone JOURNAL_STATUS_SUCCESS; PDone JOURNAL_STATUS_SUCCESS] ∧
    s_region s = region_of (log0 ++ b) rest'.
Proof.
  intros Hsz Hcap Hfit. set (entry := λ i, if i is 0%nat then a else b).
  assert (E : ∃ s rest', run_schedule cap (λ i, i) entry [0;0;1;1;0;0;1;1;0;1]%nat (initial log0 rest 2) = Some s ∧
    s_pcs s = [PDone JOURNAL_STATUS_SUCCESS; PDone JOURNAL_STATUS_SUCCESS] ∧
    s_region s = region_of (log0 ++ b) rest').
  { unfold sizeof_size_t in *.
    assert (Hw : ∀ k, (k ≤ length rest)%nat → wrap64 (8 + Z.of_nat (length log0) + Z.of_nat k) = 8 + Z.of_nat (length log0) + Z.of_nat k).
    { intros k Hk. apply Z.mod_small. unfold PTRDIFF_MAX in *. lia. }
    assert (Hlt : ∀ k, (k ≤ length rest)%nat → (cap <? 8 + Z.of_nat (length log0) + Z.of_nat k) = false)
      by (intros; apply Z.ltb_ge; lia).
    pose proof (region_size log0 rest ltac:(unfold sizeof_size_t; lia)) as Hr. unfold sizeof_size_t in Hr.
    change (decode_size (slice 0 8 (region_of log0 rest))) with (size_field (region_of log0 rest)) in Hr.
    assert (Hin : ∀ off n R, length R = Z.to_nat cap → (off + n ≤ Z.to_nat cap)%nat → inside off n R = true)
      by (intros off n R HR Hle; apply bool_decide_eq_true_2; lia).
    set (at_log := Z.to_nat (8 + Z.of_nat (length log0))).
    set (r1 := splice at_log a (region_of log0 rest)).
    set (r2 := splice 0 (encode_size (8 + Z.of_nat (length log0) + Z.of_nat (length a))) r1).
    assert (Hl0 : length (region_of log0 rest) = Z.to_nat cap) by (pose proof (length_region_of log0 rest); unfold sizeof_size_t in *; lia).
    assert (Hl1 : length r1 = Z.to_nat cap) by (unfold r1, at_log; rewrite length_splice; lia).
    assert (Hl2 : length r2 = Z.to_nat cap) by (unfold r2; rewrite length_splice; rewrite ?length_encode_size; lia).
    assert (Hl3 : length (splice at_log b r2) = Z.to_nat cap) by (unfold at_log; rewrite length_splice; lia).
    unfold initial. do 10 (erewrite run_cons; [|unfold write_step; simpl;
      rewrite ?Hr, ?Hw, ?Hlt, ?lookup_empty, ?lookup_insert_ne, ?Hin by (done || (unfold at_log; lia)); reflexivity]; fold at_log; cbn [set_pc s_region s_locks s_pcs insert list_insert]).
    eexists _, _. split; [done|]. split; [done|]. simpl.
    unfold r2, r1. replace at_log with (8 + length log0)%nat by (unfold at_log; lia).
    pose proof (region_append log0 rest a ltac:(lia)) as Ea. unfold sizeof_size_t in Ea. rewrite Ea.
    unfold region_of at 1. rewrite <- app_assoc.
    apply size_append; [apply length_encode_size|rewrite length_app, length_drop; lia]. }
  destruct E as (s & rest' & E & Hp & Hreg). exists s, rest'. split_and!; try done.
  eapply run_schedule_reachable; [apply reach_refl|exact E].
Qed.

Lemma forked_mutex_loses_entry_witness :
  ∃ s rest', reachable 20 (λ i, i) (λ i, if i is 0%nat then cstring "aa"%string else cstring "bbb"%string)
      demo_initial s ∧ s_region s = region_of (cstring "bbb"%string) rest'.
Proof.
  destruct (forked_mutex_loses_entry 20 (cstring "aa"%string) (cstring "bbb"%string) [] (replicate 12 NUL))
    as (s & rest' & Hr & _ & E); [done|by vm_compute|simpl; lia|]. by exists s, rest'.
Defined.

(** ** Writers with any mutexes *)
Lemma splice_app_r off d (l1 l2 : list byte) :
  (length l1 ≤ off)%nat → splice off d (l1 ++ l2) = l1 ++ splice (off - length l1) d l2.
Proof.
  intros Hle. unfold splice. rewrite take_app_ge, drop_app_ge, <- app_assoc by lia. do 4 f_equal. lia.
Qed.
Lemma splice_head (h h' l : list byte) : length h' = length h → splice 0 h' (h ++ l) = h' ++ l.
Proof. intros E. unfold splice. rewrite take_0, E. simpl. by rewrite drop_app_length. Qed.

Section AnyMutex.
Context (cap : Z) (mutex_of : nat → nat) (entry : nat → list byte) (log0 : list byte).
Hypothesis (Hcap : cap ≤ PTRDIFF_MAX).
Hypothesis (Hent : ∀ i, Z.of_nat (length (entry i)) ≤ PTRDIFF_MAX).
(** The offset behind the old entries. *)
Let base := sizeof_size_t + Z.of_nat (length log0).

(** A size that a writer has read lies behind the old entries. *)
Definition pc_inside (i : nat) (pc : writer_pc) : Prop :=
  match pc with
  | PSize cur => base ≤ cur ≤ cap
  | PCopied cur => base ≤ cur ∧ cur + Z.of_nat (length (entry i)) ≤ cap
  | PUndefined => False
  | _ => True
  end.

Record inside_inv (s : shared) : Prop := {
  ii_region : ∃ size body, s_region s = encode_size size ++ log0 ++ body ∧ base ≤ size ≤ cap ∧
    base + Z.of_nat (length body) = cap;
  ii_pcs : ∀ i pc, s_pcs s !! i = Some pc → pc_inside i pc;
}.

Lemma inside_move s i pc region locks :
  inside_inv s → pc_inside i pc →
  (∃ size body, region = encode_size size ++ log0 ++ body ∧ base ≤ size ≤ cap ∧ base + Z.of_nat (length body) = cap) →
  inside_inv (set_pc i pc (Shared region locks (s_pcs s))).
Proof using Type.
  intros [_ Hpcs] Hpc Hr. split; [done|]. intros k pck. simpl. rewrite list_lookup_insert_Some.
  intros [(<- & <- & _)|[_ Hk]]; [done|by apply Hpcs].
Qed.

Lemma inside_step s s' i :
  inside_inv s → write_step cap mutex_of entry i s = Some s' → inside_inv s'.
Proof using Hcap Hent.
  intros H. unfold write_step. destruct (s_pcs s !! i) as [pc|] eqn:Hi; [|done]. simpl.
  pose proof (ii_pcs _ H i pc Hi) as Hpc. pose proof (ii_region _ H) as (size & body & Hreg & Hs & Hl).
  pose proof (Hent i) as Hei. unfold base, sizeof_size_t, PTRDIFF_MAX in *.
  assert (Hsame : ∀ pc' locks, pc_inside i pc' → inside_inv (set_pc i pc' (Shared (s_region s) locks (s_pcs s))))
    by (intros pc' locks Hpc'; apply inside_move; [done|done|by apply (ii_region _ H)]).
  assert (Hin : ∀ off n, Z.of_nat (off + n) ≤ cap → inside off n (s_region s) = true).
  { intros off n Hle. apply bool_decide_eq_true_2. rewrite Hreg, !length_app, length_encode_size. lia. }
  assert (Hsf : size_field (s_region s) = size).
  { unfold size_field, slice. rewrite Hreg, drop_0, take_app_length' by (by rewrite length_encode_size).
    apply le_combine_split_id. lia. }
  destruct pc as [| |cur|cur|st|st|]; try done; cbn [pc_inside] in Hpc; unfold base, sizeof_size_t in Hpc.
  - destruct (s_locks s !! mutex_of i); [done|]. intros [= <-]. by apply Hsame.
  - rewrite Hin, Hsf by lia. intros [= <-]. by apply (Hsame _ (s_locks s)).
  - assert (Hw : wrap64 (cur + Z.of_nat (length (entry i))) = cur + Z.of_nat (length (entry i))) by (apply Z.mod_small; lia).
    rewrite Hw. destruct (Z.ltb_spec cap (cur + Z.of_nat (length (entry i)))); [|rewrite Hin by lia]; intros [= <-].
    + by apply (Hsame _ (s_locks s)).
    + apply inside_move; [done|cbn [pc_inside]; unfold base, sizeof_size_t; lia|]. rewrite Hreg.
      rewrite splice_app_r, length_encode_size, splice_app_r by (rewrite ?length_encode_size; lia).
      eexists size, _. split; [done|]. split; [unfold base, sizeof_size_t; lia|].
      rewrite length_splice by lia. unfold base, sizeof_size_t; lia.
  - assert (Hw : wrap64 (cur + Z.of_nat (length (entry i))) = cur + Z.of_nat (length (entry i))) by (apply Z.mod_small; lia).
    rewrite Hw, Hin by lia. intros [= <-]. apply inside_move; [done|done|].
    rewrite Hreg, splice_head by (by rewrite !length_encode_size).
    eexists _, body. split; [done|]. unfold base, sizeof_size_t. lia.
  - intros [= <-]. by apply Hsame.
Qed.

Lemma inside_reachable rest writers s :
  sizeof_size_t + Z.of_nat (length log0) + Z.of_nat (length rest) = cap →
  reachable cap mutex_of entry (initial log0 rest writers) s → inside_inv s.
Proof using Hcap Hent.
  intros Hsz. induction 1 as [|i s s' _ IH Hs]; [|by eapply inside_step]. split.
  - eexists _, rest. split; [done|]. unfold base. lia.
  - simpl. by intros i pc [-> _]%lookup_replicate.
Qed.
End AnyMutex.

(** C22: the journal survives unsynchronized writers.  Whatever mutexes the writers lock, so also
    when every worker process has its own copy, in every state that an interleaving of their steps
    reaches no [memcpy] has left the mapping, the size field is between 8 and the size of the
    mapping, and the old entries are still there, at the front of what a reader would get: only
    entries of the concurrent writers themselves can be lost. *)
Theorem any_mutex_keeps_journal cap mutex_of entry log0 rest writers s :
  cap ≤ PTRDIFF_MAX → (∀ i, Z.of_nat (length (entry i)) ≤ PTRDIFF_MAX) →
  sizeof_size_t + Z.of_nat (length log0) + Z.of_nat (length rest) = cap →
  reachable cap mutex_of entry (initial log0 rest writers) s →
  (PUndefined ∉ s_pcs s) ∧ region_ok cap (s_region s) ∧ ∃ new, log_in (s_region s) = log0 ++ new.
Proof.
  intros Hcap Hent Hsz Hr.
  destruct (inside_reachable cap mutex_of entry log0 Hcap Hent rest writers s Hsz Hr) as [(size & body & Hreg & Hs & Hl) Hpcs].
  assert (E : ∃ new rest', s_region s = region_of (log0 ++ new) rest' ∧ length new = Z.to_nat (size - sizeof_size_t - Z.of_nat (length log0))
                           ∧ (length new + length rest' = length body)%nat).
  { set (k := Z.to_nat (size - sizeof_size_t - Z.of_nat (length log0))).
    exists (take k body), (drop k body). rewrite length_take, length_drop. split; [|lia].
    unfold region_of. rewrite Hreg, length_app, length_take, <- app_assoc, take_drop. do 2 f_equal. lia. }
  destruct E as (new & rest' & E & Hn & Hrest). rewrite E.
  destruct (region_of_ok cap (log0 ++ new) rest') as [Hok Hlog]; [rewrite length_app; lia|done|].
  split; [|split; [exact Hok|by exists new]].
  intros (i & Hi)%list_elem_of_lookup. by apply Hpcs in Hi.
Qed.

(** Two worker processes, each with its own mutex, in the schedule that loses an entry. *)
Lemma any_mutex_keeps_journal_witness :
  let s := final_of (run_schedule 23 (λ i, i) demo_entry [0;0;1;1;0;0;1;1;0;1]%nat
             (initial (cstring "old"%string) (replicate 12 NUL) 2)) in
  log_in (s_region s) = cstring "oldbbb"%string ∧ ∃ new, log_in (s_region s) = cstring "old"%string ++ new.
Proof.
  intros s. destruct (any_mutex_keeps_journal 23 (λ i, i) demo_entry (cstring "old"%string) (replicate 12 NUL) 2 s)
    as (_ & _ & Hnew); [by vm_compute|by intros [|?]; vm_compute|done| |].
  { eapply (run_schedule_reachable _ _ _ [0;0;1;1;0;0;1;1;0;1]%nat); [apply reach_refl|by vm_compute]. }
  split; [by vm_compute|exact Hnew].
Defined.

(** ** The steps of a writer that is not interrupted *)
Section Alone.
Context (cap : Z) (mutex_of : nat → nat) (entry : nat → list byte) (i : nat) (s : shared).
Let data := entry i.
Let cur := size_field (s_region s).
Hypothesis (Hpc : s_pcs s !! i = Some PStart).
Hypothesis (Hlock : s_locks s !! mutex_of i = None).
Hypothesis (Hsz : Z.of_nat (length (s_region s)) = cap).
Hypothesis (Hcap : sizeof_size_t ≤ cap).
Hypothesis (Hno : cur + Z.of_nat (length data) < 2 ^ 64).

(** The region that a write leaves. *)
Definition written (fits : bool) : list byte :=
  if fits then splice 0 (encode_size (wrap64 (cur + Z.of_nat (length data)))) (splice (Z.to_nat cur) data (s_region s))
  else s_region s.

Lemma steps_alone :
  let fits := negb (cap <? wrap64 (cur + Z.of_nat (length data))) in
  let st := if fits then JOURNAL_STATUS_SUCCESS else JOURNAL_STATUS_ERROR_NO_SPACE in
  run_schedule cap mutex_of entry (replicate (if fits then 5 else 4)%nat i) s
  = Some (Shared (written fits) (s_locks s) (<[i := PDone st]> (s_pcs s))).
Proof using Hpc Hlock Hsz Hcap Hno.
  intros fits st.
  assert (Hi : (i < length (s_pcs s))%nat) by by eapply lookup_lt_Some.
  assert (Hat : ∀ pc (pcs : list writer_pc), length pcs = length (s_pcs s) → <[i := pc]> pcs !! i = Some pc)
    by (intros ? ? E; apply list_lookup_insert_eq; lia).
  pose proof (le_combine_bound (slice 0 8 (s_region s))) as [Hcur _]. fold (decode_size (slice 0 8 (s_region s))) in Hcur.
  fold (size_field (s_region s)) cur in Hcur. unfold sizeof_size_t in Hcap.
  assert (Hw : wrap64 (cur + Z.of_nat (length data)) = cur + Z.of_nat (length data)) by (apply Z.mod_small; lia).
  assert (H8 : inside 0 8 (s_region s) = true) by (apply bool_decide_eq_true_2; lia).
  assert (Hfits : (cap <? wrap64 (cur + Z.of_nat (length data))) = false →
    inside (Z.to_nat cur) (length data) (s_region s) = true ∧ inside 0 8 (splice (Z.to_nat cur) data (s_region s)) = true).
  { rewrite Hw. intros Hle%Z.ltb_ge. split; apply bool_decide_eq_true_2; [|rewrite length_splice]; lia. }
  destruct fits eqn:Ef; unfold fits in Ef;
    [apply negb_true_iff in Ef; destruct (Hfits Ef) as [Hin1 Hin2]|apply negb_false_iff in Ef]; cbn [replicate];
    repeat (erewrite run_cons; [|unfold write_step; cbn [s_pcs s_locks s_region set_pc];
      rewrite ?Hpc, ?Hat by (by rewrite ?length_insert); simpl; fold data cur;
      rewrite ?Hlock, ?H8, ?Ef, ?Hin1, ?Hin2; reflexivity]);
    unfold set_pc; simpl; by rewrite !list_insert_insert_eq, delete_insert_id by done.
Qed.
End Alone.

(** The sequential call on the same bytes. *)
Lemma append_locked_any cap entry i s m l p b :
  j_journals m !! l = Some (Journal b cap (Some p)) → j_maps m !! p = Some (s_region s) →
  Z.of_nat (length (s_region s)) = cap → sizeof_size_t ≤ cap →
  size_field (s_region s) + Z.of_nat (length (entry i)) < 2 ^ 64 →
  let fits := negb (cap <? wrap64 (size_field (s_region s) + Z.of_nat (length (entry i)))) in
  append_locked (Some l) (entry i) (Z.of_nat (length (entry i))) m
  = Ok (fits, with_maps (<[p := written entry i s fits]> (j_maps m)) m).
Proof.
  intros Hl Hp Hsz Hcap Hno fits. pose proof (le_combine_bound (slice 0 8 (s_region s))) as [Hcur _].
  fold (decode_size (slice 0 8 (s_region s))) in Hcur. unfold written, size_field in *. fold fits.
  unfold append_locked, bind, load. simpl. rewrite Hl. simpl. rewrite Hp, copy_out_ok by (unfold sizeof_size_t in *; lia).
  change (Z.to_nat sizeof_size_t) with 8%nat. unfold fits. clear fits.
  set (cur := decode_size (slice 0 8 (s_region s))) in *.
  assert (Hw : wrap64 (cur + Z.of_nat (length (entry i))) = cur + Z.of_nat (length (entry i))) by (apply Z.mod_small; lia).
  rewrite Hw. destruct (Z.ltb_spec cap (cur + Z.of_nat (length (entry i)))); simpl.
  { unfold ret. do 2 f_equal. rewrite insert_id by done. by destruct m. }
  rewrite copy_out_ok by lia. unfold slice at 1. rewrite Nat2Z.id, drop_0, take_ge by done.
  rewrite copy_in_ok by lia. rewrite copy_in_ok by (rewrite length_encode_size, length_splice; unfold sizeof_size_t in *; lia).
  simpl. by rewrite Hp.
Qed.

Lemma unlocked_status (b : bool) l m m' :
  jmutex_unlock l m = Ok (true, m') →
  (if negb b then jmutex_unlock l ;; ret JOURNAL_STATUS_ERROR_NO_SPACE else
   let* unlocked := jmutex_unlock l in
   if negb unlocked then ret JOURNAL_STATUS_ERROR_MUTEX_UNLOCK else ret JOURNAL_STATUS_SUCCESS) m
  = Ok (if b then JOURNAL_STATUS_SUCCESS else JOURNAL_STATUS_ERROR_NO_SPACE, m').
Proof. intros E. by destruct b; simpl; rewrite (bind_ok _ _ _ _ _ E). Qed.

(** The steps and the sequential definition agree: for a non-empty entry, without failing calls
    and as long as the sum of the size field with the length of the entry does not wrap around,
    the steps of one writer in a row and [journal_write] return the same status and leave the same
    bytes, and both release the mutex. *)
Lemma write_steps_equivalent cap mutex_of entry i s m l p :
  s_pcs s !! i = Some PStart → s_locks s !! mutex_of i = None → entry i ≠ [] →
  j_journals m !! l = Some (Journal false cap (Some p)) → j_maps m !! p = Some (s_region s) →
  j_faults m = [] → Z.of_nat (length (s_region s)) = cap → sizeof_size_t ≤ cap →
  size_field (s_region s) + Z.of_nat (length (entry i)) < 2 ^ 64 →
  ∃ k st m' region,
    ⟦ journal_write (Some l) (Some (entry i)) (Z.of_nat (length (entry i))) ⟧ m ⇓ st, m' ∧
    run_schedule cap mutex_of entry (replicate k i) s
      = Some (Shared region (s_locks s) (<[i := PDone st]> (s_pcs s))) ∧
    j_maps m' = <[p := region]> (j_maps m) ∧ j_journals m' = j_journals m.
Proof.
  intros Hpc Hlock Hne Hl Hp Hf Hsz Hcap Hno.
  pose proof (steps_alone cap mutex_of entry i s Hpc Hlock Hsz Hcap Hno) as Es. cbv zeta in Es.
  assert (Hd : Z.of_nat (length (entry i)) ≠ 0) by (destruct (entry i); simpl; [done|lia]).
  eexists _, _, _, _. split; [|split; [exact Es|]].
  - unfold returns, journal_write. destruct (Z.eqb_spec (Z.of_nat (length (entry i))) 0); [done|].
    destruct (jmutex_lock_cases m l _ Hl eq_refl) as (ok1 & fs1 & E1 & H1). destruct (H1 Hf) as [-> ->].
    rewrite (bind_ok _ _ _ _ _ E1). cbn [negb]. set (m1 := with_journals _ _).
    assert (Hl1 : j_journals m1 !! l = Some (Journal true cap (Some p))) by apply lookup_insert_eq.
    rewrite (bind_ok _ _ _ _ _ (append_locked_any cap entry i s m1 l p true Hl1 Hp Hsz Hcap Hno)).
    set (m2 := with_maps _ _).
    destruct (jmutex_unlock_cases m2 l _ Hl1 eq_refl) as (ok2 & fs2 & E2 & H2). destruct (H2 eq_refl) as [-> ->].
    apply (unlocked_status _ _ _ _ E2).
  - simpl. split; [done|]. rewrite insert_insert_eq. by apply insert_id.
Qed.
