(* ===== verification/JournalTransfer.v ===== *)
(** * JournalTransfer: server/journal_transfer.c

    The server hands its journal to the journal utility over a Unix stream socket.  One side
    accepts a connection, copies the journal and sends it; the other connects, sends a trigger
    and writes what it receives to a file.  The kernel is modelled by the open descriptors, the
    names of bound sockets, the number of bytes each [send] takes and the chunks each [recv]
    delivers. *)
From S2P Require Import Prelude Layout Memory SocketUdp Journal.

Local Open Scope Z_scope.

(** server/config.h *)
Definition SERVER_MAX_JOURNAL_SIZE : Z := 5 * 1024 * 1024.
Definition JOURNAL_MAX_SIZE : Z := 5 * 1024 * 1024.
(** [sizeof(server_addr.sun_path) - 1] *)
Definition SUN_PATH_MAX : nat := 107.

Record xfer := Xfer {
  x_jmem : jmem;
  x_fds : gset Z;
  x_names : gset (list byte);         (* file names of Unix sockets *)
  x_junk : nat → byte;                (* content of malloc'ed memory *)
  x_takes : list nat;                 (* bytes that the next sends take; then everything *)
  x_recv : list (option (list byte)); (* what the next recvs deliver: -1 or bytes; then end of file *)
  x_sent : list (list byte);          (* what was sent, newest last *)
  x_files : gmap (list byte) (list byte);
}.

Definition with_jmem (m : jmem) (x : xfer) : xfer :=
  Xfer m (x_fds x) (x_names x) (x_junk x) (x_takes x) (x_recv x) (x_sent x) (x_files x).
Definition with_xfds (s : gset Z) (x : xfer) : xfer :=
  Xfer (x_jmem x) s (x_names x) (x_junk x) (x_takes x) (x_recv x) (x_sent x) (x_files x).
Definition with_names (s : gset (list byte)) (x : xfer) : xfer :=
  Xfer (x_jmem x) (x_fds x) s (x_junk x) (x_takes x) (x_recv x) (x_sent x) (x_files x).
Definition with_sent (takes : list nat) (sent : list (list byte)) (x : xfer) : xfer :=
  Xfer (x_jmem x) (x_fds x) (x_names x) (x_junk x) takes (x_recv x) sent (x_files x).
Definition with_recv (r : list (option (list byte))) (x : xfer) : xfer :=
  Xfer (x_jmem x) (x_fds x) (x_names x) (x_junk x) (x_takes x) r (x_sent x) (x_files x).
Definition with_files (f : gmap (list byte) (list byte)) (x : xfer) : xfer :=
  Xfer (x_jmem x) (x_fds x) (x_names x) (x_junk x) (x_takes x) (x_recv x) (x_sent x) f.

#[export] Program Instance xfer_allocator : Allocator xfer := {|
  faults_of x := j_faults (x_jmem x); set_faults fs x := with_jmem (with_jfaults fs (x_jmem x)) x;
  next_of x := j_next (x_jmem x); set_next l x := with_jmem (with_jnext l (x_jmem x)) x;
|}.
Next Obligation. by intros [[]]. Qed.
Next Obligation. done. Qed.

Definition lift_jmem {A} : M jmem A → M xfer A := lift x_jmem with_jmem.

(** ** System calls *)
Definition sys_unix_socket : M xfer Z :=
  let* ok := fallible in
  if ok then
    let* x := get_state in
    let d := fresh_fd (x_fds x) in
    modify (with_xfds ({[d]} ∪ x_fds x)) ;; ret d
  else ret (-1).

(** [accept] returns a new descriptor as [socket] does. *)
Definition sys_accept : M xfer Z := sys_unix_socket.
Definition sys_xclose (d : Z) : M xfer unit := modify (λ x, with_xfds (x_fds x ∖ {[d]}) x).
Definition sys_unlink (path : list byte) : M xfer unit := modify (λ x, with_names (x_names x ∖ {[path]}) x).

(** [bind] fails if the name exists already. *)
Definition sys_bind (path : list byte) : M xfer bool :=
  let* ok := fallible in
  let* x := get_state in
  if ok && bool_decide (path ∉ x_names x) then modify (with_names ({[path]} ∪ x_names x)) ;; ret true
  else ret false.

Definition sys_send (bytes : list byte) : M xfer Z :=
  let* ok := fallible in
  if ok then
    let* x := get_state in
    let '(n, takes) := match x_takes x with
                       | [] => (length bytes, [])
                       | k :: takes => (Nat.min k (length bytes), takes)
                       end in
    modify (with_sent takes (x_sent x ++ [take n bytes])) ;; ret (Z.of_nat n)
  else ret (-1).

(** [recv] with a buffer of [size] bytes; what does not fit stays in the stream. *)
Definition sys_recv (size : nat) : M xfer (option (list byte)) :=
  let* x := get_state in
  match x_recv x with
  | [] => ret (Some [])
  | None :: r => modify (with_recv r) ;; ret None
  | Some c :: r =>
      modify (with_recv (if bool_decide (length c ≤ size)%nat then r else Some (drop size c) :: r)) ;;
      ret (Some (take size c))
  end.

(** ** The server's side *)

(** Lines 52-96, after [accept]. *)
Definition send_journal (client_sockfd : Z) (journal : ptr) : M xfer Z :=
  let* allocated := fallible in
  if negb allocated then sys_xclose client_sockfd ;; ret (-1) else
  let* x := get_state in
  let journal_content := x_junk x <$> seq 0 (Z.to_nat SERVER_MAX_JOURNAL_SIZE) in
  let* ' (read_status, content, journal_length) :=
    lift_jmem (journal_read journal (Some journal_content) (Some SERVER_MAX_JOURNAL_SIZE)) in
  if bool_decide (read_status ≠ JOURNAL_STATUS_SUCCESS) then sys_xclose client_sockfd ;; ret (-1) else
  let* bytes := copy_out 0 (Z.to_nat (default 0 journal_length)) (default [] content) in
  let* bytes_sent := sys_send bytes in
  if bytes_sent =? -1 then sys_xclose client_sockfd ;; ret (-1) else
  sys_xclose client_sockfd ;; ret 0.

(** A failing [bind] returns without closing the socket. *)
Definition journal_transfer_run_receiver (socket_path : list byte) (journal : ptr) : M xfer Z :=
  let* sockfd := sys_unix_socket in
  if sockfd =? -1 then ret (-1) else
  sys_unlink socket_path ;;
  let* bound := sys_bind (take SUN_PATH_MAX socket_path) in
  if negb bound then ret (-1) else
  let* listening := fallible in
  if negb listening then sys_xclose sockfd ;; ret (-1) else
  let* client_sockfd := sys_accept in
  if client_sockfd =? -1 then sys_xclose sockfd ;; ret (-1) else
  sys_xclose sockfd ;;
  send_journal client_sockfd journal.

(** ** The utility's side *)
Definition GET_JOURNAL : list byte := cstring "GET_JOURNAL"%string.

(** Lines 141-151: [None] if a [fwrite] failed, otherwise the number of received bytes. *)
Fixpoint receive_loop_file (fuel : nat) (file_path : list byte) (total_bytes_received : Z)
    : M xfer (option Z) :=
  match fuel with
  | O => no_fuel
  | S fuel =>
      let* received := sys_recv (Z.to_nat JOURNAL_MAX_SIZE) in
      match received with
      | None => ret (Some total_bytes_received)
      | Some [] => ret (Some total_bytes_received)
      | Some bytes =>
          let* written := fallible in
          if negb written then ret None else
          modify (λ x, with_files (<[file_path := default [] (x_files x !! file_path) ++ bytes]> (x_files x)) x) ;;
          receive_loop_file fuel file_path (wrap64 (total_bytes_received + Z.of_nat (length bytes)))
      end
  end.

Definition journal_transfer_rcv_and_write_file (fuel : nat) (socket_path file_path : list byte) : M xfer Z :=
  let* sockfd := sys_unix_socket in
  if sockfd =? -1 then ret (-1) else
  let* connected := fallible in
  if negb connected then sys_xclose sockfd ;; ret (-1) else
  let* triggered := sys_send GET_JOURNAL in
  if triggered =? -1 then sys_xclose sockfd ;; ret (-1) else
  let* opened := fallible in
  if negb opened then sys_xclose sockfd ;; ret (-1) else
  modify (λ x, with_files (<[file_path := []]> (x_files x)) x) ;;
  let* total := receive_loop_file fuel file_path 0 in
  match total with
  | None => sys_xclose sockfd ;; ret (-1)
  | Some total_bytes_received =>
      if total_bytes_received =? 0 then sys_xclose sockfd ;; ret (-1) else
      sys_xclose sockfd ;; ret 0
  end.

(** server/journal_utility.c *)
Definition EXIT_SUCCESS : Z := 0.
Definition EXIT_FAILURE : Z := 1.
Definition journal_utility_main (fuel : nat) : M xfer Z :=
  let* r := journal_transfer_rcv_and_write_file fuel
              (cstring "/tmp/server_unix_socket"%string) (cstring "note.txt"%string) in
  if r =? 0 then ret EXIT_SUCCESS else ret EXIT_FAILURE.

#[global] Arguments journal_transfer_run_receiver : simpl never.
#[global] Arguments journal_transfer_rcv_and_write_file : simpl never.
#[global] Arguments send_journal : simpl never.
#[global] Arguments sys_unix_socket : simpl never.
#[global] Arguments sys_bind : simpl never.
#[global] Arguments sys_send : simpl never.
#[global] Arguments sys_recv : simpl never.
#[global] Arguments SERVER_MAX_JOURNAL_SIZE : simpl never.

#[local] Opaque SERVER_MAX_JOURNAL_SIZE JOURNAL_MAX_SIZE.

(** ** Equations *)
Lemma unix_socket_cases x :
  ∃ ok fs, (j_faults (x_jmem x) = [] → ok = true ∧ fs = []) ∧
    sys_unix_socket x
    = let x' := with_jmem (with_jfaults fs (x_jmem x)) x in
      if ok : bool then Ok (fresh_fd (x_fds x), with_xfds ({[fresh_fd (x_fds x)]} ∪ x_fds x) x')
      else Ok (-1, x').
Proof.
  unfold sys_unix_socket, bind. destruct (fallible_cases x) as (ok & fs & -> & H).
  exists ok, fs. split; [done|]. by destruct ok.
Qed.

Lemma xfer_eq_faults (x : xfer) : j_faults (x_jmem x) = [] → with_jmem (with_jfaults [] (x_jmem x)) x = x.
Proof. intros <-. by destruct x as [[]]. Qed.

Lemma fresh_fd_ne (s : gset Z) : (fresh_fd s =? -1) = false.
Proof. apply Z.eqb_neq. pose proof (fresh_fd_fresh s). lia. Qed.

(** Closing a descriptor that was just opened. *)
Lemma close_fresh (s : gset Z) d : d ∉ s → ({[d]} ∪ s) ∖ {[d]} = s.
Proof. set_solver. Qed.

Definition junk_buffer (x : xfer) : list byte := x_junk x <$> seq 0 (Z.to_nat SERVER_MAX_JOURNAL_SIZE).
Lemma length_junk_buffer x : Z.of_nat (length (junk_buffer x)) = SERVER_MAX_JOURNAL_SIZE.
Proof. unfold junk_buffer. rewrite length_fmap, length_seq. rewrite Z2Nat.id; [done|]. by vm_compute. Qed.

(** How many bytes the next [send] takes of [n]. *)
Definition taken (x : xfer) (n : nat) : nat :=
  match x_takes x with [] => n | k :: _ => Nat.min k n end.

Lemma send_cases_x bytes x :
  ∃ ok fs, (j_faults (x_jmem x) = [] → ok = true ∧ fs = []) ∧
    sys_send bytes x
    = let x' := with_jmem (with_jfaults fs (x_jmem x)) x in
      if ok : bool
      then Ok (Z.of_nat (taken x (length bytes)),
               with_sent (tail (x_takes x)) (x_sent x ++ [take (taken x (length bytes)) bytes]) x')
      else Ok (-1, x').
Proof.
  unfold sys_send, bind. destruct (fallible_cases x) as (ok & fs & -> & H).
  exists ok, fs. split; [done|]. unfold taken. destruct ok; [|done]. simpl. by destruct (x_takes x).
Qed.

Section SendJournal.
Context (x : xfer) (l : loc) (cap : Z) (log : list byte).
Hypothesis (Hat : journal_at (x_jmem x) l cap log).

Lemma journal_fits : cap ≤ SERVER_MAX_JOURNAL_SIZE →
  (SERVER_MAX_JOURNAL_SIZE <? sizeof_size_t + Z.of_nat (length log)) = false.
Proof using Hat. intros H. apply Z.ltb_ge. destruct Hat as (p & rest & _ & _ & ? & _). lia. Qed.

(** Every way [send_journal] can end. *)
Lemma send_journal_cases d :
  ∃ r x', send_journal d (Some l) x = Ok (r, x') ∧ (r = 0 ∨ r = -1) ∧
    x_fds x' = x_fds x ∖ {[d]} ∧ j_maps (x_jmem x') = j_maps (x_jmem x) ∧ x_names x' = x_names x ∧
    (j_faults (x_jmem x) = [] → cap ≤ SERVER_MAX_JOURNAL_SIZE →
       r = 0 ∧ x_jmem x' = x_jmem x ∧ x_sent x' = x_sent x ++ [take (taken x (length log)) log] ∧
       x_takes x' = tail (x_takes x)).
Proof using Hat.
  unfold send_journal, bind at 1. destruct (fallible_cases x) as (ok & fs & -> & Hf).
  destruct ok; cbn [negb].
  2: { eexists _, _. split; [done|]. split_and!; try done; [by right|]. intros F. by destruct (Hf F). }
  unfold bind at 1, get_state. set (x1 := set_faults fs x).
  change (x_junk x1 <$> seq 0 (Z.to_nat SERVER_MAX_JOURNAL_SIZE)) with (junk_buffer x).
  destruct (journal_read_cases (x_jmem x1) l cap log Hat (junk_buffer x) SERVER_MAX_JOURNAL_SIZE)
    as (st & dst & n & m' & E & Em & Hok & Hc).
  { rewrite length_junk_buffer. split; [by vm_compute|done]. }
  unfold bind at 1, lift_jmem, lift. cbn [x_jmem]. rewrite E.
  assert (Hgood : j_faults (x_jmem x) = [] → cap ≤ SERVER_MAX_JOURNAL_SIZE →
            x1 = x ∧ m' = x_jmem x ∧ st = JOURNAL_STATUS_SUCCESS).
  { intros F Hle. destruct (Hf F) as [_ Efs]. assert (x1 = x) as Ex by (unfold x1; rewrite Efs; by apply xfer_eq_faults).
    split; [done|]. rewrite Ex in Hok. destruct (Hok F) as [-> ->]. by rewrite journal_fits. }
  destruct (decide (st = JOURNAL_STATUS_SUCCESS)) as [->|Hne].
  2: { rewrite bool_decide_eq_true_2 by done. eexists _, _. split; [done|].
       split_and!; try done; [by right|]. intros F Hle. by destruct (Hgood F Hle) as (_ & _ & ?). }
  rewrite bool_decide_eq_false_2 by auto.
  destruct Hc as [(_ & -> & -> & Hsz)|[(? & _)|([?|?] & _)]]; try done.
  cbn [from_option id]. rewrite Nat2Z.id. assert (Hlen : (length log ≤ length (junk_buffer x))%nat).
  { pose proof (length_junk_buffer x). unfold sizeof_size_t in *. lia. }
  unfold bind at 1. cbn [fst snd id].
  rewrite copy_out_ok by (rewrite length_splice; lia).
  replace (slice 0 (length log) (splice 0 log (junk_buffer x))) with log by (symmetry; apply slice_splice_same; lia).
  unfold bind at 1. set (x2 := with_jmem m' x1). destruct (send_cases_x log x2) as (ok2 & fs2 & Hf2 & ->).
  destruct ok2; cbv beta zeta iota.
  2: { eexists _, _. split; [done|]. split_and!; try done; [by right|]. intros F Hle.
       destruct (Hgood F Hle) as (_ & Hm & _). destruct Hf2 as [? _]; [simpl; by rewrite Hm|done]. }
  destruct (Z.eqb_spec (Z.of_nat (taken x2 (length log))) (-1)); [lia|].
  eexists _, _. split; [done|]. split_and!; try done; [by left|]. intros F Hle.
  destruct (Hgood F Hle) as (Hx1 & Hm & _). split; [done|]. simpl.
  destruct Hf2 as [_ ->]; [simpl; by rewrite Hm|]. rewrite Hm. split; [|done].
  rewrite <- F. by destruct (x_jmem x).
Qed.
End SendJournal.

Lemma bind_cases path x :
  ∃ ok fs, (j_faults (x_jmem x) = [] → fs = [] ∧ ok = bool_decide (path ∉ x_names x)) ∧
    sys_bind path x
    = let x' := with_jmem (with_jfaults fs (x_jmem x)) x in
      Ok (ok, if ok : bool then with_names ({[path]} ∪ x_names x) x' else x').
Proof.
  unfold sys_bind, bind. destruct (fallible_cases x) as (ok & fs & -> & H). simpl.
  destruct ok; simpl.
  - exists (bool_decide (path ∉ x_names x)), fs. split; [naive_solver|]. by case_bool_decide.
  - exists false, fs. split; [naive_solver|done].
Qed.

(** Every way a call of the server's side can end. *)
Lemma run_receiver_cases path x l cap log :
  journal_at (x_jmem x) l cap log →
  ∃ r x', journal_transfer_run_receiver path (Some l) x = Ok (r, x') ∧ (r = 0 ∨ r = -1) ∧
    j_maps (x_jmem x') = j_maps (x_jmem x) ∧
    (x_fds x' = x_fds x ∨ r = -1 ∧ x_fds x' = {[fresh_fd (x_fds x)]} ∪ x_fds x) ∧
    (j_faults (x_jmem x) = [] → cap ≤ SERVER_MAX_JOURNAL_SIZE → (length path ≤ SUN_PATH_MAX)%nat →
       r = 0 ∧ x_jmem x' = x_jmem x ∧ x_fds x' = x_fds x ∧ x_names x' = {[path]} ∪ x_names x ∧
       x_sent x' = x_sent x ++ [take (taken x (length log)) log] ∧ x_takes x' = tail (x_takes x)).
Proof.
  intros Hat. unfold journal_transfer_run_receiver, bind at 1.
  destruct (fresh_fd_fresh (x_fds x)) as [Hfr _]. set (d := fresh_fd (x_fds x)) in *.
  destruct (unix_socket_cases x) as (ok & fs & Hf & ->). destruct ok; cbv beta zeta iota.
  2: { eexists _, _. split; [done|]. split_and!; try done; [by right|by left|]. intros F. by destruct (Hf F). }
  fold d. rewrite (fresh_fd_ne (x_fds x) : (d =? -1) = false).
  unfold bind at 1, sys_unlink, modify. cbn [x_names with_xfds with_jmem].
  set (x1 := with_names _ _). unfold bind at 1.
  destruct (bind_cases (take SUN_PATH_MAX path) x1) as (ok2 & fs2 & Hf2 & ->). cbv beta zeta iota.
  destruct ok2; cbn [negb].
  2: { eexists _, _. split; [done|]. split_and!; try done; [by right|by right|]. intros F Hle Hp.
       destruct (Hf F) as [_ ->]. destruct Hf2 as [_ Hb]; [done|]. rewrite take_ge in Hb by done.
       symmetry in Hb. apply bool_decide_eq_false in Hb. exfalso. apply Hb. simpl. set_solver. }
  set (x2 := with_names _ _). unfold bind at 1.
  destruct (fallible_cases x2) as (ok3 & fs3 & -> & Hf3). destruct ok3; cbn [negb].
  2: { eexists _, _. split; [done|]. split_and!; try done; [by right|left; simpl; by apply close_fresh|].
       intros F. destruct (Hf F) as [_ ->]. destruct Hf2 as [-> _]; [done|]. by destruct Hf3. }
  unfold bind at 1, sys_accept. set (x3 := set_faults fs3 x2).
  assert (Hfds : x_fds x3 = {[d]} ∪ x_fds x) by done.
  destruct (unix_socket_cases x3) as (ok4 & fs4 & Hf4 & ->). destruct ok4; cbv beta zeta iota.
  2: { eexists _, _. split; [done|]. split_and!; try done; [by right|left; simpl; by apply close_fresh|].
       intros F. destruct (Hf F) as [_ ->]. destruct Hf2 as [-> _]; [done|]. destruct Hf3 as [_ ->]; [done|]. by destruct Hf4. }
  rewrite fresh_fd_ne. destruct (fresh_fd_fresh (x_fds x3)) as [Hfr4 _]. set (d4 := fresh_fd (x_fds x3)) in *.
  unfold bind at 1, sys_xclose, modify. cbn [x_fds with_xfds with_jmem]. set (x4 := with_xfds _ (with_xfds _ _)).
  destruct (send_journal_cases x4 l cap log Hat d4) as (r & x' & E & Hr & Hfds' & Hm & Hn & Hok).
  exists r, x'. rewrite E. rewrite Hfds in Hfr4.
  assert (Hclosed : x_fds x' = x_fds x) by (rewrite Hfds'; simpl; clearbody d d4; set_solver).
  split_and!; try done; [by left|]. intros F Hle Hp.
  destruct (Hf F) as [_ E0]. destruct Hf2 as [E2 _]; [simpl; by rewrite E0|].
  destruct Hf3 as [_ E3]; [simpl; by rewrite E2|]. destruct Hf4 as [_ E4]; [simpl; by rewrite E3|].
  assert (Hj : x_jmem x4 = x_jmem x) by (simpl; rewrite E4, <- F; by destruct (x_jmem x)).
  destruct Hok as (-> & -> & -> & ->); [simpl; by rewrite E4|done|]. split_and!; try done.
  rewrite Hn. simpl. rewrite take_ge by done. apply leibniz_equiv. intros y. set_unfold.
  destruct (decide (y = path)); naive_solver.
Qed.

(** A transfer when the journal is gone: the first thing it does with it is to lock its mutex. *)
Lemma journal_read_dangling j dst size m :
  j_journals m !! j = None → j_faults m = [] → journal_read (Some j) (Some dst) (Some size) m = Undefined UB_dangling.
Proof.
  intros Hj Hf. unfold journal_read. apply bind_undefined. unfold jmutex_lock, bind. rewrite fallible_nil by done.
  unfold load. simpl. by rewrite Hj.
Qed.

Lemma send_journal_dangling d j x :
  j_journals (x_jmem x) !! j = None → j_faults (x_jmem x) = [] → send_journal d (Some j) x = Undefined UB_dangling.
Proof.
  intros Hj Hf. unfold send_journal. rewrite (bind_ok fallible _ x true x) by (by apply fallible_nil). cbn [negb].
  rewrite (bind_ok get_state _ x x x eq_refl). apply bind_undefined. unfold lift_jmem, lift. by rewrite journal_read_dangling.
Qed.

Lemma run_receiver_dangling path j x :
  j_journals (x_jmem x) !! j = None → j_faults (x_jmem x) = [] → (length path ≤ SUN_PATH_MAX)%nat →
  journal_transfer_run_receiver path (Some j) x = Undefined UB_dangling.
Proof.
  intros Hj Hf Hp. unfold journal_transfer_run_receiver, bind at 1.
  destruct (unix_socket_cases x) as (ok & fs & H1 & ->). destruct (H1 Hf) as [-> ->]. cbv beta zeta iota. rewrite fresh_fd_ne.
  unfold bind at 1, sys_unlink, modify. set (x1 := with_names _ _). unfold bind at 1.
  destruct (bind_cases (take SUN_PATH_MAX path) x1) as (ok & fs & H2 & ->). destruct (H2 eq_refl) as [-> ->].
  cbv beta zeta iota. rewrite bool_decide_eq_true_2 by (rewrite take_ge by done; simpl; set_solver). cbn [negb].
  set (x2 := with_names _ _). rewrite (bind_ok fallible _ x2 true x2) by (by apply fallible_nil). cbn [negb].
  unfold bind at 1, sys_accept. destruct (unix_socket_cases x2) as (ok & fs & H3 & ->). destruct (H3 eq_refl) as [-> ->].
  cbv beta zeta iota. rewrite fresh_fd_ne. unfold bind, sys_xclose, modify. by apply send_journal_dangling.
Qed.

(** ** The receiving loop *)

(** The stream ends: end of file, or an error. *)
Definition stream_end (r : list (option (list byte))) : Prop :=
  match r with [] | None :: _ | Some [] :: _ => True | _ => False end.
Definition chunk_ok (c : list byte) : Prop := c ≠ [] ∧ (length c ≤ Z.to_nat JOURNAL_MAX_SIZE)%nat.

Lemma receive_loop_file_eq f chunks : ∀ fuel total x ending c0,
  x_recv x = (Some <$> chunks) ++ ending → stream_end ending → Forall chunk_ok chunks →
  j_faults (x_jmem x) = [] → x_files x !! f = Some c0 → (length chunks < fuel)%nat →
  0 ≤ total → total + Z.of_nat (length (concat chunks)) < 2 ^ 64 →
  ∃ x', receive_loop_file fuel f total x = Ok (Some (total + Z.of_nat (length (concat chunks))), x') ∧
    x_files x' !! f = Some (c0 ++ concat chunks) ∧ x_fds x' = x_fds x ∧ j_faults (x_jmem x') = [].
Proof.
  induction chunks as [|c chunks IH]; intros [|fuel] total x ending c0 Er Hend Hch Hf Hc0 Hfuel Ht Hlt;
    simpl in Hfuel; try lia; unfold receive_loop_file; fold receive_loop_file; unfold bind at 1, sys_recv, bind at 1, get_state.
  - simpl in Er. rewrite Er. simpl in *. rewrite app_nil_r, Z.add_0_r.
    destruct ending as [|[[|]|] r]; try done; simpl; rewrite ?take_nil; eexists; split; done.
  - apply Forall_cons in Hch as [[Hne Hlen] Hch]. rewrite Er. cbn [fmap list_fmap app].
    rewrite bool_decide_eq_true_2, take_ge by done. unfold bind at 1, modify, ret at 1.
    destruct c as [|b c]; [done|]. set (c1 := b :: c) in *. unfold bind at 1.
    rewrite fallible_nil by done. cbn [negb]. unfold bind at 1, modify. set (x1 := with_files _ _).
    assert (Hcc : concat (c1 :: chunks) = c1 ++ concat chunks) by done.
    rewrite Hcc, length_app, Nat2Z.inj_add in *.
    unfold wrap64. rewrite Z.mod_small by lia.
    destruct (IH fuel (total + Z.of_nat (length c1)) x1 ending (c0 ++ c1)) as (x' & E & Hfile & Hfds & Hf');
      try done; try lia.
    + simpl. rewrite lookup_insert_eq. by rewrite Hc0.
    + exists x'. rewrite E. split_and!; [do 3 f_equal; lia| |done|done]. by rewrite Hfile, app_assoc.
Qed.

Lemma rcv_and_write_file_eq path f chunks fuel x ending :
  x_recv x = (Some <$> chunks) ++ ending → stream_end ending → Forall chunk_ok chunks →
  j_faults (x_jmem x) = [] → (length chunks < fuel)%nat → Z.of_nat (length (concat chunks)) < 2 ^ 64 →
  ∃ x', journal_transfer_rcv_and_write_file fuel path f x
        = Ok (if bool_decide (concat chunks = []) then -1 else 0, x') ∧
    x_files x' !! f = Some (concat chunks) ∧ x_fds x' = x_fds x.
Proof.
  intros Er Hend Hch Hf Hfuel Hlt. unfold journal_transfer_rcv_and_write_file, bind at 1.
  destruct (fresh_fd_fresh (x_fds x)) as [Hfr _].
  destruct (unix_socket_cases x) as (ok & fs & H & ->). destruct (H Hf) as [-> ->]. cbv beta zeta iota.
  rewrite fresh_fd_ne, (xfer_eq_faults x Hf). set (d := fresh_fd (x_fds x)) in *. set (x1 := with_xfds _ x).
  unfold bind at 1. rewrite fallible_nil by done. cbn [negb]. unfold bind at 1.
  destruct (send_cases_x GET_JOURNAL x1) as (ok2 & fs2 & H2 & ->). destruct (H2 Hf) as [-> ->]. cbv beta zeta iota.
  destruct (Z.eqb_spec (Z.of_nat (taken x1 (length GET_JOURNAL))) (-1)); [lia|].
  set (x2 := with_sent _ _ _). unfold bind at 1. rewrite fallible_nil by done. cbn [negb].
  unfold bind at 1, modify. set (x3 := with_files _ x2).
  destruct (receive_loop_file_eq f chunks fuel 0 x3 ending []) as (x4 & E & Hfile & Hfds & _); try done; try lia.
  { simpl. apply lookup_insert_eq. }
  unfold bind at 1. rewrite E, Z.add_0_l.
  assert (Hcl : x_fds x4 ∖ {[d]} = x_fds x) by (rewrite Hfds; simpl; by apply close_fresh).
  case_bool_decide as Hz.
  - rewrite Hz in *. eexists. split; [done|]. done.
  - destruct (Z.eqb_spec (Z.of_nat (length (concat chunks))) 0) as [Hl|]; [|eexists; split; done].
    exfalso. apply Hz, nil_length_inv. lia.
Qed.

(** ** Properties *)

(** C23: the journal arrives in the file.  With no failing call and complete sends, the server's
    side sends exactly the bytes of the journal, keeps the journal as it was and closes every
    descriptor it opened; the utility, receiving these bytes in chunks of any sizes, exits with
    success and leaves exactly the journal in [note.txt], whatever the file held before. *)
Theorem journal_transfer_roundtrip path x l cap log y chunks fuel :
  journal_at (x_jmem x) l cap log → cap ≤ SERVER_MAX_JOURNAL_SIZE → j_faults (x_jmem x) = [] →
  (length path ≤ SUN_PATH_MAX)%nat → x_takes x = [] → log ≠ [] →
  x_recv y = Some <$> chunks → concat chunks = log → Forall chunk_ok chunks →
  j_faults (x_jmem y) = [] → (length chunks < fuel)%nat →
  ∃ x' y',
    ⟦ journal_transfer_run_receiver path (Some l) ⟧ x ⇓ 0, x' ∧
    x_sent x' = x_sent x ++ [log] ∧ x_jmem x' = x_jmem x ∧ x_fds x' = x_fds x ∧
    ⟦ journal_utility_main fuel ⟧ y ⇓ EXIT_SUCCESS, y' ∧
    x_files y' !! cstring "note.txt"%string = Some log ∧ x_fds y' = x_fds y.
Proof.
  intros Hat Hle Hf Hp Ht Hne Hr Hc Hch Hfy Hfuel.
  destruct (run_receiver_cases path x l cap log Hat) as (r & x' & E & _ & _ & _ & Hok).
  destruct (Hok Hf Hle Hp) as (-> & Hj & Hfds & _ & Hsent & _).
  unfold taken in Hsent. rewrite Ht, take_ge in Hsent by done.
  destruct (rcv_and_write_file_eq (cstring "/tmp/server_unix_socket"%string) (cstring "note.txt"%string)
              chunks fuel y []) as (y' & Ey & Hfile & Hfdsy); try done.
  { by rewrite app_nil_r. }
  { rewrite Hc. destruct Hat as (p & rest & _ & _ & ? & ?). unfold sizeof_size_t, PTRDIFF_MAX in *. lia. }
  exists x', y'. split_and!; try done; [|by rewrite <- Hc].
  unfold returns, journal_utility_main, bind. rewrite Ey, Hc, bool_decide_eq_false_2 by done. done.
Qed.

Definition xfer0 : xfer := Xfer jmem0 ∅ ∅ (λ _, NUL) [] [] [] ∅.
Definition journal_hi : jmem :=
  run (journal_write (Some 1%positive) (Some (cstring "hi!"%string)) 3) jmem1.
Lemma journal_hi_at : journal_at journal_hi 1 20 (cstring "hi!"%string).
Proof. exists 2%positive, (replicate 9 NUL). by split_and!; vm_compute. Qed.
Definition xfer_server : xfer := with_jmem journal_hi xfer0.
Definition socket_name : list byte := cstring "/tmp/server_unix_socket"%string.

Lemma chunk_ok_short c : c ≠ [] → (length c ≤ 100)%nat → chunk_ok c.
Proof. intros. split; [done|]. assert (100 ≤ JOURNAL_MAX_SIZE) by by vm_compute. lia. Qed.

Lemma journal_transfer_roundtrip_witness :
  ∃ x' y', ⟦ journal_transfer_run_receiver socket_name (Some 1%positive) ⟧ xfer_server ⇓ 0, x' ∧
    x_files y' !! cstring "note.txt"%string = Some (cstring "hi!"%string).
Proof.
  destruct (journal_transfer_roundtrip socket_name xfer_server 1 20 (cstring "hi!"%string)
    (with_recv [Some (cstring "h"%string); Some (cstring "i!"%string)] xfer0)
    [cstring "h"%string; cstring "i!"%string] 3) as (x' & y' & E & _ & _ & _ & _ & Hfile & _);
    [exact journal_hi_at|by vm_compute|by vm_compute|unfold SUN_PATH_MAX; simpl; lia|done|done|done|done| |done|simpl; lia|].
  { repeat (apply Forall_cons_2; [apply chunk_ok_short; simpl; (done || lia)|]). constructor. }
  exists x', y'. exact (conj E Hfile).
Defined.

(** The server's side of a transfer on every branch.  Whatever system call fails and
    whatever the other side does, [journal_transfer_run_receiver] returns 0 or -1, leaves the
    shared region untouched, and closes every descriptor it opened, with one exception: if it
    returns -1 it may leave the listening socket open. *)
Theorem run_receiver_total path x l cap log :
  journal_at (x_jmem x) l cap log →
  ∃ r x', journal_transfer_run_receiver path (Some l) x = Ok (r, x') ∧ (r = 0 ∨ r = -1) ∧
    j_maps (x_jmem x') = j_maps (x_jmem x) ∧
    (x_fds x' = x_fds x ∨ r = -1 ∧ x_fds x' = {[fresh_fd (x_fds x)]} ∪ x_fds x).
Proof.
  intros Hat. destruct (run_receiver_cases path x l cap log Hat) as (r & x' & E & Hr & Hm & Hfds & _).
  by exists r, x'.
Qed.

Lemma run_receiver_total_witness :
  ∃ r x', journal_transfer_run_receiver socket_name (Some 1%positive)
            (with_jmem (with_jfaults [false; false; true] journal_hi) xfer0) = Ok (r, x') ∧ (r = 0 ∨ r = -1).
Proof.
  destruct (run_receiver_total socket_name (with_jmem (with_jfaults [false; false; true] journal_hi) xfer0)
    1 20 (cstring "hi!"%string) journal_hi_at) as (r & x' & E & Hr & _). exists r, x'. exact (conj E Hr).
Defined.

(** The exception happens.  When [bind] fails, the function returns -1 without closing its
    socket: the descriptor stays open. *)
Theorem bind_failure_leaks_socket path x l fs :
  j_faults (x_jmem x) = false :: true :: fs →
  ∃ x', ⟦ journal_transfer_run_receiver path (Some l) ⟧ x ⇓ -1, x' ∧
    x_fds x' = {[fresh_fd (x_fds x)]} ∪ x_fds x ∧ ¬ (fresh_fd (x_fds x) ∈ x_fds x).
Proof.
  intros Hf. pose proof (proj1 (fresh_fd_fresh (x_fds x))) as Hfr.
  unfold returns, journal_transfer_run_receiver, sys_unix_socket, sys_bind, fallible, bind. simpl. rewrite Hf.
  simpl. rewrite fresh_fd_ne. eexists. split; [done|]. done.
Qed.

Lemma bind_failure_leaks_socket_witness :
  ∃ x', ⟦ journal_transfer_run_receiver socket_name (Some 1%positive) ⟧
          (with_jmem (with_jfaults [false; true] journal_hi) xfer0) ⇓ -1, x' ∧ x_fds x' = {[3]}.
Proof.
  destruct (bind_failure_leaks_socket socket_name (with_jmem (with_jfaults [false; true] journal_hi) xfer0) 1 [])
    as (x' & E & Hfds & _); [done|]. exists x'. split; [exact E|]. rewrite Hfds. by vm_compute.
Defined.

(** C39: truncated transfers are reported as complete.  If [send] takes only the first [k] bytes
    of the journal the server's side still returns 0; and if the stream breaks with an error
    after at least one byte, the utility exits with success and a file that holds only the
    bytes received so far. *)
Theorem truncated_transfer_succeeds path x l cap log k ks y chunks r fuel :
  journal_at (x_jmem x) l cap log → cap ≤ SERVER_MAX_JOURNAL_SIZE → j_faults (x_jmem x) = [] →
  (length path ≤ SUN_PATH_MAX)%nat → x_takes x = k :: ks →
  x_recv y = (Some <$> chunks) ++ None :: r → concat chunks ≠ [] → Forall chunk_ok chunks →
  Z.of_nat (length (concat chunks)) < 2 ^ 64 → j_faults (x_jmem y) = [] → (length chunks < fuel)%nat →
  ∃ x' y', ⟦ journal_transfer_run_receiver path (Some l) ⟧ x ⇓ 0, x' ∧
    x_sent x' = x_sent x ++ [take k log] ∧
    ⟦ journal_utility_main fuel ⟧ y ⇓ EXIT_SUCCESS, y' ∧
    x_files y' !! cstring "note.txt"%string = Some (concat chunks).
Proof.
  intros Hat Hle Hf Hp Ht Hr Hne Hch Hlt Hfy Hfuel.
  destruct (run_receiver_cases path x l cap log Hat) as (z & x' & E & _ & _ & _ & Hok).
  destruct (Hok Hf Hle Hp) as (-> & _ & _ & _ & Hsent & _).
  unfold taken in Hsent. rewrite Ht in Hsent.
  replace (take (k `min` length log) log) with (take k log) in Hsent.
  2: { destruct (decide (k ≤ length log)%nat); [by rewrite Nat.min_l by done|].
       rewrite Nat.min_r by lia. by rewrite !take_ge by lia. }
  destruct (rcv_and_write_file_eq socket_name (cstring "note.txt"%string) chunks fuel y (None :: r))
    as (y' & Ey & Hfile & _); try done.
  exists x', y'. split_and!; try done. unfold returns, journal_utility_main, bind. fold socket_name. rewrite Ey.
  by rewrite bool_decide_eq_false_2 by done.
Qed.

Lemma truncated_transfer_succeeds_witness :
  ∃ x' y', x_sent x' = [cstring "h"%string] ∧
    x_files y' !! cstring "note.txt"%string = Some (cstring "h"%string).
Proof.
  destruct (truncated_transfer_succeeds socket_name (with_sent [1%nat] [] xfer_server) 1 20 (cstring "hi!"%string)
    1 [] (with_recv [Some (cstring "h"%string); None] xfer0) [cstring "h"%string] [] 3)
    as (x' & y' & _ & Hs & _ & Hfile);
    [exact journal_hi_at|by vm_compute|by vm_compute|unfold SUN_PATH_MAX; simpl; lia|done|done|done| |by vm_compute|done|simpl; lia|].
  { repeat (apply Forall_cons_2; [apply chunk_ok_short; simpl; (done || lia)|]). constructor. }
  exists x', y'. exact (conj Hs Hfile).
Defined.
