(* ===== verification/Format.v ===== *)
(** * Format: the parts of C's formatted input and output that the program uses

    [printf]-style conversions (%d, %f, %s), [snprintf], [fgets] and a [sscanf] for the
    directives of server/process_cpu_usage.c, on byte strings without the terminating NUL. *)
From Stdlib Require Import SpecFloat.
From S2P Require Import Prelude Layout.

Local Open Scope Z_scope.

(** ** Characters *)
Definition code (b : byte) : Z := byte.unsigned b.
Definition digit (d : Z) : byte := byte.of_Z (48 + d).
Definition is_digit (b : byte) : bool := (48 <=? code b) && (code b <=? 57).
Definition is_space (b : byte) : bool := (code b =? 32) || ((9 <=? code b) && (code b <=? 13)).
Definition SP : byte := Byte.x20.
Definition NL : byte := Byte.x0a.
Definition MINUS : byte := Byte.x2d.
Definition PLUS : byte := Byte.x2b.
Definition DOT : byte := Byte.x2e.

(** ** Output *)

(** Decimal digits of a number; [fuel] bounds their number. *)
Fixpoint digits_fuel (fuel : nat) (n : Z) (acc : list byte) : list byte :=
  match fuel with
  | O => acc
  | S fuel =>
      let acc := digit (n mod 10) :: acc in
      if n / 10 =? 0 then acc else digits_fuel fuel (n / 10) acc
  end.
Definition print_nat (n : Z) : list byte := digits_fuel (S (Z.to_nat (Z.log2 n))) n [].
(** [%d], [%lld] *)
Definition print_int (z : Z) : list byte :=
  if z <? 0 then MINUS :: print_nat (- z) else print_nat z.

(** Exactly six digits. *)
Definition six_digits (n : Z) : list byte :=
  digit (n / 100000 mod 10) :: digit (n / 10000 mod 10) :: digit (n / 1000 mod 10)
  :: digit (n / 100 mod 10) :: digit (n / 10 mod 10) :: [digit (n mod 10)].

(** [n / d] rounded to the nearest integer, ties to even. *)
Definition round_div (n d : Z) : Z :=
  let q := n / d in
  let r := n mod d in
  if (2 * r <? d) || ((2 * r =? d) && Z.even q) then q else q + 1.

(** Doubles. *)
Definition prec : Z := 53.
Definition emax : Z := 1024.
Definition double : Type := spec_float.
Definition double_of_Z (z : Z) : double := binary_normalize prec emax z 0 false.
Definition double_mul : double → double → double := SFmul prec emax.
Definition double_div : double → double → double := SFdiv prec emax.
Definition double_ltb (x y : double) : bool := SFltb x y.

(** [%f]: six decimals, correctly rounded. *)
Definition print_f (x : double) : list byte :=
  match x with
  | S754_zero s => (if s then [MINUS] else []) ++ cstring "0.000000"%string
  | S754_infinity s => (if s then [MINUS] else []) ++ cstring "inf"%string
  | S754_nan => cstring "nan"%string
  | S754_finite s m e =>
      let micros := if 0 <=? e then Zpos m * 2 ^ e * 1000000
                    else round_div (Zpos m * 1000000) (2 ^ (- e)) in
      (if s then [MINUS] else []) ++ print_nat (micros / 1000000) ++ DOT :: six_digits (micros mod 1000000)
  end.

(** [snprintf(buffer, size, ...)]: the string that ends up in the buffer. *)
Definition snprintf (size : nat) (text : list byte) : list byte := take (size - 1) text.

(** ** Input *)

(** [fgets(buffer, size, file)] on a file: the characters up to and including the first
    newline, at most [size - 1]; [None] if there is none.  The caller sees them up to the first
    NUL. *)
Fixpoint line_of (file : list byte) : list byte :=
  match file with
  | [] => []
  | b :: file => if Byte.eqb b NL then [b] else b :: line_of file
  end.
Fixpoint until_nul (s : list byte) : list byte :=
  match s with
  | [] => []
  | b :: s => if Byte.eqb b NUL then [] else b :: until_nul s
  end.
Definition fgets (size : nat) (file : list byte) : option (list byte) :=
  match file with [] => None | _ => Some (until_nul (take (size - 1) (line_of file))) end.

(** The longest prefix of characters that satisfy [p], and the rest. *)
Fixpoint span (p : byte → bool) (s : list byte) : list byte * list byte :=
  match s with
  | [] => ([], [])
  | b :: s' => if p b then let '(u, v) := span p s' in (b :: u, v) else ([], s)
  end.
Definition skip_space (s : list byte) : list byte := (span is_space s).2.
Definition read_digits (ds : list byte) : Z := fold_left (λ n d, 10 * n + (code d - 48)) ds 0.

(** An optional sign and at least one digit, after white space. *)
Definition scan_int (s : list byte) : option (Z * list byte) :=
  let s := skip_space s in
  let '(neg, s) := match s with
                   | b :: s' => if Byte.eqb b MINUS then (true, s')
                                else if Byte.eqb b PLUS then (false, s') else (false, s)
                   | [] => (false, [])
                   end in
  let '(ds, rest) := span is_digit s in
  match ds with
  | [] => None
  | _ => Some (if neg then - read_digits ds else read_digits ds, rest)
  end.

Definition LLONG_MAX : Z := 2 ^ 63 - 1.
Definition LLONG_MIN : Z := - 2 ^ 63.
Definition ULLONG_MAX : Z := 2 ^ 64 - 1.
(** Out-of-range input saturates; an unsigned conversion of a negative number wraps around. *)
Definition clamp_lld (z : Z) : Z := Z.max LLONG_MIN (Z.min LLONG_MAX z).
Definition clamp_llu (z : Z) : Z := if ULLONG_MAX <? Z.abs z then ULLONG_MAX else wrap64 z.

(** Directives; a suppressed conversion ([%*]) assigns nothing. *)
Inductive directive : Type :=
  | White                  (* white space *)
  | Lit (b : byte)
  | LLD (assign : bool)    (* %lld *)
  | LLU (assign : bool)    (* %llu *)
  | SkipStr                (* %*s *)
  | SkipChar.              (* %*c *)

(** The values that [sscanf] assigns; its return value is their number. *)
Fixpoint sscanf (fmt : list directive) (s : list byte) : list Z :=
  match fmt with
  | [] => []
  | White :: fmt => sscanf fmt (skip_space s)
  | Lit b :: fmt =>
      match s with
      | c :: s => if Byte.eqb b c then sscanf fmt s else []
      | [] => []
      end
  | LLD assign :: fmt =>
      match scan_int s with
      | None => []
      | Some (v, s) => if assign then clamp_lld v :: sscanf fmt s else sscanf fmt s
      end
  | LLU assign :: fmt =>
      match scan_int s with
      | None => []
      | Some (v, s) => if assign then clamp_llu v :: sscanf fmt s else sscanf fmt s
      end
  | SkipStr :: fmt =>
      let '(w, rest) := span (λ b, negb (is_space b)) (skip_space s) in
      match w with [] => [] | _ => sscanf fmt rest end
  | SkipChar :: fmt =>
      match s with [] => [] | _ :: s => sscanf fmt s end
  end.

(** [inet_addr] for the form with four decimal parts without leading zeros, the only one that
    the program uses; the result is in network byte order. *)
Definition INADDR_NONE : Z := 2 ^ 32 - 1.
Definition addr_part (s : list byte) : option (Z * list byte) :=
  let '(ds, rest) := span is_digit s in
  match ds with
  | [] => None
  | _ => if read_digits ds <=? 255 then Some (read_digits ds, rest) else None
  end.
Fixpoint addr_parts (k : nat) (s : list byte) : option (list Z * list byte) :=
  '(z, s) ← addr_part s;
  match k with
  | O => Some ([z], s)
  | S k => match s with
           | b :: s => if Byte.eqb b DOT then '(zs, s) ← addr_parts k s; Some (z :: zs, s) else None
           | [] => None
           end
  end.
Definition inet_addr (s : list byte) : Z :=
  match addr_parts 3 s with
  | Some ([a; b; c; d], []) => a + 2 ^ 8 * b + 2 ^ 16 * c + 2 ^ 24 * d
  | _ => INADDR_NONE
  end.
(** [inet_addr("127.0.0.1")] *)
Definition LOOPBACK : Z := 16777343.
Lemma inet_addr_loopback : inet_addr (cstring "127.0.0.1"%string) = LOOPBACK.
Proof. by vm_compute. Qed.

#[global] Arguments inet_addr : simpl never.
#[global] Arguments print_nat : simpl never.
#[global] Arguments scan_int : simpl never.
#[global] Arguments digit : simpl never.
#[global] Arguments code : simpl never.

(** ** Lemmas *)
Lemma code_digit d : 0 ≤ d < 10 → code (digit d) = 48 + d.
Proof. intros Hd. unfold code, digit. rewrite byte.unsigned_of_Z. apply Z.mod_small. lia. Qed.

Lemma is_digit_digit d : 0 ≤ d < 10 → is_digit (digit d) = true.
Proof. intros. unfold is_digit. rewrite code_digit by done. apply andb_true_iff. rewrite !Z.leb_le. lia. Qed.

Section Digits.

Lemma read_digits_app l1 l2 :
  read_digits (l1 ++ l2) = read_digits l1 * 10 ^ Z.of_nat (length l2) + read_digits l2.
Proof.
  unfold read_digits. rewrite fold_left_app. generalize (fold_left (λ n d, 10 * n + (code d - 48)) l1 0).
  induction l2 as [|b l2 IH] using rev_ind; intros z; simpl; [lia|].
  rewrite !fold_left_app, length_app. simpl. rewrite IH.
  replace (Z.of_nat (length l2 + 1)) with (Z.of_nat (length l2) + 1) by lia.
  rewrite Z.pow_add_r by lia. lia.
Qed.

Lemma digits_fuel_spec fuel : ∀ n acc,
  0 ≤ n < 2 ^ Z.of_nat fuel → fuel ≠ 0%nat →
  ∃ ds, digits_fuel fuel n acc = ds ++ acc ∧ ds ≠ [] ∧ forallb is_digit ds = true ∧ read_digits ds = n.
Proof.
  induction fuel as [|fuel IH]; intros n acc Hn Hf; [done|]. simpl.
  assert (Hd : 0 ≤ n mod 10 < 10) by (apply Z.mod_pos_bound; lia).
  pose proof (Z.div_mod n 10 ltac:(lia)) as Hdm.
  assert (Hone : read_digits [digit (n mod 10)] = n mod 10)
    by (unfold read_digits; simpl; rewrite code_digit by done; lia).
  destruct (Z.eqb_spec (n / 10) 0) as [Hz|Hnz].
  - exists [digit (n mod 10)]. split_and!; [done|done| |lia]. simpl. by rewrite is_digit_digit.
  - assert (0 < n / 10) by (pose proof (Z.div_pos n 10); lia).
    assert (n / 10 < 2 ^ Z.of_nat fuel).
    { apply Z.div_lt_upper_bound; [lia|]. rewrite Nat2Z.inj_succ, Z.pow_succ_r in Hn by lia. lia. }
    destruct (IH (n / 10) (digit (n mod 10) :: acc)) as (ds & E & Hne & Hds & Hr); [lia| |].
    { intros ->. simpl in *. lia. }
    exists (ds ++ [digit (n mod 10)]). split_and!.
    + by rewrite E, <- app_assoc.
    + by destruct ds.
    + rewrite forallb_app, Hds. simpl. by rewrite is_digit_digit.
    + rewrite read_digits_app, Hr, Hone. simpl. lia.
Qed.

Lemma print_nat_spec n :
  0 ≤ n → print_nat n ≠ [] ∧ forallb is_digit (print_nat n) = true ∧ read_digits (print_nat n) = n.
Proof.
  intros Hn. unfold print_nat. destruct (digits_fuel_spec (S (Z.to_nat (Z.log2 n))) n []) as (ds & -> & H).
  - split; [done|]. rewrite Nat2Z.inj_succ, Z2Nat.id by apply Z.log2_nonneg.
    destruct (decide (n = 0)) as [->|]; [done|]. apply Z.log2_spec. lia.
  - done.
  - by rewrite app_nil_r.
Qed.
End Digits.

Lemma span_app p u v :
  forallb p u = true → (if v is b :: _ then p b else false) = false → span p (u ++ v) = (u, v).
Proof.
  intros Hu Hv. induction u as [|b u IH]; simpl in *.
  - destruct v; simpl; [done|]. by rewrite Hv.
  - apply andb_true_iff in Hu as [-> Hu]. by rewrite IH.
Qed.

Lemma skip_space_nonspace s : (if s is b :: _ then is_space b else false) = false → skip_space s = s.
Proof. intros H. unfold skip_space. pose proof (span_app is_space [] s eq_refl H) as E. simpl in E. by rewrite E. Qed.

Lemma digit_not_space b : is_digit b = true → is_space b = false.
Proof.
  unfold is_digit, is_space. rewrite andb_true_iff, !Z.leb_le. intros.
  destruct (Z.eqb_spec (code b) 32), (Z.leb_spec 9 (code b)), (Z.leb_spec (code b) 13); simpl; try done; lia.
Qed.

Lemma digit_not_sign b : is_digit b = true → Byte.eqb b MINUS = false ∧ Byte.eqb b PLUS = false.
Proof.
  intros H. split; destruct (Byte.eqb b _) eqn:E; try done; apply Byte.byte_dec_bl in E; subst; done.
Qed.

(** Reading back a printed number. *)
Lemma scan_int_print n rest :
  0 ≤ n → (if rest is b :: _ then is_digit b else false) = false →
  scan_int (print_nat n ++ rest) = Some (n, rest).
Proof.
  intros Hn Hrest. destruct (print_nat_spec n Hn) as (Hne & Hds & Hr). unfold scan_int.
  destruct (print_nat n) as [|b ds] eqn:E; [done|]. pose proof Hds as Hds'.
  simpl in Hds. apply andb_true_iff in Hds as [Hb Hds]. destruct (digit_not_sign b Hb) as [Hm Hp].
  rewrite skip_space_nonspace by (simpl; by apply digit_not_space). 
  pose proof (span_app is_digit (b :: ds) rest Hds' Hrest) as Es. cbn [app] in *. cbv zeta iota beta.
  rewrite Hm, Hp. cbv zeta iota beta. by rewrite Es, Hr.
Qed.

Lemma scan_int_print_int z rest :
  (if rest is b :: _ then is_digit b else false) = false →
  scan_int (print_int z ++ rest) = Some (z, rest).
Proof.
  intros Hrest. unfold print_int. destruct (Z.ltb_spec z 0) as [Hz|Hz]; [|by apply scan_int_print].
  destruct (print_nat_spec (- z) ltac:(lia)) as (Hne & Hds & Hr). unfold scan_int.
  rewrite skip_space_nonspace by done. cbn [app]. change (Byte.eqb MINUS MINUS) with true. cbv zeta iota beta.
  rewrite (span_app is_digit (print_nat (- z)) rest) by done.
  destruct (print_nat (- z)); [done|]. rewrite Hr. do 2 f_equal. lia.
Qed.

(** White space before a number does not matter. *)
Lemma scan_int_space s : scan_int (SP :: s) = scan_int s.
Proof. unfold scan_int, skip_space. simpl. by destruct (span is_space s) as [u v]. Qed.

(** Printed numbers contain no white space and no NUL. *)
Definition plain (b : byte) : bool := negb (Byte.eqb b NUL) && negb (is_space b).

Lemma digit_plain b : is_digit b = true → plain b = true.
Proof.
  intros H. unfold plain. rewrite digit_not_space by done. rewrite andb_true_r. apply negb_true_iff.
  destruct (Byte.eqb b NUL) eqn:E; [|done]. apply Byte.byte_dec_bl in E. by subst.
Qed.

Lemma forallb_impl {A} (p q : A → bool) l : (∀ x, p x = true → q x = true) → forallb p l = true → forallb q l = true.
Proof. intros H. rewrite !forallb_forall. auto. Qed.

Lemma print_nat_plain n : 0 ≤ n → forallb plain (print_nat n) = true.
Proof. intros Hn. eapply forallb_impl; [apply digit_plain|by apply print_nat_spec]. Qed.

Lemma print_int_plain z : forallb plain (print_int z) = true.
Proof. unfold print_int. destruct (Z.ltb_spec z 0); [|by apply print_nat_plain]. simpl. apply print_nat_plain. lia. Qed.

Lemma print_int_ne z : print_int z ≠ [].
Proof. unfold print_int. destruct (Z.ltb_spec z 0); [done|]. by apply print_nat_spec. Qed.

(** ** [fgets] *)
Definition line_char (b : byte) : bool := negb (Byte.eqb b NUL) && negb (Byte.eqb b NL).

Lemma plain_line_char b : plain b = true → line_char b = true.
Proof.
  unfold plain, line_char. intros [-> H]%andb_true_iff. simpl. apply negb_true_iff.
  destruct (Byte.eqb b NL) eqn:E; [|done]. apply Byte.byte_dec_bl in E. by subst.
Qed.

Lemma line_of_app u v : forallb line_char u = true → line_of (u ++ v) = u ++ line_of v.
Proof.
  induction u as [|b u IH]; simpl; [done|].
  intros [[_ ->%negb_true_iff]%andb_true_iff Hu]%andb_true_iff. by rewrite IH.
Qed.

Lemma until_nul_app u v : forallb line_char u = true → until_nul (u ++ v) = u ++ until_nul v.
Proof.
  induction u as [|b u IH]; simpl; [done|].
  intros [[->%negb_true_iff _]%andb_true_iff Hu]%andb_true_iff. by rewrite IH.
Qed.

(** A file that starts with [u] and fits the buffer with [u]: the buffer starts with [u]. *)
Lemma fgets_prefix size u v :
  u ≠ [] → forallb line_char u = true → (length u < size)%nat →
  fgets size (u ++ v) = Some (u ++ until_nul (take (size - 1 - length u) (line_of v))).
Proof.
  intros Hne Hu Hl. unfold fgets. destruct (u ++ v) eqn:E; [by destruct u|]. rewrite <- E.
  rewrite line_of_app, take_app_ge, until_nul_app by (done || lia). done.
Qed.

(** ** Signs of doubles *)
Definition nonneg_double (x : double) : Prop :=
  match x with S754_zero _ | S754_nan | S754_infinity false | S754_finite false _ _ => True | _ => False end.

Lemma round_aux_nonneg m e l : nonneg_double (binary_round_aux prec emax false m e l).
Proof.
  unfold binary_round_aux. destruct (shr_fexp prec emax m e l) as [mrs e'].
  destruct (shr_fexp _ _ _ e' loc_Exact) as [mrs' e'']. destruct (shr_m mrs'); simpl; try done.
  by destruct (Z.leb e'' (emax - prec)).
Qed.

Lemma double_of_Z_nonneg z : 0 ≤ z → nonneg_double (double_of_Z z).
Proof.
  intros Hz. unfold double_of_Z, binary_normalize, binary_round. destruct z; [done| |lia].
  destruct (shl_align _ _ _). apply round_aux_nonneg.
Qed.

Lemma double_mul_nonneg x y : nonneg_double x → nonneg_double y → nonneg_double (double_mul x y).
Proof.
  unfold double_mul, SFmul. destruct x as [sx|[]| |[] mx ex], y as [sy|[]| |[] my ey]; simpl; try done.
  intros _ _. apply round_aux_nonneg.
Qed.

Lemma double_div_nonneg x y : nonneg_double x → nonneg_double y → y ≠ S754_zero true → nonneg_double (double_div x y).
Proof.
  unfold double_div, SFdiv. destruct x as [sx|[]| |[] mx ex], y as [[]|[]| |[] my ey]; simpl; try done.
  intros _ _ _. destruct (SFdiv_core_binary prec emax (Z.pos mx) ex (Z.pos my) ey) as [[mz ez] lz].
  apply round_aux_nonneg.
Qed.

Lemma nonneg_not_ltb x : nonneg_double x → double_ltb x (S754_zero false) = false.
Proof. destruct x as [[]|[]| |[] m e]; simpl; done. Qed.
