(* ===== verification/CpuUsage.v ===== *)
(** * CpuUsage: server/process_cpu_usage.c

    The CPU usage of a process from two readings of /proc/stat and /proc/<pid>/stat.  The file
    system is a function of the number of files opened so far, so that it may change in any way
    between two readings. *)
From Stdlib Require Import SpecFloat.
From S2P Require Import Prelude Layout Format.

Local Open Scope Z_scope.

Record proc := Proc {
  p_time : nat;
  p_fs : nat → list byte → option (list byte);
}.

(** [fopen], [fgets] into a buffer of [size] bytes, [fclose]: [None] if the file cannot be
    opened or is empty. *)
Definition read_line (path : list byte) (size : nat) : M proc (option (list byte)) := λ p,
  let file := p_fs p (p_time p) path in
  Ok (match file with None => None | Some f => fgets size f end, Proc (S (p_time p)) (p_fs p)).

(** [long long] arithmetic: overflow is undefined. *)
Definition in_llong (z : Z) : bool := (LLONG_MIN <=? z) && (z <=? LLONG_MAX).
Definition ll {S} (z : Z) : M S Z := if in_llong z then ret z else undefined UB_overflow.

Definition PROC_STAT : list byte := cstring "/proc/stat"%string.

(** ["cpu  %lld %lld %lld %lld %lld %lld %lld %lld"] *)
Definition total_format : list directive :=
  Lit Byte.x63 :: Lit Byte.x70 :: Lit Byte.x75 :: White :: White :: LLD true
  :: concat (replicate 7 [White; LLD true]).

Definition get_total_time : M proc Z :=
  let* buffer := read_line PROC_STAT 128 in
  match buffer with
  | None => ret (-1)
  | Some buffer =>
      match sscanf total_format buffer with
      | [user; nice; system; idle; iowait; irq; softirq; steal] =>
          let* s := ll (user + nice) in
          let* s := ll (s + system) in
          let* s := ll (s + idle) in
          let* s := ll (s + iowait) in
          let* s := ll (s + irq) in
          let* s := ll (s + softirq) in
          ll (s + steal)
      | _ => ret (-1)
      end
  end.

(** ["/proc/%d/stat"] *)
Definition process_path (pid : Z) : list byte :=
  snprintf 64 (cstring "/proc/"%string ++ print_int pid ++ cstring "/stat"%string).

(** ["%llu %*s %*c %*llu %*llu %*llu %*llu %*llu %*llu %*llu %*llu %*llu %*llu %lld %lld"] *)
Definition process_format : list directive :=
  LLU true :: White :: SkipStr :: White :: SkipChar
  :: concat (replicate 10 [White; LLU false]) ++ [White; LLD true; White; LLD true].

Definition get_process_time (pid : Z) : M proc Z :=
  let* buffer := read_line (process_path pid) 256 in
  match buffer with
  | None => ret (-1)
  | Some buffer =>
      match sscanf process_format buffer with
      | [dummy; utime; stime] => ll (utime + stime)
      | _ => ret (-1)
      end
  end.

Definition double_minus_one : double := double_of_Z (-1).
Definition double_zero : double := S754_zero false.

(** [usleep] lets the file system change, as any opening of a file does. *)
Definition get_process_cpu_usage (pid : Z) : M proc double :=
  let* start_total := get_total_time in
  let* start_proc := get_process_time pid in
  if (start_total =? -1) || (start_proc =? -1) then ret double_minus_one else
  let* end_total := get_total_time in
  let* end_proc := get_process_time pid in
  if (end_total =? -1) || (end_proc =? -1) then ret double_minus_one else
  let* total_diff := ll (end_total - start_total) in
  let* proc_diff := ll (end_proc - start_proc) in
  if total_diff <=? 0 then ret double_zero else
  ret (double_div (double_mul (double_of_Z 100) (double_of_Z proc_diff)) (double_of_Z total_diff)).

#[global] Arguments get_total_time : simpl never.
#[global] Arguments get_process_time : simpl never.
#[global] Arguments get_process_cpu_usage : simpl never.

(** ** The files of the kernel *)

(** The numbers of a line, each behind a space. *)
Definition fields (zs : list Z) : list byte := concat ((λ z, SP :: print_int z) <$> zs).

(** The first line of /proc/stat: "cpu", two spaces, the numbers. *)
Definition stat_line (zs : list Z) : list byte := cstring "cpu "%string ++ fields zs ++ [NL].

(** The start of /proc/<pid>/stat: pid, command in parentheses, state, numbers. *)
Definition process_line (pid : Z) (comm : list byte) (state : byte) (zs : list Z) : list byte :=
  print_int pid ++ [SP; Byte.x28] ++ comm ++ [Byte.x29; SP; state] ++ fields zs.

(** What may follow a number. *)
Definition stops (rest : list byte) : Prop := (if rest is b :: _ then is_digit b else false) = false.

Lemma stops_fields zs rest : stops rest → stops (fields zs ++ rest).
Proof. by destruct zs. Qed.

Lemma sscanf_white fmt b s : is_space b = false → sscanf (White :: fmt) (SP :: b :: s) = sscanf fmt (b :: s).
Proof. intros Hb. simpl. unfold skip_space. simpl. by rewrite Hb. Qed.

Lemma print_int_head z : ∃ b s, print_int z = b :: s ∧ is_space b = false.
Proof.
  pose proof (print_int_ne z). pose proof (print_int_plain z) as H'.
  destruct (print_int z) as [|b s]; [done|]. exists b, s. split; [done|].
  simpl in H'. apply andb_true_iff in H' as [[_ ?%negb_true_iff]%andb_true_iff _]. done.
Qed.

(** Scanning the fields of a line one by one. *)
Lemma sscanf_skip_fields zs fmt rest :
  stops rest →
  sscanf (concat (replicate (length zs) [White; LLU false]) ++ fmt) (fields zs ++ rest) = sscanf fmt rest.
Proof.
  intros Hr. induction zs as [|z zs IH]; [done|]. cbn [length replicate concat fields fmap list_fmap app].
  fold (fields zs). rewrite <- app_assoc. destruct (print_int_head z) as (b & s & E & Hb).
  rewrite E. cbn [app]. rewrite sscanf_white by done.
  change (b :: s ++ fields zs ++ rest) with ((b :: s) ++ fields zs ++ rest). rewrite <- E.
  cbn [sscanf]. rewrite scan_int_print_int by by apply stops_fields. apply IH.
Qed.

Lemma sscanf_lld_fields zs fmt rest :
  stops rest → Forall (λ z, LLONG_MIN ≤ z ≤ LLONG_MAX) zs →
  sscanf (concat (replicate (length zs) [White; LLD true]) ++ fmt) (fields zs ++ rest) = zs ++ sscanf fmt rest.
Proof.
  intros Hr Hz. induction zs as [|z zs IH]; [done|]. apply Forall_cons in Hz as [Hz Hzs].
  cbn [length replicate concat fields fmap list_fmap app].
  fold (fields zs). rewrite <- app_assoc. destruct (print_int_head z) as (b & s & E & Hb).
  rewrite E. cbn [app]. rewrite sscanf_white by done.
  change (b :: s ++ fields zs ++ rest) with ((b :: s) ++ fields zs ++ rest). rewrite <- E.
  cbn [sscanf]. rewrite scan_int_print_int by by apply stops_fields.
  rewrite IH by done. f_equal. unfold clamp_lld. lia.
Qed.

Lemma fields_app zs ws : fields (zs ++ ws) = fields zs ++ fields ws.
Proof. unfold fields. by rewrite fmap_app, concat_app. Qed.

Lemma fields_line zs : forallb line_char (fields zs) = true.
Proof.
  induction zs as [|z zs IH]; [done|]. cbn [fields fmap list_fmap concat]. fold (fields zs).
  change (SP :: print_int z) with ([SP] ++ print_int z). rewrite !forallb_app, IH, andb_true_r. simpl.
  eapply forallb_impl; [apply plain_line_char|apply print_int_plain].
Qed.

Definition sumZ (zs : list Z) : Z := foldr Z.add 0 zs.
Lemma sumZ_nonneg zs : Forall (λ z, 0 ≤ z) zs → 0 ≤ sumZ zs.
Proof. induction 1; simpl; lia. Qed.
Lemma sumZ_bound zs : Forall (λ z, 0 ≤ z) zs → Forall (λ z, z ≤ sumZ zs) zs.
Proof.
  induction 1 as [|z zs Hz Hzs IH]; constructor.
  - simpl. pose proof (sumZ_nonneg zs Hzs). lia.
  - eapply Forall_impl; [exact IH|]. simpl. intros. lia.
Qed.

Lemma ll_ok {S} z (s : S) : LLONG_MIN ≤ z ≤ LLONG_MAX → ll z s = Ok (z, s).
Proof.
  intros H. unfold ll, in_llong. destruct (Z.leb_spec LLONG_MIN z), (Z.leb_spec z LLONG_MAX); try lia. done.
Qed.

Lemma sscanf_total zs rest :
  length zs = 8%nat → Forall (λ z, LLONG_MIN ≤ z ≤ LLONG_MAX) zs → stops rest →
  sscanf total_format (cstring "cpu "%string ++ fields zs ++ rest) = zs.
Proof.
  intros Hl Hz Hr. destruct zs as [|z zs]; [done|].
  pose proof (sscanf_lld_fields (z :: zs) [] rest Hr Hz) as E. rewrite Hl, !app_nil_r in E.
  etrans; [|exact E]. unfold total_format. cbn [cstring String.list_byte_of_string app].
  set (fs := fields (z :: zs) ++ rest).
  assert (Hfs : ∃ b s, fs = SP :: b :: s ∧ is_space b = false).
  { destruct (print_int_head z) as (b & s & Ez & Hb). exists b. eexists. split; [|done].
    unfold fs. cbn [fields fmap list_fmap concat app]. by rewrite Ez. }
  destruct Hfs as (b & s & -> & Hb). simpl. unfold skip_space. simpl. rewrite !Hb. simpl. by rewrite ?Hb.
Qed.

Lemma read_line_eq p path size file :
  p_fs p (p_time p) path = Some file →
  read_line path size p = Ok (fgets size file, Proc (S (p_time p)) (p_fs p)).
Proof. intros E. unfold read_line. by rewrite E. Qed.

(** ** Properties *)

(** [get_total_time] adds up the first line of /proc/stat.  For any line of the kernel's
    format with at least eight non-negative numbers whose first eight have a sum within a
    [long long], and that fits the 128-byte buffer, the result is that sum, whatever follows
    in the line or the file. *)
Theorem get_total_time_sums p zs more :
  p_fs p (p_time p) PROC_STAT = Some (stat_line zs ++ more) → (8 ≤ length zs)%nat →
  Forall (λ z, 0 ≤ z) zs → sumZ (take 8 zs) ≤ LLONG_MAX → (length (stat_line zs) < 128)%nat →
  ⟦ get_total_time ⟧ p ⇓ sumZ (take 8 zs), Proc (S (p_time p)) (p_fs p).
Proof.
  intros Hfs Hl Hz Hs Hlen. unfold returns, get_total_time, bind at 1. rewrite (read_line_eq _ _ _ _ Hfs).
  unfold stat_line in *. rewrite !length_app in Hlen. simpl in Hlen.
  replace ((cstring "cpu "%string ++ fields zs ++ [NL]) ++ more)
    with ((cstring "cpu "%string ++ fields zs) ++ NL :: more) by by rewrite <- !app_assoc.
  assert (Hline : forallb line_char (cstring "cpu "%string ++ fields zs) = true)
    by (rewrite forallb_app, fields_line; done).
  rewrite fgets_prefix; [|by destruct zs|done|rewrite length_app; simpl; lia].
  set (rest := until_nul _). assert (Hrest : stops rest).
  { unfold rest. generalize (128 - 1 - length (cstring "cpu "%string ++ fields zs))%nat. by intros [|[|k]]. }
  assert (Hz8 : Forall (λ z, LLONG_MIN ≤ z ≤ LLONG_MAX) (take 8 zs)).
  { assert (H8 : Forall (λ z, 0 ≤ z) (take 8 zs)) by by apply Forall_take.
    pose proof (sumZ_bound _ H8) as Hb. rewrite Forall_forall in *. intros z Hin.
    specialize (H8 z Hin). specialize (Hb z Hin). simpl in *. unfold LLONG_MIN. lia. }
  replace ((cstring "cpu "%string ++ fields zs) ++ rest)
    with (cstring "cpu "%string ++ fields (take 8 zs) ++ fields (drop 8 zs) ++ rest).
  2: { rewrite <- !app_assoc. f_equal. rewrite app_assoc, <- fields_app, take_drop. done. }
  rewrite sscanf_total by (done || (rewrite length_take; lia) || by apply stops_fields).
  clear -Hz Hl Hs. destruct zs as [|a [|b [|c [|d [|e [|f [|g [|h zs]]]]]]]]; simpl in Hl; try lia.
  rewrite !Forall_cons in Hz. simpl in *. unfold bind.
  rewrite ll_ok by (unfold LLONG_MIN, LLONG_MAX in *; lia). do 6 (rewrite ll_ok by (unfold LLONG_MIN, LLONG_MAX in *; lia)).
  do 2 f_equal. lia.
Qed.

Definition demo_stat : list byte := stat_line [10; 0; 20; 70; 0; 0; 0; 0; 0; 0].
Definition demo_process (comm : list byte) : list byte :=
  process_line 42 comm Byte.x53 [1; 42; 42; 0; -1; 0; 7; 0; 0; 0; 3; 4] ++ SP :: print_int 5.
Definition demo_proc (comm : list byte) : proc :=
  Proc 0 (λ _ path, if bool_decide (path = PROC_STAT) then Some demo_stat
                    else if bool_decide (path = process_path 42) then Some (demo_process comm) else None).

Lemma get_total_time_sums_witness :
  ⟦ get_total_time ⟧ demo_proc [] ⇓ 100, Proc 1 (p_fs (demo_proc [])).
Proof.
  apply (get_total_time_sums (demo_proc []) [10; 0; 20; 70; 0; 0; 0; 0; 0; 0] []);
    [by vm_compute|simpl; lia|by repeat constructor|by vm_compute|vm_compute; lia].
Defined.

(** Scanning the start of a line of /proc/<pid>/stat up to the command. *)
Lemma sscanf_process pid w rest fmt :
  forallb plain w = true → (if rest is b :: _ then is_space b else true) = true →
  sscanf (LLU true :: White :: SkipStr :: fmt) (print_int pid ++ SP :: Byte.x28 :: w ++ rest)
  = clamp_llu pid :: sscanf fmt rest.
Proof.
  intros Hw Hrest. cbn [sscanf]. rewrite scan_int_print_int by done. f_equal.
  assert (E1 : skip_space (SP :: Byte.x28 :: w ++ rest) = Byte.x28 :: w ++ rest) by done.
  rewrite E1, skip_space_nonspace by done.
  assert (Es : span (λ b, negb (is_space b)) (Byte.x28 :: w ++ rest) = (Byte.x28 :: w, rest)).
  { apply (span_app _ (Byte.x28 :: w) rest); simpl.
    - eapply forallb_impl; [|exact Hw]. intros b [_ ?]%andb_true_iff. done.
    - destruct rest; [done|]. by rewrite Hrest. }
  by rewrite Es.
Qed.

(** The buffer that [get_process_time] scans, for a file that starts with [u]. *)
Lemma process_time_eq p pid u v :
  p_fs p (p_time p) (process_path pid) = Some (u ++ v) → u ≠ [] → forallb line_char u = true →
  (length u < 256)%nat →
  ∃ rest, get_process_time pid p
    = match sscanf process_format (u ++ rest) with
      | [dummy; utime; stime] => ll (utime + stime)
      | _ => ret (-1)
      end (Proc (S (p_time p)) (p_fs p)) ∧
    (if rest is b :: _ then v = b :: tail v else True).
Proof.
  intros Hfs Hne Hu Hl. unfold get_process_time, bind at 1. rewrite (read_line_eq _ _ _ _ Hfs).
  rewrite fgets_prefix by done. eexists. split; [done|]. generalize (256 - 1 - length u)%nat. intros k.
  destruct v as [|b v], k as [|k]; simpl; try done. destruct (Byte.eqb b NL); simpl.
  - destruct k; simpl; by destruct (Byte.eqb b NUL).
  - by destruct (Byte.eqb b NUL).
Qed.

Definition comm_ok (comm : list byte) : Prop := forallb plain comm = true.

(** C24: [get_process_time] returns the user plus system time of the process.  For any file of
    the kernel's format whose command name has no white space, if the first fifteen fields fit
    the 256-byte buffer, the result is the sum of fields 14 and 15, whatever the ten numbers
    before them (negative ones included) and whatever follows. *)
Theorem get_process_time_sums p pid pid' comm state ignored utime stime more :
  p_fs p (p_time p) (process_path pid)
    = Some (process_line pid' comm state (ignored ++ [utime; stime]) ++ SP :: more) →
  length ignored = 10%nat → comm_ok comm → plain state = true →
  0 ≤ utime → 0 ≤ stime → utime + stime ≤ LLONG_MAX →
  (length (process_line pid' comm state (ignored ++ [utime; stime])) < 256)%nat →
  ⟦ get_process_time pid ⟧ p ⇓ utime + stime, Proc (S (p_time p)) (p_fs p).
Proof.
  intros Hfs Hig Hcomm Hst Hut Hsti Hsum Hlen. unfold returns.
  assert (Hc : forallb line_char comm = true) by (eapply forallb_impl; [apply plain_line_char|exact Hcomm]).
  assert (Hp : forallb line_char (print_int pid') = true)
    by (eapply forallb_impl; [apply plain_line_char|apply print_int_plain]).
  destruct (process_time_eq p pid _ (SP :: more) Hfs) as (rest & -> & Hrest); [|..].
  - unfold process_line. pose proof (print_int_ne pid'). by destruct (print_int pid').
  - unfold process_line. rewrite !forallb_app, Hp, Hc, fields_line. simpl. by rewrite plain_line_char.
  - done.
  - assert (Hstop : stops rest) by (destruct rest as [|b rest]; [done|]; by injection Hrest as <-).
    unfold process_line. rewrite <- !app_assoc. cbn [app]. unfold process_format.
    replace (comm ++ Byte.x29 :: SP :: state :: fields (ignored ++ [utime; stime]) ++ rest)
      with ((comm ++ [Byte.x29]) ++ SP :: state :: fields (ignored ++ [utime; stime]) ++ rest)
      by by rewrite <- app_assoc.
    rewrite sscanf_process by (done || by rewrite forallb_app, Hcomm).
    assert (is_space state = false) as Hs by (apply andb_true_iff in Hst as [_ ?%negb_true_iff]; done).
    rewrite sscanf_white by done. cbn [sscanf]. fold sscanf.
    rewrite fields_app, <- app_assoc, <- Hig, sscanf_skip_fields by by apply stops_fields.
    pose proof (sscanf_lld_fields [utime; stime] [] rest Hstop) as E.
    rewrite app_nil_r in E. cbn [length replicate concat app] in E.
    rewrite E by (repeat constructor; unfold LLONG_MIN; lia).
    apply ll_ok. unfold LLONG_MIN. lia.
Qed.

Lemma get_process_time_sums_witness :
  ⟦ get_process_time 42 ⟧ demo_proc (cstring "bash"%string) ⇓ 7, Proc 1 (p_fs (demo_proc (cstring "bash"%string))).
Proof.
  apply (get_process_time_sums (demo_proc (cstring "bash"%string)) 42 42 (cstring "bash"%string) Byte.x53
           [1; 42; 42; 0; -1; 0; 7; 0; 0; 0] 3 4 (print_int 5));
    [by vm_compute|done|by vm_compute|by vm_compute|lia|lia|by vm_compute|vm_compute; lia].
Defined.

Lemma scan_int_bad c s :
  plain c = true → is_digit c = false → Byte.eqb c MINUS = false → Byte.eqb c PLUS = false →
  scan_int (c :: s) = None.
Proof.
  intros [_ Hs%negb_true_iff]%andb_true_iff Hd Hm Hp. unfold scan_int.
  rewrite skip_space_nonspace by done. rewrite Hm, Hp. cbv zeta iota beta. simpl. by rewrite Hd.
Qed.

(** A command name with a space makes a running process look missing.  If the command of a
    process contains a space that is followed by a character and then something that is not a
    number (as in "tmux: server"), [get_process_time] returns -1, because %*s stops at the
    space. *)
Theorem command_with_space_not_found p pid pid' w b c more :
  p_fs p (p_time p) (process_path pid)
    = Some ((print_int pid' ++ SP :: Byte.x28 :: w ++ [SP; b; c]) ++ more) →
  comm_ok w → plain b = true → plain c = true →
  is_digit c = false → Byte.eqb c MINUS = false → Byte.eqb c PLUS = false →
  (length (print_int pid' ++ SP :: Byte.x28 :: w ++ [SP; b; c]) < 256)%nat →
  ⟦ get_process_time pid ⟧ p ⇓ -1, Proc (S (p_time p)) (p_fs p).
Proof.
  intros Hfs Hw Hb Hc Hd Hm Hpl Hlen. unfold returns.
  assert (Hwl : forallb line_char w = true) by (eapply forallb_impl; [apply plain_line_char|exact Hw]).
  assert (Hp : forallb line_char (print_int pid') = true)
    by (eapply forallb_impl; [apply plain_line_char|apply print_int_plain]).
  destruct (process_time_eq p pid _ more Hfs) as (rest & -> & _).
  - pose proof (print_int_ne pid'). by destruct (print_int pid').
  - rewrite forallb_app, Hp. cbn [forallb]. rewrite forallb_app, Hwl. simpl.
    by rewrite (plain_line_char b), (plain_line_char c).
  - done.
  - rewrite <- !app_assoc. cbn [app]. rewrite <- app_assoc. unfold process_format.
    rewrite sscanf_process by done. cbn [app].
    assert (is_space b = false) as Hsb by (apply andb_true_iff in Hb as [_ ?%negb_true_iff]; done).
    assert (is_space c = false) as Hsc by (apply andb_true_iff in Hc as [_ ?%negb_true_iff]; done).
    rewrite sscanf_white by done. simpl. rewrite skip_space_nonspace by done.
    by rewrite scan_int_bad.
Qed.

Lemma command_with_space_not_found_witness :
  ⟦ get_process_time 42 ⟧ demo_proc (cstring "tmux: server"%string)
    ⇓ -1, Proc 1 (p_fs (demo_proc (cstring "tmux: server"%string))).
Proof.
  apply (command_with_space_not_found (demo_proc (cstring "tmux: server"%string)) 42 42
           (cstring "tmux:"%string) Byte.x73 Byte.x65
           (drop 12 (demo_process (cstring "tmux: server"%string))));
    [by vm_compute|by vm_compute|done|done|done|done|done|vm_compute; lia].
Defined.

Lemma in_range_ll {S} a b (s : S) :
  0 ≤ a ≤ LLONG_MAX → 0 ≤ b ≤ LLONG_MAX → ll (a - b) s = Ok (a - b, s).
Proof. intros. apply ll_ok. unfold LLONG_MIN, LLONG_MAX in *. lia. Qed.


