(* ===== verification/ServerWorker.v ===== *)
(** * ServerWorker: server/server_worker.c

    A worker owns a connection and a callback for incoming messages.  The state of the process
    is abstract here: the class [WorkerState] says that it holds a network state and a heap of
    workers.  A callback is a name of type [F], as a function pointer is an address; [call]
    runs it.  What the worker needs of its callback is the class [Handler]; the theorems are
    proved against that class. *)
From S2P Require Import Prelude Layout Memory Message MessageQueue SocketUdp NetConnection.
From S2P Require Import NetLifecycle NetTurns.

Local Open Scope Z_scope.

Inductive server_worker_status_t : Type :=
  | SERVER_WORKER_STATUS_SUCCESS
  | SERVER_WORKER_STATUS_ERROR_NULL_POINTER
  | SERVER_WORKER_STATUS_ERROR_CREATE_CONNECTION
  | SERVER_WORKER_STATUS_ERROR_START_THREADS
  | SERVER_WORKER_STATUS_ERROR_SOCKET_OPERATION
  | SERVER_WORKER_STATUS_ERROR_THREAD_OPERATION.

#[export] Instance server_worker_status_t_eq_dec : EqDecision server_worker_status_t.
Proof. solve_decision. Defined.

Record server_worker_t (F : Type) := Worker {
  w_connection : ptr;
  worker_function : option F;
  is_running : bool;
}.
Arguments Worker {F} _ _ _.
Arguments w_connection {F} _.
Arguments worker_function {F} _.
Arguments is_running {F} _.

Definition SERVER_RECEIVE_TIMEOUT_SECONDS : Z := 1.
Definition SERVER_SEND_TIMEOUT_SECONDS : Z := 1.
Definition SERVER_MESSAGE_QUEUE_SIZE : Z := 128.

(** ** Interfaces *)

(** A process state with a network part and a heap of workers. *)
Class WorkerState (S F : Type) := {
  net_of : S → net;
  set_net : net → S → S;
  ws_workers :: Store S (server_worker_t F);
  ws_allocator :: Allocator S;
  net_of_set : ∀ n s, net_of (set_net n s) = n;
  set_net_of : ∀ s, set_net (net_of s) s = s;
  workers_set_net : ∀ n s, heap_of (T := server_worker_t F) (set_net n s) = heap_of s;
  net_set_workers : ∀ h s, net_of (set_heap (T := server_worker_t F) h s) = net_of s;
}.

(** [server_worker_send_message] returns the status of [net_connection_send] as if it were one
    of its own: the enumerators with the same number. *)
Definition worker_status_of (st : net_connection_status_t) : server_worker_status_t :=
  match st with
  | NET_CONNECTION_STATUS_SUCCESS => SERVER_WORKER_STATUS_SUCCESS
  | NET_CONNECTION_STATUS_ERROR_NULL_POINTER => SERVER_WORKER_STATUS_ERROR_NULL_POINTER
  | NET_CONNECTION_STATUS_ERROR_SOCKET => SERVER_WORKER_STATUS_ERROR_CREATE_CONNECTION
  | NET_CONNECTION_STATUS_ERROR_QUEUE => SERVER_WORKER_STATUS_ERROR_START_THREADS
  | NET_CONNECTION_STATUS_ERROR_THREAD => SERVER_WORKER_STATUS_ERROR_SOCKET_OPERATION
  | NET_CONNECTION_STATUS_ERROR_MESSAGE_FORMAT => SERVER_WORKER_STATUS_ERROR_THREAD_OPERATION
  end.

Section Worker.
Context {S F : Type} `{WS : WorkerState S F} (call : F → ptr → M S unit).

Definition lift_net {A} : M net A → M S A := lift net_of set_net.

(** ** Operations *)
(** Lines 37-66: the queues and the connection of a worker whose socket is bound. *)
Definition server_worker_connect (worker usocket : ptr) : M S ptr :=
  let* incoming_queue := lift_net (lift_mem (message_queue_create SERVER_MESSAGE_QUEUE_SIZE)) in
  let* outgoing_queue := lift_net (lift_mem (message_queue_create SERVER_MESSAGE_QUEUE_SIZE)) in
  match incoming_queue, outgoing_queue with
  | Some _, Some _ =>
      let* conn := lift_net (net_connection_create usocket incoming_queue outgoing_queue
                     SERVER_RECEIVE_TIMEOUT_SECONDS SERVER_SEND_TIMEOUT_SECONDS) in
      match conn with
      | None =>
          lift_net (lift_mem (message_queue_delete incoming_queue)) ;;
          lift_net (lift_mem (message_queue_delete outgoing_queue)) ;;
          lift_net (udp_socket_delete usocket) ;;
          free (server_worker_t F) worker ;; ret None
      | Some _ =>
          store worker (Worker conn (None : option F) false) ;; ret worker
      end
  | _, _ =>
      lift_net (udp_socket_delete usocket) ;; free (server_worker_t F) worker ;; ret None
  end.

Definition server_worker_create (addr port : Z) : M S ptr :=
  let* worker := alloc (Worker None (None : option F) false) in
  match worker with
  | None => ret None
  | Some _ =>
      let* usocket := lift_net (udp_socket_create addr (htons port)) in
      match usocket with
      | None => free (server_worker_t F) worker ;; ret None
      | Some _ =>
          let* bind_status := lift_net (udp_socket_bind usocket) in
          if bool_decide (bind_status ≠ UDP_SOCKET_STATUS_SUCCESS)
          then lift_net (udp_socket_delete usocket) ;; free (server_worker_t F) worker ;; ret None
          else server_worker_connect worker usocket
      end
  end.

Definition server_worker_start (worker : ptr) : M S server_worker_status_t :=
  match worker with
  | None => ret SERVER_WORKER_STATUS_ERROR_NULL_POINTER
  | Some _ =>
      let* w := load (T := server_worker_t F) worker in
      if is_running w then ret SERVER_WORKER_STATUS_SUCCESS else
      store worker (Worker (w_connection w) (worker_function w) true) ;;
      let* net_status_recv := lift_net (net_connection_start_receiving (w_connection w)) in
      if bool_decide (net_status_recv ≠ NET_CONNECTION_STATUS_SUCCESS) then
        store worker (Worker (w_connection w) (worker_function w) false) ;;
        ret SERVER_WORKER_STATUS_ERROR_START_THREADS
      else
      let* net_status_send := lift_net (net_connection_start_sending (w_connection w)) in
      if bool_decide (net_status_send ≠ NET_CONNECTION_STATUS_SUCCESS) then
        store worker (Worker (w_connection w) (worker_function w) false) ;;
        ret SERVER_WORKER_STATUS_ERROR_START_THREADS
      else ret SERVER_WORKER_STATUS_SUCCESS
  end.

Definition server_worker_stop (worker : ptr) : M S server_worker_status_t :=
  match worker with
  | None => ret SERVER_WORKER_STATUS_ERROR_NULL_POINTER
  | Some _ =>
      let* w := load (T := server_worker_t F) worker in
      if negb (is_running w) then ret SERVER_WORKER_STATUS_SUCCESS else
      store worker (Worker (w_connection w) (worker_function w) false) ;;
      lift_net (net_connection_stop_receiving (w_connection w)) ;;
      lift_net (net_connection_stop_sending (w_connection w)) ;;
      ret SERVER_WORKER_STATUS_SUCCESS
  end.

Definition server_worker_delete (worker : ptr) : M S unit :=
  match worker with
  | None => ret tt
  | Some _ =>
      server_worker_stop worker ;;
      let* w := load (T := server_worker_t F) worker in
      match w_connection w with
      | None => ret tt
      | Some _ =>
          lift_net (net_connection_delete (w_connection w)) ;;
          store worker (Worker None (worker_function w) (is_running w))
      end ;;
      free (server_worker_t F) worker
  end.

Definition server_worker_set_on_message (worker : ptr) (f : option F) : M S unit :=
  let* w := load (T := server_worker_t F) worker in
  store worker (Worker (w_connection w) f (is_running w)).

Definition server_worker_on_message (worker message : ptr) : M S unit :=
  match worker, message with
  | Some _, Some _ =>
      let* w := load (T := server_worker_t F) worker in
      match worker_function w with
      | Some f => call f message
      | None => ret tt
      end
  | _, _ => ret tt
  end.

Definition server_worker_send_message (worker message : ptr) : M S server_worker_status_t :=
  match worker, message with
  | Some _, Some _ =>
      let* w := load (T := server_worker_t F) worker in
      match w_connection w with
      | None => ret SERVER_WORKER_STATUS_ERROR_NULL_POINTER
      | Some _ =>
          let* st := lift_net (net_connection_send (w_connection w) message) in
          ret (worker_status_of st)
      end
  | _, _ => ret SERVER_WORKER_STATUS_ERROR_NULL_POINTER
  end.

(** Lines 213-219: one poll of the incoming queue; [true] if a message was processed. *)
Definition update_body (worker : ptr) : M S bool :=
  let* w := load (T := server_worker_t F) worker in
  let* message := lift_net (net_connection_receive_nonblocking (w_connection w)) in
  match message with
  | None => ret false
  | Some _ =>
      server_worker_on_message worker message ;;
      server_worker_send_message worker message ;;
      ret true
  end.

(** The loop of [server_worker_update].  Before each poll the other threads of the process take
    the next step of [others]; when there is none left the run is cut off. *)
Fixpoint update_loop (others : list (M S unit)) (worker : ptr) (message_count max_messages : Z) : M S unit :=
  let* w := load (T := server_worker_t F) worker in
  if (message_count <? max_messages) && is_running w then
    match others with
    | [] => no_fuel
    | step :: others =>
        step ;;
        let* processed := update_body worker in
        update_loop others worker (if processed : bool then message_count + 1 else message_count) max_messages
    end
  else ret tt.

Definition server_worker_update (others : list (M S unit)) (worker : ptr) (max_messages : Z) : M S unit :=
  match worker with
  | None => ret tt
  | Some _ => update_loop others worker 0 max_messages
  end.

(** Waiting for the first message: it is put back at the end of the incoming queue. *)
Fixpoint server_worker_wait_for_connection (others : list (M S unit)) (worker : ptr) : M S unit :=
  match worker with
  | None => ret tt
  | Some _ =>
      let* w := load (T := server_worker_t F) worker in
      if is_running w then
        match others with
        | [] => no_fuel
        | step :: others =>
            step ;;
            let* message := lift_net (net_connection_receive_nonblocking (w_connection w)) in
            match message with
            | Some _ =>
                let* c := lift_net (load (w_connection w)) in
                lift_net (net_connection_add_to_queue (w_connection w) (incoming_message_queue c) message) ;;
                ret tt
            | None =>
                lift_net (sleep SERVER_RECEIVE_TIMEOUT_SECONDS) ;;
                server_worker_wait_for_connection others worker
            end
        end
      else ret tt
  end.
End Worker.

#[global] Arguments server_worker_connect {S F WS} worker usocket : simpl never.
#[global] Arguments server_worker_create {S F WS} addr port : simpl never.
#[global] Arguments server_worker_start {S F WS} worker : simpl never.
#[global] Arguments server_worker_stop {S F WS} worker : simpl never.
#[global] Arguments server_worker_delete {S F WS} worker : simpl never.
#[global] Arguments update_body {S F WS} call worker : simpl never.
#[global] Arguments lift_net : simpl never.

(** What a worker asks of its callback: on a message that is in neither queue it returns, keeps
    the connection, changes nothing of the network state but the memory and there no message but
    this one, touches no worker and keeps the invariant [I] of the rest of the state, which in turn
    does not depend on the network. *)
Class Handler {S F : Type} `{WS : WorkerState S F} (call : F → ptr → M S unit) (I : S → Prop) := {
  handler_frame : ∀ n s, I s → I (set_net n s);
  handler_ok : ∀ f s l c d ls li lo capi capo xs ys x,
    I s → conn_inv (net_of s) l c d ls li lo capi capo xs ys →
    is_Some (m_msgs (n_mem (net_of s)) !! x) → (x ∉ xs ++ ys) →
    ∃ s' m', call f (Some x) s = Ok (tt, s') ∧ I s' ∧ net_of s' = with_mem m' (net_of s) ∧
      conn_inv (net_of s') l c d ls li lo capi capo xs ys ∧
      only_touches (n_mem (net_of s)) m' x ∧
      heap_of (T := server_worker_t F) s' = heap_of s;
}.

Section Serving.
Context {S F : Type} `{WS : WorkerState S F} (call : F → ptr → M S unit) (I : S → Prop).
Context `{H : !Handler call I}.
Context (w l : loc) (f : option F) (c : net_connection_t) (d : Z) (ls li lo : loc) (capi capo : Z).
Implicit Types (s : S) (xs ys : list loc).

(** A running worker whose connection holds [xs] and [ys]. *)
Record worker_inv s xs ys : Prop := {
  wi_worker : heap_of s !! w = Some (Worker (Some l) f true);
  wi_conn : conn_inv (net_of s) l c d ls li lo capi capo xs ys;
  wi_rest : I s;
}.

Lemma lift_net_ok {A} (m : M net A) s a n' :
  m (net_of s) = Ok (a, n') → lift_net m s = Ok (a, set_net n' s).
Proof using Type. intros E. by apply lift_ok. Qed.

(** A network step of some thread keeps the worker. *)
Lemma worker_inv_net s xs ys n' xs' ys' :
  worker_inv s xs ys → conn_inv n' l c d ls li lo capi capo xs' ys' → worker_inv (set_net n' s) xs' ys'.
Proof using H.
  intros [Hw _ HI] Hc. split; [by rewrite workers_set_net|by rewrite net_of_set|by apply handler_frame].
Qed.

Lemma load_worker s xs ys :
  worker_inv s xs ys → load (Some w) s = Ok (Worker (Some l) f true, s).
Proof using Type. intros []. by apply load_ok. Qed.

(** The callback on the message [x]. *)
Definition callback_on (x : loc) : M S unit :=
  match f with Some g => call g (Some x) | None => ret tt end.

(** [handled xs s s']: on the way from [s] to [s'] the callback was called on the messages [xs], in
    this order and once each, always in a state with the messages as they were when this one was
    taken from its queue; between the calls only the network state has changed. *)
Inductive handled : list loc → S → S → Prop :=
  | handled_nil s : handled [] s s
  | handled_cons x xs s n1 s2 n3 s' :
      m_msgs (n_mem n1) = m_msgs (n_mem (net_of s)) → m_bytes (n_mem n1) = m_bytes (n_mem (net_of s)) →
      callback_on x (set_net n1 s) = Ok (tt, s2) → handled xs (set_net n3 s2) s' → handled (x :: xs) s s'.

(** One poll: the oldest incoming message is handled and moved to the outgoing queue. *)
Lemma update_body_spec s xs ys :
  worker_inv s xs ys →
  ∃ s', update_body call (Some w) s = Ok (bool_decide (xs ≠ []), s') ∧
    n_log (net_of s') = n_log (net_of s) ∧
    (∀ x zs s'', head xs = Some x → handled zs s' s'' → handled (x :: zs) s s'') ∧
    worker_inv s' (fifo_dequeue xs).2
      (match xs with [] => ys | x :: _ => fifo_enqueue (Z.to_nat capo) x ys end).
Proof using H.
  intros Hi. unfold update_body. rewrite (bind_ok _ _ _ _ _ (load_worker s xs ys Hi)). cbn [w_connection].
  destruct (take_turn l c d ls li lo capi capo (net_of s) xs ys (wi_conn _ _ _ Hi))
    as (n1 & E1 & Hc1 & Em & Eb & Elog & _ & _ & _ & Hx & _).
  rewrite (bind_ok _ _ _ _ _ (lift_net_ok _ s _ n1 E1)).
  pose proof (worker_inv_net s xs ys n1 _ _ Hi Hc1) as Hi1. set (s1 := set_net n1 s) in *.
  assert (Hlog1 : n_log (net_of s1) = n_log (net_of s)) by (unfold s1; by rewrite net_of_set).
  destruct xs as [|x xs]; simpl in *; [by exists s1|].
  destruct (Hx x eq_refl) as [Hlive Hnx].
  assert (Hlive1 : is_Some (m_msgs (n_mem (net_of s1)) !! x)) by (unfold s1; by rewrite net_of_set, Em).
  assert (E2 : ∃ s2, server_worker_on_message call (Some w) (Some x) s1 = Ok (tt, s2) ∧ callback_on x s1 = Ok (tt, s2) ∧
    worker_inv s2 xs ys ∧ is_Some (m_msgs (n_mem (net_of s2)) !! x) ∧ n_log (net_of s2) = n_log (net_of s1)).
  { unfold server_worker_on_message, callback_on. rewrite (bind_ok _ _ _ _ _ (load_worker s1 xs ys Hi1)). cbn [worker_function].
    destruct f as [g|] eqn:Ef; [|by exists s1].
    destruct (handler_ok g s1 l c d ls li lo capi capo xs ys x) as (s2 & m2 & E & HI & En2 & Hc2 & [Hl2 _] & Hw2);
      try apply Hi1; try done.
    exists s2. split_and!; try done; [split; try done; rewrite Hw2; apply Hi1| |by rewrite En2].
    rewrite En2. by apply Hl2. }
  destruct E2 as (s2 & E2 & Ecb & Hi2 & Hl2 & Elog2). rewrite (bind_ok _ _ _ _ _ E2).
  destruct (put_turn l c d ls li lo capi capo (net_of s2) xs ys x (wi_conn _ _ _ Hi2) Hl2 Hnx)
    as (n3 & E3 & Hc3 & _ & _ & Elog3 & _).
  unfold server_worker_send_message, bind at 1. rewrite (bind_ok _ _ _ _ _ (load_worker s2 xs ys Hi2)). cbn [w_connection].
  rewrite (bind_ok _ _ _ _ _ (lift_net_ok _ s2 _ n3 E3)). unfold ret.
  exists (set_net n3 s2). split; [done|]. split; [by rewrite net_of_set, Elog3, Elog2|].
  split; [|by eapply worker_inv_net].
  intros y zs s'' [= <-] Hzs. by eapply handled_cons.
Qed.

(** The steps of the other threads. *)
Definition run_turn (t : thread_turn) : M S unit :=
  lift_net (net_turn (Some l) t).
Definition run_turns (ts : list thread_turn) : M S unit :=
  foldr (λ t rest, run_turn t ;; rest) (ret tt) ts.

Lemma run_turns_inv ts : ∀ s xs ys,
  worker_inv s xs ys → ∃ s' xs' ys', run_turns ts s = Ok (tt, s') ∧ worker_inv s' xs' ys'.
Proof using H.
  induction ts as [|[|] ts IH]; intros s xs ys Hi; [by exists s, xs, ys| |]; cbn [run_turns foldr]; fold (run_turns ts); unfold run_turn, net_turn.
  - destruct (receive_turn l c d ls li lo capi capo _ _ _ (wi_conn _ _ _ Hi)) as (n' & xs' & E & Hc & _).
    rewrite (bind_ok _ _ _ _ _ (lift_net_ok _ s _ n' E)).
    by eapply IH, worker_inv_net.
  - destruct (send_turn l c d ls li lo capi capo _ _ _ (wi_conn _ _ _ Hi)) as (n' & E & Hc & _).
    rewrite (bind_ok _ _ _ _ _ (lift_net_ok _ s _ n' E)).
    by eapply IH, worker_inv_net.
Qed.

Lemma update_loop_inv turns : ∀ s xs ys k max,
  worker_inv s xs ys →
  update_loop call (run_turns <$> turns) (Some w) k max s = NoFuel ∨
  ∃ s' xs' ys', update_loop call (run_turns <$> turns) (Some w) k max s = Ok (tt, s') ∧ worker_inv s' xs' ys'.
Proof using H.
  induction turns as [|ts turns IH]; intros s xs ys k max Hi; cbn [update_loop fmap list_fmap];
    rewrite (bind_ok _ _ _ _ _ (load_worker s xs ys Hi)); cbn [is_running];
    destruct (k <? max); simpl; try (right; by exists s, xs, ys).
  - by left.
  - destruct (run_turns_inv ts s xs ys Hi) as (s1 & xs1 & ys1 & E1 & Hi1).
    rewrite (bind_ok _ _ _ _ _ E1).
    destruct (update_body_spec s1 xs1 ys1 Hi1) as (s2 & E2 & _ & _ & Hi2). rewrite (bind_ok _ _ _ _ _ E2).
    by eapply IH.
Qed.

(** Without other threads. *)
Lemma update_loop_alone n : ∀ s xs ys k max,
  worker_inv s xs ys → 0 ≤ k ≤ max → (Z.to_nat (max - k) ≤ length xs)%nat → (Z.to_nat (max - k) ≤ n)%nat →
  ∃ s', update_loop call (replicate n (ret tt)) (Some w) k max s = Ok (tt, s') ∧
    handled (take (Z.to_nat (max - k)) xs) s s' ∧
    worker_inv s' (drop (Z.to_nat (max - k)) xs)
      (foldl (λ q x, fifo_enqueue (Z.to_nat capo) x q) ys (take (Z.to_nat (max - k)) xs)).
Proof using H.
  induction n as [|n IH]; intros s xs ys k max Hi Hk Hx Hn; cbn [update_loop replicate];
    rewrite (bind_ok _ _ _ _ _ (load_worker s xs ys Hi)); cbn [is_running];
    destruct (Z.ltb_spec k max) as [Hlt|Hge]; cbn [andb]; try lia.
  1, 3: exists s; split; [done|]; replace (Z.to_nat (max - k)) with 0%nat by lia; rewrite take_0; split; [constructor|done].
  destruct (Z.to_nat (max - k)) as [|j] eqn:Ej; [lia|]. destruct xs as [|x xs]; [simpl in Hx; lia|].
  rewrite (bind_ok (ret tt) _ s tt s eq_refl).
  destruct (update_body_spec s (x :: xs) ys Hi) as (s2 & E2 & _ & Hstep & Hi2). rewrite (bind_ok _ _ _ _ _ E2).
  rewrite bool_decide_eq_true_2 by done. simpl in Hx.
  destruct (IH s2 xs _ (k + 1) max Hi2) as (s' & E & Hh & Hi'); try lia.
  exists s'. rewrite E. split; [done|]. replace (Z.to_nat (max - (k + 1))) with j in Hh, Hi' by lia.
  split; [by apply Hstep|done].
Qed.

Lemma update_loop_spins n : ∀ s xs ys k max,
  worker_inv s xs ys → 0 ≤ k → (k + Z.of_nat (length xs) < max) →
  update_loop call (replicate n (ret tt)) (Some w) k max s = NoFuel.
Proof using H.
  induction n as [|n IH]; intros s xs ys k max Hi Hk Hx; cbn [update_loop replicate];
    rewrite (bind_ok _ _ _ _ _ (load_worker s xs ys Hi)); cbn [is_running];
    destruct (Z.ltb_spec k max) as [Hlt|Hge]; cbn [andb]; try lia; [done|].
  rewrite (bind_ok (ret tt) _ s tt s eq_refl).
  destruct (update_body_spec s xs ys Hi) as (s2 & E2 & _ & _ & Hi2). rewrite (bind_ok _ _ _ _ _ E2).
  destruct xs as [|x xs].
  - rewrite bool_decide_eq_false_2 by naive_solver. by eapply IH.
  - rewrite bool_decide_eq_true_2 by done. simpl in Hx. eapply IH; [exact Hi2|lia|simpl; lia].
Qed.
End Serving.

(** ** A worker that notes every message and sends it back *)
Record echo_state := Echo {
  ec_net : net;
  ec_workers : gmap loc (server_worker_t unit);
  ec_seen : list ptr;
}.

#[export] Program Instance echo_workers : Store echo_state (server_worker_t unit) := {|
  heap_of := ec_workers; set_heap h s := Echo (ec_net s) h (ec_seen s);
|}.
Solve All Obligations with done.
#[export] Program Instance echo_allocator : Allocator echo_state := {|
  faults_of s := faults_of (ec_net s); set_faults fs s := Echo (set_faults fs (ec_net s)) (ec_workers s) (ec_seen s);
  next_of s := next_of (ec_net s); set_next p s := Echo (set_next p (ec_net s)) (ec_workers s) (ec_seen s);
|}.
Next Obligation. intros []. by rewrite set_faults_id. Qed.
Next Obligation. done. Qed.
#[export] Program Instance echo_worker_state : WorkerState echo_state unit := {|
  net_of := ec_net; set_net n s := Echo n (ec_workers s) (ec_seen s);
|}.
Next Obligation. done. Qed.
Next Obligation. by intros []. Qed.
Next Obligation. done. Qed.
Next Obligation. done. Qed.

Definition echo (f : unit) (message : ptr) : M echo_state unit :=
  modify (λ s, Echo (ec_net s) (ec_workers s) (ec_seen s ++ [message])).
#[export] Instance echo_handler : Handler echo (λ _, True).
Proof.
  split; [done|]. intros f s l c d ls li lo capi capo xs ys x _ Hc Hx _. eexists _, (n_mem (net_of s)).
  rewrite with_mem_id. split; [done|]. split_and!; try done. apply only_touches_refl.
Qed.

(** A running echo worker at address 20 on the connection of [NetConnection.idle_net], with one
    message in its incoming queue. *)
Definition echo_one : echo_state :=
  Echo (run (let* message := lift_mem (message_create 1 8) in
             lift_mem (message_queue_enqueue (Some 2%positive) message)) idle_net)
    {[20%positive := Worker (Some 4%positive) (Some tt) true]} [].

Lemma echo_one_inv :
  worker_inv (λ _, True) 20 4 (Some tt) (conn_of (ec_net echo_one) 4) 3 1 2 3 4 4 echo_one [5%positive] [].
Proof.
  split; [done| |done]. split; [|done|by vm_compute|].
  - exists (sock_of (ec_net echo_one) 1). split; [apply conn_atb_sound; by vm_compute|by vm_compute].
  - intros d rs. assert (n_in (net_of echo_one) = ∅) as -> by (by vm_compute). by rewrite lookup_empty.
Qed.

(** ** Properties *)

(** C27: [server_worker_update] processes the oldest messages in order.  With at least
    [max_messages] messages waiting and nobody interfering, it returns after it has called the
    callback on exactly the [max_messages] oldest of them, once each and oldest first ([handled]: in
    the state in which the message was just taken), and has moved them in this order from the
    incoming to the outgoing queue; this holds for every callback that meets the interface
    [Handler]. *)
Theorem update_moves_messages {S F : Type} `{WS : WorkerState S F} call (I : S → Prop) `{!Handler call I}
    w l f c d ls li lo capi capo (s : S) xs ys max n :
  worker_inv I w l f c d ls li lo capi capo s xs ys →
  0 ≤ max → (Z.to_nat max ≤ length xs)%nat → (Z.to_nat max ≤ n)%nat →
  ∃ s', ⟦ server_worker_update call (replicate n (ret tt)) (Some w) max ⟧ s ⇓ tt, s' ∧
    handled call f (take (Z.to_nat max) xs) s s' ∧
    worker_inv I w l f c d ls li lo capi capo s' (drop (Z.to_nat max) xs)
      (foldl (λ q x, fifo_enqueue (Z.to_nat capo) x q) ys (take (Z.to_nat max) xs)).
Proof.
  intros Hi Hm Hx Hn. unfold returns, server_worker_update.
  destruct (update_loop_alone call I w l f c d ls li lo capi capo n s xs ys 0 max Hi) as (s' & E & Hh & Hi');
    rewrite ?Z.sub_0_r; try lia.
  exists s'. split; [exact E|]. by rewrite Z.sub_0_r in Hh, Hi'.
Qed.

Lemma update_moves_messages_witness :
  ∃ s', ⟦ server_worker_update echo [ret tt] (Some 20%positive) 1 ⟧ echo_one ⇓ tt, s' ∧
    handled echo (Some tt) [5%positive] echo_one s' ∧ ec_seen s' = [Some 5%positive] ∧
    worker_inv (λ _, True) 20 4 (Some tt) (conn_of (ec_net echo_one) 4) 3 1 2 3 4 4 s' [] [5%positive].
Proof.
  destruct (update_moves_messages echo (λ _, True) 20 4 (Some tt) (conn_of (ec_net echo_one) 4) 3 1 2 3 4 4
    echo_one [5%positive] [] 1 1 echo_one_inv) as (s' & E & Hh & Hi); [lia|simpl; lia|simpl; lia|].
  exists s'. split; [exact E|]. split; [exact Hh|]. split; [|exact Hi].
  inversion Hh as [|? ? ? ? ? ? ? _ _ Ec Hn]; subst. injection Ec as <-. by inversion Hn.
Defined.

(** C40: [server_worker_update] does not return before it has seen [max_messages] messages.  With
    fewer messages waiting and no other thread delivering more, it polls forever: no number of
    polls is enough. *)
Theorem update_polls_forever {S F : Type} `{WS : WorkerState S F} call (I : S → Prop) `{!Handler call I}
    w l f c d ls li lo capi capo (s : S) xs ys max n :
  worker_inv I w l f c d ls li lo capi capo s xs ys → Z.of_nat (length xs) < max →
  server_worker_update call (replicate n (ret tt)) (Some w) max s = NoFuel.
Proof.
  intros Hi Hm. unfold server_worker_update.
  by apply (update_loop_spins call I w l f c d ls li lo capi capo n s xs ys 0 max Hi).
Qed.

Lemma update_polls_forever_witness :
  server_worker_update echo (replicate 1000 (ret tt)) (Some 20%positive) 100 echo_one = NoFuel.
Proof.
  apply (update_polls_forever echo (λ _, True) 20 4 (Some tt) (conn_of (ec_net echo_one) 4) 3 1 2 3 4 4
    echo_one [5%positive] [] 100 1000 echo_one_inv). simpl. lia.
Defined.
