(* ===== verification/Server.v ===== *)
(** * Server: the request handling of server/server.c

    [worker_on_message] turns a request into its answer in place and writes a journal entry.
    The state of a worker process holds the network, the workers, the journal, the kernel's
    /proc files and the clock.  The file proves what the answer and the journal entry of every
    message are; [Requests] puts the handler into a worker. *)
From Stdlib Require Import SpecFloat.
From S2P Require Import Prelude Layout Memory Message MessageQueue SocketUdp NetConnection.
From S2P Require Import NetLifecycle NetTurns Journal Format CpuUsage ServerWorker.

Local Open Scope Z_scope.

(** The broken-down time that [localtime] returns. *)
Record tm := Tm { tm_year : Z; tm_mon : Z; tm_mday : Z; tm_hour : Z; tm_min : Z; tm_sec : Z }.

(** The only callback of the program. *)
Inductive callback : Type := WorkerOnMessage.

Record server := Server {
  sv_net : net;
  sv_workers : gmap loc (server_worker_t callback);
  sv_jmem : jmem;
  sv_journal : ptr;     (* the static variable [journal] *)
  sv_proc : proc;
  sv_clock : tm;
}.

Definition set_sv_net (n : net) (s : server) : server :=
  Server n (sv_workers s) (sv_jmem s) (sv_journal s) (sv_proc s) (sv_clock s).
Definition set_sv_workers (h : gmap loc (server_worker_t callback)) (s : server) : server :=
  Server (sv_net s) h (sv_jmem s) (sv_journal s) (sv_proc s) (sv_clock s).
Definition set_sv_jmem (j : jmem) (s : server) : server :=
  Server (sv_net s) (sv_workers s) j (sv_journal s) (sv_proc s) (sv_clock s).
Definition set_sv_proc (p : proc) (s : server) : server :=
  Server (sv_net s) (sv_workers s) (sv_jmem s) (sv_journal s) p (sv_clock s).

Definition set_sv_journal (j : ptr) (s : server) : server :=
  Server (sv_net s) (sv_workers s) (sv_jmem s) j (sv_proc s) (sv_clock s).

#[export] Program Instance server_workers : Store server (server_worker_t callback) := {|
  heap_of := sv_workers; set_heap := set_sv_workers;
|}.
Solve All Obligations with done.
#[export] Program Instance server_allocator : Allocator server := {|
  faults_of s := faults_of (sv_net s); set_faults fs s := set_sv_net (set_faults fs (sv_net s)) s;
  next_of s := next_of (sv_net s); set_next p s := set_sv_net (set_next p (sv_net s)) s;
|}.
Next Obligation. by intros [[[]]]. Qed.
Next Obligation. done. Qed.
#[export] Program Instance server_worker_state : WorkerState server callback := {|
  net_of := sv_net; set_net := set_sv_net;
|}.
Next Obligation. done. Qed.
Next Obligation. by intros []. Qed.
Next Obligation. done. Qed.
Next Obligation. done. Qed.

Definition lift_msg {A} (m : M mem A) : M server A := lift_net (lift_mem m).
Definition lift_journal {A} : M jmem A → M server A := lift sv_jmem set_sv_jmem.
Definition lift_proc {A} : M proc A → M server A := lift sv_proc set_sv_proc.

Definition SERVER_RESPONSE_CPU_NOT_FOUND : list byte := cstring "not found"%string.
Definition SERVER_RESPONSE_CPU_INVALID : list byte := cstring "invalid"%string.

(** [data] is the C string without its NUL; [strlen] and [strcpy] see the NUL. *)
Definition message_set_data (message : ptr) (data : list byte) : M mem unit :=
  let n := Z.of_nat (length data) + 1 in
  let* msg := load message in
  if n <=? hdr_capacity (header msg) then
    message_write message (Some (data ++ [NUL])) n ;; ret tt
  else
    let* new_data := realloc_bytes (Memory.data msg) n in
    match new_data with
    | None => ret tt
    | Some _ =>
        store message (Message (header msg) new_data) ;;
        let* block := load new_data in
        let* block := copy_in 0 (data ++ [NUL]) block in
        store new_data block ;;
        store message (Message (set_length n (set_capacity n (header msg))) new_data)
    end.

(** ["%Y-%m-%d %H:%M:%S"] *)
Definition pad2 (z : Z) : list byte := if z <? 10 then digit 0 :: print_nat z else print_nat z.
Definition strftime (t : tm) : list byte :=
  print_int (tm_year t + 1900) ++ MINUS :: pad2 (tm_mon t + 1) ++ MINUS :: pad2 (tm_mday t)
  ++ SP :: pad2 (tm_hour t) ++ Byte.x3a :: pad2 (tm_min t) ++ Byte.x3a :: pad2 (tm_sec t).

(** The journal entries of the three outcomes of a request. *)
Definition entry_invalid (time_str : list byte) : list byte :=
  snprintf 256 (time_str ++ cstring ": invalid request"%string ++ [NL]).
Definition entry_not_found (time_str : list byte) (pid : Z) : list byte :=
  snprintf 256 (time_str ++ cstring ": "%string ++ print_int pid ++ cstring " not found"%string ++ [NL]).
Definition entry_usage (time_str : list byte) (pid : Z) (usage : double) : list byte :=
  snprintf 256 (time_str ++ cstring ": "%string ++ print_int pid ++ cstring " %"%string ++ print_f usage ++ [NL]).

(** [journal_write(journal, buffer, strlen(buffer) + 1)]; the status is ignored. *)
Definition write_entry (entry : list byte) : M server unit :=
  let* s := get_state in
  lift_journal (journal_write (sv_journal s) (Some (entry ++ [NUL])) (Z.of_nat (length entry) + 1)) ;;
  ret tt.

(** Line 82: the first four bytes of the block, read as an [int]. *)
Definition read_pid (message : ptr) : M mem Z :=
  let* msg := load message in
  let* block := load (Memory.data msg) in
  let* bytes := copy_out 0 4 block in
  ret (signed 32 (le_combine bytes)).

Definition worker_on_message (message : ptr) : M server unit :=
  let* s := get_state in
  let time_str := strftime (sv_clock s) in
  let* msg := lift_msg (load message) in
  if hdr_type (header msg) =? MESSAGE_TYPE_NONE then
    lift_msg (store message (Message (set_type MESSAGE_TYPE_PID (header msg)) (Memory.data msg))) ;;
    write_entry (entry_invalid time_str) ;;
    lift_msg (message_set_data message SERVER_RESPONSE_CPU_INVALID)
  else if hdr_type (header msg) =? MESSAGE_TYPE_PID then
    let* pid := lift_msg (read_pid message) in
    let* proc_cpu_usage := lift_proc (get_process_cpu_usage pid) in
    if double_ltb proc_cpu_usage double_zero then
      write_entry (entry_not_found time_str pid) ;;
      lift_msg (message_set_data message SERVER_RESPONSE_CPU_NOT_FOUND)
    else
      write_entry (entry_usage time_str pid proc_cpu_usage) ;;
      lift_msg (message_set_data message (snprintf 256 (print_f proc_cpu_usage)))
  else ret tt.

Definition call_callback (f : callback) (message : ptr) : M server unit :=
  match f with WorkerOnMessage => worker_on_message message end.

#[global] Arguments message_set_data : simpl never.
#[global] Arguments worker_on_message : simpl never.
#[global] Arguments write_entry : simpl never.
#[global] Arguments strftime : simpl never.

(** ** Writing an answer into a message *)
Lemma realloc_eq m d old n :
  m_bytes m !! d = Some old → m_faults m = [] → (d < m_next m)%positive →
  ∃ blk, length blk = Z.to_nat n ∧
    realloc_bytes (Some d) n m
    = Ok (Some (m_next m), with_bytes (delete d (<[m_next m := blk]> (m_bytes m)))
            (with_next (Pos.succ (m_next m)) m)).
Proof.
  intros Hd Hf Hlt. set (keep := take (Z.to_nat n) old).
  exists (keep ++ drop (length keep) (junk_block m (m_next m) (Z.to_nat n))). split.
  - rewrite length_app, length_drop, length_junk_block. unfold keep. rewrite length_take. lia.
  - unfold realloc_bytes, bind, get_state, load. simpl. rewrite Hd. unfold alloc, bind.
    rewrite fallible_nil by done. unfold free. simpl. rewrite lookup_insert_ne, Hd by lia. done.
Qed.

Section SetData.
Context (n : net) (l ls li lo x d : loc) (c : net_connection_t) (s : udp_socket_t).
Context (capi capo : Z) (xs ys : list loc) (h : message_header_t) (bs : list byte).
Hypothesis (Hat : conn_at n l c s ls li lo capi capo xs ys).
Hypothesis (Hf : m_faults (n_mem n) = []).
Hypothesis (Hx : m_msgs (n_mem n) !! x = Some (Message h (Some d))).
Hypothesis (Hd : m_bytes (n_mem n) !! d = Some bs).

(** The header and block of [x] replaced by a fresh block [q]. *)
Lemma conn_at_replace m' q h' bs' :
  heap_ok m' → m_queues m' = m_queues (n_mem n) → m_bytes (n_mem n) !! q = None →
  m_msgs m' = <[x := Message h' (Some q)]> (m_msgs (n_mem n)) →
  m_bytes m' = delete d (<[q := bs']> (m_bytes (n_mem n))) →
  header_ok h' = true → wire_fit h' (length bs') →
  conn_at (with_mem m' n) l c s ls li lo capi capo xs ys.
Proof using Hat Hx.
  intros HH Eq Hq Em Eb Hh Hw. destruct Hat as [Hc Hsk Hin Hout Hs Hok Hne Hqi Hqo Hlive Hmem].
  assert (Hfr : ∀ y, is_Some (m_msgs (n_mem n) !! y) → is_Some (m_msgs m' !! y)).
  { intros y Hy. rewrite Em. destruct (decide (x = y)) as [->|]; [rewrite lookup_insert_eq; eauto|].
    by rewrite lookup_insert_ne. }
  split; simpl; try done.
  - eapply queue_at_frame; [exact Hqi|by rewrite Eq|]. intros. by apply Hfr.
  - eapply queue_at_frame; [exact Hqo|by rewrite Eq|]. intros. by apply Hfr.
  - eapply live_frame; [exact Hlive|]. intros. by apply Hfr.
  - by eapply mem_ok_replace.
Qed.

(** [message_set_data] with a text that fits the socket's buffer. *)
Lemma message_set_data_spec text :
  (3 ≤ length text)%nat → (length text + 1 ≤ 256)%nat →
  ∃ m' h' bs', message_set_data (Some x) text (n_mem n) = Ok (tt, m') ∧
    conn_at (with_mem m' n) l c s ls li lo capi capo xs ys ∧ m_faults m' = [] ∧
    message_at m' x h' bs' ∧ hdr_type h' = hdr_type h ∧ hdr_owner_addr h' = hdr_owner_addr h ∧
    hdr_length h' = Z.of_nat (length text) + 1 ∧ take (length text + 1) bs' = text ++ [NUL] ∧
    only_touches (n_mem n) m' x.
Proof using Hat Hf Hx Hd.
  intros Ht3 Ht. set (k := Z.of_nat (length text) + 1).
  assert (Hlt : length (text ++ [NUL]) = Z.to_nat k) by (rewrite length_app; simpl; lia).
  destruct (mem_ok_live _ _ _ _ (ca_mem _ _ _ _ _ _ _ _ _ _ _ Hat) Hx)
    as (h0 & d0 & bs0 & [= <- <-] & Hd0 & Hh & (_ & Hcap & H4)).
  rewrite Hd in Hd0. injection Hd0 as <-.
  pose proof (proj1 (header_ok_spec h) Hh) as (? & ? & ? & ?).
  unfold message_set_data, bind at 1, load. simpl. rewrite Hx. cbn [header Memory.data]. fold k.
  destruct (Z.leb_spec k (hdr_capacity h)) as [Hle|Hgt].
  - unfold bind. assert (Hkb : k ≤ Z.of_nat (length bs)) by (unfold UDP_SOCKET_BUFFER_SIZE in *; lia).
    rewrite (message_write_eq (n_mem n) x d h bs Hx Hd (text ++ [NUL]) k) by lia.
    rewrite (take_ge (text ++ [NUL])) by lia.
    eexists _, _, _. split; [done|]. split_and!.
    + eapply conn_at_msg_update; [exact Hat|exact Hx|exact Hd| |].
      * apply header_ok_spec; simpl. split_and!; try done; lia.
      * rewrite length_splice by lia. unfold wire_fit; simpl. split_and!; [lia|done|done].
    + done.
    + exists d. simpl. by rewrite !lookup_insert_eq.
    + done.
    + done.
    + done.
    + rewrite take_splice_0 by lia. rewrite take_ge by lia. done.
    + by eapply only_touches_update; [apply (ca_mem _ _ _ _ _ _ _ _ _ _ _ Hat)|exact Hx|exact Hd|..].
  - pose proof (mok_heap _ _ (ca_mem _ _ _ _ _ _ _ _ _ _ _ Hat)) as [Fb Fm Fq].
    destruct (realloc_eq (n_mem n) d bs k Hd Hf) as (blk & Hblk & E); [exact (fresh_above_live _ _ _ _ Fb Hd)|].
    assert (Hq : m_bytes (n_mem n) !! m_next (n_mem n) = None) by (apply Fb; lia).
    assert (Hqd : m_next (n_mem n) ≠ d) by congruence.
    unfold bind at 1. rewrite E. set (q := m_next (n_mem n)) in *.
    unfold bind at 1, store at 1. simpl. rewrite Hx.
    unfold bind at 1. simpl. rewrite lookup_delete_ne, lookup_insert_eq by done.
    unfold bind at 1. rewrite copy_in_ok by lia.
    unfold bind at 1, store at 1. simpl. rewrite lookup_delete_ne, lookup_insert_eq by done.
    unfold store. simpl. rewrite lookup_insert_eq.
    eexists _, _, _. split; [done|].
    assert (Hb : ∀ bs', <[q := bs']> (delete d (<[q := blk]> (m_bytes (n_mem n))))
                 = delete d (<[q := bs']> (m_bytes (n_mem n)))).
    { intros bs'. by rewrite delete_insert_ne, insert_insert_eq, <- delete_insert_ne by done. }
    assert (Hsp : splice 0 (text ++ [NUL]) blk = text ++ [NUL]).
    { unfold splice. rewrite take_0, drop_ge by lia. by rewrite app_nil_r. }
    split_and!.
    + eapply (conn_at_replace _ q); simpl; [| |exact Hq|by rewrite insert_insert_eq|by apply Hb| |].
      * split; simpl; [|apply fresh_above_succ|by apply fresh_above_succ].
        -- rewrite Hb. apply fresh_above_delete. by apply fresh_above_alloc.
        -- rewrite insert_insert_eq. apply fresh_above_insert; [done|]. exact (fresh_above_live _ _ _ _ Fm Hx).
      * done.
      * apply header_ok_spec; simpl. split_and!; try done; lia.
      * rewrite Hsp, Hlt. unfold wire_fit; simpl. split_and!; lia.
    + done.
    + exists q. simpl. rewrite insert_insert_eq. by rewrite !lookup_insert_eq.
    + done.
    + done.
    + done.
    + rewrite Hsp. apply take_ge. lia.
    + eapply (only_touches_replace _ _ _ x d q); [apply (ca_mem _ _ _ _ _ _ _ _ _ _ _ Hat)|exact Hx|exact Hq|by simpl; rewrite insert_insert_eq|by apply Hb].
Qed.
End SetData.

(** ** The environment: kernel counters far below the limits of a [long long] *)
Definition small (z : Z) : Prop := - 2 ^ 58 ≤ z ≤ 2 ^ 58.
Definition counters_ok (fs : nat → list byte → option (list byte)) : Prop :=
  ∀ t path file, fs t path = Some file →
    (∀ line, fgets 128 file = Some line → Forall small (sscanf total_format line)) ∧
    (∀ line, fgets 256 file = Some line → Forall small (tail (sscanf process_format line))).

Lemma read_line_cases p path size :
  ∃ r, read_line path size p = Ok (r, Proc (S (p_time p)) (p_fs p)) ∧
    ∀ line, r = Some line → ∃ file, p_fs p (p_time p) path = Some file ∧ fgets size file = Some line.
Proof.
  unfold read_line. eexists. split; [done|]. destruct (p_fs p (p_time p) path) as [file|]; naive_solver.
Qed.

Lemma total_time_ok p :
  counters_ok (p_fs p) → ∃ t q, get_total_time p = Ok (t, q) ∧ p_fs q = p_fs p ∧ - 2 ^ 61 ≤ t ≤ 2 ^ 61.
Proof.
  intros Hc. unfold get_total_time, bind at 1.
  destruct (read_line_cases p PROC_STAT 128) as (r & -> & Hr). destruct r as [line|].
  2: { eexists _, _. split; [done|]. split; [done|lia]. }
  destruct (Hr line eq_refl) as (file & Hfile & Hline). pose proof (proj1 (Hc _ _ _ Hfile) line Hline) as Hs.
  destruct (sscanf total_format line) as [|a [|b [|c [|d [|e [|f [|g [|h [|]]]]]]]]];
    try (eexists _, _; split; [done|]; split; [done|lia]).
  rewrite !Forall_cons in Hs. unfold small in Hs. unfold bind.
  rewrite ll_ok by (unfold LLONG_MIN, LLONG_MAX; lia).
  do 6 (rewrite ll_ok by (unfold LLONG_MIN, LLONG_MAX; lia)).
  eexists _, _. split; [done|]. split; [done|lia].
Qed.

Lemma process_time_ok p pid :
  counters_ok (p_fs p) → ∃ t q, get_process_time pid p = Ok (t, q) ∧ p_fs q = p_fs p ∧ - 2 ^ 61 ≤ t ≤ 2 ^ 61.
Proof.
  intros Hc. unfold get_process_time, bind at 1.
  destruct (read_line_cases p (process_path pid) 256) as (r & -> & Hr). destruct r as [line|].
  2: { eexists _, _. split; [done|]. split; [done|lia]. }
  destruct (Hr line eq_refl) as (file & Hfile & Hline). pose proof (proj2 (Hc _ _ _ Hfile) line Hline) as Hs.
  destruct (sscanf process_format line) as [|a [|b [|c [|]]]];
    try (eexists _, _; split; [done|]; split; [done|lia]).
  simpl in Hs. rewrite !Forall_cons in Hs. unfold small in Hs.
  rewrite ll_ok by (unfold LLONG_MIN, LLONG_MAX; lia).
  eexists _, _. split; [done|]. split; [done|lia].
Qed.

Lemma cpu_usage_ok p pid :
  counters_ok (p_fs p) → ∃ u q, get_process_cpu_usage pid p = Ok (u, q) ∧ p_fs q = p_fs p.
Proof.
  intros Hc. unfold get_process_cpu_usage, bind.
  destruct (total_time_ok p Hc) as (t0 & q1 & -> & E1 & Ht0). rewrite <- E1 in Hc.
  destruct (process_time_ok q1 pid Hc) as (u0 & q2 & -> & E2 & Hu0). rewrite <- E2 in Hc.
  destruct ((t0 =? -1) || (u0 =? -1)); [eexists _, _; split; [done|congruence]|].
  destruct (total_time_ok q2 Hc) as (t1 & q3 & -> & E3 & Ht1). rewrite <- E3 in Hc.
  destruct (process_time_ok q3 pid Hc) as (u1 & q4 & -> & E4 & Hu1).
  destruct ((t1 =? -1) || (u1 =? -1)); [eexists _, _; split; [done|congruence]|].
  rewrite !ll_ok by (unfold LLONG_MIN, LLONG_MAX; lia).
  destruct (t1 - t0 <=? 0); eexists _, _; (split; [done|congruence]).
Qed.

(** ** The handler *)

(** The rest of the state of a worker process. *)
Record rest_at (s : server) (j : loc) (cap : Z) (log : list byte) : Prop := {
  ra_journal : sv_journal s = Some j;
  ra_at : journal_at (sv_jmem s) j cap log;
  ra_faults : j_faults (sv_jmem s) = [];
  ra_counters : counters_ok (p_fs (sv_proc s));
}.
Definition server_inv (s : server) : Prop := ∃ j cap log, rest_at s j cap log.

(** What a request is answered, and the journal entry it leaves. *)
Definition answer (time_str : list byte) (type pid : Z) (usage : double) : option (list byte * list byte) :=
  if type =? MESSAGE_TYPE_NONE then Some (SERVER_RESPONSE_CPU_INVALID, entry_invalid time_str)
  else if type =? MESSAGE_TYPE_PID then
    Some (if double_ltb usage double_zero
          then (SERVER_RESPONSE_CPU_NOT_FOUND, entry_not_found time_str pid)
          else (snprintf 256 (print_f usage), entry_usage time_str pid usage))
  else None.

Lemma length_snprintf text : (length (snprintf 256 text) ≤ 255)%nat.
Proof. unfold snprintf. rewrite length_take. lia. Qed.

Lemma length_print_f u : (3 ≤ length (print_f u))%nat.
Proof.
  destruct u as [[]|[]| |s m e]; [simpl; lia..|]. unfold print_f. rewrite !length_app. simpl. lia.
Qed.

Lemma answer_length time_str type pid usage text entry :
  answer time_str type pid usage = Some (text, entry) →
  (3 ≤ length text)%nat ∧ (length text + 1 ≤ 256)%nat ∧ (length entry ≤ 255)%nat.
Proof.
  unfold answer. intros H. repeat case_match; simplify_eq; split_and!; try (simpl; lia);
    try apply length_snprintf.
  - unfold snprintf. rewrite length_take. pose proof (length_print_f usage). lia.
  - pose proof (length_snprintf (print_f usage)). lia.
Qed.

Lemma write_entry_spec s j cap log entry :
  rest_at s j cap log → (length entry ≤ 255)%nat →
  ∃ jm, write_entry entry s = Ok (tt, set_sv_jmem jm s) ∧
    rest_at (set_sv_jmem jm s) j cap (log_append cap log (entry ++ [NUL])).2.
Proof.
  intros [Hj Hat Hf Hc] Hl.
  destruct (journal_write_log (sv_jmem s) j cap log (entry ++ [NUL]) Hat Hf) as (jm & E & Hat' & Hf').
  { rewrite length_app. unfold PTRDIFF_MAX. simpl. lia. }
  exists jm. split; [|by split].
  unfold write_entry, bind, get_state, lift_journal, lift. rewrite Hj.
  rewrite length_app, Nat2Z.inj_add in E. change (Z.of_nat (length [NUL])) with 1 in E. by rewrite E.
Qed.

Lemma lift_msg_ok {A} (m : M mem A) s a m' :
  m (n_mem (sv_net s)) = Ok (a, m') → lift_msg m s = Ok (a, set_sv_net (with_mem m' (sv_net s)) s).
Proof. intros E. unfold lift_msg, lift_net, lift_mem, lift. simpl. by rewrite E. Qed.

(** The message [x] now carries the answer [text] to the owner of [h]. *)
Definition answered (m : mem) (x : loc) (h : message_header_t) (text : list byte) : Prop :=
  ∃ h' bs', message_at m x h' bs' ∧ hdr_type h' = MESSAGE_TYPE_PID ∧
    hdr_owner_addr h' = hdr_owner_addr h ∧ hdr_length h' = Z.of_nat (length text) + 1 ∧
    take (length text + 1) bs' = text ++ [NUL].

Section Handler.
Context (l ls li lo x : loc) (c : net_connection_t) (sk : udp_socket_t) (capi capo : Z) (xs ys : list loc).
Context (j : loc) (cap : Z).

(** The common end of the branches: journal entry, then answer. *)
Lemma finish_answer s d h bs log text entry :
  conn_at (sv_net s) l c sk ls li lo capi capo xs ys → m_faults (n_mem (sv_net s)) = [] →
  m_msgs (n_mem (sv_net s)) !! x = Some (Message h (Some d)) → m_bytes (n_mem (sv_net s)) !! d = Some bs →
  hdr_type h = MESSAGE_TYPE_PID → rest_at s j cap log →
  (3 ≤ length text)%nat → (length text + 1 ≤ 256)%nat → (length entry ≤ 255)%nat →
  ∃ m' s', (write_entry entry ;; lift_msg (message_set_data (Some x) text)) s = Ok (tt, s') ∧
    sv_net s' = with_mem m' (sv_net s) ∧ sv_workers s' = sv_workers s ∧ sv_clock s' = sv_clock s ∧
    conn_at (sv_net s') l c sk ls li lo capi capo xs ys ∧ m_faults m' = [] ∧
    only_touches (n_mem (sv_net s)) m' x ∧ rest_at s' j cap (log_append cap log (entry ++ [NUL])).2 ∧ answered m' x h text.
Proof using Type.
  intros Hat Hf Hx Hd Ht Hr H3 H256 He.
  destruct (write_entry_spec s j cap log entry Hr He) as (jm & E1 & Hr1).
  destruct (message_set_data_spec (sv_net s) l ls li lo x d c sk capi capo xs ys h bs Hat Hf Hx Hd text H3 H256)
    as (m' & h' & bs' & E2 & Hat' & Hf' & Hm & Hty & Hown & Hlen & Htake & Hto).
  exists m', (set_sv_net (with_mem m' (sv_net s)) (set_sv_jmem jm s)).
  split; [by rewrite (bind_ok _ _ _ _ _ E1), (lift_msg_ok _ (set_sv_jmem jm s) _ m' E2)|].
  split_and!; try done; [destruct Hr1; by split|]. exists h', bs'. split_and!; try done. congruence.
Qed.

(** [worker_on_message] on a live message. *)
Lemma worker_on_message_spec s h bs log :
  conn_at (sv_net s) l c sk ls li lo capi capo xs ys → m_faults (n_mem (sv_net s)) = [] →
  message_at (n_mem (sv_net s)) x h bs → rest_at s j cap log →
  let pid := signed 32 (le_combine (take 4 bs)) in
  ∃ m' s' u q, worker_on_message (Some x) s = Ok (tt, s') ∧
    (hdr_type h = MESSAGE_TYPE_PID → get_process_cpu_usage pid (sv_proc s) = Ok (u, q)) ∧
    sv_net s' = with_mem m' (sv_net s) ∧ sv_workers s' = sv_workers s ∧ sv_clock s' = sv_clock s ∧
    conn_at (sv_net s') l c sk ls li lo capi capo xs ys ∧ m_faults m' = [] ∧
    only_touches (n_mem (sv_net s)) m' x ∧
    match answer (strftime (sv_clock s)) (hdr_type h) pid u with
    | None => s' = s
    | Some (text, entry) =>
        rest_at s' j cap (log_append cap log (entry ++ [NUL])).2 ∧ answered m' x h text
    end.
Proof using Type.
  intros Hat Hf (d & Hx & Hd) Hr pid.
  destruct (mem_ok_live _ _ _ _ (ca_mem _ _ _ _ _ _ _ _ _ _ _ Hat) Hx)
    as (h0 & d0 & bs0 & [= <- <-] & Hd0 & Hh & Hw). rewrite Hd in Hd0. injection Hd0 as <-.
  unfold worker_on_message, bind at 1, get_state.
  assert (El : lift_msg (load (Some x)) s = Ok (Message h (Some d), s)).
  { rewrite (lift_msg_ok _ s (Message h (Some d)) (n_mem (sv_net s))); [|by apply load_ok].
    rewrite with_mem_id. by destruct s. }
  rewrite (bind_ok _ _ _ _ _ El). cbn [header Memory.data]. unfold answer.
  destruct (Z.eqb_spec (hdr_type h) MESSAGE_TYPE_NONE) as [Hnone|Hnone].
  - set (h1 := set_type MESSAGE_TYPE_PID h).
    assert (Es : store (Some x) (Message h1 (Some d)) (n_mem (sv_net s))
      = Ok (tt, with_msgs (<[x := Message h1 (Some d)]> (m_msgs (n_mem (sv_net s)))) (n_mem (sv_net s))))
      by (unfold store; simpl; by rewrite Hx).
    rewrite (bind_ok _ _ _ _ _ (lift_msg_ok _ s _ _ Es)). set (m1 := with_msgs _ _). set (s1 := set_sv_net _ s).
    assert (Hat1 : conn_at (sv_net s1) l c sk ls li lo capi capo xs ys).
    { pose proof (conn_at_msg_update (sv_net s) l ls li lo c sk capi capo xs ys x d h h1 bs bs Hat Hx Hd) as Hu.
      rewrite (insert_id (m_bytes (n_mem (sv_net s))) d bs Hd), with_bytes_id in Hu. apply Hu; [|by destruct Hw as (? & ? & ?)].
      by apply header_ok_set_type. }
    destruct (finish_answer s1 d h1 bs log SERVER_RESPONSE_CPU_INVALID (entry_invalid (strftime (sv_clock s))))
      as (m' & s' & E & En & Ew & Ec & Hc' & Hf' & Hto & Hrest); try done; try (by simpl; lia).
    { simpl. apply lookup_insert_eq. }
    { by destruct Hr; split. }
    { apply length_snprintf. }
    exists m', s', double_zero, (sv_proc s). rewrite E. split_and!; try done; try apply Hrest.
    + intros Hp. rewrite Hnone in Hp. done.
    + eapply only_touches_trans; [|exact Hto].
      eapply only_touches_update; [apply (ca_mem _ _ _ _ _ _ _ _ _ _ _ Hat)|exact Hx|exact Hd|done|].
      by rewrite insert_id.
  - destruct (Z.eqb_spec (hdr_type h) MESSAGE_TYPE_PID) as [Hpid|Hpid].
    2: { exists (n_mem (sv_net s)), s, double_zero, (sv_proc s). rewrite with_mem_id. split_and!; try done. apply only_touches_refl. }
    assert (Ep : lift_msg (read_pid (Some x)) s = Ok (pid, s)).
    { rewrite (lift_msg_ok _ s pid (n_mem (sv_net s))); [rewrite with_mem_id; by destruct s|].
      unfold read_pid, bind, load. simpl. rewrite Hx. simpl. rewrite Hd.
      destruct Hw as (_ & _ & H4). rewrite copy_out_ok by lia. unfold slice. by rewrite drop_0. }
    rewrite (bind_ok _ _ _ _ _ Ep).
    destruct (cpu_usage_ok (sv_proc s) pid (ra_counters _ _ _ _ Hr)) as (u & q & Eu & Efs).
    unfold bind at 1, lift_proc, lift. rewrite Eu. set (s1 := set_sv_proc q s).
    assert (Hr1 : rest_at s1 j cap log) by (destruct Hr; split; try done; simpl; by rewrite Efs).
    set (te := if double_ltb u double_zero
               then (SERVER_RESPONSE_CPU_NOT_FOUND, entry_not_found (strftime (sv_clock s)) pid)
               else (snprintf 256 (print_f u), entry_usage (strftime (sv_clock s)) pid u)).
    destruct (answer_length (strftime (sv_clock s)) MESSAGE_TYPE_PID pid u te.1 te.2) as (H3 & H256 & H255);
      [unfold answer, te; by destruct (double_ltb u double_zero)|].
    destruct (finish_answer s1 d h bs log te.1 te.2) as (m' & s' & E & Hrest); try done.
    exists m', s', u, q.
    assert (E' : (write_entry te.2 ;; lift_msg (message_set_data (Some x) te.1)) s1
                 = (if double_ltb u double_zero
                    then write_entry (entry_not_found (strftime (sv_clock s)) pid) ;;
                         lift_msg (message_set_data (Some x) SERVER_RESPONSE_CPU_NOT_FOUND)
                    else write_entry (entry_usage (strftime (sv_clock s)) pid u) ;;
                         lift_msg (message_set_data (Some x) (snprintf 256 (print_f u)))) s1)
      by (unfold te; by destruct (double_ltb u double_zero)).
    rewrite <- E', E. destruct Hrest as (En & ? & ? & ? & ? & ? & ? & ?).
    split_and!; try done; try (by rewrite En).  all: fold te; by destruct te.
Qed.
End Handler.
