(* ===== verification/Buffers.v ===== *)
(** * Buffers: the character buffers of the request handler are large enough

    server/server.c prints journal entries and answers into [buffer[256]] and the time into
    [time_str[64]], server/process_cpu_usage.c a path into [path[64]].  The usage is a double, and
    [%f] of a double can need more than 300 characters; the bounds on the kernel's counters and on
    the rounding of the three operations of [get_process_cpu_usage] show that it does not here. *)
From S2P Require Import Prelude Layout Memory Format CpuUsage Server.
From Stdlib Require Import Floats.SpecFloat.

Local Open Scope Z_scope.

(** ** The magnitude of doubles *)

(** [x] is not finite, or its absolute value is below [2 ^ k]. *)
Definition below (k : Z) (x : double) : Prop :=
  match x with S754_finite _ m e => Z.log2 (Zpos m) + e < k | _ => True end.
(** The exponent of [x], if it is finite, is at least [k]. *)
Definition above (k : Z) (x : double) : Prop :=
  match x with S754_finite _ _ e => k ≤ e | _ => True end.

Lemma emin_eq : emin prec emax = -1074.
Proof. reflexivity. Qed.

Lemma below_le k k' x : below k x → k ≤ k' → below k' x.
Proof. destruct x; simpl; lia. Qed.

Lemma digits2_log2 m : 0 < m → Zdigits2 m = Z.log2 m + 1.
Proof.
  destruct m as [|p|p]; [lia| |lia]. intros _.
  assert (E : digits2_pos p = Pos.size p) by (induction p; simpl; congruence). unfold Zdigits2. rewrite E.
  destruct p; simpl; lia.
Qed.

Lemma shr_1_half r : 0 ≤ shr_m r → shr_m (shr_1 r) = shr_m r / 2.
Proof.
  destruct r as [m ? ?]. simpl. destruct m as [|[p|p|]|]; simpl; intros; try lia; try done.
  - change (Z.pos p~1) with (2 * Z.pos p + 1). rewrite Z.add_comm, Z.mul_comm, Z.div_add by lia. done.
  - change (Z.pos p~0) with (2 * Z.pos p). by rewrite Z.mul_comm, Z.div_mul.
Qed.

Lemma shr_iter p : ∀ r, 0 ≤ shr_m r → shr_m (iter_pos shr_1 p r) = shr_m r / 2 ^ Zpos p.
Proof.
  induction p as [p IH|p IH|]; intros r Hr; simpl.
  - assert (H1 : 0 ≤ shr_m (shr_1 r)) by (rewrite shr_1_half by done; apply Z.div_pos; lia).
    assert (H2 : 0 ≤ shr_m (iter_pos shr_1 p (shr_1 r))) by (rewrite IH by done; apply Z.div_pos; lia).
    rewrite IH, IH, shr_1_half by done. rewrite !Z.div_div by lia. f_equal.
    rewrite (Pos2Z.inj_xI p), Z.pow_add_r, Z.pow_1_r by lia.
    replace (2 * Z.pos p) with (Z.pos p + Z.pos p) by lia. rewrite Z.pow_add_r by lia. lia.
  - assert (H2 : 0 ≤ shr_m (iter_pos shr_1 p r)) by (rewrite IH by done; apply Z.div_pos; lia).
    rewrite IH, IH by done. rewrite !Z.div_div by lia. f_equal.
    rewrite (Pos2Z.inj_xO p). replace (2 * Z.pos p) with (Z.pos p + Z.pos p) by lia. rewrite Z.pow_add_r by lia. lia.
  - by rewrite shr_1_half.
Qed.

Lemma shr_m_of_loc m l : shr_m (shr_record_of_loc m l) = m.
Proof. by destruct l as [|[]]. Qed.

(** Dividing by a power of two. *)
Lemma log2_shift m n : 0 ≤ m → 0 < n → 0 < m / 2 ^ n → Z.log2 (m / 2 ^ n) = Z.log2 m - n.
Proof.
  intros Hm Hn Hq. assert (0 < m) by (destruct (decide (m = 0)) as [->|]; [by rewrite Z.div_0_l in Hq by lia|lia]).
  rewrite <- Z.shiftr_div_pow2 by lia. rewrite Z.log2_shiftr by done.
  rewrite <- Z.shiftr_div_pow2 in Hq by lia. apply Z.max_r.
  destruct (Z.lt_ge_cases (Z.log2 m) n) as [Hlt|]; [|lia].
  rewrite Z.shiftr_eq_0 in Hq; lia.
Qed.

(** The shift that makes the mantissa fit: what it leaves of mantissa and exponent. *)
Lemma shr_fexp_spec m e l :
  0 ≤ m →
  let '(r, e') := shr_fexp prec emax m e l in
  e ≤ e' ∧ 0 ≤ shr_m r ∧
  (0 < shr_m r → Z.log2 (shr_m r) + e' = Z.log2 m + e) ∧
  (shr_m r = 0 → e' ≤ Z.max e (emin prec emax)).
Proof.
  intros Hm. unfold shr_fexp, shr. set (n := fexp prec emax (Zdigits2 m + e) - e).
  destruct n as [|p|p] eqn:En; rewrite ?shr_m_of_loc; [lia| |lia].
  rewrite shr_iter by (by rewrite shr_m_of_loc). rewrite shr_m_of_loc.
  assert (Hq : 0 ≤ m / 2 ^ Z.pos p) by (apply Z.div_pos; lia).
  split_and!; [lia|done|intros; rewrite log2_shift by (done || lia); lia|]. intros Hz.
  assert (e + Z.pos p = Z.max (Zdigits2 m + e - prec) (emin prec emax)) by (unfold n, fexp in En; lia).
  destruct (decide (m = 0)) as [->|Hne]; [simpl in *; unfold prec in *; lia|].
  apply Z.div_small_iff in Hz as [[_ Hlt]|]; [|lia|lia].
  apply Z.log2_lt_pow2 in Hlt; [|lia]. rewrite digits2_log2 in * by lia. unfold prec in *. lia.
Qed.

Lemma round_below s m e l k :
  0 ≤ m → Z.log2 m + e < k → emin prec emax ≤ k →
  below (k + 1) (binary_round_aux prec emax s m e l) ∧ above e (binary_round_aux prec emax s m e l).
Proof.
  intros Hm Hk Hmin. unfold binary_round_aux. pose proof (shr_fexp_spec m e l Hm) as H1.
  destruct (shr_fexp prec emax m e l) as [r1 e1]. destruct H1 as (He1 & Hr1 & Hl1 & Hz1).
  set (m1 := round_nearest_even _ _).
  assert (Hm1 : shr_m r1 ≤ m1 ≤ shr_m r1 + 1) by (unfold m1; destruct (loc_of_shr_record r1) as [|[]]; simpl; try case_match; lia).
  assert (Hb1 : Z.log2 m1 + e1 < k + 1).
  { destruct (decide (shr_m r1 = 0)) as [E|].
    - specialize (Hz1 E). rewrite E in Hm1. assert (Z.log2 m1 = 0) by (apply Z.log2_null; lia).
      pose proof (Z.log2_nonneg m). lia.
    - specialize (Hl1 ltac:(lia)). pose proof (Z.log2_le_mono m1 (Z.succ (shr_m r1)) ltac:(lia)).
      pose proof (Z.log2_succ_le (shr_m r1)). lia. }
  pose proof (shr_fexp_spec m1 e1 loc_Exact ltac:(lia)) as H2.
  destruct (shr_fexp prec emax m1 e1 loc_Exact) as [r2 e2]. destruct H2 as (He2 & Hr2 & Hl2 & _).
  destruct (shr_m r2) as [|p|p]; [done| |done]. destruct (e2 <=? emax - prec); [|done]. cbn [below above].
  specialize (Hl2 ltac:(lia)). lia.
Qed.

(** ** The three operations *)
Lemma double_of_Z_below z k :
  0 ≤ k → Z.abs z < 2 ^ k → below (k + 1) (double_of_Z z) ∧ (z ≠ 0 → above (-52) (double_of_Z z)).
Proof.
  intros Hk Hz. unfold double_of_Z, binary_normalize.
  assert (Hpos : ∀ s p, Z.pos p < 2 ^ k → below (k + 1) (binary_round prec emax s p 0) ∧ above (-52) (binary_round prec emax s p 0)).
  { intros s p Hp. apply Z.log2_lt_pow2 in Hp; [|lia]. unfold binary_round, shl_align.
    change (Z.pos (digits2_pos p) + 0) with (Zdigits2 (Z.pos p) + 0). rewrite digits2_log2, Z.add_0_r, Z.sub_0_r by lia.
    set (x := fexp prec emax (Z.log2 (Z.pos p) + 1)).
    assert (Hx : -52 ≤ x) by (unfold x, fexp, prec; pose proof (Z.log2_nonneg (Z.pos p)); lia).
    destruct x as [|q|q] eqn:Ex.
    3: { assert (Em : Z.pos (Pos.iter xO p q) = Z.pos p * 2 ^ Z.pos q).
         { clear. induction q as [|q IH] using Pos.peano_ind; [simpl; lia|].
           rewrite Pos.iter_succ, Pos2Z.inj_succ, Z.pow_succ_r by lia. rewrite Pos2Z.inj_xO, IH. ring. }
         destruct (round_below s (Z.pos (Pos.iter xO p q)) (Z.neg q) loc_Exact k) as [Hb Ha]; [lia| |rewrite emin_eq; lia|].
         - rewrite Em, Z.log2_mul_pow2 by lia. lia.
         - split; [done|]. destruct (binary_round_aux _ _ _ _ _ _); cbn [above] in *; [done..|lia]. }
    all: destruct (round_below s (Z.pos p) 0 loc_Exact k) as [Hb Ha]; [lia|lia|rewrite emin_eq; lia|];
      split; [done|]; destruct (binary_round_aux _ _ _ _ _ _); cbn [above] in *; [done..|lia]. }
  destruct z as [|p|p]; [done| |].
  - destruct (Hpos false p) as [? ?]; [lia|]. auto.
  - destruct (Hpos true p) as [? ?]; [lia|]. auto.
Qed.

Lemma double_mul_below x y j k :
  below j x → below k y → 0 ≤ j + k → below (j + k + 1) (double_mul x y).
Proof.
  unfold double_mul, SFmul. destruct x as [| | |sx mx ex], y as [| | |sy my ey]; try done.
  cbn [below]. intros Hx Hy Hk. apply round_below; [lia| |rewrite emin_eq; lia].
  rewrite Pos2Z.inj_mul. pose proof (Z.log2_mul_above (Z.pos mx) (Z.pos my)). 
  pose proof (Z.log2_mul_below (Z.pos mx) (Z.pos my)). lia.
Qed.

Lemma double_div_below x y k :
  below k x → above (-52) y → 0 ≤ k → below (k + 54) (double_div x y).
Proof.
  unfold double_div, SFdiv. destruct x as [| | |sx mx ex], y as [| | |sy my ey]; try done.
  cbn [below above]. intros Hx Hy Hk. unfold SFdiv_core_binary.
  set (e' := Z.min _ _). assert (Hs : 0 ≤ ex - ey - e') by (unfold e'; lia).
  set (num := match ex - ey - e' with Z.pos _ => _ | _ => _ end).
  assert (Hn : num = Z.pos mx * 2 ^ (ex - ey - e')).
  { unfold num. destruct (ex - ey - e') as [|q|q] eqn:E; [simpl; lia|by apply Z.shiftl_mul_pow2|lia]. }
  pose proof (Z_div_mod num (Z.pos my) ltac:(lia)) as Hdm. destruct (Z.div_eucl num (Z.pos my)) as [q r].
  destruct Hdm as [Hqr Hr].
  assert (Hq : 0 ≤ q) by nia.
  replace (k + 54) with (k + 53 + 1) by lia. apply round_below; [done| |rewrite emin_eq; lia].
  destruct (decide (q = 0)) as [->|Hne].
  - pose proof (Z.log2_nonneg (Z.pos mx)). unfold e', fexp in *. simpl (Z.log2 0). lia.
  - assert (Hle : q ≤ num) by nia. apply Z.log2_le_mono in Hle. rewrite Hn, Z.log2_mul_pow2 in Hle by lia. lia.
Qed.

(** ** The usage *)
Lemma cpu_usage_below p pid :
  counters_ok (p_fs p) → ∃ u q, get_process_cpu_usage pid p = Ok (u, q) ∧ below 127 u.
Proof.
  intros Hc. unfold get_process_cpu_usage, bind.
  destruct (total_time_ok p Hc) as (t0 & q1 & -> & E1 & Ht0). rewrite <- E1 in Hc.
  destruct (process_time_ok q1 pid Hc) as (u0 & q2 & -> & E2 & Hu0). rewrite <- E2 in Hc.
  destruct ((t0 =? -1) || (u0 =? -1)); [by eexists _, _|].
  destruct (total_time_ok q2 Hc) as (t1 & q3 & -> & E3 & Ht1). rewrite <- E3 in Hc.
  destruct (process_time_ok q3 pid Hc) as (u1 & q4 & -> & E4 & Hu1).
  destruct ((t1 =? -1) || (u1 =? -1)); [by eexists _, _|].
  rewrite !ll_ok by (unfold LLONG_MIN, LLONG_MAX; lia).
  destruct (Z.leb_spec (t1 - t0) 0); eexists _, _; (split; [done|]); [done|].
  apply (double_div_below _ _ 73); [|by apply (double_of_Z_below _ 63); lia|done].
  apply (double_mul_below _ _ 8 64); [apply (double_of_Z_below _ 7); lia|apply (double_of_Z_below _ 63); lia|done].
Qed.

(** ** Lengths of printed text *)
Lemma length_digits_fuel fuel : ∀ n acc, (length (digits_fuel fuel n acc) ≤ fuel + length acc)%nat.
Proof.
  induction fuel as [|fuel IH]; intros n acc; simpl; [lia|]. case_match; simpl; [lia|].
  specialize (IH (n / 10) (digit (n mod 10) :: acc)). simpl in IH. lia.
Qed.

Lemma length_print_nat n k : n < 2 ^ k → 0 < k → (length (print_nat n) ≤ Z.to_nat k)%nat.
Proof.
  intros Hn Hk. unfold print_nat. pose proof (length_digits_fuel (S (Z.to_nat (Z.log2 n))) n []) as H. cbn [length] in H.
  assert (Z.log2 n < k); [|lia]. destruct (Z.lt_ge_cases 0 n); [by apply Z.log2_lt_pow2|]. rewrite Z.log2_nonpos; lia.
Qed.

Lemma length_print_int z k : - 2 ^ k < z < 2 ^ k → 0 < k → (length (print_int z) ≤ Z.to_nat k + 1)%nat.
Proof.
  intros Hz Hk. unfold print_int. destruct (Z.ltb_spec z 0); simpl.
  - pose proof (length_print_nat (- z) k). lia.
  - pose proof (length_print_nat z k). lia.
Qed.

Lemma length_print_f_below u k : below k u → 0 ≤ k → (length (print_f u) ≤ Z.to_nat k + 9)%nat.
Proof.
  destruct u as [[]|[]| |s m e]; intros Hb Hk; [simpl; lia..|]. cbn [below] in Hb.
  unfold print_f. set (micros := if 0 <=? e then _ else _).
  assert (Hm : micros / 1000000 < 2 ^ (k + 1)).
  { apply Z.div_lt_upper_bound; [lia|]. pose proof (Z.log2_spec (Z.pos m) ltac:(lia)) as [_ Hm].
    pose proof (Z.log2_nonneg (Z.pos m)). rewrite Z.pow_add_r by lia. unfold micros. destruct (Z.leb_spec 0 e).
    - assert (Z.pos m * 2 ^ e < 2 ^ k); [|lia].
      apply Z.lt_le_trans with (2 ^ (Z.succ (Z.log2 (Z.pos m)) + e)).
      + rewrite Z.pow_add_r by lia. apply Z.mul_lt_mono_pos_r; lia.
      + apply Z.pow_le_mono_r; lia.
    - assert (Hr : ∀ a b, 0 < b → round_div a b ≤ a / b + 1) by (intros a b; unfold round_div; case_match; lia).
      assert (Z.pos m * 1000000 / 2 ^ (- e) < 1000000 * 2 ^ k).
      { apply Z.div_lt_upper_bound; [lia|].
        assert (Z.pos m < 2 ^ (- e) * 2 ^ k); [|lia]. rewrite <- Z.pow_add_r by lia.
        eapply Z.lt_le_trans; [exact Hm|]. apply Z.pow_le_mono_r; lia. }
      specialize (Hr (Z.pos m * 1000000) (2 ^ (- e)) ltac:(lia)). pose proof (Z.pow_pos_nonneg 2 k). lia. }
  pose proof (length_print_nat _ (k + 1) Hm ltac:(lia)). rewrite !length_app. simpl. destruct s; simpl; lia.
Qed.

(** ** The time *)
Definition in_range (a z b : Z) : bool := (a <=? z) && (z <=? b).
Definition tm_ok (t : tm) : bool :=
  in_range (- 2 ^ 31) (tm_year t) (2 ^ 31 - 1901) && in_range 0 (tm_mon t) 11 && in_range 1 (tm_mday t) 31
  && in_range 0 (tm_hour t) 23 && in_range 0 (tm_min t) 59 && in_range 0 (tm_sec t) 60.

Lemma length_pad2 z : 0 ≤ z < 100 → length (pad2 z) = 2%nat.
Proof.
  intros Hz. assert (H : forallb (λ n, Nat.eqb (length (pad2 (Z.of_nat n))) 2) (seq 0 100) = true) by (by vm_compute).
  rewrite forallb_forall in H. specialize (H (Z.to_nat z)). rewrite Z2Nat.id in H by lia.
  apply Nat.eqb_eq, H, in_seq. lia.
Qed.

Lemma length_strftime t : tm_ok t = true → (length (strftime t) ≤ 48)%nat.
Proof.
  unfold tm_ok, in_range. rewrite !andb_true_iff, !Z.leb_le. intros H.
  unfold strftime. pose proof (length_print_int (tm_year t + 1900) 32 ltac:(lia) ltac:(lia)).
  repeat (rewrite length_app || cbn [length]). rewrite !length_pad2 by lia. lia.
Qed.

Lemma snprintf_fits size text : (length text < size)%nat → snprintf size text = text.
Proof. intros H. apply take_ge. lia. Qed.

(** Lengths of the literals. *)
Ltac known_lengths := repeat match goal with |- context [length (cstring ?s)] =>
  let n := eval vm_compute in (length (cstring s)) in change (length (cstring s)) with n end.

(** ** Property *)

(** C26: nothing the server prints is cut off.  For every broken-down time, every process id and
    every state of the kernel's files with counters of at most 2^58, the time fits its 64 bytes,
    the path of the stat file its 64 bytes, and each journal entry and the usage, printed with
    [%f], the 256 bytes of the handler's buffer, the terminating NUL included: every call of
    [snprintf] gives the whole text. *)
Theorem buffers_suffice p pid t :
  counters_ok (p_fs p) → tm_ok t = true → - 2 ^ 31 ≤ pid < 2 ^ 31 →
  (length (strftime t) < 64)%nat ∧
  process_path pid = cstring "/proc/"%string ++ print_int pid ++ cstring "/stat"%string ∧
  entry_invalid (strftime t) = strftime t ++ cstring ": invalid request"%string ++ [NL] ∧
  entry_not_found (strftime t) pid
    = strftime t ++ cstring ": "%string ++ print_int pid ++ cstring " not found"%string ++ [NL] ∧
  ∃ u q, get_process_cpu_usage pid p = Ok (u, q) ∧
    entry_usage (strftime t) pid u
      = strftime t ++ cstring ": "%string ++ print_int pid ++ cstring " %"%string ++ print_f u ++ [NL] ∧
    snprintf 256 (print_f u) = print_f u.
Proof.
  intros Hc Ht Hpid. pose proof (length_strftime t Ht). pose proof (length_print_int pid 32 ltac:(lia) ltac:(lia)).
  destruct (cpu_usage_below p pid Hc) as (u & q & E & Hu). pose proof (length_print_f_below u 127 Hu ltac:(lia)).
  split; [lia|]. split; [|split; [|split; [|exists u, q; split; [exact E|split]]]];
    apply snprintf_fits; rewrite ?length_app; known_lengths; cbn [length]; lia.
Qed.

Lemma buffers_suffice_witness :
  entry_not_found (strftime (Tm 125 2 9 8 5 30)) 42 = cstring "2025-03-09 08:05:30: 42 not found"%string ++ [NL].
Proof.
  destruct (buffers_suffice (Proc 0 (λ _ _, None)) 42 (Tm 125 2 9 8 5 30)) as (_ & _ & _ & E & _);
    [done|by vm_compute|lia|]. rewrite E. by vm_compute.
Defined.
