(* ===== verification/Requests.v ===== *)
(** * Requests: from a datagram to its answer

    A worker process of server/server.c at work: the receiving thread takes a datagram, one pass
    of the loop of [server_worker_update] handles it, the sending thread sends the answer.  The handler of
    [Server] is shown to meet the interface of [ServerWorker], which gives the safety of the
    worker under every interleaving; then single requests are followed from the wire to the
    wire. *)
From Stdlib Require Import SpecFloat.
From S2P Require Import Prelude Layout Memory Message MessageQueue SocketUdp NetConnection.
From S2P Require Import NetLifecycle NetTurns Journal Format CpuUsage ServerWorker Server.

Local Open Scope Z_scope.

Lemma message_at_exists n l ls li lo c s capi capo xs ys x :
  conn_at n l c s ls li lo capi capo xs ys → is_Some (m_msgs (n_mem n) !! x) →
  ∃ h bs, message_at (n_mem n) x h bs.
Proof.
  intros Hat [msg Hx]. destruct (mem_ok_live _ _ _ _ (ca_mem _ _ _ _ _ _ _ _ _ _ _ Hat) Hx)
    as (h & d & bs & -> & Hd & _). exists h, bs, d. done.
Qed.

#[export] Instance server_handler : Handler call_callback server_inv.
Proof.
  split.
  - intros n s (j & cap & log & [Hj Hat Hf Hc]). exists j, cap, log. by split.
  - intros [] s l c d ls li lo capi capo xs ys x (j & cap & log & Hr) [(sk & Hat & Hd) Hcaps Hf Hi] Hx _.
    destruct (message_at_exists _ _ _ _ _ _ _ _ _ _ _ _ Hat Hx) as (h & bs & Hm).
    destruct (worker_on_message_spec l ls li lo x c sk capi capo xs ys j cap s h bs log Hat Hf Hm Hr)
      as (m' & s' & u & q & E & _ & En & Ew & _ & Hat' & Hf' & Hto & Hans).
    exists s', m'. split_and!; [done| |done| |done|done].
    + destruct (answer _ _ _ _) as [[text entry]|]; [|subst s'; by exists j, cap, log].
      destruct Hans as [Hr' _]. by exists j, cap, (log_append cap log (entry ++ [NUL])).2.
    + split; [by exists sk|done|simpl; by rewrite En|]. simpl. unfold inputs_ok. rewrite En. exact Hi.
Qed.

(** [server_worker_update] of the worker [w] of the server, while the threads of its connection
    [l] take the given turns before each poll. *)
Definition serve (w l : loc) (turns : list (list thread_turn)) (max_messages : Z) : M server unit :=
  server_worker_update call_callback (run_turns l <$> turns) (Some w) max_messages.

(** ** One request *)
Section OneRequest.
Context (w l ls li lo : loc) (c : net_connection_t) (d : Z) (capi capo : Z) (j : loc) (jcap : Z).

(** A running worker of the server without queued messages; [sk] is its socket, [log] the
    journal. *)
Record idle_worker (s : server) (sk : udp_socket_t) (log : list byte) : Prop := {
  iw_worker : sv_workers s !! w = Some (Worker (Some l) (Some WorkerOnMessage) true);
  iw_conn : conn_at (sv_net s) l c sk ls li lo capi capo [] [];
  iw_fd : fd sk = d;
  iw_caps : 2 ≤ capi ∧ 2 ≤ capo;
  iw_faults : m_faults (n_mem (sv_net s)) = [];
  iw_inputs : inputs_ok (sv_net s);
  iw_rest : rest_at s j jcap log;
}.

(** The threads of the worker process, one after the other: an iteration of the receiving thread,
    an iteration of the loop of [server_worker_update] (lines 212-220 of server/server_worker.c,
    the same for every [max_messages]), and an iteration of the sending thread. *)
Definition serve_one : M server unit :=
  lift_net (receive_iteration (Some l)) ;;
  update_body call_callback (Some w) ;;
  lift_net (send_iteration (Some l)).

Lemma fifo_enqueue_empty cap x : 2 ≤ cap → fifo_enqueue (Z.to_nat cap) x [] = [x].
Proof using Type. intros H. unfold fifo_enqueue. rewrite bool_decide_eq_false_2; [done|]. simpl. lia. Qed.
Lemma fifo_dropped_empty cap : fifo_dropped cap [] = [].
Proof using Type. unfold fifo_dropped. case_bool_decide; [apply take_nil|done]. Qed.

(** Everything but the messages of an idle worker, while one message is under way. *)
Lemma worker_of_idle s sk log : idle_worker s sk log → conn_inv (sv_net s) l c d ls li lo capi capo [] [].
Proof using Type. intros []. split; eauto. Qed.

Lemma serve_one_spec s sk log payload from rest :
  idle_worker s sk log → n_in (sv_net s) !! d = Some (RecvData payload from :: rest) →
  let p := parse_datagram (incoming_buffer (received sk payload from)) from in
  ∃ s' bs u q,
    serve_one s = Ok (tt, s') ∧ length bs = UDP_SOCKET_BUFFER_SIZE ∧ take (length p.2) bs = p.2 ∧
    let pid := signed 32 (le_combine (take 4 bs)) in
    (hdr_type p.1 = MESSAGE_TYPE_PID → get_process_cpu_usage pid (sv_proc s) = Ok (u, q)) ∧
    conn_inv (sv_net s') l c d ls li lo capi capo [] [] ∧
    match answer (strftime (sv_clock s)) (hdr_type p.1) pid u with
    | Some (text, entry) =>
        rest_at s' j jcap (log_append jcap log (entry ++ [NUL])).2 ∧
        ∃ h', hdr_type h' = MESSAGE_TYPE_PID ∧ hdr_owner_addr h' = from ∧
          hdr_length h' = Z.of_nat (length text) + 1 ∧ header_ok h' = true ∧
          n_log (sv_net s') = n_log (sv_net s) ++ [EvSend d from (encode_header h' ++ text ++ [NUL])]
    | None =>
        rest_at s' j jcap log ∧
        n_log (sv_net s') = n_log (sv_net s) ++ (if hdr_length p.1 <=? MAX_PAYLOAD
                                                  then [EvSend d from (format_datagram p.1 bs)] else [])
    end.
Proof using Type.
  intros [Hw Hat Hd [Hci Hco] Hf Hi Hr] Hin p.
  destruct (inputs_ok_pop _ _ _ _ Hi Hin) as [Hfrom Hi']. rewrite <- Hd in Hin.
  destruct (receive_iteration_spec (sv_net s) l ls li lo c sk capi capo [] [] payload from rest Hat Hci Hf Hin Hfrom)
    as (n1 & x & bs & E1 & Hat1 & Hnx & Hf1 & Hm1 & Hlen & Htake & Ein & Elog & _).
  fold p in Hm1, Htake. rewrite fifo_enqueue_empty in Hat1 by done.
  assert (Hci1 : conn_inv n1 l c d ls li lo capi capo [x] []).
  { split; [by exists (received sk payload from)|done|done|]. unfold inputs_ok. by rewrite Ein, Hd. }
  unfold serve_one. rewrite (bind_ok _ _ _ _ _ (lift_net_ok _ s _ n1 E1)). set (s1 := set_net n1 s).
  destruct (take_turn l c d ls li lo capi capo n1 [x] [] Hci1) as (n2 & E2 & Hci2 & Em2 & Eb2 & Elog2 & _ & _ & _ & Hx2 & _).
  simpl in Hci2, E2. destruct (Hx2 x eq_refl) as [Hx _].
  pose proof Hci2 as [(sk2 & Hat2 & Hd2) _ Hf2 Hi2]. set (s2 := set_net n2 s1).
  assert (Hm2 : message_at (n_mem (sv_net s2)) x p.1 bs) by (unfold message_at; simpl; by rewrite Em2, Eb2).
  assert (Hr2 : rest_at s2 j jcap log) by (by destruct Hr).
  destruct (worker_on_message_spec l ls li lo x c sk2 capi capo [] [] j jcap s2 p.1 bs log Hat2 Hf2 Hm2 Hr2)
    as (m3 & s3 & u & q & E3 & Hu & En3 & Ew3 & _ & Hat3 & Hf3 & _ & Hans).
  assert (Hci3 : conn_inv (sv_net s3) l c d ls li lo capi capo [] []).
  { split; [by exists sk2|done|by rewrite En3|]. unfold inputs_ok. rewrite En3. exact Hi2. }
  assert (Hx3 : ∃ h3 bs3, message_at (n_mem (sv_net s3)) x h3 bs3).
  { rewrite En3. simpl. destruct (answer _ _ _ _) as [[text entry]|].
    - destruct Hans as (_ & h' & bs' & Hm' & _). by exists h', bs'.
    - subst s3. pose proof (f_equal n_mem En3) as Em. rewrite Em in Hm2. by exists p.1, bs. }
  assert (Hlive3 : is_Some (m_msgs (n_mem (sv_net s3)) !! x)) by (destruct Hx3 as (? & ? & ? & -> & _); eauto).
  destruct (put_turn l c d ls li lo capi capo (sv_net s3) [] [] x Hci3 Hlive3) as (n4 & E4 & Hci4 & Em4 & Eb4 & Elog4 & _);
    [set_solver|].
  rewrite fifo_dropped_empty in Em4. rewrite fifo_enqueue_empty in Hci4 by done. simpl in Em4.
  destruct (send_turn l c d ls li lo capi capo n4 [] [x] Hci4) as (n5 & E5 & Hci5 & _ & [_ Hlog5] & _).
  assert (Ld : ∀ s', sv_workers s' = sv_workers s → load (Some w) s' = Ok (Worker (Some l) (Some WorkerOnMessage) true, s'))
    by (intros s' Es'; apply load_ok; simpl; by rewrite Es').
  assert (Eu : update_body call_callback (Some w) s1 = Ok (true, set_net n4 s3)).
  { unfold update_body. rewrite (bind_ok _ _ _ _ _ (Ld s1 eq_refl)). cbn [w_connection].
    rewrite (bind_ok _ _ _ _ _ (lift_net_ok _ s1 _ n2 E2)). fold s2.
    assert (Eo : server_worker_on_message call_callback (Some w) (Some x) s2 = Ok (tt, s3)).
    { unfold server_worker_on_message. by rewrite (bind_ok _ _ _ _ _ (Ld s2 eq_refl)). }
    rewrite (bind_ok _ _ _ _ _ Eo).
    assert (Es : server_worker_send_message (Some w) (Some x) s3 = Ok (SERVER_WORKER_STATUS_SUCCESS, set_net n4 s3)).
    { unfold server_worker_send_message. rewrite (bind_ok _ _ _ _ _ (Ld s3 Ew3)). cbn [w_connection].
      by rewrite (bind_ok _ _ _ _ _ (lift_net_ok _ s3 _ n4 E4)). }
    by rewrite (bind_ok _ _ _ _ _ Es). }
  rewrite (bind_ok _ _ _ _ _ Eu).
  exists (set_net n5 (set_net n4 s3)), bs, u, q. split; [exact (lift_net_ok _ (set_net n4 s3) _ n5 E5)|].
  split_and!; try done.
  assert (Hl : n_log n4 = n_log (sv_net s)) by (rewrite Elog4, En3; simpl; by rewrite Elog2, Elog).
  change (sv_clock s2) with (sv_clock s) in Hans.
  change (sv_net (set_net n5 (set_net n4 s3))) with n5.
  destruct (answer _ _ _ _) as [[text entry]|] eqn:Ea.
  - pose proof (answer_length _ _ _ _ _ _ Ea) as (_ & Hlt & _). destruct Hans as (Hr3 & h' & bs' & Hm' & Hty & Hown & Hlen' & Htk). split; [by destruct Hr3|].
    assert (from = hdr_owner_addr p.1) as Hfr by (unfold p, parse_datagram; by case_match).
    exists h'. split_and!; [done|congruence|done| |].
    { destruct Hat3 as [_ _ _ _ _ _ _ _ _ _ Hmem3]. destruct Hm' as (d' & Hd' & _).
      rewrite En3 in Hmem3. by destruct (mem_ok_live _ _ _ _ Hmem3 Hd') as (? & ? & ? & [= <- <-] & _ & ? & _). }
    rewrite (Hlog5 h' bs'); [|unfold message_at; by rewrite Em4, Eb4, En3]. rewrite Hl.
    assert (Hle : (hdr_length h' <=? MAX_PAYLOAD) = true).
    { apply Z.leb_le. unfold MAX_PAYLOAD, UDP_SOCKET_BUFFER_SIZE, sizeof_header. lia. }
    rewrite Hle, Hown, <- Hfr. unfold format_datagram. rewrite Hlen'.
    replace (Z.to_nat (Z.of_nat (length text) + 1)) with (length text + 1)%nat by lia. by rewrite Htk.
  - subst s3. split; [by destruct Hr|].
    assert (from = hdr_owner_addr p.1) as Hfr by (unfold p, parse_datagram; by case_match).
    rewrite (Hlog5 p.1 bs); [|unfold message_at; by rewrite Em4, Eb4]. by rewrite Hl, <- Hfr.
Qed.
End OneRequest.

(** The header of a datagram that is at least as long as a header. *)
Lemma slice_received payload old :
  (sizeof_header ≤ length payload)%nat → length old = UDP_SOCKET_BUFFER_SIZE →
  slice 0 sizeof_header (splice 0 (take UDP_SOCKET_BUFFER_SIZE payload) old) = take sizeof_header payload.
Proof.
  intros Hp Ho. unfold slice. rewrite drop_0, take_splice_0, take_take.
  - f_equal.
  - rewrite length_take. unfold UDP_SOCKET_BUFFER_SIZE, sizeof_header in *. lia.
Qed.

(** A valid request, from the wire to the wire. *)
Lemma valid_request_spec w l ls li lo c d capi capo j jcap s sk log h bs0 from rest :
  idle_worker w l ls li lo c d capi capo j jcap s sk log →
  n_in (sv_net s) !! d = Some (RecvData (format_datagram h bs0) from :: rest) →
  header_ok h = true → hdr_type h = MESSAGE_TYPE_PID →
  4 ≤ hdr_length h ≤ MAX_PAYLOAD → (Z.to_nat (hdr_length h) ≤ length bs0)%nat →
  let pid := signed 32 (le_combine (take 4 bs0)) in
  ∃ s' u q h' text entry,
    ⟦ serve_one w l ⟧ s ⇓ tt, s' ∧
    ⟦ get_process_cpu_usage pid ⟧ (sv_proc s) ⇓ u, q ∧
    (text, entry) = (if double_ltb u double_zero
                     then (SERVER_RESPONSE_CPU_NOT_FOUND, entry_not_found (strftime (sv_clock s)) pid)
                     else (snprintf 256 (print_f u), entry_usage (strftime (sv_clock s)) pid u)) ∧
    n_log (sv_net s') = n_log (sv_net s) ++ [EvSend d from (encode_header h' ++ text ++ [NUL])] ∧
    header_ok h' = true ∧ hdr_type h' = MESSAGE_TYPE_PID ∧ hdr_length h' = Z.of_nat (length text) + 1 ∧
    rest_at s' j jcap (log_append jcap log (entry ++ [NUL])).2 ∧
    conn_inv (sv_net s') l c d ls li lo capi capo [] [].
Proof.
  intros Hidle Hin Hh Hty Hl Hb pid.
  destruct (serve_one_spec w l ls li lo c d capi capo j jcap s sk log _ from rest Hidle Hin)
    as (s' & bs & u & q & E & Hlen & Htk & Hu & Hci & Hans).
  pose proof (iw_conn _ _ _ _ _ _ _ _ _ _ _ _ _ _ Hidle) as Hat.
  destruct (ca_sock_ok _ _ _ _ _ _ _ _ _ _ _ Hat) as (Hi & _).
  cbn [received incoming_buffer] in *. rewrite parse_format in * by (done || lia).
  cbn [fst snd] in *. rewrite length_take, Nat.min_l in Htk by lia.
  assert (Hp : take 4 bs = take 4 bs0).
  { rewrite <- (take_take_prefix 4 (Z.to_nat (hdr_length h)) bs) by lia.
    rewrite Htk. apply take_take_prefix. lia. }
  rewrite Hp in Hu, Hans. change (hdr_type (set_owner_addr from h)) with (hdr_type h) in *.
  rewrite Hty in Hu, Hans. unfold answer in Hans. simpl Z.eqb in Hans. cbn match in Hans.
  exists s', u, q. fold pid in Hans, Hu. destruct (double_ltb u double_zero);
    destruct Hans as (Hr & h' & Hty' & Hown & Hlen' & Hok' & Hlog); eexists h', _, _; split_and!; try done; by apply Hu.
Qed.

(** ** A concrete worker process *)
Definition demo_server (payload : list byte) : server :=
  Server (with_datagram payload idle_net)
    {[20%positive := Worker (Some 4%positive) (Some WorkerOnMessage) true]}
    (run (journal_create 200) jmem0) (Some 1%positive) (demo_proc (cstring "bash"%string))
    (Tm 125 2 9 8 5 30).

Lemma demo_counters : counters_ok (p_fs (demo_proc (cstring "bash"%string))).
Proof.
  intros t path file. simpl. case_bool_decide; [|case_bool_decide; [|done]]; intros [= <-]; split;
    intros line Hl; vm_compute in Hl; injection Hl as <-; apply (bool_decide_unpack _); by vm_compute.
Qed.

Lemma demo_server_idle payload :
  idle_worker 20 4 1 2 3 (conn_of idle_net 4) 3 4 4 1 200 (demo_server payload) (sock_of idle_net 1) [].
Proof.
  split; [done| |by vm_compute|lia|by vm_compute| |].
  - apply conn_at_datagram, conn_atb_sound. by vm_compute.
  - intros d rs. simpl. rewrite lookup_singleton_Some. intros [_ <-]. by repeat constructor.
  - split; [done| |done|apply demo_counters].
    exists 2%positive, (replicate 192 NUL). by split_and!; vm_compute.
Qed.

(** ** Properties *)

(** C3: a worker process survives everything the network does.  Take a running worker of the
    server with any messages queued, any datagrams waiting (of any content and length) and a
    usable journal, and let [server_worker_update] run while its receiving and sending threads
    take any turns between its polls.  It never runs into undefined behaviour, never blocks and
    never exits: it either is still polling when the turns are used up, or it returns; and then
    the connection, the worker, the journal and the memory are still well formed. *)
Theorem worker_survives w l f c d ls li lo capi capo s xs ys turns max :
  worker_inv server_inv w l f c d ls li lo capi capo s xs ys →
  serve w l turns max s = NoFuel ∨
  ∃ s' xs' ys', ⟦ serve w l turns max ⟧ s ⇓ tt, s' ∧
    worker_inv server_inv w l f c d ls li lo capi capo s' xs' ys'.
Proof. apply (update_loop_inv call_callback server_inv w l f c d ls li lo capi capo turns s xs ys 0 max). Qed.

Lemma worker_survives_witness :
  serve 20 4 [[TurnReceive; TurnSend]; [TurnSend]] 100 (demo_server (replicate 3000 Byte.xff)) = NoFuel ∨
  ∃ s', ⟦ serve 20 4 [[TurnReceive; TurnSend]; [TurnSend]] 100 ⟧ demo_server (replicate 3000 Byte.xff) ⇓ tt, s'.
Proof.
  pose proof (demo_server_idle (replicate 3000 Byte.xff)) as Hidle.
  destruct (worker_survives 20 4 (Some WorkerOnMessage) (conn_of idle_net 4) 3 1 2 3 4 4
    (demo_server (replicate 3000 Byte.xff)) [] [] [[TurnReceive; TurnSend]; [TurnSend]] 100) as [E|(s' & xs' & ys' & E & _)].
  - split; [apply Hidle|exact (worker_of_idle _ _ _ _ _ _ _ _ _ _ _ _ _ _ Hidle)|].
    exists 1%positive, 200, []. apply Hidle.
  - left. exact E.
  - right. exists s'. exact E.
Defined.

(** C2: every valid request is answered.  A datagram of type [MESSAGE_TYPE_PID] with at least four
    bytes of payload, sent from any address, makes an idle worker send exactly one datagram, back
    to that address: the CPU usage of the process whose id the payload starts with, printed as
    "%f", or "not found" if the usage is negative, in both cases with the terminating NUL and the
    matching length field.  The journal gets the matching entry, with date and time, if there is
    room, and the worker is idle again. *)
Theorem request_answered w l ls li lo c d capi capo j jcap s sk log h bs0 from rest :
  idle_worker w l ls li lo c d capi capo j jcap s sk log →
  n_in (sv_net s) !! d = Some (RecvData (format_datagram h bs0) from :: rest) →
  header_ok h = true → hdr_type h = MESSAGE_TYPE_PID →
  4 ≤ hdr_length h ≤ MAX_PAYLOAD → (Z.to_nat (hdr_length h) ≤ length bs0)%nat →
  let pid := signed 32 (le_combine (take 4 bs0)) in
  ∃ s' u q h' text entry,
    ⟦ serve_one w l ⟧ s ⇓ tt, s' ∧
    ⟦ get_process_cpu_usage pid ⟧ (sv_proc s) ⇓ u, q ∧
    (text, entry) = (if double_ltb u double_zero
                     then (SERVER_RESPONSE_CPU_NOT_FOUND, entry_not_found (strftime (sv_clock s)) pid)
                     else (snprintf 256 (print_f u), entry_usage (strftime (sv_clock s)) pid u)) ∧
    n_log (sv_net s') = n_log (sv_net s) ++ [EvSend d from (encode_header h' ++ text ++ [NUL])] ∧
    hdr_type h' = MESSAGE_TYPE_PID ∧ hdr_length h' = Z.of_nat (length text) + 1 ∧
    rest_at s' j jcap (log_append jcap log (entry ++ [NUL])).2 ∧
    conn_inv (sv_net s') l c d ls li lo capi capo [] [].
Proof.
  intros Hidle Hin Hh Hty Hl Hb pid.
  destruct (valid_request_spec w l ls li lo c d capi capo j jcap s sk log h bs0 from rest Hidle Hin Hh Hty Hl Hb)
    as (s' & u & q & h' & text & entry & E & Hu & Ht & Hlog & _ & Hrest).
  by exists s', u, q, h', text, entry.
Qed.

Definition demo_request (type pid : Z) : list byte :=
  format_datagram (Header type 4 peer 4) (le_split 4 pid).

Lemma request_answered_witness :
  ∃ s' h', ⟦ serve_one 20 4 ⟧ demo_server (demo_request 1 77) ⇓ tt, s' ∧
    n_log (sv_net s') = [EvSend 3 peer (encode_header h' ++ cstring "not found"%string ++ [NUL])].
Proof.
  destruct (request_answered 20 4 1 2 3 (conn_of idle_net 4) 3 4 4 1 200 (demo_server (demo_request 1 77))
    (sock_of idle_net 1) [] (Header 1 4 peer 4) (le_split 4 77) peer []) as (s' & u & q & h' & text & entry & E & Hu & Ht & Hlog & _);
    [apply demo_server_idle|by vm_compute|by vm_compute|done|by vm_compute|by vm_compute|].
  exists s', h'. split; [exact E|]. rewrite Hlog.
  assert (Eu : get_process_cpu_usage 77 (sv_proc (demo_server (demo_request 1 77))) = Ok (double_minus_one, Proc 2 (p_fs (demo_proc (cstring "bash"%string)))))
    by (vm_compute; reflexivity).
  assert (Hu' : u = double_minus_one) by (unfold returns in Hu; change (signed 32 (le_combine (take 4 (le_split 4 77)))) with 77 in Hu; congruence).
  rewrite Hu' in Ht. injection Ht as -> _. reflexivity.
Defined.

(** C12: every malformed request is answered "invalid".  A datagram with a complete header whose
    type is [MESSAGE_TYPE_NONE], or whose length field exceeds the largest payload, makes an idle
    worker send exactly one datagram back to the sender, with the text "invalid", and write the
    entry "invalid request" to the journal. *)
Theorem invalid_request_answered w l ls li lo c d capi capo j jcap s sk log payload from rest :
  idle_worker w l ls li lo c d capi capo j jcap s sk log →
  n_in (sv_net s) !! d = Some (RecvData payload from :: rest) →
  (sizeof_header ≤ length payload)%nat →
  let h := decode_header (take sizeof_header payload) in
  hdr_type h = MESSAGE_TYPE_NONE ∨ MAX_PAYLOAD < hdr_length h →
  ∃ s' h',
    ⟦ serve_one w l ⟧ s ⇓ tt, s' ∧
    n_log (sv_net s') = n_log (sv_net s) ++ [EvSend d from (encode_header h' ++ SERVER_RESPONSE_CPU_INVALID ++ [NUL])] ∧
    hdr_type h' = MESSAGE_TYPE_PID ∧ hdr_length h' = 8 ∧ hdr_owner_addr h' = from ∧
    rest_at s' j jcap (log_append jcap log (entry_invalid (strftime (sv_clock s)) ++ [NUL])).2 ∧
    conn_inv (sv_net s') l c d ls li lo capi capo [] [].
Proof.
  intros Hidle Hin Hp h Hbad.
  destruct (serve_one_spec w l ls li lo c d capi capo j jcap s sk log _ from rest Hidle Hin)
    as (s' & bs & u & q & E & Hlen & Htk & Hu & Hci & Hans).
  pose proof (iw_conn _ _ _ _ _ _ _ _ _ _ _ _ _ _ Hidle) as Hat.
  destruct (ca_sock_ok _ _ _ _ _ _ _ _ _ _ _ Hat) as (Hi & _).
  assert (Hty : hdr_type (parse_datagram (incoming_buffer (received sk payload from)) from).1 = MESSAGE_TYPE_NONE).
  { cbn [received incoming_buffer]. unfold parse_datagram. rewrite slice_received by done. fold h. cbv zeta.
    change (hdr_length (set_owner_addr from h)) with (hdr_length h).
    destruct (Z.ltb_spec MAX_PAYLOAD (hdr_length h)); [done|]. destruct Hbad; [done|lia]. }
  rewrite Hty in Hans. cbn [answer] in Hans. unfold answer in Hans. simpl Z.eqb in Hans. cbn match in Hans.
  destruct Hans as (Hr & h' & Hty' & Hown & Hlen' & _ & Hlog). exists s', h'. by split_and!.
Qed.

Lemma invalid_request_answered_witness :
  ∃ s' h', ⟦ serve_one 20 4 ⟧ demo_server (replicate 28 Byte.xff) ⇓ tt, s' ∧
    n_log (sv_net s') = [EvSend 3 peer (encode_header h' ++ cstring "invalid"%string ++ [NUL])].
Proof.
  destruct (invalid_request_answered 20 4 1 2 3 (conn_of idle_net 4) 3 4 4 1 200 (demo_server (replicate 28 Byte.xff))
    (sock_of idle_net 1) [] (replicate 28 Byte.xff) peer []) as (s' & h' & E & Hlog & _);
    [apply demo_server_idle|by vm_compute|by vm_compute|right; by vm_compute|].
  exists s', h'. exact (conj E Hlog).
Defined.

(** A request of an unknown type is sent back unchanged.  If the type of a complete header is
    neither NONE nor PID, the worker answers with the request itself (its owner address replaced
    by the sender's) and writes nothing to the journal, although such a request is malformed. *)
Theorem unknown_type_echoed w l ls li lo c d capi capo j jcap s sk log h bs0 from rest :
  idle_worker w l ls li lo c d capi capo j jcap s sk log →
  n_in (sv_net s) !! d = Some (RecvData (format_datagram h bs0) from :: rest) →
  header_ok h = true → hdr_type h ≠ MESSAGE_TYPE_NONE → hdr_type h ≠ MESSAGE_TYPE_PID →
  hdr_length h ≤ MAX_PAYLOAD → (Z.to_nat (hdr_length h) ≤ length bs0)%nat →
  ∃ s', ⟦ serve_one w l ⟧ s ⇓ tt, s' ∧
    n_log (sv_net s') = n_log (sv_net s) ++ [EvSend d from (format_datagram (set_owner_addr from h) bs0)] ∧
    rest_at s' j jcap log.
Proof.
  intros Hidle Hin Hh Hn Hp Hl Hb.
  destruct (serve_one_spec w l ls li lo c d capi capo j jcap s sk log _ from rest Hidle Hin)
    as (s' & bs & u & q & E & Hlen & Htk & Hu & Hci & Hans).
  pose proof (iw_conn _ _ _ _ _ _ _ _ _ _ _ _ _ _ Hidle) as Hat.
  destruct (ca_sock_ok _ _ _ _ _ _ _ _ _ _ _ Hat) as (Hi & _).
  pose proof (proj1 (header_ok_spec h) Hh) as (_ & Hlb & _ & _).
  cbn [received incoming_buffer] in *. rewrite parse_format in * by (done || lia).
  cbn [fst snd] in *. rewrite length_take, Nat.min_l in Htk by lia.
  change (hdr_type (set_owner_addr from h)) with (hdr_type h) in *.
  change (hdr_length (set_owner_addr from h)) with (hdr_length h) in *.
  unfold answer in Hans. rewrite (proj2 (Z.eqb_neq _ _) Hn), (proj2 (Z.eqb_neq _ _) Hp) in Hans.
  rewrite (proj2 (Z.leb_le _ _) Hl) in Hans. destruct Hans as [Hr Hlog].
  exists s'. split_and!; try done. rewrite Hlog. unfold format_datagram.
  change (hdr_length (set_owner_addr from h)) with (hdr_length h). by rewrite Htk.
Qed.

Lemma unknown_type_echoed_witness :
  ∃ s', ⟦ serve_one 20 4 ⟧ demo_server (demo_request 7 42) ⇓ tt, s' ∧
    n_log (sv_net s') = [EvSend 3 peer (demo_request 7 42)].
Proof.
  destruct (unknown_type_echoed 20 4 1 2 3 (conn_of idle_net 4) 3 4 4 1 200 (demo_server (demo_request 7 42))
    (sock_of idle_net 1) [] (Header 7 4 peer 4) (le_split 4 42) peer []) as (s' & E & Hlog & _);
    [apply demo_server_idle|by vm_compute|by vm_compute|done|done|by vm_compute|by vm_compute|].
  exists s'. exact (conj E Hlog).
Defined.
