(* ===== verification/WorkerSteps.v ===== *)
(** * WorkerSteps: a worker process, statement by statement

    [Requests] lets the threads of a worker process (server/server_worker.c, server/server.c) take
    turns.  Here [server_worker_update], which the main thread calls again and again, is cut into
    steps as well, and the three threads are interleaved at the steps of [NetSteps].  The callback
    is one step: by the interface [Handler] it touches one message, which no other thread has.  The
    safety of the process is proved for every callback that meets the interface and then for the
    one of the server. *)
From S2P Require Import Prelude Layout Memory Message MessageQueue QueueSteps SocketUdp NetConnection.
From S2P Require Import NetLifecycle NetTurns NetSteps NetInterleave Journal Format CpuUsage ServerWorker Server Requests.

Local Open Scope Z_scope.

(** Where the main thread is in [server_worker_update]. *)
Inductive update_pc : Type :=
  | UpdTest (message_count : Z)                      (* line 211: the condition of the loop *)
  | UpdPoll (message_count : Z)                      (* line 213: net_connection_receive_nonblocking *)
  | UpdHandle (message_count : Z) (message : loc)    (* line 216: server_worker_on_message *)
  | UpdSend (message_count : Z) (message : loc).     (* line 217: server_worker_send_message *)

#[export] Instance update_pc_eq_dec : EqDecision update_pc.
Proof. solve_decision. Defined.

(** A worker process: its state and where its three threads are; [inr tt] is a main thread outside
    of [server_worker_update]. *)
Record worker_sys (S : Type) := WorkerSys {
  ws_state : S;
  ws_rcv : receive_pc;
  ws_snd : send_pc;
  ws_upd : update_pc + unit;
}.
Arguments WorkerSys {S} _ _ _ _.
Arguments ws_state {S} _.
Arguments ws_rcv {S} _.
Arguments ws_snd {S} _.
Arguments ws_upd {S} _.

Inductive worker_action : Type :=
  | RunReceive     (* a step of the receiving thread *)
  | RunSend        (* a step of the sending thread *)
  | RunUpdate      (* a step of the main thread inside server_worker_update *)
  | CallUpdate.    (* the main thread calls server_worker_update *)

Section WorkerSteps.
Context {S F : Type} `{WS : WorkerState S F} (call : F → ptr → M S unit) (max_messages : Z).

(** One step of [server_worker_update]; [inr] is its return. *)
Definition update_step (worker : ptr) (pc : update_pc) : M S (update_pc + unit) :=
  match pc with
  | UpdTest message_count =>
      let* w := load (T := server_worker_t F) worker in
      ret (if (message_count <? max_messages) && is_running w then inl (UpdPoll message_count) else inr tt)
  | UpdPoll message_count =>
      let* w := load (T := server_worker_t F) worker in
      let* message := lift_net (net_connection_receive_nonblocking (w_connection w)) in
      ret (inl (match message with None => UpdTest message_count | Some x => UpdHandle message_count x end))
  | UpdHandle message_count x =>
      server_worker_on_message call worker (Some x) ;; ret (inl (UpdSend message_count x))
  | UpdSend message_count x =>
      server_worker_send_message worker (Some x) ;; ret (inl (UpdTest (message_count + 1)))
  end.

Definition set_state (s : S) (p : worker_sys S) : worker_sys S := WorkerSys s (ws_rcv p) (ws_snd p) (ws_upd p).
Definition in_state {A} : M S A → M (worker_sys S) A := lift ws_state set_state.

Definition worker_act (worker connection : ptr) (a : worker_action) : M (worker_sys S) unit :=
  let* p := get_state in
  match a with
  | RunReceive =>
      let* pc := in_state (lift_net (receive_step connection (ws_rcv p))) in
      modify (λ p, WorkerSys (ws_state p) pc (ws_snd p) (ws_upd p))
  | RunSend =>
      let* pc := in_state (lift_net (send_step connection (ws_snd p))) in
      modify (λ p, WorkerSys (ws_state p) (ws_rcv p) pc (ws_upd p))
  | RunUpdate =>
      match ws_upd p with
      | inl pc =>
          let* r := in_state (update_step worker pc) in
          modify (λ p, WorkerSys (ws_state p) (ws_rcv p) (ws_snd p) r)
      | inr _ => blocked
      end
  | CallUpdate =>
      match ws_upd p with
      | inl _ => blocked
      | inr _ => put_state (WorkerSys (ws_state p) (ws_rcv p) (ws_snd p) (inl (UpdTest 0)))
      end
  end.

Inductive worker_reaches (worker connection : ptr) (p0 : worker_sys S) : worker_sys S → Prop :=
  | worker_reaches_refl : worker_reaches worker connection p0 p0
  | worker_reaches_act p p' a :
      worker_reaches worker connection p0 p → ⟦ worker_act worker connection a ⟧ p ⇓ tt, p' →
      worker_reaches worker connection p0 p'.

Fixpoint worker_run (worker connection : ptr) (actions : list worker_action) (p : worker_sys S)
    : option (worker_sys S) :=
  match actions with
  | [] => Some p
  | a :: actions =>
      match worker_act worker connection a p with
      | Ok (_, p') => worker_run worker connection actions p'
      | _ => None
      end
  end.

Lemma worker_run_reaches worker connection actions p0 : ∀ p p',
  worker_reaches worker connection p0 p → worker_run worker connection actions p = Some p' →
  worker_reaches worker connection p0 p'.
Proof using Type.
  induction actions as [|a actions IH]; intros p p' Hr; simpl; [by intros [= <-]|].
  destruct (worker_act worker connection a p) as [[[] p1]| | | |] eqn:E; try done.
  apply IH. by eapply worker_reaches_act.
Qed.
End WorkerSteps.

(** ** The invariant *)

(** A change of a message that only the program has. *)
Lemma net_inv_private l ls li lo d capi capo s c sk xs ys x m' :
  net_inv l ls li lo d capi capo s c sk xs ys → x ∈ ns_held s →
  conn_at (with_mem m' (ns_net s)) l c sk ls li lo capi capo xs ys → m_faults m' = [] →
  only_touches (n_mem (ns_net s)) m' x →
  net_inv l ls li lo d capi capo (NetSteps.set_net (with_mem m' (ns_net s)) s) c sk xs ys.
Proof.
  intros H Hx Hat Hf [Hl Hs]. destruct (held_local _ _ _ _ _ _ _ _ _ _ _ _ _ H Hx) as (Hno & _ & _).
  destruct H as [_ Hfd Hcaps _ Hin Hacc Hr Hsn]. split; simpl; try done.
  - by apply (accounted_same (n_mem (ns_net s))).
  - eapply rcv_ok_frame; [exact Hr|]. intros z Hz. apply Hs. set_solver.
  - eapply snd_ok_frame; [exact Hsn|done|]. intros z Hz. apply Hs. set_solver.
Qed.

Definition upd_msgs (u : update_pc + unit) : list loc :=
  match u with inl (UpdHandle _ x) | inl (UpdSend _ x) => [x] | _ => [] end.

Section Safe.
Context {S F : Type} `{WS : WorkerState S F} (call : F → ptr → M S unit) (I : S → Prop).
Context `{H : !Handler call I} (max_messages : Z).
Context (w l : loc) (f : option F) (ls li lo : loc) (d capi capo : Z).
Implicit Types (p : worker_sys S) (s : S).

(** The connection of a worker process as a system of [NetSteps]. *)
Definition connection_of p : net_sys := NetSys (net_of (ws_state p)) (ws_rcv p) (ws_snd p) (upd_msgs (ws_upd p)).

Record process_inv p c sk xs ys : Prop := {
  pi_worker : heap_of (ws_state p) !! w = Some (Worker (Some l) f true);
  pi_rest : I (ws_state p);
  pi_net : net_inv l ls li lo d capi capo (connection_of p) c sk xs ys;
}.
Definition process_ok p : Prop := ∃ c sk xs ys, process_inv p c sk xs ys.

Lemma process_ok_net p n' rcv snd upd c sk xs ys :
  process_ok p → net_inv l ls li lo d capi capo (NetSys n' rcv snd (upd_msgs upd)) c sk xs ys →
  process_ok (WorkerSys (set_net n' (ws_state p)) rcv snd upd).
Proof using H.
  intros (? & ? & ? & ? & [Hw HI _]) Hn. exists c, sk, xs, ys.
  split; simpl; [by rewrite workers_set_net|by apply handler_frame|]. unfold connection_of. simpl. by rewrite net_of_set.
Qed.

Lemma load_running p : process_ok p → load (Some w) (ws_state p) = Ok (Worker (Some l) f true, ws_state p).
Proof using Type. intros (? & ? & ? & ? & [Hw _ _]). by apply load_ok. Qed.

(** What a step of the main thread has to do. *)
Definition good_update p (o : outcome ((update_pc + unit) * S)) : Prop :=
  ∃ u s', o = Ok (u, s') ∧ process_ok (WorkerSys s' (ws_rcv p) (ws_snd p) u).

Lemma update_poll_good p k : process_ok p → ws_upd p = inl (UpdPoll k) →
  good_update p (update_step call max_messages (Some w) (UpdPoll k) (ws_state p)).
Proof using H.
  intros Hp Hk. pose proof (load_running p Hp) as El. pose proof Hp as (c & sk & xs & ys & [_ _ Hn]).
  cbn [update_step]. rewrite (bind_ok _ _ _ _ _ El). cbn [w_connection].
  destruct (take_good _ _ _ _ _ _ _ _ _ _ _ _ Hn) as (s' & c' & sk' & xs' & ys' & E & Hn' & _ ).
  unfold returns, net_act, in_net, lift, bind in E. simpl in E.
  destruct (net_connection_receive_nonblocking (Some l) (net_of (ws_state p))) as [[q n']| | | |] eqn:Er; try done.
  rewrite (bind_ok _ _ _ _ _ (lift_net_ok _ (ws_state p) _ _ Er)). injection E as <-.
  rewrite Hk in Hn'. simpl in Hn'. eexists _, _. split; [done|]. eapply process_ok_net; [done|].
  destruct q as [x|]; exact Hn'.
Qed.

Lemma update_handle_good p k x : process_ok p → ws_upd p = inl (UpdHandle k x) →
  good_update p (update_step call max_messages (Some w) (UpdHandle k x) (ws_state p)).
Proof using H.
  intros Hp Hk. pose proof (load_running p Hp) as El. pose proof Hp as (c & sk & xs & ys & [Hw HI Hn]).
  cbn [update_step]. unfold server_worker_on_message. unfold good_update, bind. rewrite El. simpl.
  assert (Hx : x ∈ ns_held (connection_of p)) by (unfold connection_of; rewrite Hk; by apply list_elem_of_singleton).
  destruct f as [g|] eqn:Ef.
  2: { eexists _, _. split; [done|]. exists c, sk, xs, ys. split; simpl; try done; [by rewrite Ef|].
       unfold connection_of in Hn. by rewrite Hk in Hn. }
  destruct (held_local _ _ _ _ _ _ _ _ _ _ _ _ _ Hn Hx) as (_ & Hnx & _).
  pose proof Hn as [Hat Hfd Hcaps Hf Hin Hacc _ _]. simpl in Hat, Hf, Hin.
  assert (Hci : conn_inv (net_of (ws_state p)) l c d ls li lo capi capo xs ys) by (split; eauto).
  destruct (handler_ok g (ws_state p) l c d ls li lo capi capo xs ys x HI Hci) as (s' & m' & E & HI' & En & Hc' & Ht & Hw');
    [apply Hacc; unfold locals; set_solver|done|].
  rewrite E. eexists _, _. split; [done|]. exists c, sk, xs, ys. split; simpl; [by rewrite Hw', Hw, Ef|done|].
  destruct Hc' as [(sk' & Hat' & _) _ Hf' _]. rewrite En in Hat', Hf'. simpl in Hf'.
  assert (sk' = sk) as ->.
  { pose proof (ca_sock _ _ _ _ _ _ _ _ _ _ _ Hat) as E1. pose proof (ca_sock _ _ _ _ _ _ _ _ _ _ _ Hat') as E2.
    simpl in E2. congruence. }
  pose proof (net_inv_private _ _ _ _ _ _ _ _ _ _ _ _ x m' Hn Hx Hat' Hf' Ht) as Hn'.
  unfold connection_of in Hn' |- *. simpl. rewrite En. rewrite Hk in Hn'. exact Hn'.
Qed.

Lemma update_send_good p k x : process_ok p → ws_upd p = inl (UpdSend k x) →
  good_update p (update_step call max_messages (Some w) (UpdSend k x) (ws_state p)).
Proof using H.
  intros Hp Hk. pose proof (load_running p Hp) as El. pose proof Hp as (c & sk & xs & ys & [_ _ Hn]).
  assert (Hx : x ∈ ns_held (connection_of p)) by (unfold connection_of; rewrite Hk; by apply list_elem_of_singleton).
  cbn [update_step]. unfold server_worker_send_message, good_update, bind. rewrite El. simpl.
  destruct (give_good _ _ _ _ _ _ _ _ _ _ _ _ x Hn Hx) as (s' & c' & sk' & xs' & ys' & E & Hn' & _ ).
  unfold returns, net_act, in_net, lift, bind in E. simpl in E.
  destruct (net_connection_send (Some l) (Some x) (net_of (ws_state p))) as [[q n']| | | |] eqn:Er; try done.
  rewrite (lift_net_ok _ (ws_state p) _ _ Er). injection E as <-.
  eexists _, _. split; [done|]. eapply process_ok_net; [done|]. simpl.
  rewrite Hk in Hn'. unfold upd_msgs in Hn'. rewrite filter_cons_False in Hn' by (intros Hne; by apply Hne). exact Hn'.
Qed.

Lemma update_good p pc : process_ok p → ws_upd p = inl pc →
  good_update p (update_step call max_messages (Some w) pc (ws_state p)).
Proof using H.
  intros Hp Hk. destruct pc as [k|k|k x|k x].
  - cbn [update_step]. rewrite (bind_ok _ _ _ _ _ (load_running p Hp)). eexists _, _. split; [done|].
    destruct Hp as (c & sk & xs & ys & [Hw HI Hn]). exists c, sk, xs, ys. split; [done|done|].
    unfold connection_of in *. rewrite Hk in Hn. simpl in *. by destruct (_ && _).
  - by apply update_poll_good.
  - by apply update_handle_good.
  - by apply update_send_good.
Qed.

(** A thread that cannot go on has ended, or is not inside (or is already inside) the update. *)
Definition stands_still (a : worker_action) p : Prop :=
  match a with
  | RunReceive => ws_rcv p = RcvEnd
  | RunSend => ws_snd p = SndEnd
  | RunUpdate => ws_upd p = inr tt
  | CallUpdate => ws_upd p ≠ inr tt
  end.

Lemma worker_act_good a p : process_ok p →
  worker_act call max_messages (Some w) (Some l) a p = Blocked ∧ stands_still a p ∨
  ∃ p', ⟦ worker_act call max_messages (Some w) (Some l) a ⟧ p ⇓ tt, p' ∧ process_ok p'.
Proof using H.
  intros Hp. pose proof Hp as (c & sk & xs & ys & [Hw HI Hn]).
  unfold returns, worker_act. rewrite !(bind_ok get_state _ p p p eq_refl). destruct a.
  - destruct (receive_step_good _ _ _ _ _ _ _ _ _ _ _ _ Hn) as [[Hpc E]|(pc & n' & sk' & xs' & E & Hn' & _)];
      simpl in E; unfold in_state, lift_net, lift, bind; rewrite E; [by left|right].
    eexists. split; [done|]. by eapply process_ok_net.
  - destruct (send_step_good _ _ _ _ _ _ _ _ _ _ _ _ Hn) as [[Hpc E]|(pc & n' & sk' & ys' & E & Hn' & _)];
      simpl in E; unfold in_state, lift_net, lift, bind; rewrite E; [by left|right].
    eexists. split; [done|]. by eapply process_ok_net.
  - destruct (ws_upd p) as [pc|[]] eqn:Hk; [right|by left].
    destruct (update_good p pc Hp Hk) as (u & s' & E & Hp'). unfold in_state, lift, bind. rewrite E.
    eexists. by split.
  - destruct (ws_upd p) as [pc|[]] eqn:Hk; [left; split; [done|]; unfold stands_still; by rewrite Hk|right].
    eexists. split; [done|].
    exists c, sk, xs, ys. split; simpl; try done. unfold connection_of in *. by rewrite Hk in Hn.
Qed.

Lemma worker_reaches_ok p0 p : process_ok p0 → worker_reaches call max_messages (Some w) (Some l) p0 p → process_ok p.
Proof using H.
  intros H0 Hr. induction Hr as [|p p' a Hr IH E]; [done|].
  destruct (worker_act_good a p IH) as [[E' _]|(p1 & E' & Hp1)]; unfold returns in *; rewrite E' in E; [done|].
  by injection E as <-.
Qed.
End Safe.

(** ** The main thread alone *)
Section UpdateAlone.
Context {S F : Type} `{WS : WorkerState S F} (call : F → ptr → M S unit) (max_messages : Z).
Implicit Types (s : S).

(** One poll. *)
Lemma poll_leads w k (K : bool → M S unit) s :
  (∀ s', K false s' ≠ NoFuel → leads (update_step call max_messages (Some w)) (UpdTest k) s' (K false s')) →
  (∀ s', K true s' ≠ NoFuel → leads (update_step call max_messages (Some w)) (UpdTest (k + 1)) s' (K true s')) →
  bind (update_body call (Some w)) K s ≠ NoFuel →
  leads (update_step call max_messages (Some w)) (UpdPoll k) s (bind (update_body call (Some w)) K s).
Proof using Type.
  intros H0 H1 Hn. apply leads_intro. revert Hn. unfold update_body. cbn [update_step]. unfold bind.
  destruct (load (Some w) s) as [[wk s1]| | | |]; try done. cbn beta iota delta [ret].
  destruct (lift_net _ s1) as [[[x|] s2]| | | |]; try done; cbn beta iota delta [ret]; [|by apply H0].
  intros Hn. apply leads_intro. revert Hn. cbn [update_step]. unfold bind.
  destruct (server_worker_on_message call (Some w) (Some x) s2) as [[[] s3]| | | |]; try done; cbn beta iota delta [ret].
  intros Hn. apply leads_intro. revert Hn. cbn [update_step]. unfold bind.
  destruct (server_worker_send_message (Some w) (Some x) s3) as [[st s4]| | | |]; try done. apply H1.
Qed.

Lemma update_leads n w : ∀ k s,
  update_loop call (replicate n (ret tt)) (Some w) k max_messages s ≠ NoFuel →
  leads (update_step call max_messages (Some w)) (UpdTest k) s
    (update_loop call (replicate n (ret tt)) (Some w) k max_messages s).
Proof using Type.
  induction n as [|n IH]; intros k s; cbn [update_loop replicate];
    destruct (load (Some w) s) as [[wk s1]| | | |] eqn:El.
  2-5, 7-10: intros _; apply leads_intro; cbn [update_step]; unfold bind; by rewrite El.
  all: rewrite (bind_ok _ _ _ _ _ El); intros Hn; apply leads_intro; cbn [update_step];
    rewrite (bind_ok _ _ _ _ _ El); unfold ret at 1; destruct (_ && _); try done.
  rewrite (bind_ok (ret tt) _ s1 tt s1 eq_refl) in Hn |- *. by apply poll_leads; [apply IH..|].
Qed.
End UpdateAlone.

(** ** A concrete worker process *)
Definition demo_worker (payload : list byte) : worker_sys server :=
  WorkerSys (demo_server payload) RcvSocket SndDequeue (inr tt).

Lemma demo_worker_ok payload :
  process_ok server_inv 20 4 (Some WorkerOnMessage) 1 2 3 3 4 4 (demo_worker payload).
Proof.
  pose proof (demo_server_idle payload) as [Hw Hat Hd Hcaps Hf Hi Hr].
  exists (conn_of idle_net 4), (sock_of idle_net 1), [], []. split; [done|by exists 1%positive, 200, []|].
  split; try done. split; [apply NoDup_nil_2|]. intros x. change (n_mem _) with (n_mem idle_net).
  assert (Hm : m_msgs (n_mem idle_net) = ∅) by (apply (bool_decide_unpack _); by vm_compute).
  rewrite Hm, lookup_empty. split; [by intros []|]. by intros ?%not_elem_of_nil.
Qed.

(** ** Properties *)

(** C6: a worker process is safe in every interleaving.  Take a running worker of the server, with
    its threads anywhere, any messages queued, any datagrams waiting and a usable journal, and
    interleave the statements of its receiving thread, its sending thread and its main thread, which
    polls, calls the callback and sends in [server_worker_update] again and again.  No step is ever
    undefined and none blocks (but for a thread that has ended or is not in the call), and in every
    state that is reached the worker, the journal and the connection are well formed, with every
    message in exactly one place. *)
Theorem worker_interleaved_safe w l f ls li lo d capi capo max_messages (p0 p : worker_sys server) a :
  process_ok server_inv w l f ls li lo d capi capo p0 →
  worker_reaches call_callback max_messages (Some w) (Some l) p0 p →
  ((∃ p', ⟦ worker_act call_callback max_messages (Some w) (Some l) a ⟧ p ⇓ tt, p') ∨
   worker_act call_callback max_messages (Some w) (Some l) a p = Blocked ∧ stands_still a p) ∧
  process_ok server_inv w l f ls li lo d capi capo p.
Proof.
  intros H0 Hr. pose proof (worker_reaches_ok _ _ _ _ _ _ _ _ _ _ _ _ _ _ H0 Hr) as Hp. split; [|done].
  destruct (worker_act_good call_callback server_inv max_messages _ _ _ _ _ _ _ _ _ a p Hp) as [?|(p' & E & _)]; [by right|left; by exists p'].
Qed.

(** The receiving thread takes a datagram of 3000 bytes while the main thread polls; the answer is
    with the sending thread. *)
Definition demo_schedule : list worker_action :=
  [CallUpdate; RunReceive; RunUpdate; RunReceive; RunUpdate; RunReceive; RunReceive; RunReceive; RunReceive;
   RunReceive; RunUpdate; RunUpdate; RunUpdate; RunUpdate; RunSend].

Lemma worker_interleaved_safe_witness :
  ∃ p p', worker_run call_callback 100 (Some 20%positive) (Some 4%positive) demo_schedule (demo_worker (replicate 3000 Byte.xff)) = Some p ∧
    ⟦ worker_act call_callback 100 (Some 20%positive) (Some 4%positive) RunSend ⟧ p ⇓ tt, p'.
Proof.
  destruct (worker_run call_callback 100 (Some 20%positive) (Some 4%positive) demo_schedule
              (demo_worker (replicate 3000 Byte.xff))) as [p|] eqn:E; [|by vm_compute in E].
  destruct (worker_interleaved_safe 20 4 (Some WorkerOnMessage) 1 2 3 3 4 4 100 (demo_worker (replicate 3000 Byte.xff)) p RunSend)
    as [[[p' Hp']|[_ Hs]] _]; [apply demo_worker_ok|eapply worker_run_reaches; [constructor|exact E]| |].
  - exists p, p'. exact (conj eq_refl Hp').
  - exfalso. vm_compute in E. injection E as <-. done.
Defined.

(** The two translations of [server_worker_update] agree.  For every callback, in every state in
    which the update with nobody interfering comes to an end within some number of polls (by
    returning, or in an error), the uninterrupted steps have the same outcome. *)
Lemma update_steps_equivalent {S F : Type} `{WS : WorkerState S F} (call : F → ptr → M S unit) max_messages w polls (s : S) :
  server_worker_update call (replicate polls (ret tt)) (Some w) max_messages s ≠ NoFuel →
  ∃ k, ∀ fuel, (k ≤ fuel)%nat →
    run_steps (update_step call max_messages (Some w)) fuel (UpdTest 0) s
    = server_worker_update call (replicate polls (ret tt)) (Some w) max_messages s.
Proof. apply update_leads. Qed.

Lemma update_steps_equivalent_witness :
  ∃ k, ∀ fuel, (k ≤ fuel)%nat →
    run_steps (update_step echo 1 (Some 20%positive)) fuel (UpdTest 0) echo_one
    = server_worker_update echo [ret tt] (Some 20%positive) 1 echo_one.
Proof. apply (update_steps_equivalent echo 1 20 1 echo_one). by vm_compute. Defined.
