(* ===== verification/WorkerLife.v ===== *)
(** * WorkerLife: creating, starting and deleting a worker of the server

    The life cycle of server/server_worker.c in the state of server/server.c: what
    [server_worker_create] leaves behind when any one library call fails, that a started worker
    is ready for requests, and that [server_worker_delete] releases everything. *)
From S2P Require Import Prelude Layout Memory Message MessageQueue SocketUdp NetConnection.
From S2P Require Import NetLifecycle NetTurns NetOpen Journal Format CpuUsage ServerWorker Server Requests.

Local Open Scope Z_scope.

(** Nothing of the process lives at or above the next address, and its messages are in order. *)
Record server_fresh (s : server) : Prop := {
  sf_net : net_fresh (sv_net s);
  sf_workers : fresh_above (m_next (n_mem (sv_net s))) (sv_workers s);
  sf_mem : mem_ok wire_fit (n_mem (sv_net s));
}.

(** The process after the worker struct was allocated. *)
Definition with_worker (w : loc) (x : server_worker_t callback) (n : net) (s : server) : server :=
  set_sv_workers (<[w := x]> (sv_workers s)) (set_sv_net n s).

Lemma load_with_worker w x n s : load (Some w) (with_worker w x n s) = Ok (x, with_worker w x n s).
Proof. apply load_ok. apply lookup_insert_eq. Qed.
Lemma store_with_worker w x y n s : store (Some w) y (with_worker w x n s) = Ok (tt, with_worker w y n s).
Proof.
  rewrite (store_ok w x y); [|apply lookup_insert_eq]. f_equal. unfold with_worker, set_heap. simpl.
  unfold set_sv_workers. simpl. by rewrite insert_insert_eq.
Qed.
Lemma free_with_worker w x n s :
  sv_workers s !! w = None → free (server_worker_t callback) (Some w) (with_worker w x n s) = Ok (tt, set_sv_net n s).
Proof.
  intros Hw. rewrite (free_ok w x); [|apply lookup_insert_eq]. f_equal. simpl. rewrite delete_insert_id by done.
  by destruct s.
Qed.
Lemma on_worker_net {A} (m : M net A) w x n s a n' :
  m n = Ok (a, n') → lift_net m (with_worker w x n s) = Ok (a, with_worker w x n' s).
Proof. intros E. rewrite (lift_net_ok m (with_worker w x n s) a n'); done. Qed.

Lemma alloc_worker s x :
  one_fault (m_faults (n_mem (sv_net s))) →
  (failing 1 (m_faults (n_mem (sv_net s))) ∧
     alloc x s = Ok (None, set_sv_net (with_mem (with_faults [] (n_mem (sv_net s))) (sv_net s)) s)) ∨
  (∃ fs, spent 1 (m_faults (n_mem (sv_net s))) fs ∧
     let w := m_next (n_mem (sv_net s)) in
     alloc x s = Ok (Some w, with_worker w x (with_mem (bump (Pos.succ w) fs (n_mem (sv_net s))) (sv_net s)) s)).
Proof.
  intros Hf. unfold alloc, bind.
  destruct (fallible_one (H := server_allocator) s Hf) as [(fs & -> & Hfs)|[Hne ->]]; [right|left; done].
  exists fs. split; [done|]. simpl. unfold with_worker, set_sv_workers, set_sv_net, bump. simpl. done.
Qed.

(** The state in which [server_worker_create] has given up: at most one queue is left over.  The
    socket may have been bound before it was closed. *)
Definition gave_up (s s' : server) : Prop :=
  sv_workers s' = sv_workers s ∧ n_fds (sv_net s') = n_fds (sv_net s) ∧
  n_socks (sv_net s') = n_socks (sv_net s) ∧ n_conns (sv_net s') = n_conns (sv_net s) ∧
  m_msgs (n_mem (sv_net s')) = m_msgs (n_mem (sv_net s)) ∧
  (∃ bound, n_log (sv_net s') = n_log (sv_net s) ++ bound ∧ (length bound ≤ 1)%nat) ∧
  sv_jmem s' = sv_jmem s ∧ m_faults (n_mem (sv_net s')) = [] ∧
  (m_queues (n_mem (sv_net s')) = m_queues (n_mem (sv_net s)) ∨
   ∃ l, m_queues (n_mem (sv_net s)) !! l = None ∧
        m_queues (n_mem (sv_net s')) = <[l := new_queue SERVER_MESSAGE_QUEUE_SIZE]> (m_queues (n_mem (sv_net s)))).

(** The state in which it has succeeded: the worker at [w], its connection behind it. *)
Definition created (s : server) (fs : list bool) (sk : udp_socket_t) : server :=
  let w := m_next (n_mem (sv_net s)) in
  let n1 := with_mem (bump (Pos.succ w) fs (n_mem (sv_net s))) (sv_net s) in
  with_worker w (Worker (Some (Pos.succ w + 3)%positive) None false)
    (opened n1 sk SERVER_MESSAGE_QUEUE_SIZE SERVER_RECEIVE_TIMEOUT_SECONDS SERVER_SEND_TIMEOUT_SECONDS fs) s.

Lemma gave_up_early s n :
  n_fds n = n_fds (sv_net s) → n_socks n = n_socks (sv_net s) → n_conns n = n_conns (sv_net s) →
  m_msgs (n_mem n) = m_msgs (n_mem (sv_net s)) → n_log n = n_log (sv_net s) → m_faults (n_mem n) = [] →
  m_queues (n_mem n) = m_queues (n_mem (sv_net s)) → gave_up s (set_sv_net n s).
Proof.
  intros. unfold gave_up. simpl. split_and!; try done; [|by left]. exists []. split; [by rewrite app_nil_r|simpl; lia].
Qed.

(** The common end of the error paths: socket and worker are released. *)
Lemma drop_worker s w x n ls sk socks fds :
  sv_workers s !! w = None → n_socks n = <[ls := sk]> socks → socks !! ls = None →
  n_fds n = {[fd sk]} ∪ fds → 0 ≤ fd sk → ¬ (fd sk ∈ fds) →
  (lift_net (udp_socket_delete (Some ls)) ;; free (server_worker_t callback) (Some w) ;; ret (None : ptr))
    (with_worker w x n s)
  = Ok (None, set_sv_net (with_socks socks (with_fds fds n)) s).
Proof.
  intros Hw Es Hs Ef Hd Hnd.
  erewrite bind_ok; [|apply on_worker_net; eapply udp_socket_delete_eq; [rewrite Es; apply lookup_insert_eq|done]].
  erewrite bind_ok by (by apply free_with_worker). unfold ret. f_equal. f_equal. f_equal.
  rewrite Es, Ef, delete_insert_id by done. f_equal. f_equal. set_solver.
Qed.

Section Create.
Context (s : server) (addr port : Z).
Hypothesis (Hfresh : server_fresh s).
Hypothesis (Haddr : 0 ≤ addr < 2 ^ 32).
Let m := n_mem (sv_net s).
Let w := m_next m.
Let n1 (fs : list bool) := with_mem (bump (Pos.succ w) fs m) (sv_net s).

(** The process with the socket [sk], the memory [m'] and the events [evs], before the connection
    exists. *)
Let mid (sk : udp_socket_t) (m' : mem) (evs : list event) : net :=
  Net m' ({[fd sk]} ∪ n_fds (sv_net s)) (<[Pos.succ w := sk]> (n_socks (sv_net s)))
    (n_conns (sv_net s)) (n_in (sv_net s)) (n_log (sv_net s) ++ evs).

Lemma no_worker_yet : sv_workers s !! w = None.
Proof using Hfresh. destruct Hfresh as [_ Hw _]. apply Hw. unfold w, m. lia. Qed.
Lemma no_socket_yet : n_socks (sv_net s) !! Pos.succ w = None.
Proof using Hfresh. destruct Hfresh as [[_ Hs _] _ _]. apply Hs. unfold w, m. lia. Qed.

Lemma drop_all sk m' evs x :
  (length evs ≤ 1)%nat → fd sk = fresh_fd (n_fds (sv_net s)) → m_faults m' = [] → m_msgs m' = m_msgs m →
  (m_queues m' = m_queues m ∨
   ∃ l, m_queues m !! l = None ∧ m_queues m' = <[l := new_queue SERVER_MESSAGE_QUEUE_SIZE]> (m_queues m)) →
  ∃ s', (lift_net (udp_socket_delete (Some (Pos.succ w))) ;; free (server_worker_t callback) (Some w) ;; ret (None : ptr))
          (with_worker w x (mid sk m' evs) s) = Ok (None, s') ∧ gave_up s s'.
Proof using Hfresh.
  intros Hev Hfd Hf Hm Hq. pose proof (fresh_fd_fresh (n_fds (sv_net s))) as [Hnew Hge]. eexists. split.
  - eapply drop_worker; [apply no_worker_yet|done|apply no_socket_yet|done|lia|by rewrite Hfd].
  - unfold gave_up. simpl. split_and!; try done. by exists evs.
Qed.

(** Queues and connection, on a memory [m'] that differs from the first one by a bump. *)
Lemma connect_one sk k fs :
  fd sk = fresh_fd (n_fds (sv_net s)) → (Pos.succ w < k)%positive → one_fault fs →
  let x := Worker None (None : option callback) false in
  let bound := [EvBind (fd sk) (outcoming_addr sk)] in
  (fs ≠ [] ∧ ∃ s', server_worker_connect (Some w) (Some (Pos.succ w)) (with_worker w x (mid sk (bump k fs m) bound) s)
                   = Ok (None, s') ∧ gave_up s s') ∨
  (∃ fs' sk', spent 10 fs fs' ∧ timed sk sk' ∧
     server_worker_connect (Some w) (Some (Pos.succ w)) (with_worker w x (mid sk (bump k fs m) bound) s)
     = Ok (Some w, with_worker w (Worker (Some (k + 2)%positive) None false)
             (Net (with_queues (<[(k + 1)%positive := new_queue SERVER_MESSAGE_QUEUE_SIZE]>
                                  (<[k := new_queue SERVER_MESSAGE_QUEUE_SIZE]> (m_queues m))) (bump (k + 3) fs' m))
                ({[fd sk]} ∪ n_fds (sv_net s)) (<[Pos.succ w := sk']> (n_socks (sv_net s)))
                (<[(k + 2)%positive := new_conn (Pos.succ w) k (k + 1) SERVER_RECEIVE_TIMEOUT_SECONDS
                                         SERVER_SEND_TIMEOUT_SECONDS]> (n_conns (sv_net s)))
                (n_in (sv_net s)) (n_log (sv_net s) ++ bound)) s)).
Proof using Hfresh.
  intros Hfd Hk Hf x bound. assert (Hb1 : (length bound ≤ 1)%nat) by (simpl; lia). unfold server_worker_connect.
  assert (Hheap : ∀ fs', heap_ok (bump k fs' m)).
  { intros fs'. apply heap_ok_bump; [apply Hfresh|]. unfold w in *. lia. }
  assert (Hq : ∀ q, (k ≤ q)%positive → m_queues m !! q = None).
  { intros q Hle. destruct (Hheap fs) as [_ _ Hq]. by apply Hq. }
  destruct (message_queue_create_one (bump k fs m) SERVER_MESSAGE_QUEUE_SIZE) as [(Hne & k1 & Hk1 & E1)|(fs1 & Hs1 & E1)]; try done.
  - (* no incoming queue: the outgoing one is created and left over *)
    left. split; [apply Hne|]. erewrite bind_ok; [|apply on_worker_net, lift_ok; exact E1].
    assert (Hh1 : heap_ok (bump k1 [] m)) by (apply heap_ok_bump; [apply Hfresh|]; unfold w in *; simpl in Hk1; lia).
    destruct (message_queue_create_one (bump k1 [] m) SERVER_MESSAGE_QUEUE_SIZE) as [([Hbad _] & _)|(fs2 & Hs2 & E2)];
      [done|done|by left|done|].
    erewrite bind_ok; [|apply on_worker_net, lift_ok; exact E2].
    apply (drop_all sk); [done|done|by eapply spent_nil|done|]. right. exists k1. split; [|done]. apply Hq. simpl in Hk1. lia.
  - erewrite bind_ok; [|apply on_worker_net, lift_ok; exact E1]. simpl m_next in *.
    set (m1 := with_queues _ _). set (fsb := m_faults (bump k fs m)) in *.
    assert (Hh1 : heap_ok m1).
    { destruct (Hheap fs1) as [Hb Hm' Hq']. split; simpl; eauto with heap.  }
    destruct (message_queue_create_one m1 SERVER_MESSAGE_QUEUE_SIZE) as [(Hne & k2 & Hk2 & E2)|(fs2 & Hs2 & E2)];
      [done|done|by apply Hs1|..].
    + (* no outgoing queue: the incoming one is left over *)
      left. split; [by eapply failing_later; [exact Hs1|]|]. erewrite bind_ok; [|apply on_worker_net, lift_ok; exact E2].
      apply (drop_all sk); [done|done|done|done|]. right. exists k. split; [by apply Hq|done].
    + erewrite bind_ok; [|apply on_worker_net, lift_ok; exact E2]. cbn [m_next m1 with_queues bump with_next] in *.
      set (m2 := with_queues _ (bump _ fs2 m1)).
      change (with_mem m2 _) with (mid sk m2 bound).
      assert (Hs12 : spent 8 fs fs2) by (by eapply (spent_trans 4 4)).
      destruct (net_connection_create_one (mid sk m2 bound) (Pos.succ w) k (Pos.succ k) sk
                  SERVER_RECEIVE_TIMEOUT_SECONDS SERVER_SEND_TIMEOUT_SECONDS)
        as [(Hne & E3)|(fs3 & sk' & Hs3 & Ht & E3)]; [done|done|apply lookup_insert_eq|by apply Hs12|..].
      * (* no connection: both queues are deleted *)
        left. split; [by eapply failing_later; [exact Hs12|]|].
        erewrite bind_ok; [|apply on_worker_net; exact E3].
        assert (Hq1 : queue_at (with_faults [] m2) k SERVER_MESSAGE_QUEUE_SIZE []).
        { apply queue_at_fresh; [done|done|]. simpl. rewrite lookup_insert_ne by lia. apply lookup_insert_eq. }
        cbn match. erewrite bind_ok; [|apply on_worker_net, lift_ok, (message_queue_delete_eq _ _ _ _ Hq1 eq_refl)].
        set (m3 := with_queues _ _).
        assert (Hq2 : queue_at m3 (Pos.succ k) SERVER_MESSAGE_QUEUE_SIZE []).
        { apply queue_at_fresh; [done|done|]. simpl. rewrite lookup_delete_ne by lia. apply lookup_insert_eq. }
        erewrite bind_ok; [|apply on_worker_net, lift_ok, (message_queue_delete_eq _ _ _ _ Hq2 eq_refl)].
        apply (drop_all sk); [done|done|done|done|]. left. simpl.
        rewrite delete_insert_ne by lia.
        assert (Hkk : delete k (<[k := new_queue SERVER_MESSAGE_QUEUE_SIZE]> (m_queues m)) = m_queues m)
          by (apply delete_insert_id, Hq; lia).
        rewrite Hkk. apply delete_insert_id, Hq. lia.
      * right. exists fs3, sk'. split; [by eapply (spent_trans 8 2)|]. split; [done|].
        erewrite bind_ok; [|apply on_worker_net; exact E3]. cbn match. erewrite bind_ok by apply store_with_worker.
        replace (k + 1)%positive with (Pos.succ k) by lia.
        replace (k + 2)%positive with (Pos.succ (Pos.succ k)) by lia.
        replace (k + 3)%positive with (Pos.succ (Pos.succ (Pos.succ k))) by lia.
        unfold ret. do 2 f_equal. unfold mid. simpl. by rewrite insert_insert_eq.
Qed.

(** The whole of [server_worker_create]. *)
Lemma server_worker_create_one :
  0 ≤ port < 2 ^ 16 → one_fault (m_faults m) →
  (m_faults m ≠ [] ∧ ∃ s', server_worker_create addr port s = Ok (None, s') ∧ gave_up s s') ∨
  (∃ fs sk, spent 14 (m_faults m) fs ∧ timed (new_socket (n1 []) addr (htons port)) sk ∧
     server_worker_create addr port s = Ok (Some w, created s fs sk)).
Proof using Hfresh Haddr.
  intros Hport Hf. unfold server_worker_create.
  destruct (alloc_worker s (Worker None (None : option callback) false) Hf) as [[Hne E0]|(fs0 & Hs0 & E0)].
  { left. split; [apply Hne|]. rewrite (bind_ok _ _ _ _ _ E0). eexists. split; [done|]. by apply gave_up_early. }
  rewrite (bind_ok _ _ _ _ _ E0). fold m w. change (with_mem _ _) with (n1 fs0).
  assert (Hn1 : net_fresh (n1 fs0)) by (apply net_fresh_bump; [apply Hfresh|unfold w, m; lia]).
  destruct (udp_socket_create_one (n1 fs0) addr (htons port) Hn1) as [(Hne & k & Hk & E1)|(fs1 & Hs1 & E1)];
    [by apply Hs0|..].
  { left. split; [by eapply failing_later; [exact Hs0|]|]. erewrite bind_ok; [|apply on_worker_net; exact E1].
    cbn match. erewrite bind_ok by (apply free_with_worker, no_worker_yet). eexists. split; [done|].
    by apply gave_up_early. }
  erewrite bind_ok; [|apply on_worker_net; exact E1]. cbv zeta. cbn match. simpl m_next.
  set (sk := new_socket (n1 fs0) addr (htons port)).
  assert (Hfd : fd sk = fresh_fd (n_fds (sv_net s))) by done.
  set (m1 := bump (Pos.succ (Pos.succ w)) fs1 m).
  replace (with_fds _ _) with (mid sk m1 []) by (unfold mid, with_fds, with_socks, with_mem; simpl; by rewrite app_nil_r).
  destruct (udp_socket_bind_one (mid sk m1 []) (Pos.succ w) sk)
    as [[Hne E2]|(fs2 & Hs2 & E2)]; [apply lookup_insert_eq|by apply Hs1|..].
  { left. split; [eapply failing_later; [exact Hs0|]; by eapply failing_later; [exact Hs1|]|].
    erewrite bind_ok; [|apply on_worker_net; exact E2]. rewrite bool_decide_eq_true_2 by done.
    apply (drop_all sk); try done; [simpl; lia|by left]. }
  erewrite bind_ok; [|apply on_worker_net; exact E2]. rewrite bool_decide_eq_false_2 by (by intros []).
  replace (with_log _ _) with (mid sk (bump (Pos.succ (Pos.succ w)) fs2 m) [EvBind (fd sk) (outcoming_addr sk)])
    by (unfold mid, with_log, with_mem; simpl; by rewrite app_nil_r).
  assert (Hs02 : spent 4 (m_faults m) fs2) by (eapply (spent_trans 1 3); [exact Hs0|]; by eapply (spent_trans 2 1)).
  destruct (connect_one sk (Pos.succ (Pos.succ w)) fs2 Hfd) as [(Hne & s' & E3 & Hg)|(fs3 & sk' & Hs3 & Ht & E3)];
    [lia|by apply Hs02|..].
  - left. split; [|by exists s']. intros E. apply Hne. by eapply spent_nil.
  - right. exists fs3, sk'. split; [by eapply (spent_trans 4 10)|]. split; [exact Ht|]. rewrite E3.
    unfold created. fold m w. cbv zeta. do 2 f_equal. unfold opened.
    simpl m_next. replace (Pos.succ w + 1)%positive with (Pos.succ (Pos.succ w)) by lia.
    replace (Pos.succ w + 2)%positive with (Pos.succ (Pos.succ w) + 1)%positive by lia.
    replace (Pos.succ w + 3)%positive with (Pos.succ (Pos.succ w) + 2)%positive by lia.
    replace (Pos.succ w + 4)%positive with (Pos.succ (Pos.succ w) + 3)%positive by lia.
    by destruct (timed_facts _ _ Ht) as (_ & -> & ->).
Qed.
End Create.

(** ** A created worker starts *)

(** What [worker_inv] says, and what deletion needs besides: the threads of the flags run and
    the descriptor is open. *)
Record worker_at (s : server) (w l : loc) (f : option callback) (running : bool) (c : net_connection_t)
    (sk : udp_socket_t) (ls li lo : loc) (capi capo : Z) (xs ys : list loc) : Prop := {
  wa_worker : sv_workers s !! w = Some (Worker (Some l) f running);
  wa_conn : conn_at (sv_net s) l c sk ls li lo capi capo xs ys;
  wa_threads : threads_ok c;
  wa_flags : flags c = (running, running);
  wa_fd : 0 ≤ fd sk;
  wa_faults : m_faults (n_mem (sv_net s)) = [];
}.

Lemma created_worker_at s sk addr port :
  server_fresh s → 0 ≤ addr < 2 ^ 32 → 0 ≤ port < 2 ^ 16 →
  let w := m_next (n_mem (sv_net s)) in
  let n1 := with_mem (bump (Pos.succ w) [] (n_mem (sv_net s))) (sv_net s) in
  timed (new_socket n1 addr (htons port)) sk →
  let l := Pos.succ w in
  worker_at (created s [] sk) w (l + 3) None false
    (new_conn l (l + 1) (l + 2) SERVER_RECEIVE_TIMEOUT_SECONDS SERVER_SEND_TIMEOUT_SECONDS)
    sk l (l + 1) (l + 2) SERVER_MESSAGE_QUEUE_SIZE SERVER_MESSAGE_QUEUE_SIZE [] [].
Proof.
  intros [Hn Hw Hm] Ha Hp w n1 Ht l. destruct (timed_facts _ _ Ht) as (Hok & Hfd & _).
  split; try done; [apply lookup_insert_eq| |].
  - apply (conn_at_opened n1); [apply mem_ok_bump; [done|unfold w; lia]| |done|by vm_compute].
    apply Hok, new_socket_ok; [done|]. apply htons_bound.
  - rewrite Hfd. simpl. pose proof (fresh_fd_fresh (n_fds (sv_net s))). lia.
Qed.

Section Running.
Context (w l ls li lo : loc) (f : option callback) (sk : udp_socket_t) (capi capo : Z) (xs ys : list loc).
Implicit Types (s : server) (c : net_connection_t).

(** The state with another worker struct and another connection, when [evs] has happened. *)
Definition retuned (x : server_worker_t callback) (c : net_connection_t) (evs : list event) (s : server) : server :=
  with_worker w x (switch l c evs (sv_net s)) s.

Lemma retune_id r c s :
  worker_at s w l f r c sk ls li lo capi capo xs ys → retuned (Worker (Some l) f r) c [] s = s.
Proof using Type.
  intros [Hw [Hc _ _ _ _ _ _ _ _ _ _] _ _ _ _]. unfold retuned, with_worker, switch. rewrite (insert_id _ _ _ Hc).
  unfold set_sv_workers, set_sv_net, with_conns, with_log. simpl. rewrite (insert_id _ _ _ Hw), app_nil_r. by destruct s as [[]].
Qed.

Lemma worker_store r c s y :
  worker_at s w l f r c sk ls li lo capi capo xs ys → store (Some w) y s = Ok (tt, retuned y c [] s).
Proof using Type.
  intros Hwa. rewrite <- (retune_id _ _ _ Hwa) at 1. unfold retuned at 1. rewrite store_with_worker.
  fold (retuned y c [] s). done.
Qed.

(** Starting or stopping a thread of the worker's connection, whatever the worker struct says. *)
Lemma worker_life_op c s op y evs :
  conn_at (sv_net (retuned y c evs s)) l c sk ls li lo capi capo xs ys → threads_ok c →
  m_faults (n_mem (sv_net s)) = [] →
  let evs' := evs ++ joined_by op l (flags c) in
  ∃ c', lift_net (run_life_op (Some l) op) (retuned y c evs s) = Ok (NET_CONNECTION_STATUS_SUCCESS, retuned y c' evs' s) ∧
    conn_at (sv_net (retuned y c' evs' s)) l c' sk ls li lo capi capo xs ys ∧
    threads_ok c' ∧ same_fields c c' ∧ flags c' = flags_after op (flags c).
Proof using Type.
  intros Hat' Ht Hf evs'.
  destruct (life_op_conn_at _ _ _ _ _ _ _ _ _ _ _ op Hat' Ht Hf) as (c' & E & Hat2 & Ht' & F & Hfl).
  exists c'. split_and!; try done.
  - unfold retuned at 1. erewrite on_worker_net by exact E. unfold retuned. cbn [sv_net with_worker set_sv_workers set_sv_net].
    by rewrite switch_switch.
  - unfold retuned in Hat2. cbn [sv_net with_worker set_sv_workers set_sv_net] in Hat2. by rewrite switch_switch in Hat2.
Qed.

Lemma set_on_message_at r c s g :
  worker_at s w l f r c sk ls li lo capi capo xs ys →
  server_worker_set_on_message (Some w) (Some g) s = Ok (tt, retuned (Worker (Some l) (Some g) r) c [] s).
Proof using Type.
  intros Hwa. unfold server_worker_set_on_message. erewrite bind_ok; [|apply load_ok; apply Hwa].
  by rewrite (worker_store _ _ _ _ Hwa).
Qed.
End Running.

Lemma conn_at_retuned w l ls li lo sk capi capo xs ys y c evs s :
  conn_at (sv_net s) l c sk ls li lo capi capo xs ys →
  conn_at (sv_net (retuned w l y c evs s)) l c sk ls li lo capi capo xs ys.
Proof. intros []; split; simpl; try done. apply lookup_insert_eq. Qed.

Lemma worker_at_set w l ls li lo f g r sk capi capo xs ys c s :
  worker_at s w l f r c sk ls li lo capi capo xs ys →
  worker_at (retuned w l (Worker (Some l) g r) c [] s) w l g r c sk ls li lo capi capo xs ys.
Proof. intros []. split; try done; [apply lookup_insert_eq|by apply conn_at_retuned]. Qed.

Lemma rest_at_with_worker w x n s j cap log : rest_at s j cap log → rest_at (with_worker w x n s) j cap log.
Proof. by intros []. Qed.

Lemma same_fields_trans c1 c2 c3 : same_fields c1 c2 → same_fields c2 c3 → same_fields c1 c3.
Proof. unfold same_fields. intuition congruence. Qed.

(** Starting both threads, or stopping both. *)
Lemma worker_life_ops w l ls li lo sk capi capo xs ys y c s op1 op2 :
  conn_at (sv_net s) l c sk ls li lo capi capo xs ys → threads_ok c → m_faults (n_mem (sv_net s)) = [] →
  let evs1 := joined_by op1 l (flags c) in
  let evs2 := evs1 ++ joined_by op2 l (flags_after op1 (flags c)) in
  ∃ c1 c2, lift_net (run_life_op (Some l) op1) (retuned w l y c [] s)
             = Ok (NET_CONNECTION_STATUS_SUCCESS, retuned w l y c1 evs1 s) ∧
    lift_net (run_life_op (Some l) op2) (retuned w l y c1 evs1 s)
      = Ok (NET_CONNECTION_STATUS_SUCCESS, retuned w l y c2 evs2 s) ∧
    conn_at (sv_net (retuned w l y c2 evs2 s)) l c2 sk ls li lo capi capo xs ys ∧
    threads_ok c2 ∧ same_fields c c2 ∧ flags c2 = flags_after op2 (flags_after op1 (flags c)).
Proof.
  intros Hat Ht Hf evs1 evs2.
  destruct (worker_life_op w l ls li lo sk capi capo xs ys c s op1 y []) as (c1 & E1 & Hat1 & Ht1 & F1 & Hfl1);
    [by apply conn_at_retuned|done|done|].
  destruct (worker_life_op w l ls li lo sk capi capo xs ys c1 s op2 y evs1) as (c2 & E2 & Hat2 & Ht2 & F2 & Hfl2);
    [done|done|done|]. rewrite Hfl1 in E2, Hat2.
  exists c1, c2. split_and!; try done; [by eapply same_fields_trans|by rewrite Hfl2, Hfl1].
Qed.

Lemma server_worker_start_at w l ls li lo f sk capi capo xs ys c s :
  worker_at s w l f false c sk ls li lo capi capo xs ys →
  ∃ c', server_worker_start (Some w) s
        = Ok (SERVER_WORKER_STATUS_SUCCESS, retuned w l (Worker (Some l) f true) c' [] s) ∧
    worker_at (retuned w l (Worker (Some l) f true) c' [] s) w l f true c' sk ls li lo capi capo xs ys ∧
    same_fields c c'.
Proof.
  intros Hwa. pose proof Hwa as [Hw Hat Ht Hfl Hfd Hf]. unfold server_worker_start.
  erewrite bind_ok; [|apply load_ok; exact Hw].
  cbn [is_running w_connection worker_function]. erewrite bind_ok by (by eapply worker_store).
  destruct (worker_life_ops w l ls li lo sk capi capo xs ys (Worker (Some l) f true) c s StartReceiving StartSending Hat Ht Hf)
    as (c1 & c2 & E1 & E2 & Hat2 & Ht2 & F & Hfl2). unfold run_life_op in E1, E2.
  rewrite (bind_ok _ _ _ _ _ E1), bool_decide_eq_false_2 by (by intros []).
  rewrite (bind_ok _ _ _ _ _ E2), bool_decide_eq_false_2 by (by intros []).
  exists c2. split; [done|]. split; [|done]. split; try done. apply lookup_insert_eq.
Qed.

(** Deletion: everything the worker owns is released, whether it runs or not. *)
Lemma server_worker_delete_at w l ls li lo f r sk capi capo xs ys c s :
  worker_at s w l f r c sk ls li lo capi capo xs ys →
  server_worker_delete (Some w) s
  = Ok (tt, set_sv_workers (delete w (sv_workers s)) (set_sv_net
        (Net (with_queues (delete lo (delete li (m_queues (n_mem (sv_net s)))))
                (with_msgs (delete_all ys (delete_all xs (m_msgs (n_mem (sv_net s))))) (n_mem (sv_net s))))
           (n_fds (sv_net s) ∖ {[fd sk]}) (delete ls (n_socks (sv_net s))) (delete l (n_conns (sv_net s)))
           (n_in (sv_net s)) (n_log (sv_net s) ++ joins l (r, r))) s)).
Proof.
  intros Hwa. pose proof Hwa as [Hw Hat Ht Hfl Hfd Hf]. unfold server_worker_delete.
  assert (Hstop : ∃ c', server_worker_stop (Some w) s
    = Ok (SERVER_WORKER_STATUS_SUCCESS, retuned w l (Worker (Some l) f false) c' (joins l (r, r)) s) ∧
    conn_at (sv_net (retuned w l (Worker (Some l) f false) c' (joins l (r, r)) s)) l c' sk ls li lo capi capo xs ys ∧
    threads_ok c' ∧ flags c' = (false, false)).
  { unfold server_worker_stop. erewrite bind_ok; [|apply load_ok; exact Hw]. cbn [is_running w_connection worker_function].
    destruct r; cbn [negb].
    2: { exists c. split_and!; [|by apply conn_at_retuned|done|done]. cbn [joins joined_by fst snd app]. by rewrite (retune_id _ _ _ _ _ _ _ _ _ _ _ _ _ _ Hwa). }
    erewrite bind_ok by (by eapply worker_store).
    destruct (worker_life_ops w l ls li lo sk capi capo xs ys (Worker (Some l) f false) c s StopReceiving StopSending Hat Ht Hf)
      as (c1 & c2 & E1 & E2 & Hat2 & Ht2 & _ & Hfl2). unfold run_life_op in E1, E2.
    rewrite (bind_ok _ _ _ _ _ E1), (bind_ok _ _ _ _ _ E2). exists c2. rewrite Hfl in *. by split_and!. }
  destruct Hstop as (c' & E & Hat' & Ht' & Hfl'). rewrite (bind_ok _ _ _ _ _ E). unfold retuned at 1.
  erewrite bind_ok by apply load_with_worker. cbn [w_connection worker_function is_running].
  pose proof (net_connection_delete_eq _ _ _ _ _ _ _ _ _ _ _ Hat' Ht' Hfd Hf) as Ed.
  erewrite bind_ok; [|erewrite bind_ok; [apply store_with_worker|apply on_worker_net; exact Ed]].
  unfold free, with_worker. simpl. rewrite lookup_insert_eq. f_equal. f_equal.
  unfold set_sv_workers, set_sv_net. simpl. rewrite !delete_insert_eq, Hfl'. unfold joins at 2, joined_by. simpl.
  by rewrite app_nil_r.
Qed.

(** ** A concrete process before its worker exists *)
Definition fresh_server : server :=
  Server net0 ∅ (run (journal_create 200) jmem0) (Some 1%positive) (demo_proc (cstring "bash"%string))
    (Tm 125 2 9 8 5 30).

Lemma fresh_server_fresh fs : server_fresh (set_sv_net (with_mem (with_faults fs mem0) net0) fresh_server).
Proof. by split; [split; [split|..]|..|split; [split|..]]. Qed.

(** ** Properties *)

(** C28: [server_worker_create] survives any failing library call.  Whichever call of the run is
    the one that fails ([malloc], [socket], [bind], the mutex and condition variable of a queue),
    or if none does, it returns.  If it returns NULL, no worker, socket, descriptor, connection or
    message is left behind, but one queue may be; otherwise the worker at the returned address has
    a connection with two empty queues of capacity 128 and a socket that was bound to the given
    address and port. *)
Theorem server_worker_create_faults s addr port :
  server_fresh s → 0 ≤ addr < 2 ^ 32 → 0 ≤ port < 2 ^ 16 → one_fault (m_faults (n_mem (sv_net s))) →
  (m_faults (n_mem (sv_net s)) ≠ [] ∧ ∃ s', ⟦ server_worker_create addr port ⟧ s ⇓ None, s' ∧ gave_up s s') ∨
  (∃ s' w l ls li lo c sk,
     ⟦ server_worker_create addr port ⟧ s ⇓ Some w, s' ∧
     sv_workers s !! w = None ∧ sv_workers s' = <[w := Worker (Some l) None false]> (sv_workers s) ∧
     conn_at (sv_net s') l c sk ls li lo SERVER_MESSAGE_QUEUE_SIZE SERVER_MESSAGE_QUEUE_SIZE [] [] ∧
     flags c = (false, false) ∧ sin_port (outcoming_addr sk) = htons port ∧ sin_addr (outcoming_addr sk) = addr ∧
     ¬ (fd sk ∈ n_fds (sv_net s)) ∧ n_fds (sv_net s') = {[fd sk]} ∪ n_fds (sv_net s) ∧
     n_log (sv_net s') = n_log (sv_net s) ++ [EvBind (fd sk) (outcoming_addr sk)]).
Proof.
  intros Hs Ha Hp Hf. destruct (server_worker_create_one s addr port Hs Ha Hp Hf) as [?|(fs & sk & _ & Ht & E)]; [by left|].
  right. set (w := m_next (n_mem (sv_net s))) in *. set (l := Pos.succ w).
  destruct (timed_facts _ _ Ht) as (Hok & Hfd & Ho).
  eexists _, w, (l + 3)%positive, l, (l + 1)%positive, (l + 2)%positive, _, sk. split; [exact E|].
  split; [by apply no_worker_yet|]. split; [done|]. split.
  { apply (conn_at_opened (with_mem (bump l fs (n_mem (sv_net s))) (sv_net s)));
      [apply mem_ok_bump; [apply Hs|unfold l, w; lia]| |done|by vm_compute].
    apply Hok, new_socket_ok; [done|]. apply htons_bound. }
  split_and!; try done; try (rewrite Ho, ?Hfd; done); rewrite Hfd; [apply fresh_fd_fresh|done].
Qed.

(** The fifth call, the mutex of the incoming queue, fails. *)
Definition fifth_fails : server :=
  set_sv_net (with_mem (with_faults (replicate 5 false ++ [true]) mem0) net0) fresh_server.

Lemma server_worker_create_faults_witness :
  ∃ s', ⟦ server_worker_create LOOPBACK 5000 ⟧ fifth_fails ⇓ None, s' ∧ gave_up fifth_fails s'.
Proof.
  destruct (server_worker_create_faults fifth_fails LOOPBACK 5000) as [(_ & s' & E & Hg)|(s' & w & l & ls & li & lo & c & sk & E & _)];
    [apply fresh_server_fresh|by vm_compute|by vm_compute|right; by exists 5%nat|by exists s'|].
  exfalso. assert (Hn : match server_worker_create LOOPBACK 5000 fifth_fails with Ok (None, _) => True | _ => False end)
    by (vm_compute; exact I). by rewrite E in Hn.
Defined.

(** C32: [server_worker_delete] releases everything a worker owns.  For a worker that runs or not,
    with any messages in its queues, the receiving and the sending thread are joined if it runs,
    each exactly once ([joins]), the descriptor is closed, and the socket, the queues with their
    messages, the connection and the worker are freed; nothing else changes. *)
Theorem server_worker_delete_releases w l ls li lo f r sk capi capo xs ys c s :
  worker_at s w l f r c sk ls li lo capi capo xs ys →
  ∃ s', ⟦ server_worker_delete (Some w) ⟧ s ⇓ tt, s' ∧
    sv_workers s' = delete w (sv_workers s) ∧
    n_fds (sv_net s') = n_fds (sv_net s) ∖ {[fd sk]} ∧ n_socks (sv_net s') = delete ls (n_socks (sv_net s)) ∧
    n_conns (sv_net s') = delete l (n_conns (sv_net s)) ∧
    m_queues (n_mem (sv_net s')) = delete lo (delete li (m_queues (n_mem (sv_net s)))) ∧
    (∀ y, m_msgs (n_mem (sv_net s')) !! y = if decide (y ∈ xs ++ ys) then None else m_msgs (n_mem (sv_net s)) !! y) ∧
    sv_jmem s' = sv_jmem s ∧
    n_log (sv_net s') = n_log (sv_net s) ++ (if r then [EvJoinReceiving l; EvJoinSending l] else []).
Proof.
  intros Hwa. unfold returns. rewrite (server_worker_delete_at _ _ _ _ _ _ _ _ _ _ _ _ _ _ Hwa).
  eexists. split; [done|]. simpl. split_and!; try done; [|by destruct r].
  intros y. rewrite !lookup_delete_all. repeat case_decide; set_solver.
Qed.

(** A worker that was just started. *)
Lemma server_worker_delete_releases_witness :
  let s0 := created fresh_server [] (new_socket (with_mem (bump 2 [] mem0) net0) LOOPBACK (htons 5000)) in
  ∃ s1 s2, ⟦ server_worker_start (Some 1%positive) ⟧ s0 ⇓ SERVER_WORKER_STATUS_SUCCESS, s1 ∧
    ⟦ server_worker_delete (Some 1%positive) ⟧ s1 ⇓ tt, s2 ∧ sv_workers s2 = ∅ ∧
    n_log (sv_net s2) = n_log (sv_net s1) ++ [EvJoinReceiving 5; EvJoinSending 5].
Proof.
  intros s0. edestruct server_worker_start_at as (c & E & Hwa & _).
  - apply (created_worker_at fresh_server _ LOOPBACK 5000); [apply (fresh_server_fresh [])|by vm_compute|by vm_compute|by left].
  - destruct (server_worker_delete_releases _ _ _ _ _ _ _ _ _ _ _ _ _ _ Hwa) as (s2 & E2 & Hw & _ & _ & _ & _ & _ & _ & Hl).
    eexists _, s2. split; [exact E|]. split; [exact E2|]. split; [|exact Hl]. rewrite Hw. by vm_compute.
Defined.
