(* ===== verification/Processes.v ===== *)
(** * Processes: the processes of the server

    server/server.c forks five worker processes with utility/safe_process.c, starts a thread that
    hands out the journal, waits and deletes the journal.  [main] is modelled as the program of
    one process: the results of [fork] are part of the environment, so that the parent is a run
    in which every [fork] returns a process id, and the worker process with number [i] is a run
    in which [fork] returns a process id [i] times and then 0.  Up to that point both runs are the
    same, which is what it means that [fork] copies the process. *)
From S2P Require Import Prelude Layout Memory Message MessageQueue SocketUdp NetConnection.
From S2P Require Import NetLifecycle NetTurns NetOpen Journal JournalTransfer Format CpuUsage.
From S2P Require Import ServerWorker Server Requests WorkerLife.

Local Open Scope Z_scope.

(** ** utility/safe_process.c *)
Inductive safe_process_result_t : Type := SAFE_PROCESS_OK | SAFE_PROCESS_ERROR.

(** [C] are the names of the functions that a [clear_process_before_death] may point to. *)
Record safe_process_t (C : Type) := SafeProcess {
  sp_pid : Z;
  clear_process_before_death : C;
}.
Arguments SafeProcess {C} _ _.
Arguments sp_pid {C} _.
Arguments clear_process_before_death {C} _.

Section SafeProcess.
Context {S C : Type} (call_clear : C → ptr → M S unit).

(** [sys_fork] is the system call; [args] is known to [child_job]. *)
Definition safe_process_create (sys_fork : M S Z) (child_job : safe_process_t C → M S unit) (clear : C)
    : M S (safe_process_t C) :=
  let* pid := sys_fork in
  let sp := SafeProcess pid clear in
  if pid <? 0 then exit_with EXIT_FAILURE
  else if pid =? 0 then child_job sp ;; ret sp
  else ret sp.

Definition safe_process_delete_this (sp : safe_process_t C) (args : ptr) : M S unit :=
  call_clear (clear_process_before_death sp) args ;;
  exit_with EXIT_SUCCESS.

(** [ppid] is what [getppid] returns: 1 when the parent has ended. *)
Definition safe_process_check_status (ppid : Z) (sp : safe_process_t C) (args_to_delete : ptr)
    : M S safe_process_result_t :=
  if ppid =? 1 then safe_process_delete_this sp args_to_delete ;; ret SAFE_PROCESS_ERROR
  else ret SAFE_PROCESS_OK.
End SafeProcess.

(** ** A worker process of server/server.c *)

(** server/config.h *)
Definition SERVER_NUM_WORKERS : nat := 5.
Definition SERVER_ADDR : list byte := cstring "127.0.0.1"%string.
Definition SERVER_BASE_PORT : Z := 5000.
Definition SERVER_UNIX_SOCKET_PATH : list byte := cstring "/tmp/server_unix_socket"%string.

Record server_state_t := ServerState {
  num_workers : Z;
  base_server_port : Z;
  st_journal : ptr;
  server_addr : list byte;
  unix_socket_path : list byte;
}.

Inductive cleaner : Type := WorkerProcessClear.

Definition worker_process_clear (args : ptr) : M server unit := server_worker_delete args.
Definition call_cleaner (f : cleaner) (args : ptr) : M server unit :=
  match f with WorkerProcessClear => worker_process_clear args end.

(** Lines 125-138: the worker listens and its threads run.  [in_port_t] has 16 bits. *)
Definition worker_startup (server_state : server_state_t) (sp : safe_process_t cleaner) : M server ptr :=
  let* worker := server_worker_create (inet_addr (server_addr server_state))
                   (base_server_port server_state mod 2 ^ 16) in
  match worker with
  | None => exit_with EXIT_FAILURE
  | Some _ =>
      server_worker_set_on_message worker (Some WorkerOnMessage) ;;
      let* st := server_worker_start worker in
      if bool_decide (st ≠ SERVER_WORKER_STATUS_SUCCESS)
      then safe_process_delete_this call_cleaner sp worker ;; ret worker
      else ret worker
  end.

(** The steps of the threads that [server_worker_start] has started. *)
Definition thread_steps (worker : ptr) (turns : list (list thread_turn)) : M server (list (M server unit)) :=
  let* w := load (T := server_worker_t callback) worker in
  ret (match w_connection w with Some l => run_turns l <$> turns | None => [] end).

(** Lines 140-145.  A round holds what [getppid] returns and the turns of the threads during
    [server_worker_update]; when there is none left the run is cut off. *)
Fixpoint worker_loop (rounds : list (Z * list (list thread_turn))) (worker : ptr)
    (sp : safe_process_t cleaner) : M server unit :=
  match rounds with
  | [] => no_fuel
  | (ppid, turns) :: rounds =>
      safe_process_check_status call_cleaner ppid sp worker ;;
      let* others := thread_steps worker turns in
      server_worker_update call_callback others worker 100 ;;
      lift_net (sleep 1) ;;
      worker_loop rounds worker sp
  end.

Definition worker_process_job (rounds : list (Z * list (list thread_turn)))
    (server_state : server_state_t) (sp : safe_process_t cleaner) : M server unit :=
  let* worker := worker_startup server_state sp in
  worker_loop rounds worker sp.

(** A thread function that no code starts. *)
Fixpoint sp_check_status_loop (ppids : list Z) (sp : safe_process_t cleaner) : M server unit :=
  match ppids with
  | [] => no_fuel
  | ppid :: ppids =>
      safe_process_check_status call_cleaner ppid sp None ;;
      lift_net (sleep 1) ;;
      sp_check_status_loop ppids sp
  end.

(** ** The program *)

(** The journal thread: not created, in its loop, or returned. *)
Inductive journal_thread_t : Type := JournalThreadNone | JournalThreadServing | JournalThreadReturned.

(** A process of the server; [pr_forks] are the results that its calls of [fork] will have. *)
Record process := Process {
  pr_server : server;
  pr_state : server_state_t;    (* the local variable [server_state] of [main] *)
  pr_xfer : xfer;               (* Unix sockets; the journal is that of [pr_server] *)
  pr_forks : list Z;
  pr_thread : journal_thread_t;
}.

Definition set_pr_server (s : server) (p : process) : process :=
  Process s (pr_state p) (pr_xfer p) (pr_forks p) (pr_thread p).
Definition set_pr_state (st : server_state_t) (p : process) : process :=
  Process (pr_server p) st (pr_xfer p) (pr_forks p) (pr_thread p).
Definition set_pr_forks (fs : list Z) (p : process) : process :=
  Process (pr_server p) (pr_state p) (pr_xfer p) fs (pr_thread p).
Definition set_pr_thread (t : journal_thread_t) (p : process) : process :=
  Process (pr_server p) (pr_state p) (pr_xfer p) (pr_forks p) t.
Definition xfer_of (p : process) : xfer := with_jmem (sv_jmem (pr_server p)) (pr_xfer p).
Definition set_xfer (x : xfer) (p : process) : process :=
  Process (set_sv_jmem (x_jmem x) (pr_server p)) (pr_state p) x (pr_forks p) (pr_thread p).

Definition on_server {A} : M server A → M process A := lift pr_server set_pr_server.
Definition on_xfer {A} : M xfer A → M process A := lift xfer_of set_xfer.

(** [fork] in this process: the next result of the environment. *)
Definition sys_fork : M process Z :=
  let* p := get_state in
  match pr_forks p with
  | [] => no_fuel
  | pid :: forks => modify (set_pr_forks forks) ;; ret pid
  end.

(** Line 170: one transfer; [true] if the journal thread goes on. *)
Definition serve_journal (server_state : server_state_t) : M process bool :=
  let* r := on_xfer (journal_transfer_run_receiver (unix_socket_path server_state) (st_journal server_state)) in
  ret (r =? 0).

(** The journal thread; [fuel] bounds the number of transfers. *)
Fixpoint journal_receiver_job (fuel : nat) (server_state : server_state_t) : M process unit :=
  match fuel with
  | O => no_fuel
  | S fuel =>
      let* continue := serve_journal server_state in
      if continue : bool then journal_receiver_job fuel server_state else ret tt
  end.

(** A pass of the loop of the journal thread, if it is still in its loop; [data] is a pointer to
    the variable [server_state] of [main]. *)
Definition journal_thread_step : M process unit :=
  let* p := get_state in
  match pr_thread p with
  | JournalThreadServing =>
      let* continue := serve_journal (pr_state p) in
      if continue : bool then ret tt else modify (set_pr_thread JournalThreadReturned)
  | _ => ret tt
  end.

(** The worker processes have changed the mapping that they share with this process. *)
Definition region_stored (journal : ptr) (region : list byte) : M jmem unit :=
  let* j := load journal in
  store (journal_ptr j) region.

(** What happens while [main] waits: the journal thread takes a turn, or the worker processes,
    whose mutexes are not the one of this process, have left other bytes in the shared mapping.
    A transfer during which they write is one that follows a mapping with the old size field and
    the new entries. *)
Inductive wait_event : Type := Transferred | Stored (region : list byte).

(** [wait(NULL)] returns when a worker process ends, if one does ([ended]). *)
Fixpoint sys_wait (events : list wait_event) (ended : bool) : M process unit :=
  match events with
  | [] => if ended then ret tt else blocked
  | Transferred :: events => journal_thread_step ;; sys_wait events ended
  | Stored region :: events =>
      let* p := get_state in
      on_server (lift_journal (region_stored (st_journal (pr_state p)) region)) ;;
      sys_wait events ended
  end.

(** Lines 193-197: [k] workers are left to be forked, from number [i] on. *)
Fixpoint fork_workers (rounds : list (Z * list (list thread_turn))) (k : nat) (i : Z) : M process unit :=
  match k with
  | O => ret tt
  | S k =>
      let* p := get_state in
      let st := pr_state p in
      modify (set_pr_state (ServerState (num_workers st) (SERVER_BASE_PORT + i) (st_journal st)
                              (server_addr st) (unix_socket_path st))) ;;
      let* p := get_state in
      safe_process_create sys_fork (λ sp, on_server (worker_process_job rounds (pr_state p) sp))
        WorkerProcessClear ;;
      fork_workers rounds k (i + 1)
  end.

Definition HELLO : list byte := cstring "Hello from server journal"%string ++ [NL].

Definition server_main (rounds : list (Z * list (list thread_turn))) (events : list wait_event) (ended : bool)
    : M process Z :=
  let* j := on_server (lift_journal (journal_create SERVER_MAX_JOURNAL_SIZE)) in
  modify (λ p, set_pr_server (set_sv_journal j (pr_server p)) p) ;;
  match j with
  | None => ret EXIT_FAILURE
  | Some _ =>
      on_server (lift_journal (journal_write j (Some HELLO) (Z.of_nat (length HELLO)))) ;;
      modify (set_pr_state (ServerState (Z.of_nat SERVER_NUM_WORKERS) SERVER_BASE_PORT j SERVER_ADDR
                              SERVER_UNIX_SOCKET_PATH)) ;;
      fork_workers rounds SERVER_NUM_WORKERS 0 ;;
      let* created := on_server fallible in
      if negb created then exit_with EXIT_FAILURE else
      modify (set_pr_thread JournalThreadServing) ;;
      sys_wait events ended ;;
      on_server (lift_journal (journal_delete j)) ;;
      ret EXIT_SUCCESS
  end.

#[global] Arguments worker_startup : simpl never.
#[global] Arguments worker_loop : simpl never.
#[global] Arguments worker_process_job : simpl never.
#[global] Arguments journal_transfer_run_receiver : simpl never.

(** ** The worker process starts *)

(** A process in which nothing fails, with a usable journal and no worker yet. *)
Record ready (s : server) (j : loc) (jcap : Z) (log : list byte) : Prop := {
  rd_fresh : server_fresh s;
  rd_faults : m_faults (n_mem (sv_net s)) = [];
  rd_inputs : inputs_ok (sv_net s);
  rd_rest : rest_at s j jcap log;
}.

Lemma worker_startup_spec st sp s j jcap log :
  ready s j jcap log → 0 ≤ inet_addr (server_addr st) < 2 ^ 32 →
  ∃ w l ls li lo c sk s', worker_startup st sp s = Ok (Some w, s') ∧
    worker_at s' w l (Some WorkerOnMessage) true c sk ls li lo SERVER_MESSAGE_QUEUE_SIZE SERVER_MESSAGE_QUEUE_SIZE [] [] ∧
    rest_at s' j jcap log ∧ n_in (sv_net s') = n_in (sv_net s) ∧
    n_log (sv_net s') = n_log (sv_net s) ++ [EvBind (fd sk) (outcoming_addr sk)] ∧
    sin_port (outcoming_addr sk) = htons (base_server_port st mod 2 ^ 16) ∧
    sin_addr (outcoming_addr sk) = inet_addr (server_addr st) ∧ ¬ (fd sk ∈ n_fds (sv_net s)).
Proof.
  intros [Hfr Hf Hi Hr] Ha. unfold worker_startup.
  assert (Hp : 0 ≤ base_server_port st mod 2 ^ 16 < 2 ^ 16) by (apply Z.mod_pos_bound; lia).
  set (port := base_server_port st mod 2 ^ 16) in *.
  destruct (server_worker_create_one s _ port Hfr Ha Hp) as [[Hbad _]|(fs & sk & Hfs & Ht & E1)];
    [by left|done|]. rewrite (spent_nil _ _ _ Hfs Hf) in E1.
  pose proof (created_worker_at s sk _ port Hfr Ha Hp Ht) as Hwa. simpl in Hwa.
  rewrite (bind_ok _ _ _ _ _ E1). cbn match. set (w := m_next (n_mem (sv_net s))) in *.
  erewrite bind_ok by (by eapply set_on_message_at).
  pose proof (worker_at_set _ _ _ _ _ _ (Some WorkerOnMessage) _ _ _ _ _ _ _ _ Hwa) as Hwa1.
  destruct (server_worker_start_at _ _ _ _ _ _ _ _ _ _ _ _ _ Hwa1) as (c' & E3 & Hwa2 & _).
  rewrite (bind_ok _ _ _ _ _ E3), bool_decide_eq_false_2 by (by intros []).
  destruct (timed_facts _ _ Ht) as (_ & Hfd & Ho).
  eexists w, _, _, _, _, c', sk, _. split; [done|]. split; [exact Hwa2|].
  split; [by do 3 apply rest_at_with_worker|].
  split_and!; [done|simpl; by rewrite !app_nil_r|by rewrite Ho|by rewrite Ho|rewrite Hfd; apply fresh_fd_fresh].
Qed.

(** ** Rounds of the worker process *)
Section Rounds.
Context (w l : loc) (c : net_connection_t) (d : Z) (ls li lo : loc) (capi capo : Z) (sp : safe_process_t cleaner).
Hypothesis (Hthreads : threads_ok c) (Hflags : flags c = (true, true)) (Hd : 0 ≤ d).
Let f := Some WorkerOnMessage.

(** The check of the parent: the process ends in order, or nothing happens. *)
Lemma check_status_spec s xs ys ppid :
  worker_inv server_inv w l f c d ls li lo capi capo s xs ys →
  (ppid = 1 ∧ safe_process_check_status call_cleaner ppid sp (Some w) s = Exited EXIT_SUCCESS) ∨
  safe_process_check_status call_cleaner ppid sp (Some w) s = Ok (SAFE_PROCESS_OK, s).
Proof using Hthreads Hflags Hd.
  intros [Hw [(sk & Hat & Hfd) _ Hf _] _]. unfold safe_process_check_status.
  destruct (Z.eqb_spec ppid 1) as [->|]; [left|by right]. split; [done|].
  unfold safe_process_delete_this. destruct sp as [pid []]. cbn [clear_process_before_death call_cleaner].
  unfold worker_process_clear, bind.
  rewrite (server_worker_delete_at w l ls li lo f true sk capi capo xs ys c s); [done|].
  split; try done. lia.
Qed.

Lemma worker_loop_safe rounds : ∀ s xs ys,
  worker_inv server_inv w l f c d ls li lo capi capo s xs ys →
  worker_loop rounds (Some w) sp s = NoFuel ∨
  worker_loop rounds (Some w) sp s = Exited EXIT_SUCCESS ∧ Exists (λ r, r.1 = 1) rounds.
Proof using Hthreads Hflags Hd.
  induction rounds as [|[ppid turns] rounds IH]; intros s xs ys Hi; [by left|].
  unfold worker_loop; fold worker_loop.
  destruct (check_status_spec s xs ys ppid Hi) as [[-> E]|E].
  { right. unfold bind at 1. rewrite E. split; [done|by left]. }
  rewrite (bind_ok _ _ _ _ _ E). unfold thread_steps.
  erewrite bind_ok; [|erewrite bind_ok; [|apply load_ok; apply Hi]; done]. cbn [w_connection].
  destruct (update_loop_inv call_callback server_inv w l f c d ls li lo capi capo turns s xs ys 0 100 Hi)
    as [E'|(s1 & xs1 & ys1 & E' & Hi1)].
  { left. unfold bind at 1, server_worker_update. by rewrite E'. }
  erewrite bind_ok; [|exact E'].
  set (n2 := with_log (n_log (sv_net s1) ++ [EvSleep 1]) (sv_net s1)).
  assert (Hi2 : worker_inv server_inv w l f c d ls li lo capi capo (set_sv_net n2 s1) xs1 ys1).
  { destruct Hi1 as [? [(sk & Hat & ?) ? ? ?] (j & cap & log & [])]. split; [done| |by exists j, cap, log].
    split; try done. exists sk. split; [|done]. by destruct Hat. }
  erewrite bind_ok; [|by apply lift_net_ok].
  destruct (IH _ _ _ Hi2) as [?|[? ?]]; [by left|right]. split; [done|by right].
Qed.
End Rounds.

(** A worker process never returns from its job. *)
Lemma worker_loop_never_returns rounds worker sp s r :
  worker_loop rounds worker sp s ≠ Ok r.
Proof.
  revert s. induction rounds as [|[ppid turns] rounds IH]; intros s; [done|]. unfold worker_loop; fold worker_loop.
  destruct r as [[] s']. intros (? & ? & _ & (? & ? & _ & (? & ? & _ & (? & ? & _ & E)%bind_inv)%bind_inv)%bind_inv)%bind_inv.
  by eapply IH.
Qed.

Lemma worker_process_job_safe rounds st sp s j jcap log :
  ready s j jcap log → 0 ≤ inet_addr (server_addr st) < 2 ^ 32 →
  worker_process_job rounds st sp s = NoFuel ∨
  worker_process_job rounds st sp s = Exited EXIT_SUCCESS ∧ Exists (λ r, r.1 = 1) rounds.
Proof.
  intros Hr Ha. pose proof Hr as [_ _ Hi _]. unfold worker_process_job.
  destruct (worker_startup_spec st sp s j jcap log Hr Ha) as (w & l & ls & li & lo & c & sk & s' & E & Hwa & Hrest & Ein & _).
  rewrite (bind_ok _ _ _ _ _ E). destruct Hwa as [Hw Hat Ht Hfl Hfd Hf].
  eapply worker_loop_safe; [exact Ht|exact Hfl|exact Hfd|].
  split; [exact Hw| |by exists j, jcap, log].
  split; [by exists sk|by vm_compute|done|]. unfold inputs_ok. simpl. by rewrite Ein.
Qed.

(** ** [main] *)

(** A server process before its first statement: nothing fails. *)
Record boot (p : process) : Prop := {
  bt_fresh : server_fresh (pr_server p);
  bt_faults : m_faults (n_mem (sv_net (pr_server p))) = [];
  bt_inputs : inputs_ok (sv_net (pr_server p));
  bt_jheap : jheap_ok (sv_jmem (pr_server p));
  bt_jfaults : j_faults (sv_jmem (pr_server p)) = [];
  bt_counters : counters_ok (p_fs (sv_proc (pr_server p)));
}.

(** [server_state] when worker number [i] is forked. *)
Definition state_of (j : loc) (i : Z) : server_state_t :=
  ServerState (Z.of_nat SERVER_NUM_WORKERS) (SERVER_BASE_PORT + i) (Some j) SERVER_ADDR SERVER_UNIX_SOCKET_PATH.

(** The program after the journal and [server_state] are set up. *)
Definition main_rest (rounds : list (Z * list (list thread_turn))) (events : list wait_event) (ended : bool)
    (j : loc) : M process Z :=
  fork_workers rounds SERVER_NUM_WORKERS 0 ;;
  let* created := on_server fallible in
  if negb created then exit_with EXIT_FAILURE else
  modify (set_pr_thread JournalThreadServing) ;;
  sys_wait events ended ;;
  on_server (lift_journal (journal_delete (Some j))) ;;
  ret EXIT_SUCCESS.

Lemma main_prefix p rounds events ended :
  boot p →
  ∃ j p1, server_main rounds events ended p = main_rest rounds events ended j p1 ∧
    ready (pr_server p1) j SERVER_MAX_JOURNAL_SIZE HELLO ∧ pr_state p1 = state_of j 0 ∧
    pr_forks p1 = pr_forks p ∧ pr_xfer p1 = pr_xfer p ∧
    sv_net (pr_server p1) = sv_net (pr_server p) ∧
    j_journals (sv_jmem (pr_server p)) !! j = None.
Proof.
  intros [Hfr Hf Hi Hj Hjf Hc]. unfold server_main.
  destruct (journal_create_spec SERVER_MAX_JOURNAL_SIZE (sv_jmem (pr_server p)) Hj) as (q & m1 & E1 & Hj1 & Hf1 & Hq);
    [by vm_compute|]. destruct (Hf1 Hjf) as [Hjf1 Hsome].
  destruct q as [j|]; [|by destruct (Hsome ltac:(done))].
  destruct Hq as (_ & Hnew & Hat1).
  destruct (journal_write_log m1 j SERVER_MAX_JOURNAL_SIZE [] HELLO Hat1 Hjf1) as (m2 & E2 & Hat2 & Hjf2); [by vm_compute|].
  erewrite bind_ok; [|apply lift_ok, lift_ok; exact E1]. erewrite bind_ok by done.
  erewrite bind_ok; [|apply lift_ok, lift_ok; exact E2]. erewrite bind_ok by done.
  eexists j, _. split; [done|]. split_and!; try done. split; try done. by destruct Hfr.
Qed.

(** ** [fork] *)

(** The environment of [fork] is all that a run has consumed; the port moves on. *)
Definition forked (p p' : process) (rest : list Z) : Prop :=
  pr_server p' = pr_server p ∧ pr_xfer p' = pr_xfer p ∧ pr_forks p' = rest ∧
  ∃ port, pr_state p' = ServerState (num_workers (pr_state p)) port (st_journal (pr_state p))
                          (server_addr (pr_state p)) (unix_socket_path (pr_state p)).

Lemma sys_fork_ok p pid rest : pr_forks p = pid :: rest → sys_fork p = Ok (pid, set_pr_forks rest p).
Proof. intros E. unfold sys_fork, bind, get_state. by rewrite E. Qed.

Lemma fork_workers_pids rounds k pids rest : ∀ i p,
  pr_forks p = pids ++ rest → Forall (Z.lt 0) pids →
  ∃ p', fork_workers rounds (length pids + k) i p = fork_workers rounds k (i + Z.of_nat (length pids)) p' ∧
    forked p p' rest.
Proof.
  induction pids as [|pid pids IH]; intros i p Hp Hpos.
  { exists p. rewrite Z.add_0_r. split; [done|]. split_and!; try done. exists (base_server_port (pr_state p)).
    by destruct (pr_state p). }
  apply Forall_cons in Hpos as [Hpid Hpos]. simpl. unfold bind at 1, get_state at 1. erewrite bind_ok by done.
  unfold bind at 1, get_state at 1. set (p1 := set_pr_state _ p).
  erewrite bind_ok.
  2: { unfold safe_process_create. erewrite bind_ok; [|apply sys_fork_ok; exact Hp].
       destruct (Z.ltb_spec pid 0); [lia|]. destruct (Z.eqb_spec pid 0); [lia|]. done. }
  destruct (IH (i + 1) (set_pr_forks (pids ++ rest) p1) eq_refl Hpos) as (p' & E & Hs & Hx & Hf & port & Hst).
  exists p'. split; [etransitivity; [exact E|f_equal; lia]|]. split_and!; try done. by exists port.
Qed.

(** The next [fork] decides which process this is. *)
Lemma fork_workers_next rounds k i p pid rest :
  pr_forks p = pid :: rest → pid ≤ 0 →
  ∃ p1, forked p p1 rest ∧ base_server_port (pr_state p1) = SERVER_BASE_PORT + i ∧
    fork_workers rounds (S k) i p
    = if pid <? 0 then Exited EXIT_FAILURE
      else bind (on_server (worker_process_job rounds (pr_state p1) (SafeProcess pid WorkerProcessClear)))
             (λ _, fork_workers rounds k (i + 1)) p1.
Proof.
  intros Hp Hle. simpl. unfold bind at 1, get_state at 1. erewrite bind_ok by done.
  unfold bind at 1, get_state at 1. set (p0 := set_pr_state _ p).
  exists (set_pr_forks rest p0). split; [split_and!; try done; by eexists|]. split; [done|].
  unfold safe_process_create, bind at 1 2. rewrite (sys_fork_ok p0 pid rest Hp).
  destruct (Z.ltb_spec pid 0) as [|Hge]; [done|]. replace pid with 0 by lia. unfold bind. simpl.
  by destruct (on_server _ _) as [[]|?| |?|].
Qed.

(** ** While [main] waits *)

(** What the journal thread sends, for a journal with the entries [log] at first, when the sends
    take the numbers of bytes [takes] (and everything when this list is used up). *)
Fixpoint served (takes : list nat) (log : list byte) (events : list wait_event) : list (list byte) :=
  match events with
  | [] => []
  | Transferred :: events =>
      (match takes with [] => log | k :: _ => take k log end) :: served (tail takes) log events
  | Stored region :: events => served takes (log_in region) events
  end.

(** The size field of the mapping always points into it ([any_mutex_keeps_journal] of
    [JournalShared]). *)
Definition regions_ok (events : list wait_event) : Prop :=
  Forall (λ e, match e with Transferred => True | Stored region => region_ok SERVER_MAX_JOURNAL_SIZE region end) events.

(** The state of the parent while it waits. *)
Record waiting (p : process) (j : loc) (log : list byte) : Prop := {
  wt_at : journal_at (sv_jmem (pr_server p)) j SERVER_MAX_JOURNAL_SIZE log;
  wt_faults : j_faults (sv_jmem (pr_server p)) = [];
  wt_journal : sv_journal (pr_server p) = Some j;
  wt_state : st_journal (pr_state p) = Some j;
  wt_path : (length (unix_socket_path (pr_state p)) ≤ SUN_PATH_MAX)%nat;
  wt_thread : pr_thread p = JournalThreadServing;
}.

Lemma journal_turn_ok p j log :
  waiting p j log →
  ∃ p', journal_thread_step p = Ok (tt, p') ∧ waiting p' j log ∧
    x_sent (pr_xfer p') = x_sent (pr_xfer p) ++ [match x_takes (pr_xfer p) with [] => log | k :: _ => take k log end] ∧
    x_takes (pr_xfer p') = tail (x_takes (pr_xfer p)) ∧ x_fds (pr_xfer p') = x_fds (pr_xfer p) ∧
    pr_state p' = pr_state p.
Proof.
  intros [Hat Hf Hj Est Hlen Hth]. unfold journal_thread_step, bind at 1, get_state. cbv beta iota. rewrite Hth.
  unfold serve_journal. rewrite Est.
  destruct (run_receiver_cases (unix_socket_path (pr_state p)) (xfer_of p) j SERVER_MAX_JOURNAL_SIZE log Hat)
    as (r & x' & E & _ & _ & _ & Hok).
  destruct (Hok Hf ltac:(done) Hlen) as (-> & Hjm & Hfds & _ & Hsent & Htk).
  unfold taken in Hsent. simpl in Hsent, Htk, Hfds.
  erewrite bind_ok by (erewrite bind_ok by (apply lift_ok; exact E); done).
  eexists. split; [done|]. split; [split; simpl; rewrite ?Hjm; done|].
  split; [|done]. simpl. rewrite Hsent. do 2 f_equal. destruct (x_takes (pr_xfer p)) as [|k ks]; [by apply take_ge|].
  destruct (decide (k ≤ length log)%nat); [by rewrite Nat.min_l|rewrite Nat.min_r, !take_ge by lia; done].
Qed.

Lemma region_stored_ok m j log region :
  journal_at m j SERVER_MAX_JOURNAL_SIZE log → region_ok SERVER_MAX_JOURNAL_SIZE region →
  ∃ m', region_stored (Some j) region m = Ok (tt, m') ∧
    journal_at m' j SERVER_MAX_JOURNAL_SIZE (log_in region) ∧ j_faults m' = j_faults m.
Proof.
  intros (q & rest & Hj & Hq & _ & Hcap) Hok. destruct (region_log_in _ _ Hok) as (rest' & Er & Hl).
  eexists. split; [unfold region_stored; erewrite bind_ok by (apply load_ok; exact Hj); cbn [journal_ptr]; eapply store_ok; exact Hq|].
  split; [|done]. exists q, rest'. split; [done|]. split; [|done]. rewrite <- Er. apply lookup_insert_eq.
Qed.

Lemma sys_wait_serves j ended events : ∀ p log,
  waiting p j log → regions_ok events →
  ∃ p' log', sys_wait events ended p = (if ended then Ok (tt, p') else Blocked) ∧ waiting p' j log' ∧
    x_sent (pr_xfer p') = x_sent (pr_xfer p) ++ served (x_takes (pr_xfer p)) log events ∧
    x_fds (pr_xfer p') = x_fds (pr_xfer p) ∧ pr_state p' = pr_state p.
Proof.
  induction events as [|[|region] events IH]; intros p log Hw He.
  - exists p, log. rewrite app_nil_r. by destruct ended.
  - apply Forall_cons in He as [_ He]. cbn [sys_wait served].
    destruct (journal_turn_ok p j log Hw) as (p1 & E & Hw1 & Hs & Htk & Hfd & Hst).
    rewrite (bind_ok _ _ _ _ _ E). destruct (IH p1 log Hw1 He) as (p' & log' & E' & Hw' & Hs' & Hfd' & Hst').
    exists p', log'. rewrite Hs', Hs, Htk, Hfd', Hfd, <- app_assoc, Hst', Hst. by split_and!.
  - apply Forall_cons in He as [Hr He]. cbn [sys_wait served]. pose proof Hw as [Hat Hf Hj Est Hlen Hth].
    destruct (region_stored_ok _ _ _ _ Hat Hr) as (m' & E & Hat' & Hf').
    unfold bind at 1, get_state. cbv beta iota. rewrite Est. erewrite bind_ok by (apply lift_ok, lift_ok; exact E).
    destruct (IH (set_pr_server (set_sv_jmem m' (pr_server p)) p) (log_in region)) as (p' & log' & E' & ?);
      [split; simpl; by rewrite ?Hf'|done|]. by exists p', log'.
Qed.

(** How a run ends that does not return. *)
Definition ends_as {A B} (o : outcome A) : outcome B :=
  match o with
  | Ok _ | NoFuel => NoFuel
  | Undefined u => Undefined u
  | Blocked => Blocked
  | Exited code => Exited code
  end.

Lemma worker_process_job_never_returns rounds st sp s r : worker_process_job rounds st sp s ≠ Ok r.
Proof. destruct r as [[] s']. intros (? & ? & _ & E)%bind_inv. by eapply worker_loop_never_returns. Qed.

(** [ready] depends on the server's part of the process only. *)
Lemma forked_state j i p p' rest :
  pr_state p = state_of j i → forked p p' rest →
  pr_state p' = ServerState (Z.of_nat SERVER_NUM_WORKERS) (base_server_port (pr_state p')) (Some j) SERVER_ADDR
                  SERVER_UNIX_SOCKET_PATH.
Proof. intros E (_ & _ & _ & port & ->). by rewrite E. Qed.

Lemma forked_trans p1 p2 p3 r1 r2 : forked p1 p2 r1 → forked p2 p3 r2 → forked p1 p3 r2.
Proof.
  intros (S1 & X1 & _ & port1 & T1) (S2 & X2 & F2 & port2 & T2). split_and!; try congruence.
  exists port2. by rewrite T2, T1.
Qed.

(** The run of [main] up to the first [fork] that does not return a process id. *)
Lemma main_until_fork p rounds events ended pids pid rest :
  boot p → pr_forks p = pids ++ pid :: rest → Forall (Z.lt 0) pids → pid ≤ 0 →
  (length pids < SERVER_NUM_WORKERS)%nat →
  ∃ j p1,
    ready (pr_server p1) j SERVER_MAX_JOURNAL_SIZE HELLO ∧
    pr_state p1 = state_of j (Z.of_nat (length pids)) ∧ sv_net (pr_server p1) = sv_net (pr_server p) ∧
    server_main rounds events ended p
    = if pid <? 0 then Exited EXIT_FAILURE
      else ends_as (worker_process_job rounds (pr_state p1) (SafeProcess pid WorkerProcessClear) (pr_server p1)).
Proof.
  intros Hb Hp Hpos Hpid Hlen.
  destruct (main_prefix p rounds events ended Hb) as (j & p0 & E0 & Hr & Hst & Hf & _ & Hnet & _).
  destruct (fork_workers_pids rounds (S (SERVER_NUM_WORKERS - S (length pids))) pids (pid :: rest) 0 p0)
    as (p1 & E1 & H1); [by rewrite Hf|done|].
  destruct (fork_workers_next rounds (SERVER_NUM_WORKERS - S (length pids)) (0 + Z.of_nat (length pids)) p1 pid rest)
    as (p2 & H2 & Hport & E2); [apply H1|done|].
  pose proof (forked_trans _ _ _ _ _ H1 H2) as H02.
  exists j, p2. split; [|split; [|split]].
  - destruct H02 as (-> & _). exact Hr.
  - rewrite (forked_state _ _ _ _ _ Hst H02), Hport. done.
  - destruct H02 as (-> & _). exact Hnet.
  - rewrite E0. unfold main_rest, bind at 1.
    replace SERVER_NUM_WORKERS with (length pids + S (SERVER_NUM_WORKERS - S (length pids)))%nat at 1 by lia.
    rewrite E1, E2. destruct (pid <? 0); [done|]. unfold bind at 1, on_server at 1, lift.
    destruct (worker_process_job _ _ _ _) as [r|?| |?|] eqn:Ej; try done.
    by apply worker_process_job_never_returns in Ej.
Qed.

(** ** Properties *)

(** C7: the worker processes.  In the process in which [fork] returns 0 after [i < 5] process ids,
    [main] runs a worker on port [5000 + i] of the loopback address: its socket is bound to that
    address, the only call of [bind] so far, both threads run, the queues are empty, the handler is [worker_on_message] and the journal holds the greeting.  From there
    the process stays in its loop for ever, whatever datagrams arrive and however the threads
    interleave, without undefined behaviour: it ends only with success, only if a check found its
    parent gone, and at once if the first check does. *)
Theorem worker_process_runs p rounds events ended pids rest :
  boot p → pr_forks p = pids ++ 0 :: rest → Forall (Z.lt 0) pids → (length pids < SERVER_NUM_WORKERS)%nat →
  let sp := SafeProcess 0 WorkerProcessClear in
  ∃ s w l ls li lo c sk j,
    worker_at s w l (Some WorkerOnMessage) true c sk ls li lo SERVER_MESSAGE_QUEUE_SIZE SERVER_MESSAGE_QUEUE_SIZE [] [] ∧
    rest_at s j SERVER_MAX_JOURNAL_SIZE HELLO ∧
    sin_port (outcoming_addr sk) = htons (SERVER_BASE_PORT + Z.of_nat (length pids)) ∧
    sin_addr (outcoming_addr sk) = LOOPBACK ∧
    n_log (sv_net s) = n_log (sv_net (pr_server p)) ++ [EvBind (fd sk) (outcoming_addr sk)] ∧
    server_main rounds events ended p = ends_as (worker_loop rounds (Some w) sp s) ∧
    (server_main rounds events ended p = NoFuel ∨
     server_main rounds events ended p = Exited EXIT_SUCCESS ∧ Exists (λ round, round.1 = 1) rounds) ∧
    (match rounds with (1, _) :: _ => server_main rounds events ended p = Exited EXIT_SUCCESS | _ => True end).
Proof.
  intros Hb Hp Hpos Hlen sp.
  destruct (main_until_fork p rounds events ended pids 0 rest Hb Hp Hpos ltac:(done) Hlen) as (j & p1 & Hr & Hst & Hnet & E).
  cbn match in E. fold sp in E. pose proof Hr as [_ _ Hi _].
  assert (Ha : 0 ≤ inet_addr (server_addr (pr_state p1)) < 2 ^ 32) by (rewrite Hst; by vm_compute).
  destruct (worker_startup_spec (pr_state p1) sp _ j _ _ Hr Ha)
    as (w & l & ls & li & lo & c & sk & s' & Ew & Hwa & Hrest & Ein & Hlog & Hport & Haddr & _).
  unfold worker_process_job in E. rewrite (bind_ok _ _ _ _ _ Ew) in E. pose proof Hwa as [Hw Hat Ht Hfl Hfd Hf].
  assert (Hinv : worker_inv server_inv w l (Some WorkerOnMessage) c (fd sk) ls li lo
                   SERVER_MESSAGE_QUEUE_SIZE SERVER_MESSAGE_QUEUE_SIZE s' [] []).
  { split; [exact Hw| |by exists j, SERVER_MAX_JOURNAL_SIZE, HELLO].
    split; [by exists sk|by vm_compute|done|]. unfold inputs_ok. simpl. by rewrite Ein. }
  exists s', w, l, ls, li, lo, c, sk, j. split; [exact Hwa|]. split; [exact Hrest|].
  rewrite Hport, Haddr, Hst. split; [f_equal; simpl; apply Z.mod_small; unfold SERVER_BASE_PORT, SERVER_NUM_WORKERS in *; lia|].
  split; [apply inet_addr_loopback|]. split; [by rewrite Hlog, Hnet|]. split; [exact E|]. rewrite E. split.
  - destruct (worker_loop_safe w l c (fd sk) ls li lo _ _ sp Ht Hfl Hfd rounds s' [] [] Hinv) as [->|[-> ?]]; auto.
  - destruct rounds as [|[ppid turns] rounds]; [done|]. destruct ppid as [|[]|]; try done.
    unfold worker_loop; fold worker_loop. unfold bind.
    destruct (check_status_spec w l c (fd sk) ls li lo _ _ sp Ht Hfl Hfd s' [] [] 1 Hinv) as [[_ ->]|Ebad]; [done|].
    unfold safe_process_check_status in Ebad. by apply bind_inv in Ebad as (? & ? & (? & ? & _ & ?)%bind_inv & _).
Qed.

(** The parent after its last [fork]. *)
Lemma main_parent_waits p rounds events ended pids rest :
  boot p → pr_forks p = pids ++ rest → Forall (Z.lt 0) pids → length pids = SERVER_NUM_WORKERS →
  ∃ j p1, waiting p1 j HELLO ∧ pr_xfer p1 = pr_xfer p ∧
    server_main rounds events ended p
    = (sys_wait events ended ;; on_server (lift_journal (journal_delete (Some j))) ;; ret EXIT_SUCCESS) p1.
Proof.
  intros Hb Hp Hpos Hlen.
  destruct (main_prefix p rounds events ended Hb) as (j & p0 & E0 & [_ Hmf _ Hr] & Hst & Hf & Hx & _).
  destruct (fork_workers_pids rounds 0 pids rest 0 p0) as (p1 & E1 & H1); [by rewrite Hf|done|].
  pose proof (forked_state _ _ _ _ _ Hst H1) as Hst1. destruct H1 as (Hs1 & Hx1 & _).
  rewrite Nat.add_0_r, Hlen in E1. exists j, (set_pr_thread JournalThreadServing p1). split.
  - destruct Hr. split; cbn [pr_server pr_state pr_thread set_pr_thread]; rewrite ?Hs1; try done; rewrite Hst1; [done|].
    by vm_compute; lia.
  - split; [simpl; congruence|]. rewrite E0. unfold main_rest. erewrite bind_ok by exact E1.
    erewrite bind_ok by (apply lift_ok, fallible_nil; rewrite Hs1; exact Hmf). cbn [negb].
    erewrite bind_ok by done. by destruct p1 as [[] ? ? ? ?].
Qed.

(** The end of the parent. *)
Lemma main_parent_ends p rounds events pids rest :
  boot p → pr_forks p = pids ++ rest → Forall (Z.lt 0) pids → length pids = SERVER_NUM_WORKERS → regions_ok events →
  ∃ p' j, server_main rounds events true p = Ok (EXIT_SUCCESS, p') ∧
    x_sent (pr_xfer p') = x_sent (pr_xfer p) ++ served (x_takes (pr_xfer p)) HELLO events ∧
    x_fds (pr_xfer p') = x_fds (pr_xfer p) ∧
    sv_journal (pr_server p') = Some j ∧ st_journal (pr_state p') = Some j ∧
    (length (unix_socket_path (pr_state p')) ≤ SUN_PATH_MAX)%nat ∧ pr_thread p' = JournalThreadServing ∧
    j_journals (sv_jmem (pr_server p')) !! j = None ∧ j_faults (sv_jmem (pr_server p')) = [].
Proof.
  intros Hb Hp Hpos Hlen He.
  destruct (main_parent_waits p rounds events true pids rest Hb Hp Hpos Hlen) as (j & p1 & Hw & Hx & E1).
  destruct (sys_wait_serves j true events p1 HELLO Hw He) as (p2 & log & E & [Hat Hf Hjn Hsj Hpath Hth] & Hs & Hfd & _).
  destruct (journal_delete_ok _ _ _ _ Hat Hf) as (m' & Ed & Hj & Hf').
  eexists _, j. split; [rewrite E1, (bind_ok _ _ _ _ _ E); erewrite bind_ok by (apply lift_ok, lift_ok; exact Ed); done|].
  simpl. rewrite Hs, Hfd, Hx. by split_and!.
Qed.

(** C8: the parent.  If every [fork] returns a process id, [main] starts the journal thread and
    waits.  Whatever bytes the worker processes leave in the shared mapping meanwhile, as long as
    its size field points into it, each transfer sends the entries of the mapping as it is then,
    the greeting at first: all of them, or the beginning that a short [send] takes; it leaves no
    descriptor open.  As long as no worker process ends, the program waits; when one does, it
    deletes the journal and ends with success. *)
Theorem server_main_parent p rounds events pids rest :
  boot p → pr_forks p = pids ++ rest → Forall (Z.lt 0) pids → length pids = SERVER_NUM_WORKERS → regions_ok events →
  server_main rounds events false p = Blocked ∧
  ∃ p' j, ⟦ server_main rounds events true ⟧ p ⇓ EXIT_SUCCESS, p' ∧
    x_sent (pr_xfer p') = x_sent (pr_xfer p) ++ served (x_takes (pr_xfer p)) HELLO events ∧
    x_fds (pr_xfer p') = x_fds (pr_xfer p) ∧
    sv_journal (pr_server p') = Some j ∧ j_journals (sv_jmem (pr_server p')) !! j = None.
Proof.
  intros Hb Hp Hpos Hlen He. split.
  - destruct (main_parent_waits p rounds events false pids rest Hb Hp Hpos Hlen) as (j & p1 & Hw & _ & ->).
    destruct (sys_wait_serves j false events p1 HELLO Hw He) as (p2 & log & E & _). unfold bind. by rewrite E.
  - destruct (main_parent_ends p rounds events pids rest Hb Hp Hpos Hlen He) as (p' & j & E & Hs & Hfd & Hj & _ & _ & _ & Hn & _).
    by exists p', j.
Qed.

(** A process in which [fork] will return [forks] and the sends take [takes]. *)
Definition demo_process (forks : list Z) (takes : list nat) : process :=
  Process (Server net0 ∅ jmem0 None (demo_proc (cstring "bash"%string)) (Tm 125 2 9 8 5 30))
    (ServerState 0 0 None [] []) (with_sent takes [] xfer0) forks JournalThreadNone.

Lemma demo_process_boot forks takes : boot (demo_process forks takes).
Proof. split; try done. apply demo_counters. Qed.

(** The third worker, once while its parent lives and once when it is gone. *)
Lemma worker_process_runs_witness :
  server_main [(100, [[TurnReceive; TurnSend]; []])] [] true (demo_process [101; 102; 0] []) = NoFuel ∧
  server_main [(1, [])] [] true (demo_process [101; 102; 0] []) = Exited EXIT_SUCCESS.
Proof.
  split.
  - destruct (worker_process_runs (demo_process [101; 102; 0] []) [(100, [[TurnReceive; TurnSend]; []])] [] true [101; 102] [])
      as (s & w & l & ls & li & lo & c & sk & j & _ & _ & _ & _ & _ & _ & [E|[_ E]] & _);
      [apply demo_process_boot|done|by repeat constructor|unfold SERVER_NUM_WORKERS; simpl; lia|exact E|].
    exfalso. by apply Exists_cons in E as [E|E]; [|inversion E].
  - destruct (worker_process_runs (demo_process [101; 102; 0] []) [(1, [])] [] true [101; 102] [])
      as (s & w & l & ls & li & lo & c & sk & j & _ & _ & _ & _ & _ & _ & _ & E);
      [apply demo_process_boot|done|by repeat constructor|unfold SERVER_NUM_WORKERS; simpl; lia|exact E].
Defined.

(** The greeting is transferred, then the workers have added an entry, of which the next transfer
    sends all but the last byte. *)
Definition demo_region : list byte :=
  region_of (HELLO ++ cstring "abc"%string) (replicate (Z.to_nat (SERVER_MAX_JOURNAL_SIZE - 37)) NUL).
Definition demo_events : list wait_event := [Transferred; Stored demo_region; Transferred].

Lemma demo_events_ok : regions_ok demo_events ∧
  ∀ takes, served takes HELLO demo_events
  = [match takes with [] => HELLO | k :: _ => take k HELLO end;
     match tail takes with [] => HELLO ++ cstring "abc"%string | k :: _ => take k (HELLO ++ cstring "abc"%string) end].
Proof.
  assert (H : region_ok SERVER_MAX_JOURNAL_SIZE demo_region ∧ log_in demo_region = HELLO ++ cstring "abc"%string).
  { apply region_of_ok; [rewrite length_replicate, Z2Nat.id by (by vm_compute); by vm_compute|by vm_compute]. }
  destruct H as [Hok Hlog]. split.
  - unfold regions_ok, demo_events. apply Forall_cons. split; [exact I|]. apply Forall_cons. split; [exact Hok|].
    apply Forall_cons. split; [exact I|apply Forall_nil_2].
  - intros takes. unfold demo_events. cbn [served]. rewrite Hlog. reflexivity.
Qed.
#[local] Opaque demo_region.

Lemma server_main_parent_witness :
  ∃ p' j, ⟦ server_main [] demo_events true ⟧ demo_process [1; 2; 3; 4; 5] [100; 28]%nat ⇓ EXIT_SUCCESS, p' ∧
    x_sent (pr_xfer p') = [HELLO; HELLO ++ cstring "ab"%string] ∧ j_journals (sv_jmem (pr_server p')) !! j = None.
Proof.
  destruct (server_main_parent (demo_process [1; 2; 3; 4; 5] [100; 28]%nat) [] demo_events [1; 2; 3; 4; 5] [])
    as (_ & p' & j & E & Hs & _ & _ & Hj);
    [apply demo_process_boot|done|by repeat constructor|done|apply demo_events_ok|].
  exists p', j. split; [exact E|]. split; [|exact Hj]. rewrite Hs, (proj2 demo_events_ok). by vm_compute.
Defined.

(** C35: the journal thread outlives the journal.  When [wait] has returned, [main] deletes the
    journal and returns, but nothing has stopped or joined the journal thread: in the state in
    which [main] ends with success it is still in its loop, its next pass, if one comes before the
    process is gone, reads freed memory, and so does a transfer whose client was accepted before
    the deletion. *)
Theorem journal_thread_outlives_journal p rounds events pids rest :
  boot p → pr_forks p = pids ++ rest → Forall (Z.lt 0) pids → length pids = SERVER_NUM_WORKERS → regions_ok events →
  ∃ p', ⟦ server_main rounds events true ⟧ p ⇓ EXIT_SUCCESS, p' ∧
    pr_thread p' = JournalThreadServing ∧ journal_thread_step p' = Undefined UB_dangling ∧
    ∀ client_sockfd, on_xfer (send_journal client_sockfd (st_journal (pr_state p'))) p' = Undefined UB_dangling.
Proof.
  intros Hb Hp Hpos Hlen He.
  destruct (main_parent_ends p rounds events pids rest Hb Hp Hpos Hlen He) as (p' & j & E & _ & _ & _ & Hsj & Hpath & Hth & Hj & Hf).
  exists p'. split; [exact E|]. split; [done|]. rewrite Hsj. split.
  - unfold journal_thread_step, bind at 1, get_state. cbv beta iota. rewrite Hth. apply bind_undefined.
    unfold serve_journal. apply bind_undefined. unfold on_xfer, lift. rewrite Hsj. by rewrite run_receiver_dangling.
  - intros d. unfold on_xfer, lift. by rewrite send_journal_dangling.
Qed.

Lemma journal_thread_outlives_journal_witness :
  ∃ p', ⟦ server_main [] demo_events true ⟧ demo_process [1; 2; 3; 4; 5] [] ⇓ EXIT_SUCCESS, p' ∧
    journal_thread_step p' = Undefined UB_dangling.
Proof.
  destruct (journal_thread_outlives_journal (demo_process [1; 2; 3; 4; 5] []) [] demo_events [1; 2; 3; 4; 5] [])
    as (p' & E & _ & Hd & _); [apply demo_process_boot|done|by repeat constructor|done|apply demo_events_ok|].
  exists p'. exact (conj E Hd).
Defined.

(** C34: the failures of [main].  If the journal cannot be created, whatever library call of
    [journal_create] fails, the program ends with failure before any [fork]; if [fork] fails, the
    process ends with failure at once, leaving the workers forked so far running and the journal
    mapped. *)
Theorem server_main_failures p rounds events ended :
  (∀ m', jheap_ok (sv_jmem (pr_server p)) →
    journal_create SERVER_MAX_JOURNAL_SIZE (sv_jmem (pr_server p)) = Ok (None, m') →
    ∃ p', ⟦ server_main rounds events ended ⟧ p ⇓ EXIT_FAILURE, p' ∧ pr_forks p' = pr_forks p ∧
      sv_net (pr_server p') = sv_net (pr_server p) ∧ j_journals (sv_jmem (pr_server p')) = j_journals (sv_jmem (pr_server p))) ∧
  (∀ pids pid rest, boot p → pr_forks p = pids ++ pid :: rest → Forall (Z.lt 0) pids → pid < 0 →
    (length pids < SERVER_NUM_WORKERS)%nat → server_main rounds events ended p = Exited EXIT_FAILURE).
Proof.
  split.
  - intros m' Hh E. destruct (journal_create_spec SERVER_MAX_JOURNAL_SIZE _ Hh) as (q & m & E' & _ & _ & Hq); [by vm_compute|].
    rewrite E in E'. simplify_eq. destruct Hq as [Hj _]. unfold returns, server_main.
    erewrite bind_ok by (apply lift_ok, lift_ok; exact E). eexists. split; [done|]. done.
  - intros pids pid rest Hb Hp Hpos Hpid Hlen.
    destruct (main_until_fork p rounds events ended pids pid rest Hb Hp Hpos) as (j & p1 & _ & _ & _ & ->); [lia|done|].
    by destruct (Z.ltb_spec pid 0); [|lia].
Qed.

Lemma server_main_failures_witness :
  server_main [] [] true (demo_process [101; -1] []) = Exited EXIT_FAILURE.
Proof.
  apply (proj2 (server_main_failures (demo_process [101; -1] []) [] [] true) [101] (-1) []);
    [apply demo_process_boot|done|by repeat constructor|done|unfold SERVER_NUM_WORKERS; simpl; lia].
Defined.
