(* ===== verification/Client.v ===== *)
(** * Client: client/client.c

    A client context holds one connection per server port, each with its own socket and queues.
    Requests are queued on the first connection, or in fuzz mode on every connection; a thread
    polls the connections and prints the answers. *)
From S2P Require Import Prelude Layout Memory Message MessageQueue SocketUdp NetConnection.
From S2P Require Import NetLifecycle NetTurns Format.

Local Open Scope Z_scope.

Inductive client_mode_t : Type := CLIENT_MODE_NORMAL | CLIENT_MODE_FUZZ.
#[export] Instance client_mode_t_eq_dec : EqDecision client_mode_t.
Proof. solve_decision. Defined.

Inductive client_status_t : Type :=
  | CLIENT_STATUS_SUCCESS
  | CLIENT_STATUS_ERROR_NULL_POINTER
  | CLIENT_STATUS_ERROR_CREATE_CONNECTION
  | CLIENT_STATUS_ERROR_START_THREADS
  | CLIENT_STATUS_ERROR_SEND_MESSAGE
  | CLIENT_STATUS_ERROR_RECEIVE_MESSAGE
  | CLIENT_STATUS_ERROR_INVALID_ARGUMENT
  | CLIENT_STATUS_ERROR_THREAD_OPERATION
  | CLIENT_STATUS_ERROR_MEMORY_ALLOC.
#[export] Instance client_status_t_eq_dec : EqDecision client_status_t.
Proof. solve_decision. Defined.

Record client_context_t := Context {
  connections : ptr;         (* an array of connections *)
  server_sockaddrs : ptr;    (* an array of addresses *)
  mode : client_mode_t;
  port_count : Z;
  cl_is_running : bool;
}.

(** The client process; [cl_out] is its standard output. *)
Record client := Client {
  cl_net : net;
  cl_contexts : gmap loc client_context_t;
  cl_arrays : gmap loc (list ptr);
  cl_addrs : gmap loc (list sockaddr_in);
  cl_out : list byte;
}.

Definition set_cl_net (n : net) (s : client) : client :=
  Client n (cl_contexts s) (cl_arrays s) (cl_addrs s) (cl_out s).
Definition set_cl_contexts (h : gmap loc client_context_t) (s : client) : client :=
  Client (cl_net s) h (cl_arrays s) (cl_addrs s) (cl_out s).
Definition set_cl_arrays (h : gmap loc (list ptr)) (s : client) : client :=
  Client (cl_net s) (cl_contexts s) h (cl_addrs s) (cl_out s).
Definition set_cl_addrs (h : gmap loc (list sockaddr_in)) (s : client) : client :=
  Client (cl_net s) (cl_contexts s) (cl_arrays s) h (cl_out s).
Definition set_cl_out (o : list byte) (s : client) : client :=
  Client (cl_net s) (cl_contexts s) (cl_arrays s) (cl_addrs s) o.

#[export] Program Instance client_allocator : Allocator client := {|
  faults_of s := faults_of (cl_net s); set_faults fs s := set_cl_net (set_faults fs (cl_net s)) s;
  next_of s := next_of (cl_net s); set_next p s := set_cl_net (set_next p (cl_net s)) s;
|}.
Next Obligation. by intros [[[]]]. Qed.
Next Obligation. done. Qed.
#[export] Program Instance client_contexts : Store client client_context_t := {|
  heap_of := cl_contexts; set_heap := set_cl_contexts;
|}.
Solve All Obligations with done.
#[export] Program Instance client_arrays : Store client (list ptr) := {|
  heap_of := cl_arrays; set_heap := set_cl_arrays;
|}.
Solve All Obligations with done.
#[export] Program Instance client_addrs : Store client (list sockaddr_in) := {|
  heap_of := cl_addrs; set_heap := set_cl_addrs;
|}.
Solve All Obligations with done.

Definition on_net {A} : M net A → M client A := lift cl_net set_cl_net.
Definition on_mem {A} (m : M mem A) : M client A := on_net (lift_mem m).
Definition printf (text : list byte) : M client unit := modify (λ s, set_cl_out (cl_out s ++ text) s).

(** An array element; an index outside the array is undefined. *)
Definition array_get {T} (a : list T) (i : nat) : M client T := deref UB_bounds (a !! i).
Definition array_set {T} (a : list T) (i : nat) (x : T) : M client (list T) :=
  if bool_decide (i < length a)%nat then ret (<[i := x]> a) else undefined UB_bounds.

(** ** Creating a context *)

(** The error exits of [client_create_context] below the arrays. *)
Definition drop_context (context : ptr) (ctx : client_context_t) : M client ptr :=
  free (list sockaddr_in) (server_sockaddrs ctx) ;;
  free (list ptr) (connections ctx) ;;
  free client_context_t context ;;
  ret None.

(** Lines 58-92: the [k] ports from index [i] on; [false] after an error exit. *)
Fixpoint create_connections (context : ptr) (ctx : client_context_t) (server_addr : Z)
    (ports_arr : list Z) (k i : nat) : M client bool :=
  match k with
  | O => ret true
  | S k =>
      let* usocket := on_net (udp_socket_create (inet_addr (cstring "127.0.0.1"%string)) 0) in
      match usocket with
      | None => drop_context context ctx ;; ret false
      | Some _ =>
          let* st := on_net (udp_socket_bind usocket) in
          if bool_decide (st ≠ UDP_SOCKET_STATUS_SUCCESS) then
            on_net (udp_socket_delete usocket) ;; drop_context context ctx ;; ret false
          else
          let* addrs := load (server_sockaddrs ctx) in
          let* a := array_get addrs i in
          let* port := array_get ports_arr i in
          let* addrs := array_set addrs i (SockAddr AF_INET (htons (port mod 65536)) server_addr (sin_zero a)) in
          store (server_sockaddrs ctx) addrs ;;
          let* incoming_queue := on_mem (message_queue_create 5) in
          let* outgoing_queue := on_mem (message_queue_create 5) in
          let fail :=
            on_mem (message_queue_delete incoming_queue) ;;
            on_mem (message_queue_delete outgoing_queue) ;;
            on_net (udp_socket_delete usocket) ;;
            drop_context context ctx ;; ret false in
          match incoming_queue, outgoing_queue with
          | Some _, Some _ =>
              let* connection := on_net (net_connection_create usocket incoming_queue outgoing_queue 1 1) in
              match connection with
              | None => fail
              | Some _ =>
                  let* conns := load (connections ctx) in
                  let* conns := array_set conns i connection in
                  store (connections ctx) conns ;;
                  create_connections context ctx server_addr ports_arr k (S i)
              end
          | _, _ => fail
          end
      end
  end.

(** An array of [n] addresses with indeterminate content. *)
Definition malloc_addrs (n : nat) : M client ptr :=
  let* s := get_state in
  let m := n_mem (cl_net s) in
  let block := junk_block m (m_next m) (n * sizeof_sockaddr) in
  alloc ((λ i, decode_addr (slice (i * sizeof_sockaddr) sizeof_sockaddr block)) <$> seq 0 n).

(** A [ports_arr] with fewer than [port_count] elements is read beyond its end. *)
Definition client_create_context (m : client_mode_t) (server_addr : Z) (count : Z)
    (ports_arr : option (list Z)) : M client ptr :=
  match ports_arr with
  | None => ret None
  | Some ports =>
      if (server_addr =? 0) || (count <=? 0) then ret None else
      let* context := alloc (Context None None m count false) in
      match context with
      | None => ret None
      | Some _ =>
          let* addrs := malloc_addrs (Z.to_nat count) in
          (* the array of this allocation is never freed; elements are read only after a store *)
          let* _first := alloc (replicate (Z.to_nat count) (None : ptr)) in
          match addrs with
          | None => free client_context_t context ;; ret None
          | Some _ =>
              let* conns := alloc (replicate (Z.to_nat count) (None : ptr)) in
              match conns with
              | None =>
                  free (list sockaddr_in) addrs ;; free client_context_t context ;; ret None
              | Some _ =>
                  let ctx := Context conns addrs m count false in
                  store context ctx ;;
                  let* created := create_connections context ctx server_addr ports (Z.to_nat count) 0 in
                  ret (if created then context else None)
              end
          end
      end
  end.

(** ** Running *)

(** A loop over the connections with index below [port_count]. *)
Fixpoint for_connections (ctx : client_context_t) (k i : nat) (body : ptr → M client bool) : M client bool :=
  match k with
  | O => ret true
  | S k =>
      let* conns := load (connections ctx) in
      let* connection := array_get conns i in
      let* continue := body connection in
      if continue : bool then for_connections ctx k (S i) body else ret false
  end.

Definition client_start (context : ptr) : M client client_status_t :=
  match context with
  | None => ret CLIENT_STATUS_ERROR_NULL_POINTER
  | Some _ =>
      let* ctx := load context in
      if cl_is_running ctx then ret CLIENT_STATUS_SUCCESS else
      let* started := for_connections ctx (Z.to_nat (port_count ctx)) 0 (λ connection,
        let* st := on_net (net_connection_start_receiving connection) in
        if bool_decide (st ≠ NET_CONNECTION_STATUS_SUCCESS) then ret false else
        let* st := on_net (net_connection_start_sending connection) in
        ret (bool_decide (st = NET_CONNECTION_STATUS_SUCCESS))) in
      if negb started then ret CLIENT_STATUS_ERROR_START_THREADS else
      store context (Context (connections ctx) (server_sockaddrs ctx) (mode ctx) (port_count ctx) true) ;;
      ret CLIENT_STATUS_SUCCESS
  end.

Definition client_stop (context : ptr) : M client client_status_t :=
  match context with
  | None => ret CLIENT_STATUS_ERROR_NULL_POINTER
  | Some _ =>
      let* ctx := load context in
      if negb (cl_is_running ctx) then ret CLIENT_STATUS_SUCCESS else
      for_connections ctx (Z.to_nat (port_count ctx)) 0 (λ connection,
        on_net (net_connection_stop_receiving connection) ;;
        on_net (net_connection_stop_sending connection) ;;
        ret true) ;;
      store context (Context (connections ctx) (server_sockaddrs ctx) (mode ctx) (port_count ctx) false) ;;
      ret CLIENT_STATUS_SUCCESS
  end.

Definition client_delete_context (context : ptr) : M client unit :=
  match context with
  | None => ret tt
  | Some _ =>
      client_stop context ;;
      let* ctx := load context in
      for_connections ctx (Z.to_nat (port_count ctx)) 0 (λ connection,
        on_net (net_connection_delete connection) ;; ret true) ;;
      free (list sockaddr_in) (server_sockaddrs ctx) ;;
      free (list ptr) (connections ctx) ;;
      free client_context_t context
  end.

(** The bytes of a [pid_t]. *)
Definition encode_pid (pid : Z) : list byte := le_split 4 (pid mod 2 ^ 32).

(** Lines 192-209: the request on connection [i]. *)
Definition send_pid_on (ctx : client_context_t) (pid : Z) (i : nat) : M client client_status_t :=
  let* message := on_mem (message_create MESSAGE_TYPE_PID 4) in
  match message with
  | None => ret CLIENT_STATUS_ERROR_MEMORY_ALLOC
  | Some _ =>
      let* addrs := load (server_sockaddrs ctx) in
      let* addr := array_get addrs i in
      let* msg := on_mem (load message) in
      on_mem (store message
        (Message (set_owner_addr addr (set_length 4 (set_type MESSAGE_TYPE_PID (header msg)))) (data msg))) ;;
      on_mem (message_write message (Some (encode_pid pid)) 4) ;;
      let* conns := load (connections ctx) in
      let* connection := array_get conns i in
      let* st := on_net (net_connection_send connection message) in
      if bool_decide (st ≠ NET_CONNECTION_STATUS_SUCCESS) then ret CLIENT_STATUS_ERROR_SEND_MESSAGE
      else ret CLIENT_STATUS_SUCCESS
  end.

(** The loop of [client_send_pid_message]: [k] connections are left. *)
Fixpoint send_pid_loop (ctx : client_context_t) (pid : Z) (k i : nat) : M client client_status_t :=
  match k with
  | O => ret CLIENT_STATUS_SUCCESS
  | S k =>
      if bool_decide (i = 0%nat ∨ mode ctx = CLIENT_MODE_FUZZ) then
        let* st := send_pid_on ctx pid i in
        if bool_decide (st = CLIENT_STATUS_SUCCESS) then send_pid_loop ctx pid k (S i) else ret st
      else ret CLIENT_STATUS_SUCCESS
  end.

Definition client_send_pid_message (context : ptr) (pid : Z) : M client client_status_t :=
  match context with
  | None => ret CLIENT_STATUS_ERROR_NULL_POINTER
  | Some _ =>
      let* ctx := load context in
      let* st := send_pid_loop ctx pid (Z.to_nat (port_count ctx)) 0 in
      if bool_decide (st = CLIENT_STATUS_SUCCESS)
      then on_net (sleep 1) ;; ret CLIENT_STATUS_SUCCESS else ret st
  end.

(** [printf("%s", message->data)]: the bytes up to the first NUL; a block without one is read
    beyond its end. *)
Definition print_message (message : ptr) : M client unit :=
  let* msg := on_mem (load message) in
  let* block := on_mem (load (data msg)) in
  let* text := deref UB_bounds (c_str block) in
  printf (cstring "Received message: "%string ++ text ++ [NL]).

(** Lines 244-248: one connection. *)
Definition print_one (connection : ptr) : M client bool :=
  let* message := on_net (net_connection_receive_nonblocking connection) in
  match message with
  | Some _ => print_message message ;; ret true
  | None => ret true
  end.

(** Lines 242-249: one pass over the connections. *)
Definition print_pass (context : ptr) : M client unit :=
  let* ctx := load context in
  for_connections ctx (Z.to_nat (port_count ctx)) 0 print_one ;;
  ret tt.

(** The printing thread never ends; [fuel] bounds its passes. *)
Fixpoint print_received_messages (fuel : nat) (context : ptr) : M client unit :=
  match fuel with
  | O => no_fuel
  | S fuel => print_pass context ;; on_net (sleep 1) ;; print_received_messages fuel context
  end.

Definition print_ints (zs : list Z) : list byte := concat ((λ z, print_int z ++ [SP]) <$> zs).
Definition client_print_config (server_addr : list byte) (m : client_mode_t) (ports pids : list Z) : M client unit :=
  printf (cstring "Server Address: "%string ++ server_addr ++ [NL]) ;;
  printf (cstring "Mode: "%string ++ cstring (match m with CLIENT_MODE_FUZZ => "fuzz" | CLIENT_MODE_NORMAL => "nfuzz" end)%string ++ [NL]) ;;
  printf (cstring "Ports count: "%string ++ print_int (Z.of_nat (length ports)) ++ [NL]) ;;
  printf (cstring "Ports: "%string ++ print_ints ports ++ [NL]) ;;
  printf (cstring "Pids: "%string ++ print_ints pids ++ [NL]).

(** ** The program *)

(** client/config.h *)
Definition SERVER_ADDR : list byte := cstring "127.0.0.1"%string.
Definition SERVER_PORT : Z := 5000.
Definition SERVER_PORT_ARRAY : list Z :=
  [SERVER_PORT; SERVER_PORT + 1; SERVER_PORT + 2; SERVER_PORT + 3; SERVER_PORT + 4].
Definition CLIENT_PID_ARRAY : list Z := [1000; 200; 300; 20].
Definition CLIENT_MODE : client_mode_t := CLIENT_MODE_NORMAL.

(** The request loop of fuzz mode; [fuel] bounds its rounds. *)
Fixpoint send_pids (context : ptr) (pids : list Z) : M client bool :=
  match pids with
  | [] => ret true
  | pid :: pids =>
      let* st := client_send_pid_message context pid in
      if bool_decide (st = CLIENT_STATUS_SUCCESS) then send_pids context pids else ret false
  end.
Fixpoint fuzz_loop (fuel : nat) (context : ptr) (pids : list Z) : M client unit :=
  match fuel with
  | O => no_fuel
  | S fuel =>
      let* ok := send_pids context pids in
      if ok then fuzz_loop fuel context pids else ret tt
  end.

Definition client_cleanup (context : ptr) : M client Z :=
  match context with
  | None => ret 0
  | Some _ => client_delete_context context ;; ret 0
  end.

(** Lines 282-323: the requests and the cleanup.  [waiting context] are the steps that the threads
    of the connections and the printing thread take while the program waits for the answer. *)
Definition client_requests (fuel : nat) (waiting : ptr → M client unit) (context : ptr) : M client Z :=
  let* ctx := load context in
  match mode ctx with
  | CLIENT_MODE_NORMAL =>
      let* pid := array_get CLIENT_PID_ARRAY 0 in
      let* st := client_send_pid_message context pid in
      (if bool_decide (st = CLIENT_STATUS_SUCCESS) then waiting context ;; on_net (sleep 1) else ret tt) ;;
      client_cleanup context
  | CLIENT_MODE_FUZZ =>
      fuzz_loop fuel context CLIENT_PID_ARRAY ;; client_cleanup context
  end.

(** [before context] are the steps of these threads between the creation of the printing thread and
    the request. *)
Definition client_main (fuel : nat) (before waiting : ptr → M client unit) : M client Z :=
  client_print_config SERVER_ADDR CLIENT_MODE SERVER_PORT_ARRAY CLIENT_PID_ARRAY ;;
  let* context := client_create_context CLIENT_MODE (inet_addr SERVER_ADDR) (Z.of_nat (length SERVER_PORT_ARRAY))
                    (Some SERVER_PORT_ARRAY) in
  match context with
  | None => client_cleanup context
  | Some _ =>
      let* st := client_start context in
      if bool_decide (st ≠ CLIENT_STATUS_SUCCESS) then client_cleanup context else
      let* created := fallible in
      if negb created then ret 1 else
      before context ;;
      client_requests fuel waiting context
  end.

(** client/boot_client.c *)
Definition boot_client_main (fuel : nat) (before waiting : ptr → M client unit) : M client Z :=
  client_main fuel before waiting.

(** ** What a context looks like *)

(** The context at [k] with its two arrays; every server address is a valid one. *)
Record client_at (s : client) (k : loc) (ctx : client_context_t) (conns : list ptr)
    (addrs : list sockaddr_in) : Prop := {
  cx_ctx : cl_contexts s !! k = Some ctx;
  cx_conns : ∃ l, connections ctx = Some l ∧ cl_arrays s !! l = Some conns;
  cx_addrs : ∃ l, server_sockaddrs ctx = Some l ∧ cl_addrs s !! l = Some addrs;
  cx_count : 1 ≤ port_count ctx;
  cx_length : Z.of_nat (length conns) = port_count ctx;
  cx_addrs_ok : Forall (λ a, addr_ok a = true) addrs;
}.

Lemma client_at_net s k ctx conns addrs n :
  client_at s k ctx conns addrs → client_at (set_cl_net n s) k ctx conns addrs.
Proof. by intros []. Qed.

Lemma on_net_ok {A} (m : M net A) s a n' :
  m (cl_net s) = Ok (a, n') → on_net m s = Ok (a, set_cl_net n' s).
Proof. intros E. by apply lift_ok. Qed.

Lemma on_mem_ok {A} (m : M mem A) s a m' :
  m (n_mem (cl_net s)) = Ok (a, m') → on_mem m s = Ok (a, set_cl_net (with_mem m' (cl_net s)) s).
Proof. intros E. apply on_net_ok. by apply lift_ok. Qed.

Lemma load_conns s k ctx conns addrs :
  client_at s k ctx conns addrs → load (connections ctx) s = Ok (conns, s).
Proof. intros [_ (l & -> & E) _ _ _ _]. by apply load_ok. Qed.
Lemma load_context s k ctx conns addrs :
  client_at s k ctx conns addrs → load (Some k) s = Ok (ctx, s).
Proof. intros [E _ _ _ _ _]. by apply load_ok. Qed.
Lemma load_addrs s k ctx conns addrs :
  client_at s k ctx conns addrs → load (server_sockaddrs ctx) s = Ok (addrs, s).
Proof. intros [_ _ (l & -> & E) _ _ _]. by apply load_ok. Qed.
Lemma array_get_ok {T} (a : list T) i x (s : client) : a !! i = Some x → array_get a i s = Ok (x, s).
Proof. intros E. unfold array_get. by rewrite E. Qed.

Lemma length_encode_pid pid : length (encode_pid pid) = 4%nat.
Proof. apply length_le_split. Qed.

(** ** Sending a request *)
Section Sending.
Context (k l : loc) (ctx : client_context_t) (conns : list ptr) (addrs : list sockaddr_in).
Context (c : net_connection_t) (d : Z) (ls li lo : loc) (capi capo : Z).

(** The header of a request to the server at [a]. *)
Definition request_header (a : sockaddr_in) : message_header_t := Header MESSAGE_TYPE_PID 4 a 4.

Lemma request_header_ok a : addr_ok a = true → header_ok (request_header a) = true.
Proof using Type. intros Ha. by apply header_ok_spec. Qed.

(** The new message, before it is queued. *)
Lemma make_request n xs ys a pid :
  conn_inv n l c d ls li lo capi capo xs ys → addr_ok a = true →
  ∃ x db m1 m2 h0,
    message_create MESSAGE_TYPE_PID 4 (n_mem n) = Ok (Some x, m1) ∧
    m_msgs m1 !! x = Some (Message h0 (Some db)) ∧
    message_write (Some x) (Some (encode_pid pid)) 4
      (with_msgs (<[x := Message (set_owner_addr a (set_length 4 (set_type MESSAGE_TYPE_PID h0))) (Some db)]>
                    (m_msgs m1)) m1) = Ok (MESSAGE_STATUS_SUCCESS, m2) ∧
    (x ∉ xs ++ ys) ∧ m_msgs (n_mem n) !! x = None ∧
    message_at m2 x (request_header a) (encode_pid pid) ∧
    conn_inv (with_mem m2 n) l c d ls li lo capi capo xs ys ∧
    (∀ y, is_Some (m_msgs (n_mem n) !! y) → is_Some (m_msgs m2 !! y)) ∧ m_queues m2 = m_queues (n_mem n) ∧
    (∀ y h bs, message_at (n_mem n) y h bs → message_at m2 y h bs).
Proof using Type.
  intros [(sk & Hat & Hd) Hcaps Hf Hi] Ha.
  destruct (message_create_spec MESSAGE_TYPE_PID 4 (n_mem n)) as (px & m1 & E1 & HH & Eq & Hnf & Hp);
    [apply Hat|done|].
  destruct (Hnf Hf) as [Hf1 Hsome].
  destruct px as [x|]; [|by destruct (Hsome ltac:(done))].
  destruct Hp as (db & a0 & bs & Hxn & Hdn & _ & Hbs & Ha0 & _ & Em & Eb).
  destruct (conn_at_create n l ls li lo c sk capi capo xs ys m1 x db
              (Header MESSAGE_TYPE_PID 0 a0 4) bs) as [Hnx Hat1]; try done.
  { by apply header_ok_spec. }
  { rewrite Hbs. unfold wire_fit, MAX_PAYLOAD. simpl. lia. }
  assert (Hx1 : m_msgs m1 !! x = Some (Message (Header MESSAGE_TYPE_PID 0 a0 4) (Some db)))
    by (rewrite Em; apply lookup_insert_eq).
  assert (Hd1 : m_bytes m1 !! db = Some bs) by (rewrite Eb; apply lookup_insert_eq).
  exists x, db, m1. eexists _, _. split; [exact E1|]. split; [exact Hx1|]. split.
  { eapply message_write_eq; [apply lookup_insert_eq|exact Hd1|simpl; lia| |];
      rewrite ?length_encode_pid, ?Hbs; lia. }
  assert (Hsp : splice 0 (take (Z.to_nat 4) (encode_pid pid)) bs = encode_pid pid).
  { rewrite take_ge by (by rewrite length_encode_pid). unfold splice.
    rewrite drop_ge by (rewrite length_encode_pid; simpl in *; lia). rewrite take_0. apply app_nil_r. }
  rewrite Hsp. simpl. rewrite insert_insert_eq.
  split; [exact Hnx|]. split; [exact Hxn|]. split.
  { exists db. simpl. by rewrite !lookup_insert_eq. }
  split; [|split; [|split; [exact Eq|]]].
  - split; [|done|done|exact Hi]. exists sk. split; [|done].
    eapply (conn_at_msg_update (with_mem m1 n)); [exact Hat1|exact Hx1|exact Hd1|by apply request_header_ok|].
    rewrite length_encode_pid. unfold wire_fit. simpl. lia.
  - intros y Hy. simpl. destruct (decide (x = y)) as [->|]; [by rewrite lookup_insert_eq|].
    by rewrite Em, !lookup_insert_ne.
  - intros y h' bs' (dy & Hy & Hby). exists dy. simpl. rewrite Em, Eb, insert_insert_eq, insert_insert_eq.
    rewrite !lookup_insert_ne by congruence. done.
Qed.

(** The body of the loop queues one request on its connection. *)
Lemma send_pid_on_spec s i a pid xs ys :
  client_at s k ctx conns addrs → conns !! i = Some (Some l) → addrs !! i = Some a →
  conn_inv (cl_net s) l c d ls li lo capi capo xs ys →
  ∃ n' x, send_pid_on ctx pid i s = Ok (CLIENT_STATUS_SUCCESS, set_cl_net n' s) ∧
    conn_inv n' l c d ls li lo capi capo xs (fifo_enqueue (Z.to_nat capo) x ys) ∧
    message_at (n_mem n') x (request_header a) (encode_pid pid) ∧
    m_msgs (n_mem (cl_net s)) !! x = None ∧ n_log n' = n_log (cl_net s) ∧ n_in n' = n_in (cl_net s) ∧
    touches (cl_net s) n' l ls [lo] ys ∧
    (∀ y h bs, y ∉ ys → message_at (n_mem (cl_net s)) y h bs → message_at (n_mem n') y h bs).
Proof using Type.
  intros Hcx Hl Ha Hci.
  assert (Haok : addr_ok a = true)
    by (eapply (Forall_lookup_1 _ _ _ _ (cx_addrs_ok _ _ _ _ _ Hcx)); exact Ha).
  destruct (make_request (cl_net s) xs ys a pid Hci Haok)
    as (x & db & m1 & m2 & h0 & E1 & Hx1 & E2 & Hnx & Hnew & Hm & Hci2 & Hlv & Eq2 & Hkeep).
  assert (Hx2 : is_Some (m_msgs (n_mem (with_mem m2 (cl_net s))) !! x)) by (destruct Hm as (dx & Hdx & _); by exists (Message (request_header a) (Some dx))).
  destruct (put_turn l c d ls li lo capi capo _ xs ys x Hci2 Hx2 Hnx)
    as (n' & E3 & Hci3 & Em3 & Eb3 & Elog3 & Ein3 & _ & [T1 T2 T3 T4 T5]).
  exists n', x. split_and!; try done.
  - unfold send_pid_on. rewrite (bind_ok _ _ _ _ _ (on_mem_ok _ s _ m1 E1)).
    pose proof (client_at_net _ _ _ _ _ (with_mem m1 (cl_net s)) Hcx) as Hcx1.
    rewrite (bind_ok _ _ _ _ _ (load_addrs _ _ _ _ _ Hcx1)), (bind_ok _ _ _ _ _ (array_get_ok _ _ _ _ Ha)).
    assert (El : load (Some x) (n_mem (cl_net (set_cl_net (with_mem m1 (cl_net s)) s)))
                 = Ok (Message h0 (Some db), m1)) by (by apply load_ok).
    rewrite (bind_ok _ _ _ _ _ (on_mem_ok _ _ _ m1 El)). cbn [header data].
    erewrite bind_ok; [|apply on_mem_ok; eapply store_ok; exact Hx1].
    erewrite bind_ok; [|apply on_mem_ok; exact E2].
    erewrite bind_ok; [|eapply load_conns; do 4 apply client_at_net; exact Hcx].
    erewrite bind_ok; [|by apply array_get_ok].
    erewrite bind_ok; [|apply on_net_ok; exact E3]. done.
  - destruct Hm as (d' & Hd' & Hb'). exists d'. rewrite Eb3, Em3, lookup_delete_all, decide_False; [done|].
    intros Hdr%fifo_dropped_elem. apply Hnx. set_solver.
  - split; try done; [intros y Hy; rewrite T4 by done; simpl; by rewrite Eq2|].
    intros y Hy ?. apply T5; [done|]. by apply Hlv.
  - intros y h bs Hy Hmy. destruct (Hkeep y h bs Hmy) as (dy & Hdy & Hby). exists dy.
    rewrite Eb3, Em3, lookup_delete_all, decide_False by (intros ?%fifo_dropped_elem; done). done.
Qed.

(** In normal mode, one request on the first connection. *)
Lemma client_send_pid_message_normal s a pid xs ys :
  client_at s k ctx conns addrs → conns !! 0%nat = Some (Some l) → addrs !! 0%nat = Some a →
  mode ctx = CLIENT_MODE_NORMAL → conn_inv (cl_net s) l c d ls li lo capi capo xs ys →
  ∃ n' x, client_send_pid_message (Some k) pid s = Ok (CLIENT_STATUS_SUCCESS, set_cl_net n' s) ∧
    conn_inv n' l c d ls li lo capi capo xs (fifo_enqueue (Z.to_nat capo) x ys) ∧
    message_at (n_mem n') x (request_header a) (encode_pid pid) ∧
    m_msgs (n_mem (cl_net s)) !! x = None ∧ n_log n' = n_log (cl_net s) ++ [EvSleep 1] ∧
    n_in n' = n_in (cl_net s).
Proof using Type.
  intros Hcx Hl Ha Hmode Hci.
  destruct (send_pid_on_spec s 0 a pid xs ys Hcx Hl Ha Hci) as (n1 & x & E & Hci1 & Hm & Hnew & Elog & Ein & _).
  exists (with_log (n_log n1 ++ [EvSleep 1]) n1), x.
  split; [|split_and!; try done; [|simpl; by rewrite Elog]].
  - unfold client_send_pid_message.
    rewrite (bind_ok _ _ _ _ _ (load_context _ _ _ _ _ Hcx)).
    pose proof (cx_count _ _ _ _ _ Hcx) as Hc1.
    assert (El : ∀ j, send_pid_loop ctx pid j 1 (set_cl_net n1 s) = Ok (CLIENT_STATUS_SUCCESS, set_cl_net n1 s)).
    { intros [|j]; [done|]. simpl. rewrite bool_decide_eq_false_2; [done|]. rewrite Hmode. by intros [|]. }
    destruct (Z.to_nat (port_count ctx)) as [|j] eqn:Ej; [lia|]. cbn [send_pid_loop].
    rewrite bool_decide_eq_true_2 by (by left).
    erewrite bind_ok; [|erewrite bind_ok by exact E; rewrite bool_decide_eq_true_2 by done; apply El].
    done.
  - destruct Hci1 as [(sk & Hat & Hd) ? ? ?]. split; try done. exists sk. split; [|done]. by destruct Hat.
Qed.
End Sending.

(** ** Printing the answers *)

(** A connection with nothing to receive, on another queue than [li0]. *)
Definition idle_connection (n : net) (li0 : loc) (p : ptr) : Prop :=
  ∃ l c li cap, p = Some l ∧ n_conns n !! l = Some c ∧ incoming_message_queue c = Some li ∧
    li ≠ li0 ∧ 2 ≤ cap ∧ queue_at (n_mem n) li cap [].

Lemma queue_at_nil_frame m m' li cap :
  queue_at m li cap [] → m_queues m' !! li = m_queues m !! li → queue_at m' li cap [].
Proof. intros Hq E. eapply queue_at_frame; [exact Hq|done|]. set_solver. Qed.

Lemma idle_connection_frame n n' li0 p :
  idle_connection n li0 p → n_conns n' = n_conns n →
  (∀ k, k ≠ li0 → m_queues (n_mem n') !! k = m_queues (n_mem n) !! k) → idle_connection n' li0 p.
Proof.
  intros (l & c & li & cap & -> & Hc & Hi & Hne & Hcap & Hq) Ec Eq. exists l, c, li, cap.
  rewrite Ec. split_and!; try done. eapply queue_at_nil_frame; [exact Hq|]. by apply Eq.
Qed.

(** Polling an idle connection gives nothing and leaves idle connections idle. *)
Lemma receive_idle n li0 p :
  idle_connection n li0 p → m_faults (n_mem n) = [] →
  ∃ m', net_connection_receive_nonblocking p n = Ok (None, with_mem m' n) ∧ m_faults m' = [] ∧
    m_msgs m' = m_msgs (n_mem n) ∧ m_bytes m' = m_bytes (n_mem n) ∧
    ∀ q, idle_connection n li0 q → idle_connection (with_mem m' n) li0 q.
Proof.
  intros (l & c & li & cap & -> & Hc & Hi & Hne & Hcap & Hq) Hf.
  destruct (nonblocking_refines li cap Hcap (n_mem n) [] Hq Hf) as (m' & E & Hq' & Hf' & Eb & _ & Em & Hk).
  exists m'. split_and!; try done.
  - unfold net_connection_receive_nonblocking, bind, load. simpl. rewrite Hc, Hi.
    unfold lift_mem, lift. by rewrite E.
  - intros q (l1 & c1 & li1 & cap1 & -> & Hc1 & Hi1 & Hne1 & Hcap1 & Hq1). exists l1, c1, li1, cap1.
    split_and!; try done. destruct (decide (li1 = li)) as [->|Hd].
    + destruct Hq1 as (q1 & Hl1 & _ & _ & Hcap' & _). destruct Hq as (q0 & Hl0 & _ & _ & Hcap0 & _).
      simplify_eq. exact Hq'.
    + eapply queue_at_nil_frame; [exact Hq1|]. by apply Hk.
Qed.

Section Printing.
Context (k : loc) (ctx : client_context_t) (conns : list ptr) (addrs : list sockaddr_in) (li0 : loc).

Lemma print_rest j : ∀ s i,
  client_at s k ctx conns addrs → (i + j = length conns)%nat → m_faults (n_mem (cl_net s)) = [] →
  Forall (idle_connection (cl_net s) li0) (drop i conns) →
  ∃ m', for_connections ctx j i print_one s = Ok (true, set_cl_net (with_mem m' (cl_net s)) s) ∧
    m_msgs m' = m_msgs (n_mem (cl_net s)) ∧ m_bytes m' = m_bytes (n_mem (cl_net s)).
Proof using Type.
  induction j as [|j IH]; intros s i Hcx Hij Hf Hidle.
  - exists (n_mem (cl_net s)). simpl. rewrite with_mem_id. by destruct s.
  - destruct (lookup_lt_is_Some_2 conns i ltac:(lia)) as [p Hp].
    rewrite (drop_S _ _ _ Hp) in Hidle. apply Forall_cons in Hidle as [Hh Ht].
    destruct (receive_idle _ _ _ Hh Hf) as (m1 & E1 & Hf1 & Em1 & Eb1 & Hid1).
    destruct (IH (set_cl_net (with_mem m1 (cl_net s)) s) (S i)) as (m2 & E2 & Em2 & Eb2);
      [by apply client_at_net|lia|done|by eapply Forall_impl|].
    exists m2. simpl in *. rewrite Em2, Eb2. split; [|done].
    rewrite (bind_ok _ _ _ _ _ (load_conns _ _ _ _ _ Hcx)), (bind_ok _ _ _ _ _ (array_get_ok _ _ _ _ Hp)).
    assert (E : print_one p s = Ok (true, set_cl_net (with_mem m1 (cl_net s)) s)).
    { unfold print_one. by rewrite (bind_ok _ _ _ _ _ (on_net_ok _ s _ _ E1)). }
    by rewrite (bind_ok _ _ _ _ _ E), E2.
Qed.

(** One pass, when only the first connection [l] holds a message. *)
Lemma print_pass_spec s l c d ls lo capi capo ys x h bs text :
  client_at s k ctx conns addrs → conns !! 0%nat = Some (Some l) →
  conn_inv (cl_net s) l c d ls li0 lo capi capo [x] ys →
  message_at (n_mem (cl_net s)) x h bs → c_str bs = Some text →
  Forall (idle_connection (cl_net s) li0) (drop 1 conns) →
  ∃ n', print_pass (Some k) s
      = Ok (tt, set_cl_out (cl_out s ++ cstring "Received message: "%string ++ text ++ [NL]) (set_cl_net n' s)) ∧
    message_at (n_mem n') x h bs.
Proof using Type.
  intros Hcx Hl Hci Hm Htext Hidle.
  destruct (take_turn l c d ls li0 lo capi capo (cl_net s) [x] ys Hci)
    as (n1 & E1 & Hci1 & Em & Eb & _ & _ & Ec & Hk & _). simpl in E1.
  set (s1 := set_cl_out (cl_out s ++ cstring "Received message: "%string ++ text ++ [NL]) (set_cl_net n1 s)).
  assert (Hm1 : message_at (n_mem n1) x h bs) by (unfold message_at; by rewrite Em, Eb).
  assert (Hcx1 : client_at s1 k ctx conns addrs) by (by destruct Hcx).
  assert (E : print_one (Some l) s = Ok (true, s1)).
  { unfold print_one. rewrite (bind_ok _ _ _ _ _ (on_net_ok _ s _ _ E1)). unfold print_message.
    destruct Hm1 as (db & Hx & Hb).
    erewrite bind_ok; [|erewrite bind_ok; [|apply on_mem_ok, load_ok; exact Hx]].
    2: { cbn [Memory.data]. erewrite bind_ok; [|apply on_mem_ok, load_ok; exact Hb].
         rewrite Htext. simpl. rewrite !with_mem_id. done. }
    done. }
  destruct (print_rest (Z.to_nat (port_count ctx) - 1) s1 1) as (m2 & E2 & Em2 & Eb2); try done.
  - pose proof (cx_count _ _ _ _ _ Hcx). pose proof (cx_length _ _ _ _ _ Hcx). lia.
  - apply Hci1.
  - eapply Forall_impl; [exact Hidle|]. intros p Hp. by eapply idle_connection_frame.
  - exists (with_mem m2 n1). split; [|unfold message_at; simpl; by rewrite Em2, Eb2].
    unfold print_pass. rewrite (bind_ok _ _ _ _ _ (load_context _ _ _ _ _ Hcx)).
    pose proof (cx_count _ _ _ _ _ Hcx). destruct (Z.to_nat (port_count ctx)) as [|j] eqn:Ej; [lia|].
    rewrite Nat.sub_1_r in E2. simpl Nat.pred in E2.
    erewrite bind_ok; [done|]. cbn [for_connections].
    rewrite (bind_ok _ _ _ _ _ (load_conns _ _ _ _ _ Hcx)), (bind_ok _ _ _ _ _ (array_get_ok _ _ _ _ Hl)).
    by rewrite (bind_ok _ _ _ _ _ E), E2.
Qed.
End Printing.

(** A received answer with a NUL-terminated text, from the wire to the standard output. *)
Lemma reply_printed_aux s k ctx conns addrs l c d ls li lo capi capo ys h text from more :
  client_at s k ctx conns addrs → conns !! 0%nat = Some (Some l) →
  conn_inv (cl_net s) l c d ls li lo capi capo [] ys →
  Forall (idle_connection (cl_net s) li) (drop 1 conns) →
  n_in (cl_net s) !! d = Some (RecvData (format_datagram h (text ++ [NUL])) from :: more) →
  header_ok h = true → hdr_length h = Z.of_nat (length text) + 1 → hdr_length h ≤ MAX_PAYLOAD →
  no_nul text = true →
  ∃ n' x bs, (on_net (receive_iteration (Some l)) ;; print_pass (Some k)) s
      = Ok (tt, set_cl_out (cl_out s ++ cstring "Received message: "%string ++ text ++ [NL]) (set_cl_net n' s)) ∧
    message_at (n_mem n') x (set_owner_addr from h) bs.
Proof.
  intros Hcx Hl Hci Hidle Hin Hh Hlen Hmax Hnul.
  pose proof Hci as [(sk & Hat & Hd) [Hc1 Hc2] Hf Hi].
  destruct (inputs_ok_pop _ _ _ _ Hi Hin) as [Hfrom Hi']. rewrite <- Hd in Hin.
  destruct (receive_iteration_spec (cl_net s) l ls li lo c sk capi capo [] ys _ from more Hat Hc1 Hf Hin Hfrom)
    as (n1 & x & bs & E1 & Hat1 & _ & Hf1 & Hm & _ & Ht & Ein & _ & Ec & Hk & _).
  pose proof (ca_sock_ok _ _ _ _ _ _ _ _ _ _ _ Hat) as (Hbuf & _).
  assert (Hall : take (Z.to_nat (hdr_length h)) (text ++ [NUL]) = text ++ [NUL])
    by (apply take_ge; rewrite length_app; simpl; lia).
  cbn [received incoming_buffer] in Hm, Ht.
  rewrite parse_format in Hm, Ht by (done || rewrite ?length_app; simpl; lia).
  cbn [fst snd] in Hm, Ht. rewrite Hall in Ht.
  assert (Htext : c_str bs = Some text).
  { rewrite <- (take_drop (length (text ++ [NUL])) bs), Ht, <- app_assoc. by apply c_str_app. }
  assert (Hq : fifo_enqueue (Z.to_nat capi) x [] = [x]).
  { unfold fifo_enqueue. rewrite bool_decide_eq_false_2; [done|]. simpl. lia. }
  rewrite Hq in Hat1.
  destruct (print_pass_spec k ctx conns addrs li (set_cl_net n1 s) l c d ls lo capi capo ys x (set_owner_addr from h) bs text)
    as (n2 & E2 & Hm2); try done.
  - by apply client_at_net.
  - split; [by eexists|done|done|]. unfold inputs_ok. simpl. by rewrite Ein, Hd.
  - eapply Forall_impl; [exact Hidle|]. intros p Hp. by eapply idle_connection_frame.
  - exists n2, x, bs. split; [|done]. by rewrite (bind_ok _ _ _ _ _ (on_net_ok _ s _ n1 E1)), E2.
Qed.

(** ** A concrete client: five connections, nothing queued *)
Definition client0 : client := Client net0 ∅ ∅ ∅ [].
Definition demo_client : client :=
  run (client_create_context CLIENT_MODE LOOPBACK 5 (Some SERVER_PORT_ARRAY)) client0.
Definition demo_context : client_context_t :=
  Context (Some 4%positive) (Some 2%positive) CLIENT_MODE_NORMAL 5 false.
Definition demo_addrs : list sockaddr_in := default [] (cl_addrs demo_client !! 2%positive).
Definition demo_conns : list ptr := (λ z, Some (Z.to_pos z)) <$> [8; 12; 16; 20; 24].
Definition server_addr0 : sockaddr_in := default peer (demo_addrs !! 0%nat).
Definition client_datagram (payload : list byte) (s : client) : client :=
  set_cl_net (with_datagram payload (cl_net s)) s.

Lemma demo_client_at : client_at demo_client 1 demo_context demo_conns demo_addrs.
Proof.
  split; [by vm_compute|exists 4%positive|exists 2%positive|done|done|]; [by (split; vm_compute)..|].
  apply (bool_decide_unpack _). by vm_compute.
Qed.

Lemma demo_conn_inv : conn_inv (cl_net demo_client) 8 (conn_of (cl_net demo_client) 8) 3 5 6 7 5 5 [] [].
Proof.
  split; [|lia|by vm_compute|].
  - exists (sock_of (cl_net demo_client) 5). split; [|by vm_compute]. apply conn_atb_sound. by vm_compute.
  - intros d rs E. assert (En : n_in (cl_net demo_client) = ∅) by (vm_compute; reflexivity). rewrite En, lookup_empty in E. discriminate E.
Qed.

Lemma client_datagram_inv payload s l c d ls li lo capi capo xs ys :
  conn_inv (cl_net s) l c d ls li lo capi capo xs ys →
  conn_inv (cl_net (client_datagram payload s)) l c d ls li lo capi capo xs ys.
Proof.
  intros [(sk & Hat & Hd) ? ? _]. split; [|done|done|].
  - exists sk. split; [|done]. by apply conn_at_datagram.
  - intros d' rs. simpl. rewrite lookup_singleton_Some. intros [_ <-]. by repeat constructor.
Qed.

Definition idle_connectionb (n : net) (li0 l q : loc) (cap : Z) : bool :=
  bool_decide (incoming_message_queue (conn_of n l) = Some q) && bool_decide (is_Some (n_conns n !! l)) &&
  queue_atb (n_mem n) q cap [] && negb (Pos.eqb q li0) && (2 <=? cap).

Lemma idle_connectionb_sound payload s li0 l q cap :
  idle_connectionb (cl_net s) li0 l q cap = true →
  idle_connection (cl_net (client_datagram payload s)) li0 (Some l).
Proof.
  unfold idle_connectionb. rewrite !andb_true_iff, !bool_decide_eq_true, negb_true_iff, Pos.eqb_neq, Z.leb_le.
  intros [[[[Hi [c Hc]] Hq] Hne] Hcap]. exists l, c, q, cap. unfold conn_of in Hi. rewrite Hc in Hi.
  split_and!; try done. by apply queue_atb_sound.
Qed.

Lemma demo_idle payload :
  Forall (idle_connection (cl_net (client_datagram payload demo_client)) 6) (drop 1 demo_conns).
Proof.
  repeat apply Forall_cons_2; [..|apply Forall_nil_2].
  all: [> apply (idle_connectionb_sound _ _ _ _ 10 5)|apply (idle_connectionb_sound _ _ _ _ 14 5)
        |apply (idle_connectionb_sound _ _ _ _ 18 5)|apply (idle_connectionb_sound _ _ _ _ 22 5)];
    vm_compute; reflexivity.
Qed.

(** ** Properties *)

(** A client in normal mode sends exactly one request.  For every process id, on a context
    whose first connection is usable, [client_send_pid_message] returns success and queues on the
    first connection one fresh message of type PID for the first server, with length 4 and the
    four bytes of the process id; it then sleeps one second.  The next turn of the sending thread,
    if nothing was queued before, puts exactly this request on the wire. *)
Theorem client_sends_request s k ctx conns addrs l c d ls li lo capi capo xs ys a pid :
  client_at s k ctx conns addrs → conns !! 0%nat = Some (Some l) → addrs !! 0%nat = Some a →
  mode ctx = CLIENT_MODE_NORMAL → conn_inv (cl_net s) l c d ls li lo capi capo xs ys →
  ∃ n' x, ⟦ client_send_pid_message (Some k) pid ⟧ s ⇓ CLIENT_STATUS_SUCCESS, set_cl_net n' s ∧
    conn_inv n' l c d ls li lo capi capo xs (fifo_enqueue (Z.to_nat capo) x ys) ∧
    message_at (n_mem n') x (request_header a) (encode_pid pid) ∧
    m_msgs (n_mem (cl_net s)) !! x = None ∧ n_log n' = n_log (cl_net s) ++ [EvSleep 1] ∧
    (ys = [] → ∃ n2, ⟦ send_iteration (Some l) ⟧ n' ⇓ tt, n2 ∧
       n_log n2 = n_log n' ++ [EvSend d a (encode_header (request_header a) ++ encode_pid pid)]).
Proof.
  intros Hcx Hl Ha Hm Hci.
  destruct (client_send_pid_message_normal k l ctx conns addrs c d ls li lo capi capo s a pid xs ys Hcx Hl Ha Hm Hci)
    as (n' & x & E & Hci' & Hmsg & Hnew & Elog & _).
  exists n', x. split_and!; try done. intros ->.
  assert (Hq : fifo_enqueue (Z.to_nat capo) x [] = [x]).
  { destruct Hci' as [_ [_ ?] _ _]. unfold fifo_enqueue. rewrite bool_decide_eq_false_2; [done|]. simpl. lia. }
  rewrite Hq in Hci'. destruct (send_turn l c d ls li lo capi capo n' xs [x] Hci') as (n2 & E2 & _ & _ & [_ Hlog] & _).
  exists n2. split; [done|]. by rewrite (Hlog _ _ Hmsg).
Qed.

Lemma client_sends_request_witness :
  ∃ n' x, ⟦ client_send_pid_message (Some 1%positive) 1000 ⟧ demo_client
             ⇓ CLIENT_STATUS_SUCCESS, set_cl_net n' demo_client ∧
    message_at (n_mem n') x (request_header server_addr0) [Byte.xe8; Byte.x03; NUL; NUL].
Proof.
  destruct (client_sends_request demo_client 1 demo_context demo_conns demo_addrs 8 _ 3 5 6 7 5 5 [] [] server_addr0 1000
    demo_client_at eq_refl ltac:(by vm_compute) eq_refl demo_conn_inv) as (n' & x & E & _ & Hm & _).
  exists n', x. split; [exact E|exact Hm].
Defined.

(** An answer is printed.  When a datagram with a NUL-terminated text of matching length
    arrives at the first connection and the other connections are idle, a turn of the receiving
    thread and one pass of the printing thread write exactly the line "Received message: " with
    the text to the standard output.  The printed message is never freed: it stays allocated. *)
Theorem reply_printed s k ctx conns addrs l c d ls li lo capi capo ys h text from more :
  client_at s k ctx conns addrs → conns !! 0%nat = Some (Some l) →
  conn_inv (cl_net s) l c d ls li lo capi capo [] ys →
  Forall (idle_connection (cl_net s) li) (drop 1 conns) →
  n_in (cl_net s) !! d = Some (RecvData (format_datagram h (text ++ [NUL])) from :: more) →
  header_ok h = true → hdr_length h = Z.of_nat (length text) + 1 → hdr_length h ≤ MAX_PAYLOAD →
  no_nul text = true →
  ∃ s' x bs, ⟦ on_net (receive_iteration (Some l)) ;; print_pass (Some k) ⟧ s ⇓ tt, s' ∧
    cl_out s' = cl_out s ++ cstring "Received message: "%string ++ text ++ [NL] ∧
    message_at (n_mem (cl_net s')) x (set_owner_addr from h) bs.
Proof.
  intros Hcx Hl Hci Hidle Hin Hh Hlen Hmax Hnul.
  destruct (reply_printed_aux s k ctx conns addrs l c d ls li lo capi capo ys h text from more)
    as (n' & x & bs & E & Hm); try done.
  eexists _, x, bs. split_and!; [exact E|done|exact Hm].
Qed.

Lemma reply_printed_witness :
  ∃ s', ⟦ on_net (receive_iteration (Some 8%positive)) ;; print_pass (Some 1%positive) ⟧
      client_datagram (format_datagram (Header 1 10 peer 16) (cstring "not found"%string ++ [NUL])) demo_client ⇓ tt, s' ∧
    cl_out s' = cstring "Received message: not found"%string ++ [NL].
Proof.
  destruct (reply_printed
    (client_datagram (format_datagram (Header 1 10 peer 16) (cstring "not found"%string ++ [NUL])) demo_client)
    1 demo_context demo_conns demo_addrs 8 (conn_of (cl_net demo_client) 8) 3 5 6 7 5 5 []
    (Header 1 10 peer 16) (cstring "not found"%string) peer []) as (s' & x & bs & E & Hout & _);
    [apply client_at_net, demo_client_at|done|apply client_datagram_inv, demo_conn_inv|apply demo_idle|by vm_compute|by vm_compute
    |by vm_compute|by vm_compute|by vm_compute|].
  exists s'. split; [exact E|]. rewrite Hout. by vm_compute.
Defined.
