(* ===== verification/ClientCreate.v ===== *)
(** * ClientCreate: one round of the loop that opens the connections of a client

    Lines 58-92 of client/client.c for one port, with at most one failing library call of the whole
    run ([one_fault] of [NetOpen]): either the connection is added to the context, or everything of
    this round and the context itself are released. *)
From S2P Require Import Prelude Layout Memory Message MessageQueue SocketUdp NetConnection.
From S2P Require Import NetLifecycle NetTurns NetOpen NetMany Format Client.

Local Open Scope Z_scope.

(** Lines 76-77: the capacity of both queues of a connection. *)
Definition CLIENT_QUEUE : Z := 5.

Definition conn_ptrs (es : list endpoint) : list ptr := (λ e, Some (ep_conn e)) <$> es.

(** The client with new arrays and a new network state. *)
Definition refilled (s : client) (ctx : client_context_t) (conns : list ptr) (addrs : list sockaddr_in) (n : net) : client :=
  Client n (cl_contexts s) (alter (λ _, conns) (default 1%positive (connections ctx)) (cl_arrays s))
    (alter (λ _, addrs) (default 1%positive (server_sockaddrs ctx)) (cl_addrs s)) (cl_out s).

Lemma alter_const {T} (h : gmap loc T) i x y : alter (λ _, x) i (alter (λ _, y) i h) = alter (λ _, x) i h.
Proof.
  apply map_eq. intros j. destruct (decide (i = j)) as [->|Hne]; [|by rewrite !lookup_alter_ne].
  rewrite !lookup_alter_eq. by destruct (h !! j).
Qed.
Lemma alter_insert_const {T} (h : gmap loc T) i x y : h !! i = Some y → alter (λ _, x) i h = <[i := x]> h.
Proof.
  intros Hi. apply map_eq. intros j. destruct (decide (i = j)) as [->|Hne].
  - by rewrite lookup_alter_eq, Hi, lookup_insert_eq.
  - by rewrite lookup_alter_ne, lookup_insert_ne.
Qed.

Lemma insert_next {A} (xs : list A) y zs x : <[length xs := x]> (xs ++ y :: zs) = (xs ++ [x]) ++ zs.
Proof. induction xs; simpl; [done|by f_equal]. Qed.

(** ** Taking back what a round has made *)

(** [n] with one more socket [sk] at [l], the memory [m'] and the events [evs]. *)
Definition with_socket (l : loc) (sk : udp_socket_t) (m' : mem) (evs : list event) (n : net) : net :=
  Net m' ({[fd sk]} ∪ n_fds n) (<[l := sk]> (n_socks n)) (n_conns n) (n_in n) (n_log n ++ evs).

Lemma close_new_socket l sk m' evs n :
  n_socks n !! l = None → fd sk = fresh_fd (n_fds n) →
  udp_socket_delete (Some l) (with_socket l sk m' evs n) = Ok (tt, with_log (n_log n ++ evs) (with_mem m' n)).
Proof.
  intros Hl Hfd. pose proof (fresh_fd_fresh (n_fds n)) as [Hnew Hge].
  rewrite (udp_socket_delete_eq _ l sk); [|apply lookup_insert_eq|lia]. do 2 f_equal.
  unfold with_socks, with_fds, with_socket, with_mem, with_log. simpl. rewrite delete_insert_id by done. f_equal.
  rewrite Hfd. set_solver.
Qed.

Lemma delete_new_queue m q :
  m_queues m !! q = None → m_faults m = [] →
  message_queue_delete (Some q) (with_queues (<[q := new_queue CLIENT_QUEUE]> (m_queues m)) m) = Ok (tt, m).
Proof.
  intros Hq Hf. rewrite (message_queue_delete_eq _ q CLIENT_QUEUE []); [|apply queue_at_fresh; [done|done|apply lookup_insert_eq]|done].
  simpl. rewrite delete_insert_id by done. by destruct m.
Qed.

Lemma drop_context_ok k ctx s lc la c0 conns addrs :
  connections ctx = Some lc → server_sockaddrs ctx = Some la →
  cl_contexts s !! k = Some c0 → cl_arrays s !! lc = Some conns → cl_addrs s !! la = Some addrs →
  drop_context (Some k) ctx s
  = Ok (None, Client (cl_net s) (delete k (cl_contexts s)) (delete lc (cl_arrays s)) (delete la (cl_addrs s)) (cl_out s)).
Proof.
  intros Hlc Hla Hk Hc Ha. unfold drop_context. rewrite Hlc, Hla.
  erewrite bind_ok by (eapply free_ok; exact Ha). erewrite bind_ok by (eapply free_ok; exact Hc).
  by erewrite bind_ok by (eapply free_ok; exact Hk).
Qed.

(** ** One round *)
Section Round.
Context (s : client) (k lc la : loc) (ctx c0 : client_context_t) (addr : Z) (ports : list Z).
Context (es : list endpoint) (addrs rest : list sockaddr_in) (a : sockaddr_in) (port : Z) (r : nat).
Hypothesis (Hfr : net_fresh (cl_net s)).
Hypothesis (Hf : one_fault (m_faults (n_mem (cl_net s)))).
Hypothesis (Hlc : connections ctx = Some lc).
Hypothesis (Hla : server_sockaddrs ctx = Some la).
Hypothesis (Hk : cl_contexts s !! k = Some c0).
Hypothesis (Hc : cl_arrays s !! lc = Some (conn_ptrs es ++ None :: replicate r None)).
Hypothesis (Ha : cl_addrs s !! la = Some (addrs ++ a :: rest)).
Hypothesis (Hl : length addrs = length es).
Hypothesis (Hport : ports !! length es = Some port).

Let n := cl_net s.
Let m := n_mem n.
Let l := m_next m.
Let a' := SockAddr AF_INET (htons (port mod 65536)) addr (sin_zero a).

(** The client during the round: another network state and array of addresses. *)
Let during (n' : net) (v : list sockaddr_in) : client :=
  Client n' (cl_contexts s) (cl_arrays s) (<[la := v]> (cl_addrs s)) (cl_out s).

(** The client after an error exit, when [p] is the next address and [evs] has happened. *)
Definition gave_up (p : loc) (evs : list event) : client :=
  Client (with_log (n_log n ++ evs) (with_mem (bump p [] m) n)) (delete k (cl_contexts s)) (delete lc (cl_arrays s)) (delete la (cl_addrs s)) (cl_out s).

Lemma drop_during n' v p evs :
  n' = with_log (n_log n ++ evs) (with_mem (bump p [] m) n) →
  (drop_context (Some k) ctx ;; ret false) (during n' v) = Ok (false, gave_up p evs).
Proof using Hlc Hla Hk Hc.
  intros ->. erewrite bind_ok by (eapply drop_context_ok; [exact Hlc|exact Hla|exact Hk|exact Hc|apply lookup_insert_eq]).
  unfold ret, during, gave_up. simpl. by rewrite delete_insert_eq.
Qed.

Lemma drop_socket_during sk v p evs :
  fd sk = fresh_fd (n_fds n) →
  (on_net (udp_socket_delete (Some l)) ;; drop_context (Some k) ctx ;; ret false)
    (during (with_socket l sk (bump p [] m) evs n) v) = Ok (false, gave_up p evs).
Proof using Hfr Hlc Hla Hk Hc.
  intros Hfd. assert (Hn : n_socks n !! l = None) by (destruct Hfr as [_ Hs _]; apply Hs, Pos.le_refl).
  erewrite bind_ok by (apply on_net_ok, close_new_socket; done). by apply drop_during.
Qed.

(** From the queues on. *)
Definition from_queues (usocket : ptr) (j : nat) : M client bool :=
  let* incoming_queue := on_mem (message_queue_create CLIENT_QUEUE) in
  let* outgoing_queue := on_mem (message_queue_create CLIENT_QUEUE) in
  let fail :=
    on_mem (message_queue_delete incoming_queue) ;;
    on_mem (message_queue_delete outgoing_queue) ;;
    on_net (udp_socket_delete usocket) ;;
    drop_context (Some k) ctx ;; ret false in
  match incoming_queue, outgoing_queue with
  | Some _, Some _ =>
      let* connection := on_net (net_connection_create usocket incoming_queue outgoing_queue 1 1) in
      match connection with
      | None => fail
      | Some _ =>
          let* conns := load (connections ctx) in
          let* conns := array_set conns (length es) connection in
          store (connections ctx) conns ;;
          create_connections (Some k) ctx addr ports j (S (length es))
      end
  | _, _ => fail
  end.

Lemma on_during_mem {A} (act : M mem A) sk v evs m1 m2 x :
  act m1 = Ok (x, m2) →
  on_mem act (during (with_socket l sk m1 evs n) v) = Ok (x, during (with_socket l sk m2 evs n) v).
Proof using Type. intros E. rewrite (on_mem_ok _ _ x m2); done. Qed.

(** The memory is [bump (Pos.succ l) fs m] and the socket [sk] is bound; nine calls can fail, and
    a tenth sets a timeout. *)
Lemma from_queues_one sk v fs j :
  fd sk = fresh_fd (n_fds n) → one_fault fs →
  let bound := [EvBind (fd sk) (outcoming_addr sk)] in
  (failing 9 fs ∧ ∃ p, (l ≤ p)%positive ∧
     from_queues (Some l) j (during (with_socket l sk (bump (Pos.succ l) fs m) bound n) v) = Ok (false, gave_up p bound)) ∨
  (∃ fs' sk', spent 10 fs fs' ∧ timed sk sk' ∧
     from_queues (Some l) j (during (with_socket l sk (bump (Pos.succ l) fs m) bound n) v)
     = create_connections (Some k) ctx addr ports j (S (length es))
         (Client (opened n sk' CLIENT_QUEUE 1 1 fs') (cl_contexts s)
            (<[lc := conn_ptrs (es ++ [new_endpoint n]) ++ replicate r None]> (cl_arrays s)) (<[la := v]> (cl_addrs s)) (cl_out s))).
Proof using Hfr Hlc Hla Hk Hc.
  intros Hfd Hf1 bound. unfold from_queues.
  assert (Hh : ∀ q fs', (l ≤ q)%positive → heap_ok (bump q fs' m)) by (intros q fs' Hq; apply heap_ok_bump; [apply Hfr|done]).
  assert (Hq : ∀ q, (l ≤ q)%positive → m_queues m !! q = None) by (intros q Hle; by destruct (Hh l [] (Pos.le_refl l)) as [_ _ F]; apply F).
  assert (Hll : (l ≤ Pos.succ l)%positive) by (clear; lia).
  destruct (message_queue_create_one (bump (Pos.succ l) fs m) CLIENT_QUEUE) as [(Hne & k1 & Hk1 & E1)|(fs1 & Hs1 & E1)];
    [done|by apply Hh|done|..].
  - (* no incoming queue *)
    left. split; [eapply failing_le; [exact Hne|clear; lia]|].
    rewrite (bind_ok _ _ _ _ _ (on_during_mem _ sk v _ _ _ _ E1)). simpl in Hk1.
    assert (Hk1' : (l ≤ k1)%positive) by (clear -Hk1; lia).
    destruct (message_queue_create_one (bump k1 [] m) CLIENT_QUEUE) as [([? _] & _)|(fs2 & Hs2 & E2)];
      [done|by apply Hh|by left|done|]. rewrite (spent_nil _ _ _ Hs2 eq_refl) in E2.
    rewrite (bind_ok _ _ _ _ _ (on_during_mem _ sk v _ _ _ _ E2)). cbn match.
    erewrite bind_ok by (apply on_during_mem; reflexivity).
    erewrite bind_ok by (apply on_during_mem, (delete_new_queue (bump (Pos.succ k1) [] m)); [by apply Hq|done]).
    exists (Pos.succ k1). split; [clear -Hk1'; lia|]. by apply drop_socket_during.
  - rewrite (bind_ok _ _ _ _ _ (on_during_mem _ sk v _ _ _ _ E1)). simpl m_next in *. cbn [m_faults bump with_next with_faults] in Hs1.
    set (q1 := Pos.succ l) in *. set (m1 := with_queues _ _).
    assert (Hh1 : heap_ok m1).
    { destruct (Hh (Pos.succ q1) fs1 ltac:(unfold q1; clear; lia)) as [Hb Hm' Hq']. split; simpl; try done.
      apply fresh_above_alloc. by destruct (Hh q1 [] Hll). }
    destruct (message_queue_create_one m1 CLIENT_QUEUE) as [(Hne & k2 & Hk2 & E2)|(fs2 & Hs2 & E2)];
      [done|done|by apply Hs1|..].
    + (* no outgoing queue *)
      left. split; [eapply failing_le; [by eapply failing_later; [exact Hs1|]|clear; lia]|]. rewrite (bind_ok _ _ _ _ _ (on_during_mem _ sk v _ _ _ _ E2)). cbn match.
      simpl in Hk2. assert (Hk2' : (l ≤ k2)%positive) by (unfold q1 in Hk2; clear -Hk2; lia).
      erewrite bind_ok by (apply on_during_mem, (delete_new_queue (bump k2 [] m)); [by apply Hq|done]).
      erewrite bind_ok by (apply on_during_mem; reflexivity).
      exists k2. split; [done|]. by apply drop_socket_during.
    + rewrite (bind_ok _ _ _ _ _ (on_during_mem _ sk v _ _ _ _ E2)). cbn match.
      assert (Hs12 : spent 8 fs fs2) by (by eapply (spent_trans 4 4)).
      cbn [m_next m1 with_queues bump with_next] in *. set (q2 := Pos.succ q1) in *.
      set (m2 := with_queues _ (bump _ fs2 m1)).
      destruct (net_connection_create_one (with_socket l sk m2 bound n) l q1 q2 sk 1 1) as [(Hne & E3)|(fs3 & sk' & Hs3 & Ht & E3)];
        [done|done|apply lookup_insert_eq|by apply Hs12|..].
      * (* no connection *)
        left. split; [by eapply (failing_later 8 1)|].
        erewrite bind_ok by (apply on_net_ok; exact E3). cbn match.
        set (M := with_queues (<[q2 := new_queue CLIENT_QUEUE]> (m_queues m)) (bump (Pos.succ q2) [] m)).
        assert (Em : with_faults [] m2 = with_queues (<[q1 := new_queue CLIENT_QUEUE]> (m_queues M)) M).
        { unfold m2, M, m1, with_queues, bump, with_next, with_faults. simpl. f_equal. apply insert_insert_ne. unfold q2. clear; lia. }
        change (set_cl_net _ _) with (during (with_socket l sk (with_faults [] m2) bound n) v). rewrite Em.
        assert (Hq2 : (l ≤ q2)%positive) by (unfold q2, q1; clear; lia).
        erewrite bind_ok by (apply on_during_mem, delete_new_queue;
          [simpl; rewrite lookup_insert_ne by (unfold q2; clear; lia); by apply Hq|done]).
        erewrite bind_ok by (apply on_during_mem, (delete_new_queue (bump (Pos.succ q2) [] m)); [by apply Hq|done]).
        exists (Pos.succ q2). split; [clear -Hq2; lia|]. by apply drop_socket_during.
      * right. exists fs3, sk'. split; [by eapply (spent_trans 8 2)|]. split; [done|].
        erewrite bind_ok by (apply on_net_ok; exact E3). cbn match. rewrite Hlc.
        erewrite bind_ok by (apply load_ok; exact Hc).
        assert (Hlen : (length es < length (conn_ptrs es ++ None :: replicate r None))%nat)
          by (unfold conn_ptrs; rewrite length_app, length_fmap; simpl; clear; lia).
        unfold array_set. rewrite bool_decide_eq_true_2 by exact Hlen. erewrite bind_ok by done.
        erewrite bind_ok by (eapply store_ok; exact Hc). f_equal.
        assert (Ec : conn_ptrs (es ++ [new_endpoint n]) ++ replicate r None
                     = <[length es := Some (m_next m2)]> (conn_ptrs es ++ None :: replicate r None)).
        { unfold conn_ptrs. rewrite fmap_app. rewrite <- (length_fmap (λ e, Some (ep_conn e)) es) at 1. rewrite insert_next.
          do 3 f_equal. simpl. do 2 f_equal. unfold q2, q1, l, m. clear. lia. }
        rewrite Ec. unfold set_heap, set_cl_arrays. simpl. f_equal.
        unfold opened. fold m l. replace (l + 1)%positive with q1 by (unfold q1; clear; lia).
        replace (l + 2)%positive with q2 by (unfold q2, q1; clear; lia).
        replace (l + 3)%positive with (Pos.succ q2) by (unfold q2, q1; clear; lia).
        replace (l + 4)%positive with (Pos.succ (Pos.succ q2)) by (unfold q2, q1; clear; lia).
        unfold with_socks, with_conns, with_socket, bound. simpl.
        destruct (timed_facts _ _ Ht) as (_ & -> & ->). by rewrite insert_insert_eq, Hfd.
Qed.

(** The client before the round. *)
Lemma during_start n' : set_cl_net n' s = during n' (addrs ++ a :: rest).
Proof using Ha. unfold during, set_cl_net. by rewrite (insert_id (cl_addrs s)). Qed.

(** A round makes thirteen library calls, of which the last, for a timeout, may fail unnoticed. *)
Lemma create_round_one j :
  (failing 12 (m_faults m) ∧ ∃ p evs, (l ≤ p)%positive ∧ (length evs ≤ 1)%nat ∧
     create_connections (Some k) ctx addr ports (S j) (length es) s = Ok (false, gave_up p evs)) ∨
  (∃ fs sk, spent 13 (m_faults m) fs ∧ timed (new_socket n LOOPBACK 0) sk ∧
     create_connections (Some k) ctx addr ports (S j) (length es) s
     = create_connections (Some k) ctx addr ports j (S (length es))
         (refilled s ctx (conn_ptrs (es ++ [new_endpoint n]) ++ replicate r None) ((addrs ++ [a']) ++ rest)
            (opened n sk CLIENT_QUEUE 1 1 fs))).
Proof using All.
  set (v := <[length es := a']> (addrs ++ a :: rest)).
  destruct (udp_socket_create_one n LOOPBACK 0 Hfr Hf) as [(Hne & p & Hp & E1)|(fs1 & Hs1 & E1)].
  { left. split; [eapply failing_le; [exact Hne|lia]|]. exists p, []. split; [done|]. split; [simpl; lia|]. cbn [create_connections]. rewrite inet_addr_loopback.
    erewrite bind_ok by (apply on_net_ok; exact E1). cbn match. rewrite during_start. apply drop_during.
    unfold with_log, with_mem. simpl. by rewrite app_nil_r. }
  cbv zeta in E1. fold m l in E1. set (sk := new_socket n LOOPBACK 0) in *.
  set (bound := [EvBind (fd sk) (outcoming_addr sk)]).
  replace (with_fds _ _) with (with_socket l sk (bump (Pos.succ l) fs1 m) [] n) in E1
    by (unfold with_socket, with_fds, with_socks, with_mem; simpl; by rewrite app_nil_r).
  destruct (udp_socket_bind_one (with_socket l sk (bump (Pos.succ l) fs1 m) [] n) l sk) as [(Hne & E2)|(fs2 & Hs2 & E2)];
    [apply lookup_insert_eq|by apply Hs1|..].
  { left. split; [eapply failing_le; [by eapply failing_later; [exact Hs1|]|lia]|].
    exists (Pos.succ l), []. split; [lia|]. split; [simpl; lia|].
    cbn [create_connections]. rewrite inet_addr_loopback.
    erewrite bind_ok by (apply on_net_ok; exact E1). cbn match. rewrite during_start.
    erewrite bind_ok by (apply on_net_ok; exact E2). rewrite bool_decide_eq_true_2 by done. by apply (drop_socket_during sk). }
  set (n2 := with_socket l sk (bump (Pos.succ l) fs2 m) bound n).
  replace (with_log _ _) with n2 in E2 by (unfold n2, with_socket, with_log, with_mem; simpl; by rewrite app_nil_r).
  assert (Eq : create_connections (Some k) ctx addr ports (S j) (length es) s = from_queues (Some l) j (during n2 v)).
  { cbn [create_connections]. rewrite inet_addr_loopback.
    erewrite bind_ok by (apply on_net_ok; exact E1). cbn match. rewrite during_start.
    erewrite bind_ok by (apply on_net_ok; exact E2). rewrite bool_decide_eq_false_2 by (by intros []).
    rewrite Hla. erewrite bind_ok by (apply load_ok, lookup_insert_eq).
    erewrite bind_ok by (apply array_get_ok; rewrite lookup_app_r by lia; by rewrite Hl, Nat.sub_diag).
    erewrite bind_ok by (apply array_get_ok; exact Hport).
    unfold array_set at 1. rewrite bool_decide_eq_true_2 by (rewrite length_app; simpl; lia).
    erewrite bind_ok by done. erewrite bind_ok by (eapply store_ok, lookup_insert_eq).
    fold a' v. set (s2 := set_heap _ _).
    assert (Es2 : s2 = during n2 v).
    { unfold s2, during, set_heap, set_cl_addrs. simpl. by rewrite insert_insert_eq. }
    by rewrite Es2. }
  assert (Hs12 : spent 3 (m_faults m) fs2) by (by eapply (spent_trans 2 1)). rewrite Eq.
  destruct (from_queues_one sk v fs2 j) as [(Hne & p & Hp & E3)|(fs3 & sk' & Hs3 & Ht & E3)]; [done|by apply Hs12|..]; fold bound n2 in E3.
  - left. split; [by eapply (failing_later 3 9)|]. by exists p, bound.
  - right. exists fs3, sk'. split; [by eapply (spent_trans 3 10)|]. split; [done|].
    rewrite E3. f_equal. unfold refilled. rewrite Hlc, Hla. cbn [default from_option id].
    rewrite (alter_insert_const _ _ _ _ Hc), (alter_insert_const _ _ _ _ Ha). do 2 f_equal.
    unfold v. rewrite <- Hl. apply insert_next.
Qed.
End Round.
