(* ===== verification/ClientLife.v ===== *)
(** * ClientLife: the client program with all its connections

    A context of client/client.c from its creation to its deletion: [client_create_context] opens
    one connection per port, [client_start] and [client_stop] start and stop all their threads, in
    fuzz mode a request goes out on every connection, [client_delete_context] releases everything,
    and the program [client] puts these together around what the other threads do meanwhile
    ([client_program_starts], [client_requests_wait] and [client_cleanup_ok], from which
    [ClientPrint] composes it). *)
From S2P Require Import Prelude Layout Memory Message MessageQueue SocketUdp NetConnection.
From S2P Require Import NetLifecycle NetTurns NetOpen NetMany Format Client ClientCreate.

Local Open Scope Z_scope.

(** ** Turns of the threads of a context *)
Definition client_turn (context : ptr) (turn : nat * thread_turn) : M client unit :=
  let* ctx := load context in
  let* conns := load (connections ctx) in
  let* connection := array_get conns turn.1 in
  on_net (net_turn connection turn.2).

(** Nothing but connection structs differs, and [evs] has happened. *)
Definition only_conns (evs : list event) (n n' : net) : Prop :=
  n' = with_log (n_log n ++ evs) (with_conns (n_conns n') n).
Lemma only_conns_refl n : only_conns [] n n.
Proof. unfold only_conns, with_log. simpl. rewrite app_nil_r. by destruct n. Qed.
Lemma only_conns_trans e1 e2 n1 n2 n3 : only_conns e1 n1 n2 → only_conns e2 n2 n3 → only_conns (e1 ++ e2) n1 n3.
Proof. unfold only_conns. intros -> ->. unfold with_log. simpl. by rewrite app_assoc. Qed.

(** The joins of the threads that run on a list of connections, in the order of the connections. *)
Definition joins_at (e : endpoint) (t : traffic) : list event := joins (ep_conn e) (flags (tr_conn t)).
Definition all_joins (es : list endpoint) (ts : list traffic) : list event := concat (zip_with joins_at es ts).

(** ** What a context owns *)

Record client_ok (s : client) (k : loc) (ctx : client_context_t) (es : list endpoint) (ts : list traffic)
    (addrs : list sockaddr_in) : Prop := {
  co_at : client_at s k ctx (conn_ptrs es) addrs;
  co_many : many CLIENT_QUEUE (cl_net s) es ts;
  co_addrs : length addrs = length es;
}.

Definition set_running (b : bool) (ctx : client_context_t) : client_context_t :=
  Context (connections ctx) (server_sockaddrs ctx) (mode ctx) (port_count ctx) b.

Section Context_ops.
Context (k : loc) (es : list endpoint) (addrs : list sockaddr_in).
Implicit Types (s : client) (ctx : client_context_t) (ts : list traffic).

Lemma client_ok_net s ctx ts n' ts' :
  client_ok s k ctx es ts addrs → many CLIENT_QUEUE n' es ts' → client_ok (set_cl_net n' s) k ctx es ts' addrs.
Proof using Type. intros [Hat _ Hl] Hm. split; [by apply client_at_net|done|done]. Qed.

Lemma client_ok_count s ctx ts : client_ok s k ctx es ts addrs → Z.to_nat (port_count ctx) = length es.
Proof using Type. intros [[_ _ _ _ Hl _] _ _]. unfold conn_ptrs in Hl. rewrite length_fmap in Hl. lia. Qed.

Lemma client_ok_conn s ctx ts i e :
  client_ok s k ctx es ts addrs → es !! i = Some e → conn_ptrs es !! i = Some (Some (ep_conn e)).
Proof using Type. intros _ He. unfold conn_ptrs. by rewrite list_lookup_fmap, He. Qed.

(** ** Loops over the connections *)
Section Loop.
Context (ctx : client_context_t) (body : ptr → M client bool) (P : traffic → traffic → Prop).
Context (events : endpoint → traffic → list event).
Hypothesis (Hbody : ∀ s ts i e t,
  client_ok s k ctx es ts addrs → es !! i = Some e → ts !! i = Some t →
  ∃ n' t', body (Some (ep_conn e)) s = Ok (true, set_cl_net n' s) ∧
    many CLIENT_QUEUE n' es (<[i := t']> ts) ∧ P t t' ∧ kept (cl_net s) n' es ∧ only_conns (events e t) (cl_net s) n').

Lemma for_connections_ok j : ∀ s ts i,
  client_ok s k ctx es ts addrs → (i + j = length es)%nat →
  ∃ n' ts', for_connections ctx j i body s = Ok (true, set_cl_net n' s) ∧ many CLIENT_QUEUE n' es ts' ∧
    take i ts' = take i ts ∧ Forall2 P (drop i ts) (drop i ts') ∧
    kept (cl_net s) n' es ∧ only_conns (concat (zip_with events (drop i es) (drop i ts))) (cl_net s) n'.
Proof using Hbody.
  induction j as [|j IH]; intros s ts i Hok Hij.
  - assert (length ts = length es) by (symmetry; eapply Forall2_length, (mn_each _ _ _ _ (co_many _ _ _ _ _ _ Hok))).
    exists (cl_net s), ts. split; [by destruct s|]. split; [apply Hok|]. split; [done|].
    rewrite !drop_ge by lia. split; [constructor|]. split; [by apply kept_refl|apply only_conns_refl].
  - destruct (lookup_lt_is_Some_2 es i ltac:(lia)) as [e He].
    destruct (many_lookup _ _ _ _ _ _ (co_many _ _ _ _ _ _ Hok) He) as (t & Ht & _).
    destruct (Hbody s ts i e t Hok He Ht) as (n1 & t1 & E1 & Hm1 & HP & Hk1 & El1).
    assert (Hlt : (i < length ts)%nat) by by eapply lookup_lt_Some.
    destruct (IH (set_cl_net n1 s) (<[i := t1]> ts) (S i)) as (n2 & ts2 & E2 & Hm2 & Htk & Hdr & Hk2 & El2);
      [by eapply client_ok_net|lia|].
    exists n2, ts2. simpl.
    rewrite (bind_ok _ _ _ _ _ (load_conns _ _ _ _ _ (co_at _ _ _ _ _ _ Hok))).
    rewrite (bind_ok _ _ _ _ _ (array_get_ok _ _ _ _ (client_ok_conn _ _ _ _ _ Hok He))).
    rewrite (bind_ok _ _ _ _ _ E1), E2. split; [done|]. split; [done|].
    assert (Ht2 : ts2 !! i = Some t1).
    { rewrite <- (lookup_take_lt ts2 (S i) i), Htk, lookup_take_lt by lia. by apply list_lookup_insert_eq. }
    rewrite drop_insert_lt in Hdr, El2 by lia. rewrite (drop_S _ _ _ He), (drop_S _ _ _ Ht).
    split_and!; [| |by eapply kept_trans|by eapply only_conns_trans].
    + apply (f_equal (take i)) in Htk. rewrite !take_take, !Nat.min_l in Htk by lia.
      by rewrite Htk, take_insert_ge by lia.
    + rewrite (drop_S _ _ _ Ht2). by constructor.
Qed.

Lemma for_connections_all s ts :
  client_ok s k ctx es ts addrs →
  ∃ n' ts', for_connections ctx (Z.to_nat (port_count ctx)) 0 body s = Ok (true, set_cl_net n' s) ∧
    many CLIENT_QUEUE n' es ts' ∧ Forall2 P ts ts' ∧ kept (cl_net s) n' es ∧
    only_conns (concat (zip_with events es ts)) (cl_net s) n'.
Proof using Hbody.
  intros Hok. destruct (for_connections_ok (length es) s ts 0 Hok eq_refl) as (n' & ts' & E & Hm & _ & HP & Hk & El).
  exists n', ts'. by rewrite (client_ok_count _ _ _ Hok).
Qed.
End Loop.

(** ** Starting and stopping *)

(** The connections after all were started or all were stopped. *)
Definition switched (fl : bool * bool) (t t' : traffic) : Prop :=
  tr_in t' = tr_in t ∧ tr_out t' = tr_out t ∧ flags (tr_conn t') = fl.

Lemma two_life_ops s ctx ts i e t op1 op2 :
  client_ok s k ctx es ts addrs → es !! i = Some e → ts !! i = Some t →
  ∃ n1 n2 c', run_life_op (Some (ep_conn e)) op1 (cl_net s) = Ok (NET_CONNECTION_STATUS_SUCCESS, n1) ∧
    run_life_op (Some (ep_conn e)) op2 n1 = Ok (NET_CONNECTION_STATUS_SUCCESS, n2) ∧
    many CLIENT_QUEUE n2 es (<[i := Traffic c' (tr_in t) (tr_out t)]> ts) ∧
    flags c' = flags_after op2 (flags_after op1 (flags (tr_conn t))) ∧ kept (cl_net s) n2 es ∧
    only_conns (joined_by op1 (ep_conn e) (flags (tr_conn t))
                ++ joined_by op2 (ep_conn e) (flags_after op1 (flags (tr_conn t)))) (cl_net s) n2.
Proof using Type.
  intros Hok He Ht. assert (Hc : 2 ≤ CLIENT_QUEUE) by done.
  destruct (many_life _ _ _ _ i e t Hc (co_many _ _ _ _ _ _ Hok) He Ht op1) as (c1 & n1 & E1 & En1 & Hm1 & Hf1 & Hk1).
  assert (Ht1 : <[i := Traffic c1 (tr_in t) (tr_out t)]> ts !! i = Some (Traffic c1 (tr_in t) (tr_out t)))
    by (apply list_lookup_insert_eq; by eapply lookup_lt_Some).
  destruct (many_life _ _ _ _ i e _ Hc Hm1 He Ht1 op2) as (c2 & n2 & E2 & En2 & Hm2 & Hf2 & Hk2). simpl in *.
  rewrite list_insert_insert_eq in Hm2. exists n1, n2, c2. split; [exact E1|]. split; [exact E2|].
  split; [done|]. split; [by rewrite Hf2, Hf1|]. split; [by eapply kept_trans|].
  subst n2 n1. rewrite Hf1, switch_switch. done.
Qed.

(** The context struct alone changes. *)
Lemma client_ok_running s ctx ts b :
  client_ok s k ctx es ts addrs →
  store (Some k) (set_running b ctx) s
    = Ok (tt, set_cl_contexts (<[k := set_running b ctx]> (cl_contexts s)) s) ∧
  client_ok (set_cl_contexts (<[k := set_running b ctx]> (cl_contexts s)) s) k (set_running b ctx) es ts addrs.
Proof using Type.
  intros [[Hc Ha Hb H1 H2 H3] Hm Hl]. split; [by erewrite store_ok|].
  split; [|done|done]. split; try done. apply lookup_insert_eq.
Qed.

(** The state after [client_start] or [client_stop]. *)
Definition switched_to (b : bool) (ctx : client_context_t) (n' : net) (s : client) : client :=
  set_cl_contexts (<[k := set_running b ctx]> (cl_contexts s)) (set_cl_net n' s).

Lemma client_start_ok s ctx ts :
  client_ok s k ctx es ts addrs → cl_is_running ctx = false →
  ∃ n' ts', client_start (Some k) s = Ok (CLIENT_STATUS_SUCCESS, switched_to true ctx n' s) ∧
    client_ok (switched_to true ctx n' s) k (set_running true ctx) es ts' addrs ∧
    Forall2 (switched (true, true)) ts ts' ∧ kept (cl_net s) n' es ∧ only_conns [] (cl_net s) n'.
Proof using Type.
  intros Hok Hrun. unfold client_start. rewrite (bind_ok _ _ _ _ _ (load_context _ _ _ _ _ (co_at _ _ _ _ _ _ Hok))), Hrun.
  cbn [negb]. match goal with |- context [for_connections _ _ _ ?body] =>
    destruct (for_connections_all ctx body (switched (true, true)) (λ _ _, [])) with s ts as (n' & ts' & E & Hm & HP & Hk & El); [|exact Hok|] end.
  2: { rewrite (bind_ok _ _ _ _ _ E). cbn [negb].
       destruct (client_ok_running _ ctx ts' true (client_ok_net _ _ _ _ _ Hok Hm)) as [Es Hok'].
       unfold set_running in Es at 1. rewrite (bind_ok _ _ _ _ _ Es). exists n', ts'. split; [done|]. split; [exact Hok'|].
       split; [exact HP|]. split; [exact Hk|].
       assert (Enil : concat (zip_with (λ _ _, [] : list event) es ts) = []) by (clear; revert ts; induction es; intros [|]; simpl; auto).
       by rewrite Enil in El. }
  intros s1 ts1 i e t Hok1 He Ht.
  destruct (two_life_ops s1 ctx ts1 i e t StartReceiving StartSending Hok1 He Ht) as (n1 & n2 & c & E1 & E2 & Hm & Hf & Hk & El).
  exists n2, (Traffic c (tr_in t) (tr_out t)). unfold run_life_op in E1, E2.
  erewrite bind_ok by (by apply on_net_ok). rewrite bool_decide_eq_false_2 by (by intros []).
  erewrite bind_ok by (by apply on_net_ok). rewrite bool_decide_eq_true_2 by done. done.
Qed.

Lemma client_stop_ok s ctx ts :
  client_ok s k ctx es ts addrs → cl_is_running ctx = true →
  ∃ n' ts', client_stop (Some k) s = Ok (CLIENT_STATUS_SUCCESS, switched_to false ctx n' s) ∧
    client_ok (switched_to false ctx n' s) k (set_running false ctx) es ts' addrs ∧
    Forall2 (switched (false, false)) ts ts' ∧ kept (cl_net s) n' es ∧ only_conns (all_joins es ts) (cl_net s) n'.
Proof using Type.
  intros Hok Hrun. unfold client_stop. rewrite (bind_ok _ _ _ _ _ (load_context _ _ _ _ _ (co_at _ _ _ _ _ _ Hok))), Hrun.
  cbn [negb]. match goal with |- context [for_connections _ _ _ ?body] =>
    destruct (for_connections_all ctx body (switched (false, false)) joins_at) with s ts as (n' & ts' & E & Hm & HP & Hk & El); [|exact Hok|] end.
  2: { rewrite (bind_ok _ _ _ _ _ E). cbn [negb].
       destruct (client_ok_running _ ctx ts' false (client_ok_net _ _ _ _ _ Hok Hm)) as [Es Hok'].
       unfold set_running in Es at 1. rewrite (bind_ok _ _ _ _ _ Es). exists n', ts'. split; [done|]. split; [exact Hok'|].
       split; [exact HP|]. done. }
  intros s1 ts1 i e t Hok1 He Ht.
  destruct (two_life_ops s1 ctx ts1 i e t StopReceiving StopSending Hok1 He Ht) as (n1 & n2 & c & E1 & E2 & Hm & Hf & Hk & El).
  exists n2, (Traffic c (tr_in t) (tr_out t)). unfold run_life_op in E1, E2.
  erewrite bind_ok by (by apply on_net_ok). erewrite bind_ok by (by apply on_net_ok). done.
Qed.
End Context_ops.

(** ** Deleting *)

(** [n'] is [n] without the connections [es] and the messages in their queues. *)
Record released (n n' : net) (es : list endpoint) (ts : list traffic) : Prop := {
  rl_conns : ∀ x, n_conns n' !! x = if decide (x ∈ ep_conn <$> es) then None else n_conns n !! x;
  rl_socks : ∀ x, n_socks n' !! x = if decide (x ∈ ep_sock <$> es) then None else n_socks n !! x;
  rl_queues : ∀ x, m_queues (n_mem n') !! x = if decide (x ∈ queues_of es) then None else m_queues (n_mem n) !! x;
  rl_msgs : ∀ x, m_msgs (n_mem n') !! x = if decide (x ∈ concat (owned <$> ts)) then None else m_msgs (n_mem n) !! x;
  rl_fds : ∀ d, d ∈ n_fds n' ↔ d ∈ n_fds n ∧ d ∉ ep_fd <$> es;
}.

Lemma decide_cons {A} `{EqDecision A} {B} (x : A) (l1 l2 : list A) (o : option B) :
  (if decide (x ∈ l2) then None else if decide (x ∈ l1) then None else o)
  = if decide (x ∈ l1 ++ l2) then None else o.
Proof. repeat case_decide; set_solver. Qed.

Lemma released_cons n e es t ts n1 n2 :
  n_conns n1 = delete (ep_conn e) (n_conns n) → n_socks n1 = delete (ep_sock e) (n_socks n) →
  n_fds n1 = n_fds n ∖ {[ep_fd e]} →
  m_queues (n_mem n1) = delete (ep_out e) (delete (ep_in e) (m_queues (n_mem n))) →
  m_msgs (n_mem n1) = delete_all (tr_out t) (delete_all (tr_in t) (m_msgs (n_mem n))) →
  released n1 n2 es ts → released n n2 (e :: es) (t :: ts).
Proof.
  intros Ec Es Ef Eq Em [Rc Rs Rq Rm Rf]. split.
  - intros x. rewrite Rc, Ec, lookup_delete. repeat case_decide; set_solver.
  - intros x. rewrite Rs, Es, lookup_delete. repeat case_decide; set_solver.
  - intros x. rewrite Rq, Eq, !lookup_delete. unfold queues_of. cbn [fmap list_fmap concat].
    repeat case_decide; set_solver.
  - intros x. rewrite Rm, Em, !lookup_delete_all. cbn [fmap list_fmap concat]. unfold owned at 2.
    repeat case_decide; set_solver.
  - intros d. rewrite Rf, Ef. cbn [fmap list_fmap]. set_solver.
Qed.

(** Switching the threads off first does not matter. *)
Lemma released_kept n n1 n2 es ts ts1 evs :
  kept n n1 es → only_conns evs n n1 → owned <$> ts1 = owned <$> ts → released n1 n2 es ts1 → released n n2 es ts.
Proof.
  intros [Kc _ _ _] Eoc Eo [Rc Rs Rq Rm Rf]. rewrite Eoc in Rs, Rq, Rm, Rf. rewrite Eo in Rm.
  split; try done. intros x. rewrite Rc. case_decide; [done|]. by apply Kc.
Qed.

Section Delete.
Context (k : loc) (es : list endpoint) (addrs : list sockaddr_in).

Definition delete_body : ptr → M client bool := λ connection, on_net (net_connection_delete connection) ;; ret true.

Lemma delete_connections ctx j : ∀ s ts i,
  client_at s k ctx (conn_ptrs es) addrs → many CLIENT_QUEUE (cl_net s) (drop i es) ts → (i + j = length es)%nat →
  ∃ n', for_connections ctx j i delete_body s = Ok (true, set_cl_net n' s) ∧ released (cl_net s) n' (drop i es) ts ∧
    n_log n' = n_log (cl_net s) ++ all_joins (drop i es) ts.
Proof using Type.
  induction j as [|j IH]; intros s ts i Hat Hm Hij.
  - rewrite drop_ge in Hm |- * by lia. destruct Hm as [Heach _ _ _ _ _ _]. inversion Heach; subst.
    exists (cl_net s). split; [by destruct s|]. split; [|by rewrite app_nil_r]. split; try done; intros; simpl; try (case_decide; set_solver); set_solver.
  - destruct (lookup_lt_is_Some_2 es i ltac:(lia)) as [e He]. rewrite (drop_S _ _ _ He) in Hm |- *.
    destruct ts as [|t ts]; [by destruct Hm as [Hbad _ _ _ _ _ _]; inversion Hbad|].
    destruct (many_delete _ _ _ _ _ _ Hm) as (n1 & E1 & Hm1 & Ec & Es & Ef & Eq & Em & El).
    destruct (IH (set_cl_net n1 s) ts (S i)) as (n2 & E2 & Hrel & El2); [by apply client_at_net|done|lia|].
    exists n2. split; [|split; [by eapply released_cons|]].
    2: { rewrite El2. simpl. rewrite El. unfold all_joins. simpl. by rewrite <- app_assoc. }
    assert (Hp : conn_ptrs es !! i = Some (Some (ep_conn e))) by (unfold conn_ptrs; by rewrite list_lookup_fmap, He).
    simpl. rewrite (bind_ok _ _ _ _ _ (load_conns _ _ _ _ _ Hat)), (bind_ok _ _ _ _ _ (array_get_ok _ _ _ _ Hp)).
    assert (Eb : delete_body (Some (ep_conn e)) s = Ok (true, set_cl_net n1 s)).
    { unfold delete_body. by erewrite bind_ok by (by apply on_net_ok). }
    by rewrite (bind_ok _ _ _ _ _ Eb), E2.
Qed.

(** [client_stop] on a context that runs or not. *)
Lemma client_stop_any s ctx ts :
  client_ok s k ctx es ts addrs →
  ∃ st n1 ctx1 ts1,
    let s1 := set_cl_contexts (<[k := ctx1]> (cl_contexts s)) (set_cl_net n1 s) in
    client_stop (Some k) s = Ok (st, s1) ∧ client_ok s1 k ctx1 es ts1 addrs ∧
    connections ctx1 = connections ctx ∧ server_sockaddrs ctx1 = server_sockaddrs ctx ∧
    owned <$> ts1 = owned <$> ts ∧ kept (cl_net s) n1 es ∧
    ∃ evs, only_conns evs (cl_net s) n1 ∧ evs ++ all_joins es ts1 = all_joins es ts.
Proof using Type.
  intros Hok. destruct (cl_is_running ctx) eqn:Hrun.
  - destruct (client_stop_ok k es addrs s ctx ts Hok Hrun) as (n1 & ts1 & E & Hok1 & HP & Hk & Eoc).
    eexists _, n1, _, ts1. split; [exact E|]. split; [exact Hok1|]. split_and!; try done.
    + clear -HP. induction HP as [|t t' ts ts' (E1 & E2 & _) _ IH]; [done|].
      rewrite !fmap_cons, IH. f_equal. unfold owned. by rewrite E1, E2.
    + exists (all_joins es ts). split; [done|].
      assert (En : all_joins es ts1 = []); [|by rewrite En, app_nil_r].
      clear -HP. revert es. induction HP as [|t t' ts ts' (_ & _ & Ef) _ IH]; intros [|e es]; try done.
      unfold all_joins in *. simpl. rewrite IH. unfold joins_at. by rewrite Ef.
  - assert (Es : set_cl_contexts (<[k := ctx]> (cl_contexts s)) (set_cl_net (cl_net s) s) = s).
    { pose proof Hok as [[Hc _ _ _ _ _] _ _]. rewrite insert_id by done. by destruct s. }
    exists CLIENT_STATUS_SUCCESS, (cl_net s), ctx, ts. cbv zeta. rewrite Es. split_and!; try done.
    + unfold client_stop. by rewrite (bind_ok _ _ _ _ _ (load_context _ _ _ _ _ (co_at _ _ _ _ _ _ Hok))), Hrun.
    + exists []. split; [apply only_conns_refl|done].
Qed.

(** [client_delete_context] on a context that runs or not. *)
Lemma client_delete_context_ok s ctx ts :
  client_ok s k ctx es ts addrs →
  ∃ s' la lc, client_delete_context (Some k) s = Ok (tt, s') ∧
    server_sockaddrs ctx = Some la ∧ connections ctx = Some lc ∧
    cl_contexts s' = delete k (cl_contexts s) ∧ cl_addrs s' = delete la (cl_addrs s) ∧
    cl_arrays s' = delete lc (cl_arrays s) ∧ cl_out s' = cl_out s ∧ released (cl_net s) (cl_net s') es ts ∧
    n_log (cl_net s') = n_log (cl_net s) ++ all_joins es ts.
Proof using Type.
  intros Hok. pose proof Hok as [[_ (lc & Hlc & Hconns) (la & Hla & Haddrs) _ _ _] _ _].
  destruct (client_stop_any s ctx ts Hok) as (st & n1 & ctx1 & ts1 & E1 & Hok1 & Ec1 & Ea1 & Eo & Hk & evs & Eoc & Eev).
  unfold client_delete_context. rewrite (bind_ok _ _ _ _ _ E1). set (s1 := set_cl_contexts _ _) in *.
  pose proof Hok1 as [Hat1 Hm1 _].
  rewrite (bind_ok _ _ _ _ _ (load_context _ _ _ _ _ Hat1)), (client_ok_count _ _ _ _ _ _ Hok1).
  destruct (delete_connections ctx1 (length es) s1 ts1 0) as (n2 & E2 & Hrel & El2); [done|done|done|].
  rewrite (bind_ok _ _ _ _ _ E2), Ec1, Ea1, Hla, Hlc.
  erewrite bind_ok by (eapply free_ok; exact Haddrs). erewrite bind_ok by (eapply free_ok; exact Hconns).
  erewrite free_ok by apply lookup_insert_eq.
  eexists _, la, lc. split; [done|]. simpl. split_and!; try done; [apply delete_insert_eq|by eapply released_kept|].
  rewrite El2, drop_0. unfold s1. simpl. rewrite Eoc. simpl. by rewrite <- app_assoc, Eev.
Qed.
End Delete.

(** ** Requests and turns *)
Section Sending.
Context (k : loc) (es : list endpoint) (addrs : list sockaddr_in) (ctx : client_context_t).
Implicit Types (s : client) (ts : list traffic).

Lemma client_turn_ok s ts i t e :
  client_ok s k ctx es ts addrs → es !! i = Some e →
  ∃ n' ts', client_turn (Some k) (i, t) s = Ok (tt, set_cl_net n' s) ∧
    many CLIENT_QUEUE n' es ts' ∧ kept (cl_net s) n' es.
Proof using Type.
  intros Hok He. assert (Hc : 2 ≤ CLIENT_QUEUE) by done. pose proof Hok as [Hat Hm _].
  destruct (many_lookup _ _ _ _ _ _ Hm He) as (tr & Ht & _).
  unfold client_turn. rewrite (bind_ok _ _ _ _ _ (load_context _ _ _ _ _ Hat)).
  rewrite (bind_ok _ _ _ _ _ (load_conns _ _ _ _ _ Hat)).
  erewrite bind_ok by (eapply array_get_ok, client_ok_conn; [exact Hok|exact He]). cbn [snd].
  destruct t; unfold net_turn.
  - destruct (many_receive _ _ _ _ i e tr Hc Hm He Ht) as (n' & xs' & E & Hm' & Hk). erewrite on_net_ok by exact E. eauto.
  - destruct (many_send _ _ _ _ i e tr Hc Hm He Ht) as (n' & E & Hm' & Hk). erewrite on_net_ok by exact E. eauto.
Qed.

(** One request on connection [i]. *)
Definition with_request (x : loc) (t : traffic) : traffic :=
  Traffic (tr_conn t) (tr_in t) (fifo_enqueue (Z.to_nat CLIENT_QUEUE) x (tr_out t)).

Lemma send_pid_on_many s ts i e t a pid :
  client_ok s k ctx es ts addrs → es !! i = Some e → ts !! i = Some t → addrs !! i = Some a →
  ∃ n' x, send_pid_on ctx pid i s = Ok (CLIENT_STATUS_SUCCESS, set_cl_net n' s) ∧
    many CLIENT_QUEUE n' es (<[i := with_request x t]> ts) ∧
    message_at (n_mem n') x (request_header a) (encode_pid pid) ∧
    kept (cl_net s) n' es ∧ n_log n' = n_log (cl_net s) ∧
    (∀ y h bs, y ∉ tr_out t → message_at (n_mem (cl_net s)) y h bs → message_at (n_mem n') y h bs) ∧
    m_msgs (n_mem (cl_net s)) !! x = None.
Proof using Type.
  intros Hok He Ht Ha. assert (Hc : 2 ≤ CLIENT_QUEUE) by done. pose proof Hok as [Hat Hm _].
  pose proof (client_ok_conn _ _ _ _ _ _ _ _ Hok He) as Hp.
  destruct (send_pid_on_spec k _ ctx _ addrs _ _ _ _ _ _ _ s i a pid _ _ Hat Hp Ha (many_conn_inv _ _ _ _ _ _ _ Hc Hm He Ht))
    as (n' & x & E & Hci & Hx & Hnew & El & Ein & Htc & Hkeep).
  assert (Htc' : touches (cl_net s) n' (ep_conn e) (ep_sock e) [ep_in e; ep_out e] (owned t))
    by (eapply touches_qs; [exact Htc|set_solver|unfold owned; set_solver]).
  exists n', x. split; [exact E|]. split; [|split_and!; try done; by eapply kept_touches].
  eapply many_conn_step; [exact Hm|exact He|exact Ht|exact Hci|by eapply many_threads|exact Htc'|].
  intros y [Hy|[->|Hy]%fifo_enqueue_elem]%elem_of_app; [left|by right|left]; unfold owned; set_solver.
Qed.

(** In fuzz mode, one request on every connection from [i] on. *)
Lemma send_pid_loop_fuzz pid j : mode ctx = CLIENT_MODE_FUZZ → ∀ s ts i,
  client_ok s k ctx es ts addrs → (i + j = length es)%nat →
  ∃ n' ts', send_pid_loop ctx pid j i s = Ok (CLIENT_STATUS_SUCCESS, set_cl_net n' s) ∧
    many CLIENT_QUEUE n' es ts' ∧ take i ts' = take i ts ∧ kept (cl_net s) n' es ∧ n_log n' = n_log (cl_net s) ∧
    (∀ m t a, (i ≤ m)%nat → ts !! m = Some t → addrs !! m = Some a →
       ∃ x, ts' !! m = Some (with_request x t) ∧ message_at (n_mem n') x (request_header a) (encode_pid pid)) ∧
    (∀ y h bs, (∀ m t, (i ≤ m)%nat → ts !! m = Some t → y ∉ tr_out t) →
       message_at (n_mem (cl_net s)) y h bs → message_at (n_mem n') y h bs).
Proof using Type.
  intros Hmode. induction j as [|j IH]; intros s ts i Hok Hij.
  - exists (cl_net s), ts. split; [by destruct s|]. pose proof Hok as [_ Hm _].
    split_and!; try done.
    intros m t a Hle Hm'%lookup_lt_Some. pose proof (Forall2_length _ _ _ (mn_each _ _ _ _ Hm)). lia.
  - destruct (lookup_lt_is_Some_2 es i ltac:(lia)) as [e He].
    destruct (lookup_lt_is_Some_2 addrs i) as [a Ha]; [rewrite (co_addrs _ _ _ _ _ _ Hok); lia|].
    destruct (many_lookup _ _ _ _ _ _ (co_many _ _ _ _ _ _ Hok) He) as (t & Ht & Hhere).
    destruct (send_pid_on_many s ts i e t a pid Hok He Ht Ha) as (n1 & x & E1 & Hm1 & Hx & Hk1 & El1 & Hkeep1 & Hnew).
    assert (Hlt : (i < length ts)%nat) by by eapply lookup_lt_Some.
    destruct (IH (set_cl_net n1 s) (<[i := with_request x t]> ts) (S i)) as (n2 & ts2 & E2 & Hm2 & Htk & Hk2 & El2 & Hreq & Hkeep2);
      [by eapply client_ok_net|lia|].
    assert (Hold : ∀ m tm, (S i ≤ m)%nat → <[i := with_request x t]> ts !! m = Some tm → ts !! m = Some tm)
      by (intros m tm Hle Hl; by rewrite list_lookup_insert_ne in Hl by lia).
    exists n2, ts2. cbn [send_pid_loop]. rewrite bool_decide_eq_true_2 by (by right).
    rewrite (bind_ok _ _ _ _ _ E1), bool_decide_eq_true_2, E2 by done.
    split; [done|]. split; [done|]. split_and!; [|by eapply kept_trans|by rewrite El2| |].
    + apply (f_equal (take i)) in Htk. rewrite !take_take, !Nat.min_l in Htk by lia.
      by rewrite Htk, take_insert_ge by lia.
    + intros m tm am Hle Htm Ham. destruct (decide (m = i)) as [->|Hne].
      * simplify_eq. exists x. split.
        -- rewrite <- (lookup_take_lt ts2 (S i) i), Htk, lookup_take_lt by lia. by apply list_lookup_insert_eq.
        -- apply Hkeep2; [|exact Hx]. intros m' t' Hle' Hm' Hin. apply Hold in Hm'; [|done].
           eapply Forall2_lookup_r in Hm' as (e' & _ & Hh'); [|exact (mn_each _ _ _ _ (co_many _ _ _ _ _ _ Hok))].
           destruct (conn_here_live _ _ _ _ x Hh') as [msg Hmsg]; [unfold owned; set_solver|congruence].
      * apply Hreq; [lia| |done]. by rewrite list_lookup_insert_ne.
    + intros y h bs Hy Hmy. apply Hkeep2; [|apply Hkeep1; [by eapply Hy|done]].
      intros m' t' Hle' Hm'. apply Hold in Hm'; [|done]. eapply (Hy m'); [lia|done].
Qed.
End Sending.

(** ** Creating a context *)

(** The address that lines 72-74 store for a port. *)
Definition to_server (addr port : Z) (a : sockaddr_in) : Prop :=
  a = SockAddr AF_INET (htons (port mod 65536)) addr (sin_zero a) ∧ addr_ok a = true.

(** A connection nothing has happened on. *)
Definition unused (t : traffic) : Prop := owned t = [] ∧ flags (tr_conn t) = (false, false).

Lemma released_nil n : released n n [] [].
Proof. split; try done. set_solver. Qed.

Lemma lookup_back {T} (h h0 h' : gmap loc T) (xs ys : list loc) :
  (∀ x, h0 !! x = if decide (x ∈ xs) then None else h !! x) → (∀ x, x ∈ ys → h !! x = None) →
  (∀ x, x ∉ ys → h' !! x = h !! x) → ∀ x, h0 !! x = if decide (x ∈ xs ++ ys) then None else h' !! x.
Proof.
  intros H0 Hy Hny x. rewrite H0. destruct (decide (x ∈ ys)) as [Hin|Hnin].
  - rewrite (decide_True (P := x ∈ xs ++ ys)) by (apply elem_of_app; auto). rewrite (Hy x Hin). by case_decide.
  - rewrite (Hny x Hnin). destruct (decide (x ∈ xs)) as [Hx|Hx].
    + by rewrite decide_True by (apply elem_of_app; auto).
    + rewrite decide_False; [done|]. rewrite elem_of_app. tauto.
Qed.

(** One more connection: taking it away again gives the state before. *)
Lemma released_opened n n1 es s rt st fs :
  released n1 n es [] → net_fresh n1 → fd s = fresh_fd (n_fds n1) →
  released (opened n1 s CLIENT_QUEUE rt st fs) n (es ++ [new_endpoint n1]) [].
Proof.
  intros [Rc Rs Rq Rm Rf] [[_ _ Fq] Fs Fc] Hfd. set (l := m_next (n_mem n1)) in *.
  pose proof (fresh_fd_fresh (n_fds n1)) as [Hnf _].
  split; try done.
  - rewrite fmap_app. eapply lookup_back; [exact Rc| |]; intros x Hx; simpl in Hx; fold l in Hx.
    + apply list_elem_of_singleton in Hx as ->. apply Fc. lia.
    + apply lookup_insert_ne. intros E. apply Hx. rewrite <- E. apply list_elem_of_here.
  - rewrite fmap_app. eapply lookup_back; [exact Rs| |]; intros x Hx; simpl in Hx; fold l in Hx.
    + apply list_elem_of_singleton in Hx as ->. apply Fs. lia.
    + apply lookup_insert_ne. intros E. apply Hx. rewrite <- E. apply list_elem_of_here.
  - unfold queues_of. rewrite fmap_app, concat_app.
    eapply lookup_back; [exact Rq| |]; intros x Hx; simpl in Hx; fold l in Hx; rewrite !elem_of_cons in Hx.
    + apply Fq. destruct Hx as [->|[->|?]]; [lia|lia|set_solver].
    + simpl. fold l. rewrite !lookup_insert_ne by (intros E; apply Hx; auto). done.
  - intros d. rewrite Rf, fmap_app, not_elem_of_app. simpl. rewrite elem_of_union, !elem_of_singleton, list_elem_of_singleton.
    split; [|naive_solver]. intros [Hd He]. split_and!; [by right|done|]. intros ->. done.
Qed.

(** The network state without the library failure that may be still to come. *)
Definition calm (n : net) : net := with_mem (with_faults [] (n_mem n)) n.
Lemma calm_id n : m_faults (n_mem n) = [] → calm n = n.
Proof. unfold calm. intros <-. by destruct n as [[]]. Qed.

(** The socket of a connection was bound to the loopback address, with any free port. *)
Definition bound_to (e : endpoint) (ev : event) : Prop :=
  ∃ a, ev = EvBind (ep_fd e) a ∧ sin_family a = AF_INET ∧ sin_addr a = LOOPBACK ∧ sin_port a = 0.

(** What has happened since [n0]: the sockets of [es] were bound, one after the other. *)
Definition bound_since (n0 n : net) (es : list endpoint) (rest : list event) : Prop :=
  ∃ evs, n_log n = n_log n0 ++ evs ++ rest ∧ Forall2 bound_to es evs.

(** The context while its connections are being made: [es] exist, [rest] are missing. *)
Record creating (s : client) (ctx : client_context_t) (es : list endpoint) (ts : list traffic)
    (addrs rest : list sockaddr_in) (n0 : net) : Prop := {
  cr_conns : ∃ l, connections ctx = Some l ∧ cl_arrays s !! l = Some (conn_ptrs es ++ replicate (length rest) None);
  cr_addrs : ∃ l, server_sockaddrs ctx = Some l ∧ cl_addrs s !! l = Some (addrs ++ rest);
  cr_length : length addrs = length es;
  cr_rest : Forall (λ a, addr_ok a = true) rest;
  cr_many : many CLIENT_QUEUE (calm (cl_net s)) es ts;
  cr_unused : Forall unused ts;
  cr_fresh : net_fresh (cl_net s);
  cr_faults : one_fault (m_faults (n_mem (cl_net s)));
  cr_back : released (cl_net s) n0 es [];
  cr_in : n_in (cl_net s) = n_in n0;
  cr_log : bound_since n0 (cl_net s) es [];
}.

(** What is left of it after an error exit: the connections [es], to which nobody has a pointer. *)
Record abandoned (s s' : client) (k lc la : loc) (es : list endpoint) (n0 : net) : Prop := {
  ab_many : ∃ ts, many CLIENT_QUEUE (cl_net s') es ts ∧ Forall unused ts;
  ab_back : released (cl_net s') n0 es [];
  ab_in : n_in (cl_net s') = n_in n0;
  ab_log : ∃ rest, bound_since n0 (cl_net s') es rest ∧ (length rest ≤ 1)%nat;
  ab_contexts : cl_contexts s' = delete k (cl_contexts s);
  ab_arrays : cl_arrays s' = delete lc (cl_arrays s);
  ab_addrs : cl_addrs s' = delete la (cl_addrs s);
  ab_out : cl_out s' = cl_out s;
}.

(** Using up addresses and faults. *)
Lemma many_bump n es ts p :
  many CLIENT_QUEUE (calm n) es ts → (m_next (n_mem n) ≤ p)%positive →
  many CLIENT_QUEUE (with_mem (bump p [] (n_mem n)) n) es ts.
Proof.
  intros [Heach Hfds Hap Hown Hmem Hf Hi] Hp.
  assert (Hmem' : mem_ok wire_fit (bump p [] (n_mem n))) by (apply (mem_ok_bump _ (n_mem (calm n)) p []); done).
  split; try done. eapply Forall2_impl; [exact Heach|]. intros e t [(s & Hat & Hfd) Hth].
  split; [|done]. exists s. split; [|done]. by destruct Hat.
Qed.

Lemma bound_since_opened n0 n es sk rt st fs :
  bound_since n0 n es [] → timed (new_socket n LOOPBACK 0) sk →
  bound_since n0 (opened n sk CLIENT_QUEUE rt st fs) (es ++ [new_endpoint n]) [].
Proof.
  intros (evs & El & Hevs) (_ & Hfd & Ho)%timed_facts. exists (evs ++ [EvBind (fd sk) (outcoming_addr sk)]).
  split; [simpl; rewrite El; by rewrite !app_nil_r, <- app_assoc|]. apply Forall2_app; [done|].
  constructor; [|done]. exists (outcoming_addr sk). rewrite Ho, Hfd. done.
Qed.

Lemma delete_alter_eq {T} (h : gmap loc T) i x : delete i (alter (λ _, x) i h) = delete i h.
Proof.
  apply map_eq. intros j. destruct (decide (i = j)) as [->|Hne]; [by rewrite !lookup_delete_eq|].
  by rewrite !lookup_delete_ne, lookup_alter_ne.
Qed.

Lemma div_step a f : (13 < f)%nat → (S a + (f - 13 - 1) / 13 = a + (f - 1) / 13)%nat.
Proof. intros Hf. replace (f - 1)%nat with (f - 13 - 1 + 1 * 13)%nat by lia. rewrite Nat.div_add by lia. lia. Qed.

Section Create.
Context (k lc la : loc) (ctx c0 : client_context_t) (addr : Z) (ports : list Z) (n0 : net).
Hypothesis (Haddr : 0 ≤ addr < 2 ^ 32).
Hypothesis (Hlc : connections ctx = Some lc).
Hypothesis (Hla : server_sockaddrs ctx = Some la).

(** A round that succeeds. *)
Lemma creating_round s es ts addrs a rest port sk fs :
  creating s ctx es ts addrs (a :: rest) n0 →
  spent 13 (m_faults (n_mem (cl_net s))) fs → timed (new_socket (cl_net s) LOOPBACK 0) sk →
  let a' := SockAddr AF_INET (htons (port mod 65536)) addr (sin_zero a) in
  to_server addr port a' ∧
  creating (refilled s ctx (conn_ptrs (es ++ [new_endpoint (cl_net s)]) ++ replicate (length rest) None)
              ((addrs ++ [a']) ++ rest) (opened (cl_net s) sk CLIENT_QUEUE 1 1 fs))
    ctx (es ++ [new_endpoint (cl_net s)]) (ts ++ [new_traffic (cl_net s) 1 1]) (addrs ++ [a']) rest n0.
Proof using Haddr Hlc Hla.
  intros [(lc' & Hlc' & Hc) (la' & Hla' & Ha) Hl Hrest Hm Hun Hfr Hf Hback Hin Hlog] Hfs Ht a'.
  rewrite Hlc in Hlc'. injection Hlc' as <-. rewrite Hla in Hla'. injection Hla' as <-.
  apply Forall_cons in Hrest as [Haok Hrest]. destruct (timed_facts _ _ Ht) as (Hsk & Hfd & _).
  assert (Hskok : sock_ok sk) by (apply Hsk, new_socket_ok; by vm_compute).
  split.
  { split; [done|]. apply addr_ok_spec in Haok as (_ & _ & _ & Hz). apply addr_ok_spec. simpl.
    pose proof (htons_bound (port mod 65536)). unfold AF_INET. split_and!; try done; lia. }
  split; simpl; try done.
  - exists lc. split; [done|]. rewrite Hlc. simpl. by rewrite lookup_alter_eq, Hc.
  - exists la. split; [done|]. rewrite Hla. simpl. by rewrite lookup_alter_eq, Ha.
  - rewrite !length_app. simpl. lia.
  - apply (many_opened CLIENT_QUEUE (calm (cl_net s)) es ts sk 1 1 []); try done.
    by apply (net_fresh_bump (cl_net s) (m_next (n_mem (cl_net s))) []).
  - apply Forall_app. split; [done|]. by repeat constructor.
  - by apply net_fresh_opened.
  - apply Hfs.
  - by apply released_opened.
  - by apply bound_since_opened.
Qed.

Lemma create_connections_one j : ∀ s es ts addrs rest,
  creating s ctx es ts addrs rest n0 → cl_contexts s !! k = Some c0 →
  length rest = j → (length es + j ≤ length ports)%nat →
  Forall2 (to_server addr) (take (length es) ports) addrs →
  (m_faults (n_mem (cl_net s)) ≠ [] ∧ ∃ s' es',
     create_connections (Some k) ctx addr ports j (length es) s = Ok (false, s') ∧
     abandoned s s' k lc la es' n0 ∧ (length es' < length es + j)%nat ∧
     length es' = (length es + (length (m_faults (n_mem (cl_net s))) - 1) / 13)%nat) ∨
  (∃ n' es' ts' addrs',
     create_connections (Some k) ctx addr ports j (length es) s = Ok (true, refilled s ctx (conn_ptrs es') addrs' n') ∧
     spent (13 * j) (m_faults (n_mem (cl_net s))) (m_faults (n_mem n')) ∧
     creating (refilled s ctx (conn_ptrs es') addrs' n') ctx es' ts' addrs' [] n0 ∧
     length es' = (length es + j)%nat ∧ Forall2 (to_server addr) (take (length es + j) ports) addrs').
Proof using Haddr Hlc Hla.
  induction j as [|j IH]; intros s es ts addrs rest Hcr Hk Hj Hports Hto;
    pose proof Hcr as [(lc' & Hlc' & Hc) (la' & Hla' & Ha) Hl _ Hm Hun Hfr Hf Hback Hin Hlog];
    rewrite Hlc in Hlc'; injection Hlc' as <-; rewrite Hla in Hla'; injection Hla' as <-.
  { right. destruct rest; [|done]. rewrite app_nil_r in Hc, Ha.
    assert (Es : refilled s ctx (conn_ptrs es) addrs (cl_net s) = s).
    { unfold refilled. rewrite Hlc, Hla. simpl. rewrite !alter_id by (intros; congruence). by destruct s. }
    exists (cl_net s), es, ts, addrs. rewrite Es, Nat.add_0_r. split; [done|]. split; [by apply spent_refl|]. done. }
  destruct rest as [|a rest]; [done|]. injection Hj as Hj. simpl in Hc.
  destruct (lookup_lt_is_Some_2 ports (length es) ltac:(lia)) as [port Hport].
  destruct (create_round_one s k lc la ctx c0 addr ports es addrs rest a port (length rest) Hfr Hf Hlc Hla Hk Hc Ha Hl Hport j)
    as [([Hne Hlt] & p & evs & Hp & Hevs & E)|(fs & sk & Hfs & Ht & E)].
  { left. split; [done|]. eexists _, es. split; [exact E|]. split; [|split; [lia|rewrite Nat.div_small; lia]].
    split; try done; [|by destruct Hback|].
    - exists ts. split; [by apply many_log, many_bump|done].
    - exists evs. split; [|done]. destruct Hlog as (bs & El & Hbs). exists bs. split; [|done].
      simpl. rewrite El. by rewrite app_nil_r, <- app_assoc. }
  destruct (creating_round s es ts addrs a rest port sk fs Hcr Hfs Ht) as [Ha' Hcr1].
  set (es1 := es ++ [new_endpoint (cl_net s)]) in *. set (s1 := refilled s ctx _ _ _) in *.
  assert (Hlen1 : length es1 = S (length es)) by (unfold es1; rewrite length_app; simpl; lia).
  destruct (IH s1 es1 _ _ rest Hcr1 Hk Hj) as [(Hne & s' & es' & E' & Hab & Hlt & Hle)|(n' & es' & ts' & addrs' & E' & Hsp & Hcr' & Hle & Hto')];
    [lia| |left|right]; rewrite ?Hlen1 in *.
  - rewrite (take_S_r _ _ _ Hport). apply Forall2_app; [done|]. by constructor.
  - simpl in Hne, Hle. destruct Hfs as [_ Hfs]. assert (Hlf : (length fs ≠ 0)%nat) by (by destruct fs).
    split; [intros E0; rewrite E0, drop_nil in Hfs; done|]. exists s', es'. rewrite E. split; [exact E'|].
    split; [|split; [lia|rewrite Hle; rewrite Hfs, length_drop in *; apply div_step; lia]].
    destruct Hab as [H1 H2 H3 Hlg H4 H5 H6 H7]. split; try done.
    + rewrite H5. simpl. rewrite Hlc. apply delete_alter_eq.
    + rewrite H6. simpl. rewrite Hla. apply delete_alter_eq.
  - assert (Eref : refilled s1 ctx (conn_ptrs es') addrs' n' = refilled s ctx (conn_ptrs es') addrs' n').
    { unfold refilled. simpl. by rewrite !alter_const. }
    exists n', es', ts', addrs'. rewrite <- Eref, E. rewrite Nat.add_succ_r. split; [exact E'|].
    split; [replace (13 * S j)%nat with (13 + 13 * j)%nat by lia; by eapply spent_trans|]. by split_and!.
Qed.
End Create.

(** ** The whole of [client_create_context] *)

(** A client process in which nothing fails; nothing lives at or above the next address. *)
Record client_fresh (s : client) : Prop := {
  cf_net : net_fresh (cl_net s);
  cf_contexts : fresh_above (m_next (n_mem (cl_net s))) (cl_contexts s);
  cf_arrays : fresh_above (m_next (n_mem (cl_net s))) (cl_arrays s);
  cf_addrs : fresh_above (m_next (n_mem (cl_net s))) (cl_addrs s);
  cf_mem : mem_ok wire_fit (n_mem (cl_net s));
  cf_faults : m_faults (n_mem (cl_net s)) = [];
  cf_inputs : inputs_ok (cl_net s);
}.

Lemma alloc_nofault {S T} `{Allocator S} `{!Store S T} (x : T) (s : S) :
  faults_of s = [] →
  alloc x s = Ok (Some (next_of s),
    let s' := set_next (Pos.succ (next_of s)) s in set_heap (<[next_of s := x]> (heap_of s')) s').
Proof. intros Hf. unfold alloc, bind. by rewrite fallible_nil. Qed.

Lemma malloc_addrs_ok c s :
  ∃ rest, length rest = c ∧ Forall (λ a, addr_ok a = true) rest ∧
    malloc_addrs c s = alloc rest s.
Proof.
  unfold malloc_addrs, bind at 1, get_state. eexists. split; [|split; [|done]].
  - by rewrite length_fmap, length_seq.
  - apply Forall_fmap, Forall_forall. intros i [_ Hi]%elem_of_seq. simpl. apply decode_addr_ok, length_slice.
    rewrite length_junk_block. unfold sizeof_sockaddr in *. nia.
Qed.

Lemma client_create_context_ok s m addr ports :
  client_fresh s → 0 < addr < 2 ^ 32 → ports ≠ [] →
  ∃ s' es ts addrs,
    let l := m_next (n_mem (cl_net s)) in
    let ctx := Context (Some (l + 3)%positive) (Some (l + 1)%positive) m (Z.of_nat (length ports)) false in
    client_create_context m addr (Z.of_nat (length ports)) (Some ports) s = Ok (Some l, s') ∧
    client_ok s' l ctx es ts addrs ∧ length es = length ports ∧ Forall unused ts ∧
    Forall2 (to_server addr) ports addrs ∧ released (cl_net s') (cl_net s) es [] ∧ bound_since (cl_net s) (cl_net s') es [] ∧ n_in (cl_net s') = n_in (cl_net s) ∧
    cl_out s' = cl_out s ∧ cl_contexts s' = <[l := ctx]> (cl_contexts s) ∧
    cl_addrs s' = <[(l + 1)%positive := addrs]> (cl_addrs s) ∧
    cl_arrays s' = <[(l + 3)%positive := conn_ptrs es]> (<[(l + 2)%positive := replicate (length ports) None]> (cl_arrays s)).
Proof.
  intros [Hnf Hfc Hfa Hfd Hmem Hf Hin] Haddr Hne. set (l := m_next (n_mem (cl_net s))) in *.
  unfold client_create_context. rewrite (proj2 (Z.eqb_neq addr 0)) by lia.
  destruct (Z.leb_spec (Z.of_nat (length ports)) 0) as [Hbad|Hpos]; [destruct ports; simpl in *; [done|lia]|].
  cbn [orb]. rewrite Nat2Z.id. set (c := length ports) in *.
  cbv zeta. replace (l + 1)%positive with (Pos.succ l) by lia.
  replace (l + 2)%positive with (Pos.succ (Pos.succ l)) by lia.
  replace (l + 3)%positive with (Pos.succ (Pos.succ (Pos.succ l))) by lia.
  set (l1 := Pos.succ l). set (l2 := Pos.succ l1). set (l3 := Pos.succ l2).
  set (at_next := λ x, with_mem (with_next x (n_mem (cl_net s))) (cl_net s)).
  set (blank := Context None None m (Z.of_nat c) false). set (none := replicate c (None : ptr)).
  set (s1 := Client (at_next l1) (<[l := blank]> (cl_contexts s)) (cl_arrays s) (cl_addrs s) (cl_out s)).
  assert (E1 : alloc blank s = Ok (Some l, s1)) by (rewrite alloc_nofault by exact Hf; done).
  destruct (malloc_addrs_ok c s1) as (rest & Hlr & Hrest & E2).
  set (s2 := Client (at_next l2) (cl_contexts s1) (cl_arrays s) (<[l1 := rest]> (cl_addrs s)) (cl_out s)).
  assert (E2' : malloc_addrs c s1 = Ok (Some l1, s2)) by (rewrite E2, alloc_nofault by exact Hf; done).
  set (s3 := Client (at_next l3) (cl_contexts s1) (<[l2 := none]> (cl_arrays s)) (cl_addrs s2) (cl_out s)).
  assert (E3 : alloc none s2 = Ok (Some l2, s3)) by (rewrite alloc_nofault by exact Hf; done).
  set (n4 := at_next (Pos.succ l3)).
  set (s4 := Client n4 (cl_contexts s1) (<[l3 := none]> (<[l2 := none]> (cl_arrays s))) (cl_addrs s2) (cl_out s)).
  assert (E4 : alloc none s3 = Ok (Some l3, s4)) by (rewrite alloc_nofault by exact Hf; done).
  rewrite (bind_ok _ _ _ _ _ E1). cbn match. rewrite (bind_ok _ _ _ _ _ E2'), (bind_ok _ _ _ _ _ E3). cbn match.
  rewrite (bind_ok _ _ _ _ _ E4). cbn match. set (ctx := Context (Some l3) (Some l1) m (Z.of_nat c) false).
  set (s5 := set_cl_contexts (<[l := ctx]> (cl_contexts s)) s4).
  erewrite bind_ok; [|erewrite store_ok by apply lookup_insert_eq; simpl; rewrite insert_insert_eq; fold s5; reflexivity].
  assert (En4 : n4 = with_mem (bump (Pos.succ l3) [] (n_mem (cl_net s))) (cl_net s))
    by (unfold n4, at_next, bump; by rewrite with_faults_nil).
  assert (Hlt : (m_next (n_mem (cl_net s)) ≤ Pos.succ l3)%positive) by (unfold l3, l2, l1, l; lia).
  assert (Hm4 : mem_ok wire_fit (n_mem n4)) by (rewrite En4; by apply mem_ok_bump).
  assert (Hn4 : net_fresh n4) by (rewrite En4; by apply net_fresh_bump).
  assert (Hcr : creating s5 ctx [] [] [] rest (cl_net s)).
  { split; try done.
    - exists l3. split; [done|]. simpl. rewrite Hlr. apply lookup_insert_eq.
    - exists l1. split; [done|]. apply lookup_insert_eq.
    - rewrite calm_id by exact Hf. by split.
    - by left.
    - split; try done. intros d. simpl. set_solver.
    - exists []. simpl. by rewrite !app_nil_r. }
  destruct (create_connections_one l l3 l1 ctx ctx addr ports (cl_net s) ltac:(lia) eq_refl eq_refl c s5 [] [] [] rest Hcr)
    as [[Hbad _]|(n' & es & ts & addrs & E5 & Hf5 & Hcr' & Hle & Hto)];
    [apply lookup_insert_eq|done|done|by constructor|by destruct Hbad|]. apply spent_nil in Hf5; [|exact Hf].
  cbn [length] in E5. rewrite (bind_ok _ _ _ _ _ E5). set (s' := refilled _ _ _ _ _) in *.
  cbn [length Nat.add] in Hle, Hto. rewrite (firstn_all ports : take c ports = ports) in Hto.
  destruct Hcr' as [(lc & Hlc & Hc) (la & Hla & Ha) Hl _ Hm Hun _ _ Hback Hin' Hlog].
  rewrite calm_id in Hm by done.
  exists s', es, ts, addrs. split; [done|]. injection Hlc as <-. injection Hla as <-. rewrite app_nil_r in Hc, Ha.
  split_and!; try done.
  - split; [|done|done]. split; simpl; try done; [apply lookup_insert_eq|by exists l3|by exists l1|lia|..].
    + unfold conn_ptrs. by rewrite length_fmap, Hle.
    + clear -Hto. induction Hto as [|? ? ? ? [_ ?] _ IH]; by constructor.
  - simpl. rewrite (alter_insert_const _ _ _ rest) by apply lookup_insert_eq. apply insert_insert_eq.
  - simpl. rewrite (alter_insert_const _ _ _ none) by apply lookup_insert_eq. apply insert_insert_eq.
Qed.

(** ** The program *)

(** What the connections do between creation and deletion does not matter to the rest. *)
Lemma back_to_start n0 n1 n2 n3 es ts :
  released n1 n0 es [] → kept n1 n2 es → released n2 n3 es ts →
  n_conns n3 = n_conns n0 ∧ n_socks n3 = n_socks n0 ∧ m_queues (n_mem n3) = m_queues (n_mem n0) ∧ n_fds n3 = n_fds n0.
Proof.
  intros [Rc Rs Rq _ Rf] [Kc Ks Kq Kf] [Sc Ss Sq _ Sf]. split_and!.
  - apply map_eq. intros x. rewrite Sc, Rc. case_decide; [done|by apply Kc].
  - apply map_eq. intros x. rewrite Ss, Rs. case_decide; [done|by apply Ks].
  - apply map_eq. intros x. rewrite Sq, Rq. case_decide; [done|by apply Kq].
  - apply set_eq. intros d. by rewrite Sf, Rf, Kf.
Qed.

Definition config_text (server_addr : list byte) (m : client_mode_t) (ports pids : list Z) : list byte :=
  cstring "Server Address: "%string ++ server_addr ++ [NL]
  ++ cstring "Mode: "%string ++ cstring (match m with CLIENT_MODE_FUZZ => "fuzz" | CLIENT_MODE_NORMAL => "nfuzz" end)%string ++ [NL]
  ++ cstring "Ports count: "%string ++ print_int (Z.of_nat (length ports)) ++ [NL]
  ++ cstring "Ports: "%string ++ print_ints ports ++ [NL] ++ cstring "Pids: "%string ++ print_ints pids ++ [NL].

Lemma client_print_config_eq server_addr m ports pids s :
  client_print_config server_addr m ports pids s
  = Ok (tt, set_cl_out (cl_out s ++ config_text server_addr m ports pids) s).
Proof.
  unfold client_print_config, printf, bind, modify. do 2 f_equal. unfold set_cl_out.
  cbn [cl_out cl_net cl_contexts cl_arrays cl_addrs]. f_equal. unfold config_text. by rewrite <- !app_assoc.
Qed.

Section Program.
Context (k : loc) (es : list endpoint) (addrs : list sockaddr_in).

(** A request in normal mode. *)
Lemma client_request_normal s ctx ts pid :
  client_ok s k ctx es ts addrs → mode ctx = CLIENT_MODE_NORMAL →
  ∃ n' ts', client_send_pid_message (Some k) pid s = Ok (CLIENT_STATUS_SUCCESS, set_cl_net n' s) ∧
    many CLIENT_QUEUE n' es ts' ∧ kept (cl_net s) n' es.
Proof using Type.
  intros Hok Hmode. pose proof Hok as [Hat Hm Hl]. pose proof (client_ok_count _ _ _ _ _ _ Hok) as Hcount.
  pose proof (cx_count _ _ _ _ _ Hat) as Hpos.
  destruct (lookup_lt_is_Some_2 es 0) as [e He]; [rewrite <- Hcount; lia|].
  destruct (lookup_lt_is_Some_2 addrs 0) as [a Ha]; [rewrite Hl, <- Hcount; lia|].
  destruct (many_lookup _ _ _ _ _ _ Hm He) as (t & Ht & _).
  destruct (send_pid_on_many k es addrs ctx s ts 0 e t a pid Hok He Ht Ha) as (n1 & x & E1 & Hm1 & _ & Hk1 & _).
  exists (with_log (n_log n1 ++ [EvSleep 1]) n1), (<[0%nat := with_request x t]> ts). split_and!; [|by apply many_log|].
  - unfold client_send_pid_message. rewrite (bind_ok _ _ _ _ _ (load_context _ _ _ _ _ Hat)).
    destruct (Z.to_nat (port_count ctx)) as [|j] eqn:Ej; [lia|]. cbn [send_pid_loop].
    rewrite bool_decide_eq_true_2 by (by left).
    erewrite bind_ok; [|erewrite bind_ok by exact E1; rewrite bool_decide_eq_true_2 by done;
      destruct j; [done|]; cbn [send_pid_loop]; rewrite bool_decide_eq_false_2 by (rewrite Hmode; by intros [|]); done].
    done.
  - eapply kept_trans; [exact Hk1|by apply kept_refl].
Qed.
End Program.

(** The program has printed its configuration and [text], and has released every connection,
    socket, descriptor, queue and the context with its addresses; of its arrays, the one that line
    36 allocates is left over. *)
Definition program_released (s s' : client) (text : list byte) : Prop :=
  cl_out s' = cl_out s ++ config_text Client.SERVER_ADDR CLIENT_MODE SERVER_PORT_ARRAY CLIENT_PID_ARRAY ++ text ∧
  n_conns (cl_net s') = n_conns (cl_net s) ∧ n_socks (cl_net s') = n_socks (cl_net s) ∧
  m_queues (n_mem (cl_net s')) = m_queues (n_mem (cl_net s)) ∧ n_fds (cl_net s') = n_fds (cl_net s) ∧
  cl_contexts s' = cl_contexts s ∧ cl_addrs s' = cl_addrs s ∧
  ∃ l, cl_arrays s !! l = None ∧ cl_arrays s' = <[l := replicate 5 None]> (cl_arrays s).

(** The program started in [s] comes to the point where the printing thread exists, with the
    context [k] in the state [s1]; what follows are the steps of the other threads and the
    requests. *)
Definition starts_in (s : client) (k : loc) (s1 : client) : Prop :=
  ∀ fuel before waiting, boot_client_main fuel before waiting s
                         = (before (Some k) ;; client_requests fuel waiting (Some k)) s1.

(** The state with more output and another network state. *)
Definition went_on (s : client) (text : list byte) (n : net) : client :=
  set_cl_out (cl_out s ++ text) (set_cl_net n s).

Lemma client_ok_went_on k es addrs ctx s ts text n' ts' :
  client_ok s k ctx es ts addrs → many CLIENT_QUEUE n' es ts' → client_ok (went_on s text n') k ctx es ts' addrs.
Proof. intros Hok Hm. destruct (client_ok_net _ _ _ _ _ _ _ _ Hok Hm) as [[] ? ?]. by split. Qed.

(** The start of the program. *)
Lemma client_program_starts s :
  client_fresh s →
  ∃ k ctx es ts addrs s1 n0, starts_in s k s1 ∧ client_ok s1 k ctx es ts addrs ∧ mode ctx = CLIENT_MODE_NORMAL ∧
    length es = 5%nat ∧ released n0 (cl_net s) es [] ∧ kept n0 (cl_net s1) es ∧
    (* what its end leaves of all but the network *)
    ∀ s2 la lc, server_sockaddrs ctx = Some la → connections ctx = Some lc →
      cl_contexts s2 = delete k (cl_contexts s1) → cl_addrs s2 = delete la (cl_addrs s1) →
      cl_arrays s2 = delete lc (cl_arrays s1) →
      cl_out s1 = cl_out s ++ config_text Client.SERVER_ADDR CLIENT_MODE SERVER_PORT_ARRAY CLIENT_PID_ARRAY ∧
      cl_contexts s2 = cl_contexts s ∧ cl_addrs s2 = cl_addrs s ∧
      ∃ l, cl_arrays s !! l = None ∧ cl_arrays s2 = <[l := replicate 5 None]> (cl_arrays s).
Proof.
  intros Hfr.
  set (s0 := set_cl_out (cl_out s ++ config_text Client.SERVER_ADDR CLIENT_MODE SERVER_PORT_ARRAY CLIENT_PID_ARRAY) s).
  assert (Hfr0 : client_fresh s0) by (by destruct Hfr).
  destruct (client_create_context_ok s0 CLIENT_MODE (inet_addr Client.SERVER_ADDR) SERVER_PORT_ARRAY Hfr0)
    as (s1 & es & ts1 & addrs & E1 & Hok1 & Hlen & _ & _ & Hback & _ & _ & Eo & Ec & Ea & Ear); [by vm_compute|done|].
  set (l := m_next (n_mem (cl_net s0))) in *. cbv zeta in *.
  destruct (client_start_ok _ _ _ _ _ _ Hok1 eq_refl) as (n2 & ts2 & E2 & Hok2 & _ & Hk2 & _).
  set (s2 := switched_to _ _ _ _ _) in *. pose proof Hok2 as [Hat2 Hm2 _].
  eexists l, _, es, ts2, addrs, s2, (cl_net s1). split.
  { intros fuel before waiting. unfold boot_client_main, client_main.
    rewrite (bind_ok _ _ _ _ _ (client_print_config_eq _ _ _ _ _)). fold s0. rewrite (bind_ok _ _ _ _ _ E1). cbn match.
    rewrite (bind_ok _ _ _ _ _ E2), bool_decide_eq_false_2 by (by intros []).
    by erewrite bind_ok by (apply fallible_nil; exact (mn_faults _ _ _ _ Hm2)). }
  split; [exact Hok2|]. split_and!; try done. intros s3 la lc [= <-] [= <-] Dc Da Dr.
  simpl in Dc, Da, Dr. rewrite Ec in Dc. rewrite Ea in Da. rewrite Ear in Dr.
  destruct Hfr0 as [_ Fc Fa Fd _ _ _]. fold l in Fc, Fa, Fd. simpl in Fc, Fa, Fd.
  split; [simpl; by rewrite Eo|].
  split; [rewrite Dc, insert_insert_eq; apply delete_insert_id, Fc; lia|].
  split; [rewrite Da; apply delete_insert_id, Fd; lia|].
  exists (l + 2)%positive. split; [apply Fa; lia|]. rewrite Dr. apply delete_insert_id.
  rewrite lookup_insert_ne by lia. apply Fa. lia.
Qed.

(** The rest of the program in normal mode, up to the wait and after it. *)
Lemma client_requests_wait k es addrs ctx s ts :
  client_ok s k ctx es ts addrs → mode ctx = CLIENT_MODE_NORMAL →
  ∃ n' ts', client_send_pid_message (Some k) 1000 s = Ok (CLIENT_STATUS_SUCCESS, set_cl_net n' s) ∧
    many CLIENT_QUEUE n' es ts' ∧ kept (cl_net s) n' es ∧
    ∀ fuel waiting, client_requests fuel waiting (Some k) s
      = ((waiting (Some k) ;; on_net (sleep 1)) ;; client_cleanup (Some k)) (set_cl_net n' s).
Proof.
  intros Hok Hmode. destruct (client_request_normal _ _ _ _ _ _ 1000 Hok Hmode) as (n' & ts' & E & Hm & Hk).
  exists n', ts'. split_and!; try done. intros fuel waiting. unfold client_requests.
  rewrite (bind_ok _ _ _ _ _ (load_context _ _ _ _ _ (co_at _ _ _ _ _ _ Hok))), Hmode.
  rewrite (bind_ok _ _ s 1000 s) by done. by rewrite (bind_ok _ _ _ _ _ E), bool_decide_eq_true_2 by done.
Qed.

(** The printing thread uses the context, which must exist. *)
Lemma printing_dangling k s fuel :
  cl_contexts s !! k = None → print_received_messages (S fuel) (Some k) s = Undefined UB_dangling.
Proof. intros H. cbn [print_received_messages]. by apply bind_undefined, bind_undefined, load_dangling. Qed.

Lemma client_cleanup_ok k es addrs ctx s ts n0 n1 :
  client_ok s k ctx es ts addrs → released n0 n1 es [] → kept n0 (cl_net s) es →
  ∃ s' la lc, (on_net (sleep 1) ;; client_cleanup (Some k)) s = Ok (0, s') ∧
    server_sockaddrs ctx = Some la ∧ connections ctx = Some lc ∧
    cl_contexts s' = delete k (cl_contexts s) ∧ cl_addrs s' = delete la (cl_addrs s) ∧
    cl_arrays s' = delete lc (cl_arrays s) ∧ cl_out s' = cl_out s ∧
    n_conns (cl_net s') = n_conns n1 ∧ n_socks (cl_net s') = n_socks n1 ∧
    m_queues (n_mem (cl_net s')) = m_queues (n_mem n1) ∧ n_fds (cl_net s') = n_fds n1.
Proof.
  intros Hok Hback Hk. set (n5 := with_log (n_log (cl_net s) ++ [EvSleep 1]) (cl_net s)).
  pose proof (many_log _ _ _ _ (n_log (cl_net s) ++ [EvSleep 1]) (co_many _ _ _ _ _ _ Hok)) as Hm5.
  pose proof (client_ok_net _ _ _ _ _ _ n5 _ Hok Hm5) as Hok5.
  destruct (client_delete_context_ok _ _ _ _ _ _ Hok5) as (s' & la & lc & E6 & Hla & Hlc & Dc & Da & Dr & Do & Hrel & _).
  exists s', la, lc. split; [erewrite bind_ok by (by apply on_net_ok); unfold client_cleanup; by erewrite bind_ok by exact E6|].
  split_and!; try done; apply (back_to_start n1 n0 n5 (cl_net s') es ts Hback); [|exact Hrel| |exact Hrel| |exact Hrel| |exact Hrel];
    (eapply kept_trans; [exact Hk|by apply kept_refl]).
Qed.

Lemma client0_fresh : client_fresh client0.
Proof. by split. Qed.

(** The printing thread outlives the context.  [client_delete_context], which nothing in the
    program delays until the printing thread has stopped, releases the context that this thread
    still uses: its next pass, at whatever later time, is a use of freed memory. *)
Theorem printing_outlives_context s k ctx es ts addrs fuel :
  client_ok s k ctx es ts addrs →
  ∃ s', ⟦ client_delete_context (Some k) ⟧ s ⇓ tt, s' ∧
    print_received_messages (S fuel) (Some k) s' = Undefined UB_dangling.
Proof.
  intros Hok. destruct (client_delete_context_ok _ _ _ _ _ _ Hok) as (s' & la & lc & E & _ & _ & Dc & _).
  exists s'. split; [exact E|]. apply printing_dangling. rewrite Dc. apply lookup_delete_eq.
Qed.

Lemma printing_outlives_context_witness :
  ∃ s k s', ⟦ client_create_context CLIENT_MODE LOOPBACK 2 (Some [5000; 5001]) ⟧ client0 ⇓ Some k, s ∧
    ⟦ client_delete_context (Some k) ⟧ s ⇓ tt, s' ∧
    print_received_messages 1 (Some k) s' = Undefined UB_dangling.
Proof.
  destruct (client_create_context_ok client0 CLIENT_MODE LOOPBACK [5000; 5001] client0_fresh)
    as (s & es & ts & addrs & Ec & Hok & _); [by vm_compute|done|].
  destruct (printing_outlives_context _ _ _ _ _ _ 0 Hok) as (s' & E & Hp).
  exists s. eexists. exists s'. exact (conj Ec (conj E Hp)).
Defined.

(** C31: creating a context.  [client_create_context] for any non-empty list of ports opens one
    connection per port, each with its own socket, bound to the loopback address ([bound_since]: the
    calls of [bind] are all that has happened), and two empty queues, no thread running,
    and stores the address of the server with that port for each; removing the connections again
    would give the state before the call. *)
Theorem client_context_created s m addr ports :
  client_fresh s → 0 < addr < 2 ^ 32 → ports ≠ [] →
  ∃ s' k ctx es ts addrs,
    ⟦ client_create_context m addr (Z.of_nat (length ports)) (Some ports) ⟧ s ⇓ Some k, s' ∧
    client_ok s' k ctx es ts addrs ∧ mode ctx = m ∧ cl_is_running ctx = false ∧
    length es = length ports ∧ Forall unused ts ∧ Forall2 (to_server addr) ports addrs ∧
    bound_since (cl_net s) (cl_net s') es [] ∧
    released (cl_net s') (cl_net s) es [] ∧ cl_contexts s !! k = None.
Proof.
  intros Hfr Haddr Hne. destruct (client_create_context_ok s m addr ports Hfr Haddr Hne)
    as (s' & es & ts & addrs & E & Hok & Hlen & Hun & Hto & Hback & Hlog & _).
  eexists s', _, _, es, ts, addrs. split; [exact E|]. split; [exact Hok|]. split_and!; try done.
  destruct Hfr as [_ Fc _ _ _ _ _]. apply Fc. lia.
Qed.

Lemma client_context_created_witness :
  ∃ s' k ctx es ts addrs,
    ⟦ client_create_context CLIENT_MODE_FUZZ LOOPBACK 2 (Some [5000; 5001]) ⟧ client0 ⇓ Some k, s' ∧
    client_ok s' k ctx es ts addrs ∧ mode ctx = CLIENT_MODE_FUZZ ∧ length es = 2%nat.
Proof.
  destruct (client_context_created client0 CLIENT_MODE_FUZZ LOOPBACK [5000; 5001] client0_fresh)
    as (s' & k & ctx & es & ts & addrs & E & Hok & Hm & _ & Hl & _); [by vm_compute|done|].
  exists s', k, ctx, es, ts, addrs. exact (conj E (conj Hok (conj Hm Hl))).
Defined.


