(* ===== verification/ClientPrint.v ===== *)
(** * ClientPrint: the client program while its printing thread runs

    [print_received_messages] of client/client.c polls all connections and prints what they have
    received, while the threads of the connections go on and the program sends its request and
    waits.  The unit of interleaving is a loop iteration of a connection thread, or the poll of one connection
    (lines 244-248).  The polls may come in any order, which includes the rounds that the thread
    makes.  Until the cleanup, the only thing that can go wrong is a received block without a NUL. *)
From S2P Require Import Prelude Layout Memory Message MessageQueue SocketUdp NetConnection.
From S2P Require Import NetLifecycle NetTurns NetOpen NetMany Format Client ClientCreate ClientLife.

Local Open Scope Z_scope.

Inductive client_action : Type :=
  | OfConnection (i : nat) (turn : thread_turn)
  | PrintOf (i : nat).

(** The connection that an action is about. *)
Definition action_index (a : client_action) : nat :=
  match a with OfConnection i _ => i | PrintOf i => i end.

Definition client_act (context : ptr) (a : client_action) : M client unit :=
  match a with
  | OfConnection i turn => client_turn context (i, turn)
  | PrintOf i =>
      let* ctx := load context in
      let* conns := load (connections ctx) in
      let* connection := array_get conns i in
      print_one connection ;;
      ret tt
  end.
Definition client_actions (acts : list client_action) (context : ptr) : M client unit :=
  foldr (λ a rest, client_act context a ;; rest) (ret tt) acts.

(** What the printing thread writes for a text, and for a list of texts. *)
Definition line_of (text : list byte) : list byte := cstring "Received message: "%string ++ text ++ [NL].
Definition printed (texts : list (list byte)) : list byte := concat (line_of <$> texts).

Lemma went_on_nil s n : went_on s [] n = set_cl_net n s.
Proof. unfold went_on. rewrite app_nil_r. by destruct s. Qed.
Lemma went_on_app s t1 t2 n1 n2 : went_on (went_on s t1 n1) t2 n2 = went_on s (t1 ++ t2) n2.
Proof. unfold went_on, set_cl_out, set_cl_net. simpl. by rewrite app_assoc. Qed.

(** The connection with number [i] of the context [k]. *)
Definition connection_of (s : client) (k : loc) (i : nat) (connection : ptr) : Prop :=
  ∃ ctx lc conns, cl_contexts s !! k = Some ctx ∧ connections ctx = Some lc ∧ cl_arrays s !! lc = Some conns ∧
    conns !! i = Some connection.

(** [observed k acts s texts s']: the actions [acts] lead from [s] to [s'], and [texts] are the
    texts of the messages that the polls among them take from the incoming queues, in this order,
    each printed on a line when it is taken.  A poll that finds the queue empty prints nothing. *)
Inductive observed (k : loc) : list client_action → client → list (list byte) → client → Prop :=
  | observed_nil s : observed k [] s [] s
  | observed_turn i t acts s n1 texts s' :
      client_act (Some k) (OfConnection i t) s = Ok (tt, set_cl_net n1 s) →
      observed k acts (set_cl_net n1 s) texts s' → observed k (OfConnection i t :: acts) s texts s'
  | observed_nothing i connection acts s n1 texts s' :
      connection_of s k i connection →
      net_connection_receive_nonblocking connection (cl_net s) = Ok (None, n1) →
      observed k acts (set_cl_net n1 s) texts s' → observed k (PrintOf i :: acts) s texts s'
  | observed_message i connection acts s x h bs text n1 texts s' :
      connection_of s k i connection →
      net_connection_receive_nonblocking connection (cl_net s) = Ok (Some x, n1) →
      message_at (n_mem n1) x h bs → c_str bs = Some text →
      observed k acts (went_on s (line_of text) n1) texts s' →
      observed k (PrintOf i :: acts) s (text :: texts) s'.

(** The next message that connection [i] of the context [k] delivers has a block without a NUL. *)
Definition unterminated (s : client) (k : loc) (i : nat) : Prop :=
  ∃ connection n' x h bs,
    connection_of s k i connection ∧
    net_connection_receive_nonblocking connection (cl_net s) = Ok (Some x, n') ∧
    message_at (n_mem n') x h bs ∧ NUL ∉ bs.

Lemma c_str_none bs : c_str bs = None → NUL ∉ bs.
Proof.
  induction bs as [|b bs IH]; simpl; [set_solver|]. destruct (Byte.eqb b NUL) eqn:E; [done|].
  destruct (c_str bs); [done|]. intros _ [<-|Hin]%elem_of_cons; [done|by apply IH].
Qed.

Section Acts.
Context (k : loc) (es : list endpoint) (addrs : list sockaddr_in) (ctx : client_context_t).
Implicit Types (s : client) (ts : list traffic).

(** Printing a message that has a block. *)
Lemma print_message_eq s x h bs :
  message_at (n_mem (cl_net s)) x h bs →
  print_message (Some x) s = match c_str bs with
                             | Some text => Ok (tt, went_on s (line_of text) (cl_net s))
                             | None => Undefined UB_bounds
                             end.
Proof using Type.
  intros (d & Hx & Hb). unfold print_message.
  erewrite bind_ok by (apply on_mem_ok, load_ok; exact Hx). cbn [Memory.data].
  erewrite bind_ok by (apply on_mem_ok, load_ok; exact Hb).
  destruct (c_str bs) as [text|]; [|done]. simpl. by rewrite !with_mem_id.
Qed.

(** One action goes on, with what it observes, or prints a block without a NUL. *)
Definition act_goes_on s (a : client_action) : Prop :=
  ∃ texts n' ts', client_act (Some k) a s = Ok (tt, went_on s (printed texts) n') ∧
    (∀ acts texts' s', observed k acts (went_on s (printed texts) n') texts' s' → observed k (a :: acts) s (texts ++ texts') s') ∧
    many CLIENT_QUEUE n' es ts' ∧ kept (cl_net s) n' es.
Definition act_overreads s (a : client_action) : Prop :=
  client_act (Some k) a s = Undefined UB_bounds ∧ ∃ i, a = PrintOf i ∧ unterminated s k i.

Lemma print_act s ts i e :
  client_ok s k ctx es ts addrs → es !! i = Some e → act_goes_on s (PrintOf i) ∨ act_overreads s (PrintOf i).
Proof using Type.
  intros Hok He. pose proof Hok as [Hat Hm _]. pose proof Hat as [Hctx (lc & Hlc & Hconns) _ _ _ _].
  destruct (many_lookup _ _ _ _ _ _ Hm He) as (t & Ht & Hhere).
  pose proof (client_ok_conn _ _ _ _ _ _ _ _ Hok He) as Hp.
  assert (Hco : connection_of s k i (Some (ep_conn e))) by (exists ctx, lc, (conn_ptrs es); done).
  destruct (many_take CLIENT_QUEUE (cl_net s) es ts i e t ltac:(done) Hm He Ht) as (n' & E & Hm' & Hk & Em & Eb).
  assert (Eact : client_act (Some k) (PrintOf i) s = (print_one (Some (ep_conn e)) ;; ret tt) s).
  { simpl. rewrite (bind_ok _ _ _ _ _ (load_context _ _ _ _ _ Hat)), (bind_ok _ _ _ _ _ (load_conns _ _ _ _ _ Hat)).
    by rewrite (bind_ok _ _ _ _ _ (array_get_ok _ _ _ _ Hp)). }
  unfold act_goes_on, act_overreads. rewrite Eact. destruct (tr_in t) as [|x xs] eqn:Ein; simpl in E.
  { left. exists [], n'. eexists. cbn [printed fmap list_fmap concat app]. rewrite went_on_nil.
    split; [|split; [intros; by eapply observed_nothing|by split; [exact Hm'|]]].
    assert (Eo : print_one (Some (ep_conn e)) s = Ok (true, set_cl_net n' s))
      by (unfold print_one; by rewrite (bind_ok _ _ _ _ _ (on_net_ok _ s _ _ E))).
    by rewrite (bind_ok _ _ _ _ _ Eo). }
  destruct (conn_here_live _ _ _ _ x Hhere) as [msg Hx]; [unfold owned; rewrite Ein; set_solver|].
  destruct (mem_ok_live _ _ _ _ (mn_mem _ _ _ _ Hm) Hx) as (h & d & bs & -> & Hd & _).
  assert (Hat' : message_at (n_mem n') x h bs) by (exists d; by rewrite Em, Eb).
  pose proof (print_message_eq (set_cl_net n' s) x h bs Hat') as Epm. destruct (c_str bs) as [text|] eqn:Ec.
  - left. exists [text], n'. eexists.
    assert (El : printed [text] = line_of text) by apply app_nil_r. rewrite El.
    split; [|split; [intros; by eapply observed_message|by split; [exact Hm'|]]].
    assert (Eo : print_one (Some (ep_conn e)) s = Ok (true, went_on s (line_of text) n')).
    { unfold print_one. by rewrite (bind_ok _ _ _ _ _ (on_net_ok _ s _ _ E)), (bind_ok _ _ _ _ _ Epm). }
    by rewrite (bind_ok _ _ _ _ _ Eo).
  - right. split.
    + apply bind_undefined. unfold print_one. rewrite (bind_ok _ _ _ _ _ (on_net_ok _ s _ _ E)). by apply bind_undefined.
    + exists i. split; [done|]. exists (Some (ep_conn e)), n', x, h, bs. split_and!; try done. by apply c_str_none.
Qed.

Lemma client_act_cases s ts a :
  client_ok s k ctx es ts addrs → (action_index a < length es)%nat → act_goes_on s a ∨ act_overreads s a.
Proof using Type.
  intros Hok [e He]%lookup_lt_is_Some_2. destruct a as [i t|i]; simpl in He; [|by eapply print_act].
  destruct (client_turn_ok k es addrs ctx s ts i t e Hok He) as (n' & ts' & E & Hm & Hk).
  left. exists [], n', ts'. cbn [printed fmap list_fmap concat app]. rewrite went_on_nil.
  split; [done|]. split; [|done]. intros. by eapply observed_turn.
Qed.

(** Any sequence of actions: all of them go on, or the first that does not prints a block without
    a NUL. *)
Definition overreads_in s (acts : list client_action) : Prop :=
  ∃ before i after s', acts = before ++ PrintOf i :: after ∧
    client_actions before (Some k) s = Ok (tt, s') ∧ unterminated s' k i.

Lemma overreads_later s a s1 acts :
  client_act (Some k) a s = Ok (tt, s1) → overreads_in s1 acts → overreads_in s (a :: acts).
Proof using Type.
  intros E (before & i & after & s' & -> & Eb & Hu). exists (a :: before), i, after, s'.
  split; [done|]. split; [|done]. simpl. by rewrite (bind_ok _ _ _ _ _ E).
Qed.

Lemma client_actions_cases acts : ∀ s ts,
  client_ok s k ctx es ts addrs → Forall (λ a, action_index a < length es)%nat acts →
  (∃ texts n' ts', client_actions acts (Some k) s = Ok (tt, went_on s (printed texts) n') ∧
     observed k acts s texts (went_on s (printed texts) n') ∧
     many CLIENT_QUEUE n' es ts' ∧ kept (cl_net s) n' es) ∨
  (client_actions acts (Some k) s = Undefined UB_bounds ∧ overreads_in s acts).
Proof using Type.
  induction acts as [|a acts IH]; intros s ts Hok Hlt.
  { left. exists [], (cl_net s), ts. cbn [printed fmap list_fmap concat]. rewrite went_on_nil.
    assert (Es : set_cl_net (cl_net s) s = s) by (by destruct s). rewrite Es.
    split; [done|]. split; [constructor|]. split; [apply Hok|by apply kept_refl]. }
  apply Forall_cons in Hlt as [Ha Hlt].
  destruct (client_act_cases s ts a Hok Ha) as [(t1 & n1 & ts1 & E1 & Ho1 & Hm1 & Hk1)|(E1 & i & -> & Hu)].
  2: { right. split; [by apply bind_undefined|]. exists [], i, acts, s. done. }
  destruct (IH _ ts1 (client_ok_went_on _ _ _ _ s ts (printed t1) n1 ts1 Hok Hm1) Hlt)
    as [(t2 & n2 & ts2 & E2 & Ho2 & Hm2 & Hk2)|[E2 Ho]].
  - left. exists (t1 ++ t2), n2, ts2.
    assert (Ew : went_on s (printed (t1 ++ t2)) n2 = went_on (went_on s (printed t1) n1) (printed t2) n2).
    { rewrite went_on_app. unfold printed. by rewrite fmap_app, concat_app. }
    rewrite Ew. simpl. rewrite (bind_ok _ _ _ _ _ E1). split; [exact E2|]. split; [by apply Ho1|].
    split; [done|by eapply kept_trans].
  - right. split; [simpl; by rewrite (bind_ok _ _ _ _ _ E1)|by eapply overreads_later].
Qed.
End Acts.

Lemma bind_assoc_ok {A B} (m : M client A) (f : M client unit) (g : M client B) (s : client) a s' :
  m s = Ok (a, s') → ((m ;; f) ;; g) s = (f ;; g) s'.
Proof. intros E. unfold bind. by rewrite E. Qed.

(** C9: the client program with all its threads.  Started in a state in which nothing fails,
    whatever datagrams arrive and however the threads of the five connections and the printing
    thread are interleaved, before the request is sent and while the program waits for the answer,
    the program returns success and has released every resource, and what it has printed is its
    configuration and then exactly one line for every message that the printing thread has taken,
    in the order of taking, with the text of that message; or it reads beyond a block, and then
    because the printing thread took, from the state that the actions before lead to, a received
    message whose block holds no NUL.  When the program has returned, the printing thread, which
    nothing has stopped, would use the freed context in its next pass. *)
Theorem client_program_prints s fuel acts1 acts2 :
  client_fresh s → Forall (λ a, action_index a < 5)%nat (acts1 ++ acts2) →
  ∃ k s1, starts_in s k s1 ∧
  let program := boot_client_main fuel (client_actions acts1) (client_actions acts2) in
  (∃ s1' s2 s2' texts1 texts2 s',
     observed k acts1 s1 texts1 s1' ∧
     ⟦ client_send_pid_message (Some k) 1000 ⟧ s1' ⇓ CLIENT_STATUS_SUCCESS, s2 ∧
     observed k acts2 s2 texts2 s2' ∧
     ⟦ program ⟧ s ⇓ 0, s' ∧ program_released s s' (printed (texts1 ++ texts2)) ∧
     ∀ fuel', print_received_messages (S fuel') (Some k) s' = Undefined UB_dangling) ∨
  (program s = Undefined UB_bounds ∧
     (overreads_in k s1 acts1 ∨
      ∃ s1' s2, client_actions acts1 (Some k) s1 = Ok (tt, s1') ∧
        ⟦ client_send_pid_message (Some k) 1000 ⟧ s1' ⇓ CLIENT_STATUS_SUCCESS, s2 ∧ overreads_in k s2 acts2)).
Proof.
  intros Hfr [Hlt1 Hlt2]%Forall_app.
  destruct (client_program_starts s Hfr) as (k & ctx & es & ts & addrs & s1 & n0 & Hst & Hok1 & Hmode & Hlen & Hback & Hk1 & Hend).
  exists k, s1. split; [exact Hst|]. intros program. unfold program. rewrite <- Hlen in Hlt1, Hlt2.
  destruct (client_actions_cases k es addrs ctx acts1 s1 ts Hok1 Hlt1) as [(t1 & n1 & ts1 & E1 & Ho1 & Hm1 & Hk2)|[E1 Ho]].
  2: { right. split; [rewrite Hst; by apply bind_undefined|by left]. }
  pose proof (client_ok_went_on _ _ _ _ _ _ (printed t1) _ _ Hok1 Hm1) as Hok1'. set (s1' := went_on s1 (printed t1) n1) in *.
  destruct (client_requests_wait _ _ _ _ _ _ Hok1' Hmode) as (n2 & ts2 & Er & Hm2 & Hk3 & Hreq).
  pose proof (client_ok_net _ _ _ _ _ _ _ _ Hok1' Hm2) as Hok2. set (s2 := set_cl_net n2 s1') in *.
  destruct (client_actions_cases k es addrs ctx acts2 s2 ts2 Hok2 Hlt2) as [(t2 & n3 & ts3 & E2 & Ho2 & Hm3 & Hk4)|[E2 Ho]].
  2: { right. split; [|right; by exists s1', s2]. rewrite Hst, (bind_ok _ _ _ _ _ E1), Hreq. by apply bind_undefined, bind_undefined. }
  left. pose proof (client_ok_went_on _ _ _ _ _ _ (printed t2) _ _ Hok2 Hm3) as Hok2'. set (s2' := went_on s2 (printed t2) n3) in *.
  assert (Hkept : kept n0 (cl_net s2') es).
  { eapply kept_trans; [exact Hk1|]. eapply kept_trans; [exact Hk2|]. eapply kept_trans; [exact Hk3|exact Hk4]. }
  destruct (client_cleanup_ok _ _ _ _ _ _ _ _ Hok2' Hback Hkept)
    as (s' & la & lc & Ee & Hla & Hlc & Dc & Da & Dr & Do & B1 & B2 & B3 & B4).
  destruct (Hend s' la lc Hla Hlc Dc Da Dr) as (Eo & Ec & Ea & Har).
  exists s1', s2, s2', t1, t2, s'. split; [exact Ho1|]. split; [exact Er|]. split; [exact Ho2|].
  split; [unfold returns; rewrite Hst, (bind_ok _ _ _ _ _ E1), Hreq; by rewrite (bind_assoc_ok _ _ _ _ _ _ E2)|]. split.
  - split; [|by split_and!]. rewrite Do. unfold s2', s2, s1'. simpl. rewrite Eo. unfold printed.
    by rewrite fmap_app, concat_app, <- !app_assoc.
  - intros fuel'. apply printing_dangling. rewrite Dc. apply lookup_delete_eq.
Qed.

(** An answer that arrives at the first connection. *)
Definition answered0 : client :=
  client_datagram (format_datagram (Header 1 10 peer 16) (cstring "not found"%string ++ [NUL])) client0.

Lemma answered0_fresh : client_fresh answered0.
Proof.
  destruct client0_fresh as [Hn Hc Ha Hd Hm Hf _]. split; try done.
  intros d rs. unfold answered0. cbn [client_datagram with_datagram cl_net set_cl_net n_in with_in].
  intros [<- <-]%lookup_singleton_Some. by repeat constructor.
Qed.

Lemma client_program_prints_witness :
  ∃ s', ⟦ boot_client_main 0 (client_actions [PrintOf 0]) (client_actions [OfConnection 0 TurnReceive; PrintOf 0]) ⟧ answered0 ⇓ 0, s' ∧
    cl_out s' = config_text Client.SERVER_ADDR CLIENT_MODE SERVER_PORT_ARRAY CLIENT_PID_ARRAY
                  ++ cstring "Received message: not found"%string ++ [NL] ∧
    n_conns (cl_net s') = ∅ ∧ n_fds (cl_net s') = ∅ ∧ cl_contexts s' = ∅.
Proof.
  destruct (client_program_prints answered0 0 [PrintOf 0] [OfConnection 0 TurnReceive; PrintOf 0] answered0_fresh)
    as (k & s1 & _ & [(s1' & s2 & s2' & t1 & t2 & s' & _ & _ & _ & E & (_ & Hc & _ & _ & Hf & Hx & _) & _)|[E _]]);
    [repeat constructor; simpl; lia| |].
  - exists s'. split; [exact E|]. split; [|exact (conj Hc (conj Hf Hx))].
    vm_compute in E. injection E as <-. by vm_compute.
  - exfalso. vm_compute in E. discriminate E.
Defined.

(** The second case occurs: a datagram whose payload fills the largest length without a NUL, in a
    block whose rest holds no NUL either. *)
Definition flooded0 : client :=
  Client (with_datagram (format_datagram (Header 1 MAX_PAYLOAD peer 16) (replicate (Z.to_nat MAX_PAYLOAD) Byte.x41))
            (with_mem (Mem [] 1 (λ _ _, Byte.x41) ∅ ∅ ∅) net0)) ∅ ∅ ∅ [].
Example unterminated_answer_overreads :
  boot_client_main 0 (client_actions []) (client_actions [OfConnection 0 TurnReceive; PrintOf 0]) flooded0 = Undefined UB_bounds.
Proof. by vm_compute. Qed.
