(* ===== verification/ClientStart.v ===== *)
(** * ClientStart: starting a client when a thread cannot be created

    [client_start] of client/client.c creates two threads per connection and returns at the first
    [pthread_create] that fails.  The threads created before stay, and [is_running] stays false, so
    that [client_stop] has nothing to do; [client_delete_context] still joins them, because
    [net_connection_delete] stops every connection itself. *)
From S2P Require Import Prelude Layout Memory Message MessageQueue SocketUdp NetConnection.
From S2P Require Import NetLifecycle NetTurns NetOpen NetMany Format Client ClientCreate ClientLife.

Local Open Scope Z_scope.

(** The [j]-th next library call fails, counted from 0. *)
Definition fault_at (j : nat) : list bool := replicate j false ++ [true].

(** ** One thread *)
Definition is_start (op : life_op) : bool :=
  match op with StartReceiving | StartSending => true | _ => false end.
(** The flag that a start sets. *)
Definition flag_of (op : life_op) (f : bool * bool) : bool :=
  match op with StartReceiving | StopReceiving => f.1 | StartSending | StopSending => f.2 end.

Section One_thread.
Context (n : net) (l : loc) (c : net_connection_t) (op : life_op).
Hypothesis (Hc : n_conns n !! l = Some c).
Hypothesis (Hf : m_faults (n_mem n) = []).
Hypothesis (Hop : is_start op = true).
Hypothesis (Hflag : flag_of op (flags c) = false).

(** A start whose [pthread_create] succeeds, while a later call will fail. *)
Lemma start_fault_later st n' fs :
  run_life_op (Some l) op n = Ok (st, n') →
  run_life_op (Some l) op (set_faults (false :: fs) n) = Ok (st, set_faults fs n').
Proof using Hc Hf Hop Hflag.
  destruct op; try done; unfold run_life_op, net_connection_start_receiving, net_connection_start_sending,
    bind, load, store, fallible; simpl in *; rewrite Hc, Hflag; simpl; rewrite Hf, Hc; simpl; intros [= <- <-].
  all: done.
Qed.

(** A start whose [pthread_create] fails changes nothing. *)
Lemma start_fault_now :
  run_life_op (Some l) op (set_faults [true] n) = Ok (NET_CONNECTION_STATUS_ERROR_THREAD, n).
Proof using Hc Hf Hop Hflag.
  assert (Hn : ∀ c', c' = c → with_conns (<[l := c']> (n_conns n)) (with_mem (with_faults [] (n_mem n)) n) = n).
  { intros c' ->. rewrite (with_faults_nil _ Hf), with_mem_id, insert_id by done. by destruct n. }
  destruct op; try done; unfold run_life_op, net_connection_start_receiving, net_connection_start_sending,
    bind, load, store, fallible; simpl in *; rewrite Hc, Hflag; simpl; rewrite Hc; unfold ret; do 2 f_equal.
  all: apply Hn; destruct c; simpl in *; by subst.
Qed.
End One_thread.

(** ** All threads *)

Definition stopped (t : traffic) : Prop := flags (tr_conn t) = (false, false).

(** The flags of the connection with index [q] when the start number [j] has failed: the starts are
    numbered 2 q for its receiving and 2 q + 1 for its sending thread. *)
Definition flags_upto (j q : nat) : bool * bool := (bool_decide (2 * q < j)%nat, bool_decide (2 * q + 1 < j)%nat).

Definition start_body (connection : ptr) : M client bool :=
  let* st := on_net (net_connection_start_receiving connection) in
  if bool_decide (st ≠ NET_CONNECTION_STATUS_SUCCESS) then ret false else
  let* st := on_net (net_connection_start_sending connection) in
  ret (bool_decide (st = NET_CONNECTION_STATUS_SUCCESS)).

Section Start.
Context (k : loc) (es : list endpoint) (addrs : list sockaddr_in) (ctx : client_context_t).
Implicit Types (s : client) (ts : list traffic).

Lemma many_conn_lookup n ts i e t :
  many CLIENT_QUEUE n es ts → es !! i = Some e → ts !! i = Some t → n_conns n !! ep_conn e = Some (tr_conn t).
Proof using Type.
  intros Hm He Ht. destruct (many_lookup _ _ _ _ _ _ Hm He) as (t' & ? & [(s & [] & _) _]). by simplify_eq.
Qed.

(** One connection, with a fault that comes at start [j] of the rest. *)
Lemma start_body_fault s ts i e t j :
  client_ok s k ctx es ts addrs → es !! i = Some e → ts !! i = Some t → stopped t →
  ∃ n' t', start_body (Some (ep_conn e)) (set_faults (fault_at j) s)
      = Ok (bool_decide (2 ≤ j)%nat, set_cl_net (if decide (2 ≤ j)%nat then set_faults (fault_at (j - 2)) n' else n') s) ∧
    many CLIENT_QUEUE n' es (<[i := t']> ts) ∧ tr_in t' = tr_in t ∧ tr_out t' = tr_out t ∧
    flags (tr_conn t') = flags_upto j 0 ∧ kept (cl_net s) n' es ∧ only_conns [] (cl_net s) n'.
Proof using Type.
  intros Hok He Ht Hst. assert (Hcap : 2 ≤ CLIENT_QUEUE) by done. pose proof (co_many _ _ _ _ _ _ Hok) as Hm.
  pose proof (many_conn_lookup _ _ _ _ _ Hm He Ht) as Hc. pose proof (mn_faults _ _ _ _ Hm) as Hf.
  unfold stopped in Hst. unfold start_body.
  destruct j as [|j].
  { exists (cl_net s), t. rewrite (list_insert_id _ _ _ Ht). split; [|by split_and!; try apply kept_refl; try apply only_conns_refl].
    erewrite bind_ok by (apply on_net_ok; apply (start_fault_now (cl_net s) _ _ StartReceiving Hc Hf eq_refl); by rewrite Hst).
    by rewrite bool_decide_eq_true_2 by done. }
  destruct (many_life _ _ _ _ i e t Hcap Hm He Ht StartReceiving) as (c1 & n1 & E1 & En1 & Hm1 & Hf1 & Hk1).
  assert (Ht1 : <[i := Traffic c1 (tr_in t) (tr_out t)]> ts !! i = Some (Traffic c1 (tr_in t) (tr_out t)))
    by (apply list_lookup_insert_eq; by eapply lookup_lt_Some).
  pose proof (many_conn_lookup _ _ _ _ _ Hm1 He Ht1) as Hc1. pose proof (mn_faults _ _ _ _ Hm1) as Hfn1.
  rewrite Hst in Hf1. cbn [flags_after fst snd] in Hf1. cbn [tr_conn] in Hc1.
  assert (Hs1 : flag_of StartSending (flags c1) = false) by (by rewrite Hf1).
  erewrite bind_ok by (apply on_net_ok; apply (start_fault_later (cl_net s) _ _ StartReceiving Hc Hf eq_refl);
    [by rewrite Hst|exact E1]).
  rewrite bool_decide_eq_false_2 by (by intros []).
  destruct j as [|j].
  { exists n1, (Traffic c1 (tr_in t) (tr_out t)). split; [|split_and!; try done; by subst n1].
    erewrite bind_ok by (apply on_net_ok; exact (start_fault_now n1 _ _ StartSending Hc1 Hfn1 eq_refl Hs1)).
    by rewrite bool_decide_eq_false_2 by done. }
  destruct (many_life _ _ _ _ i e _ Hcap Hm1 He Ht1 StartSending) as (c2 & n2 & E2 & En2 & Hm2 & Hf2 & Hk2).
  cbn [tr_conn] in Hf2. rewrite Hf1 in Hf2. simpl in E2, En2, Hm2. rewrite list_insert_insert_eq in Hm2.
  exists n2, (Traffic c2 (tr_in t) (tr_out t)). split.
  - erewrite bind_ok by (apply on_net_ok; apply (start_fault_later n1 _ _ StartSending Hc1 Hfn1 eq_refl Hs1); exact E2).
    rewrite bool_decide_eq_true_2, bool_decide_eq_true_2, decide_True by (done || lia). simpl. by rewrite Nat.sub_0_r.
  - split; [done|]. split; [done|]. split; [done|]. split; [exact Hf2|].
    split; [by eapply kept_trans|]. subst n2 n1. by rewrite switch_switch.
Qed.

Lemma start_loop_fault m : ∀ s ts i j,
  client_ok s k ctx es ts addrs → Forall stopped (drop i ts) → (i + m = length es)%nat → (j < 2 * m)%nat →
  ∃ n' ts', for_connections ctx m i start_body (set_faults (fault_at j) s) = Ok (false, set_cl_net n' s) ∧
    many CLIENT_QUEUE n' es ts' ∧ owned <$> ts' = owned <$> ts ∧ take i ts' = take i ts ∧
    (∀ q t, ts' !! (i + q)%nat = Some t → flags (tr_conn t) = flags_upto j q) ∧
    kept (cl_net s) n' es ∧ only_conns [] (cl_net s) n'.
Proof using Type.
  induction m as [|m IH]; intros s ts i j Hok Hstop Him Hj; [lia|].
  destruct (lookup_lt_is_Some_2 es i ltac:(lia)) as [e He].
  destruct (many_lookup _ _ _ _ _ _ (co_many _ _ _ _ _ _ Hok) He) as (t & Ht & _).
  rewrite (drop_S _ _ _ Ht) in Hstop. apply Forall_cons in Hstop as [Hst Hstop].
  destruct (start_body_fault s ts i e t j Hok He Ht Hst) as (n1 & t1 & E1 & Hm1 & Hin & Hout & Hfl & Hk1 & El1).
  assert (Hlt : (i < length ts)%nat) by by eapply lookup_lt_Some.
  assert (Ho1 : owned <$> <[i := t1]> ts = owned <$> ts).
  { rewrite list_fmap_insert. apply list_insert_id. rewrite list_lookup_fmap, Ht. simpl. unfold owned. by rewrite Hin, Hout. }
  assert (Hat : client_at (set_faults (fault_at j) s) k ctx (conn_ptrs es) addrs) by apply client_at_net, Hok.
  cbn [for_connections]. rewrite (bind_ok _ _ _ _ _ (load_conns _ _ _ _ _ Hat)).
  rewrite (bind_ok _ _ _ _ _ (array_get_ok _ _ _ _ (client_ok_conn _ _ _ _ _ _ _ _ Hok He))), (bind_ok _ _ _ _ _ E1).
  destruct (decide (2 ≤ j)%nat) as [Hge|Hlt2].
  - rewrite bool_decide_eq_true_2 by done.
    destruct (IH (set_cl_net n1 s) (<[i := t1]> ts) (S i) (j - 2)%nat) as (n2 & ts2 & E2 & Hm2 & Ho2 & Htk & Hfl2 & Hk2 & El2);
      [by eapply client_ok_net|by rewrite drop_insert_lt by lia|lia|lia|].
    exists n2, ts2. split; [exact E2|]. split; [done|]. split; [by rewrite Ho2|].
    split_and!; [|intros q t'|by eapply kept_trans|by apply (only_conns_trans [] [] _ n1)].
    + apply (f_equal (take i)) in Htk. rewrite !take_take, !Nat.min_l in Htk by lia.
      by rewrite Htk, take_insert_ge by lia.
    + destruct q as [|q].
      * rewrite Nat.add_0_r, <- (lookup_take_lt ts2 (S i) i), Htk, lookup_take_lt, list_lookup_insert_eq by lia.
        intros [= <-]. exact Hfl.
      * rewrite Nat.add_succ_r. intros Hq. rewrite (Hfl2 q t' Hq). unfold flags_upto. f_equal; apply bool_decide_ext; lia.
  - rewrite bool_decide_eq_false_2 by done. exists n1, (<[i := t1]> ts). split; [done|]. split; [done|]. split; [done|].
    split_and!; [by apply take_insert_ge|intros q t'|done|done].
    destruct q as [|q]; [rewrite Nat.add_0_r, list_lookup_insert_eq by done; by intros [= <-]|].
    rewrite list_lookup_insert_ne by lia. intros Hq. eapply Forall_lookup_1 in Hstop as ->.
    2: { rewrite lookup_drop. by replace (S i + q)%nat with (i + S q)%nat by lia. }
    unfold flags_upto. by rewrite !bool_decide_eq_false_2 by lia.
Qed.
End Start.

(** The joins of the threads that the starts before number [j] have created. *)
Definition joins_upto (j : nat) (es : list endpoint) : list event :=
  concat (imap (λ i e, joins (ep_conn e) (flags_upto j i)) es).

Lemma all_joins_imap es ts (f : nat → bool * bool) :
  length ts = length es → (∀ i t, ts !! i = Some t → flags (tr_conn t) = f i) →
  all_joins es ts = concat (imap (λ i e, joins (ep_conn e) (f i)) es).
Proof.
  unfold all_joins. revert ts f. induction es as [|e es IH]; intros [|t ts] f Hl Hf; try done.
  simpl. f_equal; [unfold joins_at; by rewrite (Hf 0%nat t eq_refl)|].
  rewrite (IH ts (f ∘ S)); [done|simpl in Hl; lia|]. intros i t' Ht. by apply (Hf (S i)).
Qed.

(** C30: starting a client when a thread cannot be created.  On a context whose threads are all
    stopped, with a failing [pthread_create] as the start number j of the 2 * [port_count] starts,
    [client_start] returns [CLIENT_STATUS_ERROR_START_THREADS]; the context is as before, not
    running, and exactly the threads of the starts before number j run.  The cleanup of the program
    then returns success, joins exactly these threads, each once and in the order of the connections,
    and releases every connection with its socket, descriptor, queues and messages, the addresses,
    the array and the context. *)
Theorem client_start_fails s k ctx es ts addrs j :
  client_ok s k ctx es ts addrs → cl_is_running ctx = false → Forall stopped ts → (j < 2 * length es)%nat →
  ∃ s1 ts1 s2 la lc,
    ⟦ client_start (Some k) ⟧ set_faults (fault_at j) s ⇓ CLIENT_STATUS_ERROR_START_THREADS, s1 ∧
    client_ok s1 k ctx es ts1 addrs ∧ owned <$> ts1 = owned <$> ts ∧
    (∀ i t, ts1 !! i = Some t → flags (tr_conn t) = flags_upto j i) ∧
    n_log (cl_net s1) = n_log (cl_net s) ∧
    ⟦ client_cleanup (Some k) ⟧ s1 ⇓ 0, s2 ∧ n_log (cl_net s2) = n_log (cl_net s) ++ joins_upto j es ∧
    released (cl_net s) (cl_net s2) es ts ∧ server_sockaddrs ctx = Some la ∧ connections ctx = Some lc ∧
    cl_contexts s2 = delete k (cl_contexts s) ∧ cl_addrs s2 = delete la (cl_addrs s) ∧
    cl_arrays s2 = delete lc (cl_arrays s).
Proof.
  intros Hok Hrun Hstop Hj.
  destruct (start_loop_fault k es addrs ctx (length es) s ts 0 j Hok Hstop eq_refl Hj)
    as (n1 & ts1 & E1 & Hm1 & Ho & _ & Hfl & Hk & El).
  pose proof (client_ok_net _ _ _ _ _ _ _ _ Hok Hm1) as Hok1.
  destruct (client_delete_context_ok _ _ _ _ _ _ Hok1) as (s2 & la & lc & E2 & Hla & Hlc & Dc & Da & Dr & _ & Hrel & Hlog).
  exists (set_cl_net n1 s), ts1, s2, la, lc. split; [|split; [exact Hok1|]].
  - unfold returns, client_start.
    assert (Hat : client_at (set_faults (fault_at j) s) k ctx (conn_ptrs es) addrs) by apply client_at_net, Hok.
    rewrite (bind_ok _ _ _ _ _ (load_context _ _ _ _ _ Hat)), Hrun, (client_ok_count _ _ _ _ _ _ Hok).
    by rewrite (bind_ok _ _ _ _ _ E1).
  - assert (El1 : n_log n1 = n_log (cl_net s)) by (rewrite El; simpl; apply app_nil_r).
    split; [done|]. split; [done|]. split; [exact El1|].
    split; [unfold returns, client_cleanup; by rewrite (bind_ok _ _ _ _ _ E2)|].
    split; [|split; [by eapply released_kept|done]]. rewrite Hlog. cbn [cl_net set_cl_net]. rewrite El1. f_equal.
    apply (all_joins_imap _ _ (flags_upto j)); [|done]. symmetry. eapply Forall2_length, (mn_each _ _ _ _ Hm1).
Qed.

Lemma client_start_fails_witness :
  ∃ s k s1 s2, ⟦ client_create_context CLIENT_MODE LOOPBACK 2 (Some [5000; 5001]) ⟧ client0 ⇓ Some k, s ∧
    ⟦ client_start (Some k) ⟧ set_faults (fault_at 3) s ⇓ CLIENT_STATUS_ERROR_START_THREADS, s1 ∧
    ⟦ client_cleanup (Some k) ⟧ s1 ⇓ 0, s2 ∧ length (n_log (cl_net s2)) = (length (n_log (cl_net s)) + 3)%nat.
Proof.
  destruct (client_create_context_ok client0 CLIENT_MODE LOOPBACK [5000; 5001] client0_fresh)
    as (s & es & ts & addrs & Ec & Hok & Hlen & Hun & _); [by vm_compute|done|].
  destruct (client_start_fails _ _ _ _ _ _ 3 Hok eq_refl) as (s1 & ts1 & s2 & la & lc & E1 & _ & _ & _ & _ & E2 & El & _).
  { eapply Forall_impl; [exact Hun|]. intros t [_ Ht]. exact Ht. }
  { rewrite Hlen. simpl. lia. }
  exists s. eexists. exists s1, s2. split; [exact Ec|]. split; [exact E1|]. split; [exact E2|].
  rewrite El, length_app. destruct es as [|e1 [|e2 [|]]]; try done.
Defined.
