(* ===== verification/ClientFaults.v ===== *)
(** * ClientFaults: creating a client context when a library call fails

    The error exits of [client_create_context] (client/client.c, lines 14-109): whichever one
    library call of the whole run fails, the function returns, and what is left behind is known
    exactly. *)
From S2P Require Import Prelude Layout Memory Message MessageQueue SocketUdp NetConnection.
From S2P Require Import NetLifecycle NetTurns NetOpen NetMany Format Client ClientCreate ClientLife.

Local Open Scope Z_scope.

(** A client process in which at most one library call will fail. *)
Record client_ready (s : client) : Prop := {
  rd_net : net_fresh (cl_net s);
  rd_contexts : fresh_above (m_next (n_mem (cl_net s))) (cl_contexts s);
  rd_arrays : fresh_above (m_next (n_mem (cl_net s))) (cl_arrays s);
  rd_addrs : fresh_above (m_next (n_mem (cl_net s))) (cl_addrs s);
  rd_mem : mem_ok wire_fit (n_mem (cl_net s));
  rd_faults : one_fault (m_faults (n_mem (cl_net s)));
  rd_inputs : inputs_ok (cl_net s);
}.

Section Allocations.
Context (n : net) (out : list byte).
Implicit Types (C : gmap loc client_context_t) (A : gmap loc (list ptr)) (D : gmap loc (list sockaddr_in)).

(** The client before its first connection; [q] is the next address, [fs] the faults to come. *)
Definition early (q : loc) (fs : list bool) C A D : client := Client (with_mem (bump q fs (n_mem n)) n) C A D out.

Ltac by_alloc q fs C A D :=
  intros Hf; unfold alloc, bind;
  destruct (fallible_one (H := client_allocator) (early q fs C A D) Hf) as [(fs' & -> & Hfs)|[Hne ->]];
  [right; exists fs'; split; [exact Hfs|]; by destruct n as [[]] | left; split; [exact Hne|]; by destruct n as [[]]].

Lemma alloc_context q fs C A D x :
  one_fault fs →
  (failing 1 fs ∧ alloc x (early q fs C A D) = Ok (None, early q [] C A D)) ∨
  (∃ fs', spent 1 fs fs' ∧ alloc x (early q fs C A D) = Ok (Some q, early (Pos.succ q) fs' (<[q := x]> C) A D)).
Proof using Type. by_alloc q fs C A D. Qed.

Lemma alloc_array q fs C A D (x : list ptr) :
  one_fault fs →
  (failing 1 fs ∧ alloc x (early q fs C A D) = Ok (None, early q [] C A D)) ∨
  (∃ fs', spent 1 fs fs' ∧ alloc x (early q fs C A D) = Ok (Some q, early (Pos.succ q) fs' C (<[q := x]> A) D)).
Proof using Type. by_alloc q fs C A D. Qed.

Lemma alloc_addrs q fs C A D c :
  one_fault fs →
  (failing 1 fs ∧ malloc_addrs c (early q fs C A D) = Ok (None, early q [] C A D)) ∨
  (∃ fs' rest, spent 1 fs fs' ∧ length rest = c ∧ Forall (λ a, addr_ok a = true) rest ∧
     malloc_addrs c (early q fs C A D) = Ok (Some q, early (Pos.succ q) fs' C A (<[q := rest]> D))).
Proof using Type.
  intros Hf. destruct (malloc_addrs_ok c (early q fs C A D)) as (rest & Hl & Hr & E).
  assert (G : (failing 1 fs ∧ alloc rest (early q fs C A D) = Ok (None, early q [] C A D)) ∨
    (∃ fs', spent 1 fs fs' ∧ alloc rest (early q fs C A D) = Ok (Some q, early (Pos.succ q) fs' C A (<[q := rest]> D))))
    by (revert Hf; by_alloc q fs C A D).
  rewrite E. destruct G as [?|(fs' & Hs & G)]; [by left|right; by exists fs', rest].
Qed.
End Allocations.

(** One array of pointers more than before, or none. *)
Definition one_array_more (c : nat) (A A' : gmap loc (list ptr)) : Prop :=
  A' = A ∨ ∃ q, A !! q = None ∧ A' = <[q := replicate c None]> A.

(** How many connections are complete when the library call with index [j] fails, counted from 0:
    four allocations come before the first connection, and each connection takes thirteen calls. *)
Definition complete_before (j : nat) : nat := (j - 4) / 13.

(** [client_create_context] has given up: context and addresses are released, but at most one array
    and the connections [es] that were complete before the failure are not. *)
Record given_up (s s' : client) (c : nat) (es : list endpoint) : Prop := {
  gu_many : ∃ ts, many CLIENT_QUEUE (cl_net s') es ts ∧ Forall unused ts;
  gu_count : (length es < c)%nat;
  gu_back : released (cl_net s') (cl_net s) es [];
  gu_log : ∃ rest, bound_since (cl_net s) (cl_net s') es rest ∧ (length rest ≤ 1)%nat;
  gu_contexts : cl_contexts s' = cl_contexts s;
  gu_addrs : cl_addrs s' = cl_addrs s;
  gu_arrays : one_array_more c (cl_arrays s) (cl_arrays s');
  gu_out : cl_out s' = cl_out s;
}.

(** The context exists and has all its connections, their sockets being bound since [n0]. *)
Definition made (n0 : net) (s' : client) (k : loc) (m : client_mode_t) (addr : Z) (ports : list Z) : Prop :=
  ∃ ctx es ts addrs, client_at s' k ctx (conn_ptrs es) addrs ∧ mode ctx = m ∧ cl_is_running ctx = false ∧
    many CLIENT_QUEUE (calm (cl_net s')) es ts ∧ Forall unused ts ∧ length es = length ports ∧
    bound_since n0 (cl_net s') es [] ∧ Forall2 (to_server addr) ports addrs.

Section Create.
Context (s : client) (m : client_mode_t) (addr : Z) (ports : list Z).
Hypothesis (Hs : client_ready s).
Hypothesis (Haddr : 0 < addr < 2 ^ 32).
Hypothesis (Hne : ports ≠ []).
Let n := cl_net s.
Let l := m_next (n_mem n).
Let c := length ports.
Let here := early n (cl_out s).

Lemma early_given_up q A' :
  (l ≤ q)%positive → one_array_more c (cl_arrays s) A' → given_up s (here q [] (cl_contexts s) A' (cl_addrs s)) c [].
Proof using All.
  intros Hq HA. destruct Hs as [Hn _ _ _ Hm _ Hin]. split; try done.
  - exists []. split; [|constructor]. split; try done. by apply (mem_ok_bump _ _ _ _ Hm).
  - unfold c. destruct ports; [done|simpl; lia].
  - split; try done. simpl. set_solver.
  - exists []. split; [|simpl; lia]. exists []. simpl. by rewrite app_nil_r.
Qed.

(** From line 45 on: the context is at [l], its addresses at [la], and [A'] has at most one array more. *)
Definition from_arrays (addrs : ptr) : M client ptr :=
  let* conns := alloc (replicate c (None : ptr)) in
  match conns with
  | None => free (list sockaddr_in) addrs ;; free client_context_t (Some l) ;; ret None
  | Some _ =>
      let ctx := Context conns addrs m (Z.of_nat c) false in
      store (Some l) ctx ;;
      let* created := create_connections (Some l) ctx addr ports c 0 in
      ret (if created then Some l else None)
  end.

Lemma from_arrays_one la q fs A' rest blank :
  (l < la)%positive → (la < q)%positive → one_fault fs → length rest = c → Forall (λ a, addr_ok a = true) rest →
  one_array_more c (cl_arrays s) A' → A' !! q = None →
  (∃ s' es, from_arrays (Some la) (here q fs (<[l := blank]> (cl_contexts s)) A' (<[la := rest]> (cl_addrs s))) = Ok (None, s') ∧
     fs ≠ [] ∧ given_up s s' c es ∧ length es = ((length fs - 2) / 13)%nat) ∨
  (∃ s', from_arrays (Some la) (here q fs (<[l := blank]> (cl_contexts s)) A' (<[la := rest]> (cl_addrs s))) = Ok (Some l, s') ∧
     made n s' l m addr ports ∧ cl_out s' = cl_out s).
Proof using All.
  intros Hla Hq Hf Hlr Hrest HA HAq. unfold from_arrays.
  pose proof Hs as [Hn HC _ HD Hm _ Hin].
  assert (Hl : cl_contexts s !! l = None) by (apply HC; unfold l, n; lia).
  assert (Hlan : cl_addrs s !! la = None) by (apply HD; unfold l, n in *; lia).
  set (C1 := <[l := blank]> (cl_contexts s)). set (D1 := <[la := rest]> (cl_addrs s)).
  destruct (alloc_array n (cl_out s) q fs C1 A' D1 (replicate c None) Hf) as [(Hfne & E1)|(fs1 & Hs1 & E1)].
  { left. rewrite (bind_ok _ _ _ _ _ E1). cbn match. erewrite bind_ok by (eapply free_ok, lookup_insert_eq).
    erewrite bind_ok by (eapply free_ok, lookup_insert_eq). eexists _, []. split; [done|]. split; [apply Hfne|].
    split; [|destruct Hfne; rewrite Nat.div_small; [done|lia]].
    unfold set_heap. simpl. unfold set_cl_contexts, set_cl_addrs, C1, D1. simpl.
    rewrite !delete_insert_id by done.
    apply (early_given_up q A'); [lia|done]. }
  rewrite (bind_ok _ _ _ _ _ E1). cbn match. set (ctx := Context (Some q) (Some la) m (Z.of_nat c) false).
  set (s5 := here (Pos.succ q) fs1 (<[l := ctx]> (cl_contexts s)) (<[q := replicate c None]> A') D1).
  assert (E2 : store (Some l) ctx (here (Pos.succ q) fs1 C1 (<[q := replicate c None]> A') D1) = Ok (tt, s5)).
  { erewrite store_ok by apply lookup_insert_eq. unfold set_heap, C1. simpl. unfold set_cl_contexts, s5, here, early. simpl.
    by rewrite insert_insert_eq. }
  rewrite (bind_ok _ _ _ _ _ E2).
  assert (Hle : (m_next (n_mem n) ≤ Pos.succ q)%positive) by (unfold l in Hla; lia).
  assert (Hcr : creating s5 ctx [] [] [] rest n).
  { split; try done.
    - exists q. split; [done|]. simpl. rewrite Hlr. apply lookup_insert_eq.
    - exists la. split; [done|]. apply lookup_insert_eq.
    - split; try done. by apply (mem_ok_bump _ _ _ [] Hm).
    - by apply net_fresh_bump.
    - apply Hs1.
    - split; try done. intros d. simpl. set_solver.
    - exists []. simpl. by rewrite !app_nil_r. }
  destruct (create_connections_one l q la ctx ctx addr ports n ltac:(lia) eq_refl eq_refl c s5 [] [] [] rest Hcr)
    as [(Hfne & s' & es & E5 & Hab & Hlt & Hlen)|(n' & es & ts & addrs & E5 & _ & Hcr' & Hles & Hto)];
    [apply lookup_insert_eq|done|done|by constructor|left|right]; cbn [length] in E5; rewrite (bind_ok _ _ _ _ _ E5).
  - exists s', es. split; [done|]. destruct Hs1 as [_ Hs1]. simpl in Hfne. cbn [length Nat.add cl_net s5 here early n_mem with_mem m_faults bump with_next with_faults] in Hlen.
    split; [intros E; by rewrite E, drop_nil in Hs1|].
    split; [|rewrite Hlen, Hs1, length_drop; f_equal; lia].
    destruct Hab as [Hmany Hback Hin' Hlog Hc' Ha' Hd' Ho']. split; try done.
    + rewrite Hc'. simpl. by apply delete_insert_id.
    + rewrite Hd'. simpl. by apply delete_insert_id.
    + rewrite Ha'. simpl. by rewrite delete_insert_id.
  - cbn [length Nat.add] in Hles, Hto. rewrite (firstn_all ports : take c ports = ports) in Hto.
    destruct Hcr' as [(lc & Hlc & Hc) (la' & Hla' & Ha) Hl' _ Hmany Hun _ _ _ _ Hlog].
    injection Hlc as <-. injection Hla' as <-. rewrite app_nil_r in Hc, Ha.
    eexists. split; [done|]. split; [|done]. exists ctx, es, ts, addrs. split_and!; try done.
    assert (0 < c)%nat by (unfold c; destruct ports; [done|simpl; lia]).
    split; try done; [apply lookup_insert_eq|by exists q|by exists la|simpl; lia|..].
    + unfold conn_ptrs. by rewrite length_fmap, Hles.
    + clear -Hto. induction Hto as [|? ? ? ? [_ ?] _ IH]; by constructor.
Qed.

(** From line 35 on, the context being at [l]. *)
Definition from_addrs : M client ptr :=
  let* addrs := malloc_addrs c in
  let* _first := alloc (replicate c (None : ptr)) in
  match addrs with
  | None => free client_context_t (Some l) ;; ret None
  | Some _ => from_arrays addrs
  end.

(** The outcome when [d] library calls have been made and [fs] remains. *)
Let result (d : nat) (fs : list bool) (o : outcome (ptr * client)) : Prop :=
  (∃ s' es, o = Ok (None, s') ∧ fs ≠ [] ∧ given_up s s' c es ∧ length es = ((d + length fs - 5) / 13)%nat) ∨
  (∃ s', o = Ok (Some l, s') ∧ made n s' l m addr ports ∧ cl_out s' = cl_out s).

Lemma result_spent d c' fs fs' o : spent c' fs fs' → result (c' + d) fs' o → result d fs o.
Proof using Type.
  intros [_ Hfs] [(s' & es & E & Hf & Hg & Hl)|?]; [left|by right]. subst fs'.
  assert (length (drop c' fs) ≠ 0)%nat by (by destruct (drop c' fs)). rewrite length_drop in *.
  exists s', es. split_and!; try done; [intros ->; by rewrite drop_nil in Hf|]. rewrite Hl. f_equal. lia.
Qed.

Lemma from_addrs_one fs blank :
  one_fault fs → result 1 fs (from_addrs (here (Pos.succ l) fs (<[l := blank]> (cl_contexts s)) (cl_arrays s) (cl_addrs s))).
Proof using All.
  intros Hf. unfold from_addrs. pose proof Hs as [Hn HC HA HD Hm _ Hin].
  assert (Hl : cl_contexts s !! l = None) by (apply HC; unfold l, n; lia).
  assert (Hfree : ∀ q, (l < q)%positive → cl_arrays s !! q = None) by (intros q Hq; apply HA; unfold l, n in *; lia).
  set (la := Pos.succ l). set (C1 := <[l := blank]> (cl_contexts s)). assert (Hla : (l < la)%positive) by (unfold la; lia).
  destruct (alloc_addrs n (cl_out s) la fs C1 (cl_arrays s) (cl_addrs s) c Hf) as [(Hfne & E2)|(fs2 & rest & Hs2 & Hlr & Hrest & E2)];
    rewrite (bind_ok _ _ _ _ _ E2).
  { left. destruct (alloc_array n (cl_out s) la [] C1 (cl_arrays s) (cl_addrs s) (replicate c None)) as [[[? _] _]|(fs3 & Hs3 & E3)];
      [by left|done|]. rewrite (spent_nil _ _ _ Hs3 eq_refl) in E3. rewrite (bind_ok _ _ _ _ _ E3). cbn match.
    erewrite bind_ok by (eapply free_ok, lookup_insert_eq). eexists _, []. split; [done|]. split; [apply Hfne|].
    split; [|destruct Hfne; rewrite Nat.div_small; [done|lia]].
    unfold set_heap. simpl. unfold set_cl_contexts, C1. simpl. rewrite delete_insert_id by done.
    apply early_given_up; [lia|]. right. exists la. split; [by apply Hfree|done]. }
  apply (result_spent _ 1 _ fs2); [done|].
  destruct (alloc_array n (cl_out s) (Pos.succ la) fs2 C1 (cl_arrays s) (<[la := rest]> (cl_addrs s)) (replicate c None) (spent_one _ _ _ Hs2))
    as [(Hfne & E3)|(fs3 & Hs3 & E3)]; rewrite (bind_ok _ _ _ _ _ E3); cbn match.
  - (* the first array is not allocated, which nobody notices *)
    apply (result_spent _ 1 _ []); [split; [by left|symmetry; apply drop_ge, Hfne]|].
    apply from_arrays_one; try done; [lia|by left|by left|apply Hfree; lia].
  - apply (result_spent _ 1 _ fs3); [done|].
    apply from_arrays_one; try done; [lia|apply Hs3|right; exists (Pos.succ la); split; [apply Hfree; lia|done]|].
    rewrite lookup_insert_ne by lia. apply Hfree. lia.
Qed.

(** The whole function. *)
Lemma create_context_one :
  result 0 (m_faults (n_mem n)) (client_create_context m addr (Z.of_nat c) (Some ports) s).
Proof using All.
  pose proof Hs as [Hn HC HA HD Hm Hf Hin].
  assert (Es : here l (m_faults (n_mem n)) (cl_contexts s) (cl_arrays s) (cl_addrs s) = s).
  { unfold here, early, l, n, bump. by destruct s as [[[]]]. }
  assert (Hc : (0 < c)%nat) by (unfold c; destruct ports; [done|simpl; lia]).
  unfold client_create_context. rewrite (proj2 (Z.eqb_neq addr 0)) by lia. rewrite (proj2 (Z.leb_gt _ 0)) by lia. cbn [orb].
  rewrite Nat2Z.id. set (blank := Context None None m (Z.of_nat c) false).
  destruct (alloc_context n (cl_out s) l (m_faults (n_mem n)) (cl_contexts s) (cl_arrays s) (cl_addrs s) blank Hf)
    as [(Hfne & E1)|(fs1 & Hs1 & E1)]; fold here in E1; rewrite Es in E1; rewrite (bind_ok _ _ _ _ _ E1); cbn match.
  - left. eexists _, []. split; [done|]. split; [apply Hfne|].
    split; [apply early_given_up; [lia|by left]|destruct Hfne; rewrite Nat.div_small; [done|lia]].
  - apply (result_spent _ 1 _ fs1); [done|]. apply (from_addrs_one fs1 blank). apply Hs1.
Qed.
End Create.

(** ** Property *)

(** C29: creating a context when a library call fails.  Whichever one call fails, at any point, or if
    none does, [client_create_context] returns.  Unless it gives up, the context has one connection
    per port, with a bound socket and the address of the server (even if the call that failed was
    the superfluous allocation of line 36 or the one that sets a timeout).  If it gives up and
    returns NULL, call number j, counted from 0, has failed, and the context, its addresses and all of
    the connection under construction are released; what is left over is at most one array and
    exactly the connections of the earlier ports, (j - 4) / 13 of them (the calls for a port are
    thirteen, after four allocations), which stay open, their sockets bound, without anybody having
    a pointer to them. *)
Theorem client_create_context_faults s m addr ports :
  client_ready s → 0 < addr < 2 ^ 32 → ports ≠ [] →
  ∃ r s', ⟦ client_create_context m addr (Z.of_nat (length ports)) (Some ports) ⟧ s ⇓ r, s' ∧
    match r with
    | Some k => made (cl_net s) s' k m addr ports ∧ cl_out s' = cl_out s
    | None => ∃ j es, m_faults (n_mem (cl_net s)) = replicate j false ++ [true] ∧
        given_up s s' (length ports) es ∧ length es = complete_before j
    end.
Proof.
  intros Hs Haddr Hne. destruct (create_context_one s m addr ports Hs Haddr Hne) as [(s' & es & E & Hf & Hg & Hl)|(s' & E & Hm)].
  - exists None, s'. split; [exact E|]. destruct (rd_faults _ Hs) as [|[j Ej]]; [done|]. exists j, es.
    split; [done|]. split; [done|]. rewrite Hl, Ej, length_app, length_replicate. unfold complete_before. f_equal. simpl. lia.
  - eexists _, s'. split; [exact E|done].
Qed.

(** The allocation of the second socket fails: exactly the first connection is left over. *)
Lemma client_create_context_faults_witness :
  let s := set_cl_net (with_mem (with_faults (replicate 17 false ++ [true]) (n_mem (cl_net client0))) (cl_net client0)) client0 in
  ∃ s' es, ⟦ client_create_context CLIENT_MODE LOOPBACK 2 (Some [5000; 5001]) ⟧ s ⇓ None, s' ∧
    given_up s s' 2 es ∧ length es = 1%nat.
Proof.
  set (s := set_cl_net _ _).
  destruct (client_create_context_faults s CLIENT_MODE LOOPBACK [5000; 5001]) as (r & s' & E & Hr).
  - destruct client0_fresh. split; try done. right. by exists 17%nat.
  - by vm_compute.
  - done.
  - destruct r as [k|].
    + exfalso. vm_compute in E. discriminate E.
    + destruct Hr as (j & es & Ej & Hg & Hl). exists s', es. split; [exact E|]. split; [exact Hg|].
      apply (f_equal length) in Ej. rewrite !length_app, !length_replicate in Ej. simpl in Ej.
      replace j with 17%nat in Hl by lia. exact Hl.
Defined.
