(* ===== verification/RoundTrip.v ===== *)
(** * RoundTrip: client and server together

    A request of client/client.c travels to a worker of server/server.c and its answer travels
    back: the theorems of [Client] and [Requests] composed over the wire format. *)
From Stdlib Require Import SpecFloat.
From S2P Require Import Prelude Layout Memory Message MessageQueue SocketUdp NetConnection.
From S2P Require Import NetLifecycle NetTurns Journal Format CpuUsage ServerWorker Server Requests Client.

Local Open Scope Z_scope.

(** ** The texts of the answers contain no NUL *)
Lemma plain_no_nul s : forallb plain s = true → no_nul s = true.
Proof. apply forallb_impl. intros b. unfold plain. rewrite andb_true_iff. tauto. Qed.

Lemma six_digits_plain n : forallb plain (six_digits n) = true.
Proof.
  assert (H : ∀ z, plain (digit (z mod 10)) = true).
  { intros z. apply digit_plain, is_digit_digit, Z.mod_pos_bound. lia. }
  unfold six_digits. simpl. by rewrite !H.
Qed.

Lemma round_div_nonneg n d : 0 ≤ n → 0 < d → 0 ≤ round_div n d.
Proof. intros Hn Hd. unfold round_div. pose proof (Z.div_pos n d Hn Hd). case_match; lia. Qed.

Lemma print_f_no_nul u : no_nul (print_f u) = true.
Proof.
  destruct u as [[]|[]| |s m e]; [by vm_compute..|]. unfold print_f.
  set (micros := if 0 <=? e then _ else _).
  assert (Hm : 0 ≤ micros).
  { unfold micros. destruct (Z.leb_spec 0 e); [|apply round_div_nonneg; [lia|apply Z.pow_pos_nonneg; lia]].
    pose proof (Z.pow_nonneg 2 e). lia. }
  rewrite !no_nul_app. apply andb_true_iff. split; [by destruct s|]. apply andb_true_iff. split.
  - apply plain_no_nul, print_nat_plain, Z.div_pos; lia.
  - apply (plain_no_nul (DOT :: six_digits _)), andb_true_iff. split; [done|apply six_digits_plain].
Qed.

Lemma no_nul_take n s : no_nul s = true → no_nul (take n s) = true.
Proof. rewrite <- (take_drop n s) at 1. rewrite no_nul_app, andb_true_iff. tauto. Qed.

(** ** The process id survives the wire *)
Lemma decode_encode_pid pid : INT_MIN ≤ pid ≤ INT_MAX → signed 32 (le_combine (take 4 (encode_pid pid))) = pid.
Proof.
  intros Hp. rewrite take_ge by (by rewrite length_encode_pid). unfold encode_pid.
  rewrite le_combine_split_id by (apply Z.mod_pos_bound; lia). apply signed_wrap32. unfold INT_MIN, INT_MAX in *. lia.
Qed.

(** ** Properties *)
Section RoundTrip.
(** The client: its context, and the first connection [l] to the server at [a]. *)
Context (k l : loc) (ctx : client_context_t) (conns : list ptr) (addrs : list sockaddr_in).
Context (c : net_connection_t) (d : Z) (ls li lo : loc) (capi capo : Z) (a : sockaddr_in).
(** The worker [w] with its connection [wl] and its journal [j]. *)
Context (w wl : loc) (wc : net_connection_t) (wd : Z) (wls wli wlo : loc) (wcapi wcapo : Z) (j : loc) (jcap : Z).

(** A client whose first connection has an empty incoming queue, as have the others, and to
    which the datagram [payload] was sent. *)
Record client_gets (s : client) (payload : list byte) : Prop := {
  cg_at : client_at s k ctx conns addrs;
  cg_conn : ∃ ys, conn_inv (cl_net s) l c d ls li lo capi capo [] ys;
  cg_idle : Forall (idle_connection (cl_net s) li) (drop 1 conns);
  cg_in : ∃ from more, n_in (cl_net s) !! d = Some (RecvData payload from :: more);
}.

(** C1: a request makes the round trip.  A client in normal mode asks for the process [pid]: it
    returns success, and its sending thread puts one datagram on the wire, to the server.  Any idle
    worker that gets this datagram looks up the CPU usage of exactly that [pid], and answers the
    sender with one datagram: the usage, or "not found".  Whenever the client gets that answer, its
    receiving and printing threads print exactly that text. *)
Theorem round_trip s sv sk log from rest pid :
  client_at s k ctx conns addrs → conns !! 0%nat = Some (Some l) → addrs !! 0%nat = Some a →
  mode ctx = CLIENT_MODE_NORMAL → conn_inv (cl_net s) l c d ls li lo capi capo [] [] →
  INT_MIN ≤ pid ≤ INT_MAX →
  idle_worker w wl wls wli wlo wc wd wcapi wcapo j jcap sv sk log →
  let request := format_datagram (request_header a) (encode_pid pid) in
  n_in (sv_net sv) !! wd = Some (RecvData request from :: rest) →
  ∃ s1 sv' u q text reply,
    ⟦ client_send_pid_message (Some k) pid ;; on_net (send_iteration (Some l)) ⟧ s ⇓ tt, s1 ∧
    n_log (cl_net s1) = n_log (cl_net s) ++ [EvSleep 1; EvSend d a request] ∧
    ⟦ serve_one w wl ⟧ sv ⇓ tt, sv' ∧
    ⟦ get_process_cpu_usage pid ⟧ (sv_proc sv) ⇓ u, q ∧
    text = (if double_ltb u double_zero then SERVER_RESPONSE_CPU_NOT_FOUND else snprintf 256 (print_f u)) ∧
    n_log (sv_net sv') = n_log (sv_net sv) ++ [EvSend wd from reply] ∧
    ∀ s2, client_gets s2 reply →
      ∃ s3, ⟦ on_net (receive_iteration (Some l)) ;; print_pass (Some k) ⟧ s2 ⇓ tt, s3 ∧
        cl_out s3 = cl_out s2 ++ cstring "Received message: "%string ++ text ++ [NL].
Proof using Type.
  intros Hcx Hl Ha Hmode Hci Hpid Hidle request Hin.
  assert (Haok : addr_ok a = true)
    by (eapply (Forall_lookup_1 _ _ _ _ (cx_addrs_ok _ _ _ _ _ Hcx)); exact Ha).
  destruct (client_send_pid_message_normal k l ctx conns addrs c d ls li lo capi capo s a pid [] [] Hcx Hl Ha Hmode Hci)
    as (n1 & x & E1 & Hci1 & Hm1 & _ & Elog1 & _).
  rewrite fifo_enqueue_empty in Hci1 by apply Hci.
  destruct (send_turn l c d ls li lo capi capo n1 [] [x] Hci1) as (n2 & E2 & _ & _ & [_ Elog2] & _).
  destruct (valid_request_spec w wl wls wli wlo wc wd wcapi wcapo j jcap sv sk log (request_header a)
              (encode_pid pid) from rest Hidle Hin) as (sv' & u & q & h' & text & entry & E3 & Hu & Ht & Elog3 & Hh' & _ & Hlen' & _);
    [by apply request_header_ok|done|done|by rewrite length_encode_pid|].
  rewrite decode_encode_pid in Hu, Ht by done.
  exists (set_cl_net n2 (set_cl_net n1 s)), sv', u, q, text, (encode_header h' ++ text ++ [NUL]).
  split_and!; try done.
  - unfold returns. rewrite (bind_ok _ _ _ _ _ E1). by apply on_net_ok.
  - simpl. rewrite (Elog2 _ _ Hm1), Elog1, <- app_assoc. done.
  - by destruct (double_ltb u double_zero); injection Ht as -> _.
  - assert (Hn : no_nul text = true ∧ (length text ≤ 255)%nat).
    { destruct (double_ltb u double_zero); injection Ht as -> _; [split; [done|simpl; lia]|].
      split; [apply no_nul_take, print_f_no_nul|apply length_snprintf]. }
    destruct Hn as [Hn Hn'].
    assert (Hfmt : encode_header h' ++ text ++ [NUL] = format_datagram h' (text ++ [NUL])).
    { unfold format_datagram. rewrite take_ge; [done|]. rewrite Hlen', length_app. simpl. lia. }
    rewrite Hfmt. intros s2 [Hcx2 (ys & Hci2) Hidle2 (from2 & more & Hin2)].
    destruct (reply_printed_aux s2 k ctx conns addrs l c d ls li lo capi capo ys h' text from2 more)
      as (n' & x' & bs & E & _); try done.
    { unfold MAX_PAYLOAD, UDP_SOCKET_BUFFER_SIZE, sizeof_header. lia. }
    eexists. split; [exact E|done].
Qed.
End RoundTrip.

Lemma demo_client_gets payload :
  client_gets 1 8 demo_context demo_conns demo_addrs (conn_of (cl_net demo_client) 8) 3 5 6 7 5 5
    (client_datagram payload demo_client) payload.
Proof.
  split; [apply client_at_net, demo_client_at|exists []; apply client_datagram_inv, demo_conn_inv|apply demo_idle|].
  exists peer, []. apply lookup_singleton_eq.
Qed.

Definition demo_ask : list byte := format_datagram (request_header server_addr0) (encode_pid 77).

Lemma round_trip_witness :
  ∃ s1 sv' reply s3,
    ⟦ client_send_pid_message (Some 1%positive) 77 ;; on_net (send_iteration (Some 8%positive)) ⟧ demo_client ⇓ tt, s1 ∧
    n_log (cl_net s1) = n_log (cl_net demo_client) ++ [EvSleep 1; EvSend 3 server_addr0 demo_ask] ∧
    ⟦ serve_one 20 4 ⟧ demo_server demo_ask ⇓ tt, sv' ∧ n_log (sv_net sv') = [EvSend 3 peer reply] ∧
    ⟦ on_net (receive_iteration (Some 8%positive)) ;; print_pass (Some 1%positive) ⟧
      client_datagram reply demo_client ⇓ tt, s3 ∧
    cl_out s3 = cl_out (client_datagram reply demo_client) ++ cstring "Received message: not found"%string ++ [NL].
Proof.
  destruct (round_trip 1 8 demo_context demo_conns demo_addrs (conn_of (cl_net demo_client) 8) 3 5 6 7 5 5 server_addr0
    20 4 (conn_of idle_net 4) 3 1 2 3 4 4 1 200 demo_client (demo_server demo_ask) (sock_of idle_net 1) [] peer [] 77
    demo_client_at eq_refl ltac:(vm_compute; reflexivity) eq_refl demo_conn_inv ltac:(vm_compute; split; discriminate)
    (demo_server_idle _) ltac:(vm_compute; reflexivity))
    as (s1 & sv' & u & q & text & reply & E1 & Elog1 & E2 & Eu & Etext & Elog2 & Hprint).
  destruct (Hprint (client_datagram reply demo_client) (demo_client_gets reply)) as (s3 & E3 & Eout).
  exists s1, sv', reply, s3. split; [exact E1|]. split; [exact Elog1|]. split; [exact E2|].
  split; [exact Elog2|]. split; [exact E3|]. rewrite Eout.
  assert (Eu' : get_process_cpu_usage 77 (sv_proc (demo_server demo_ask))
                = Ok (double_minus_one, Proc 2 (p_fs (demo_proc (cstring "bash"%string))))) by (vm_compute; reflexivity).
  assert (Hu : u = double_minus_one) by (unfold returns in Eu; congruence).
  rewrite Etext, Hu. reflexivity.
Defined.
